(* ===== verification/_CoqProject ===== *)
-Q . S2P
Prelude.v
OrdMap.v
FsPath.v
Utils.v
Files.v
Monitor.v
Discovery.v
Reconcile.v
Replica.v
LocalChanges.v
Protocol.v
Source.v
Sink.v
SyncLoop.v
LoopInvariant.v
Rhythm.v
Alerts.v
Exchange.v
Arrival.v
Copies.v
PyFloat.v
Daemon.v
Inbox.v
PyBase.v
PyFloatText.v
PyData.v
PyHost.v
PySim.v
Poller.v
SyncfsCluster.v
Mesh.v
ExasolCluster.v
RunMatrix.v
TexTables.v
Measure.v
PeakLog.v
Results.v
