(* ===== verification/Prelude.v ===== *)
(** * syncfs: a verification development

    syncfs keeps a directory the same on a set of nodes.  Each node runs a C++
    daemon (src/src, src/include): it watches its tree, announces what changed
    over ZMQ, moves contents with libtorrent, and reconciles in rounds by
    comparing root hashes and exchanging digests, with tombstones for deletions.
    A set of Python tools (src/tools/measure) measures it against a BucketFS
    cluster: they start the nodes, write payloads, poll for their arrival, record
    one row per cell of a matrix and print the tables of the results.

    ** How the parts interact

    Daemon.  [main] reads the list of peers ([discovery]), checks the listen address
    ([utils]), sets the sockets up and runs the loop of [syncfs.cpp].  In a turn
    [monitor] says whether the tree may have changed; the loop then lists the tree
    ([files]), takes the difference with the listing it had, drops what it received itself
    and what a tombstone defeats, and publishes the rest ([source]).  [sink] receives a
    peer's message and [protocol] acts on it: it adds or removes torrents, unlinks files
    and records deletions; the alerts of libtorrent bring the written file's path back to
    the loop, which gives it its time of origin.  Every few seconds of quiet the loop sends
    its root hash ([reconcile]); a differing one is answered with a digest, whose deletions
    are adopted first and whose gaps are armed as repairs, due one pace apart.

    Tools.  run_matrix.py drives syncfs_cluster.py, exasol_cluster.py and
    poller.py and appends rows to csv files; tex_tables.py and summarise.py read
    them; measure_tail.py, measure_peak.py and measure_digest.py stand alone.

    ** The files

    The code, under the source's names:

    - Prelude: notations ([syncfs_scope]), tactics ([bool_hyps], [break_match]),
      the hint bases [syncfs], 64-bit wrap-around, strings, decimal numbers with
      their round trip.
    - OrdMap: [std::map] as a sorted association list, over the comparator's
      contract [KeyOrder]; two keys may be equivalent and not equal.
    - FsPath: [std::filesystem::path], its order, [operator/], [lexically_normal] and
      [lexically_relative].
    - Utils, Files, Monitor, Discovery, Reconcile, Protocol, Source, Sink: the file of
      the same name under src/src, function by function.
    - LocalChanges, SyncLoop: syncfs.cpp.  [loop_state] is the state the loop owns (the
      [node]: session, disk and tombstones, listing, inbound files, repairs, peers' hashes;
      and the timers); [iteration] is the body of the loop, composed of [statistics],
      [on_alerts], [on_file_event], [on_round], [on_repairs] and [on_message] in the order
      of the code; a turn's clocks, listing, alerts and message are its inputs ([turn]), and
      what it publishes is part of its result.
    - Daemon: [turns], the loop with its own monitor and sink; [sync_loop], the state it
      starts in and the settings of the session; the table it logs; [main].
    - PyFloat, PyBase, PyFloatText, PyData: what the tools take from Python: binary64 floats
      and their text, exceptions and [try/finally], insertion-ordered dictionaries,
      [sorted] and [median], json, and the csv dialect with its reader and writer.
    - PyHost: the operating system as the class [Host], the laws the proofs use as
      [Clock], and the polling loop the scripts share; PySim: a small host on which
      witnesses run.
    - Poller, SyncfsCluster, ExasolCluster, RunMatrix, TexTables: the script of the
      same name; Measure: summarise.py, measure_tail.py, measure_peak.py and
      measure_digest.py.

    What is proved across them:

    - Replica: the abstract specification of reconciliation, a semilattice of what is known
      of a path and a fleet that exchanges it; Exchange: encoded digests and creates as
      steps of that fleet; Arrival: reading a digest and receiving a create as those
      exchanges, down to the session and the disk; Copies: the creates of one path, each
      with the arrival of its file, and the copy they leave.
    - LoopInvariant, Rhythm: what holds of every turn, and of the root hashes of a run;
      Alerts: the flag between libtorrent's threads and the loop, as a step relation;
      Inbox: the messages of a run.
    - Mesh: the nodes of syncfs_cluster.py run through [main]; PeakLog: the daemon's log
      read by measure_peak.py; Results: the rows of run_matrix.py read by summarise.py.

    ** What is a parameter

    libtorrent ([Torrents], [Session] and their laws) and its queue of alerts
    ([AlertQueue]), the disk ([Disk]), the hasher ([Hasher256]), the random generator
    ([Generator]), the making of a torrent ([Announcer]), inotify, poll and the walk of the
    tree ([Kernel], [WatchLaws]), ZMQ's receiving side ([Receiving]) and its refusals
    ([Sockets]), the operating system under the tools ([Host], [Clock]), the processes and
    sockets of the measurement ([Procs], [Zmq]).  Every class with laws has an instance, in
    the Sim modules, at which the witnesses evaluate.

    ** What the theorems show

    - Convergence: after one exchange of digests and repairs in each direction two nodes
      know the same, the later of what they knew, and have the same files and deletions but
      for a copy a node keeps beside a record that defeats it, which stays where it is
      (Exchange [exchange_converges]); a fleet whose root hashes agree knows everything any
      of its members knew, unless SHA-256 collides on what two of them hashed
      ([agreement_is_complete], Reconcile [root_hash_agreement]; [roots_collide] names the
      pairs).  The node does what the exchange says: a digest is a merge of the deletions it
      carries (Arrival [digest_read_refines], Protocol [adopt_settles]) and makes exactly the right repairs
      (Reconcile [gaps_exactly], LoopInvariant [digest_read_deletions_first]); a create is the
      merge of its file ([create_refines]), which lands under the path it was announced at
      ([file_lands_where_announced]); which copy a node ends with does not depend on the
      order or the number of the creates, as long as each file arrives before the next
      create of its path (Copies [copies_converge]).
    - The loop: whatever its turns bring, every map is in order and what is published is well
      formed (Daemon [every_run_is_sound]); on every turn the listing is the tree's or the
      one the alerts left, and then the message is handled ([listing_follows_the_tree]); messages are handled in order, each once (Inbox
      [messages_are_handled_in_order]); the difference of two listings in one pass and what is
      published for it (LocalChanges [create_diff_is_one_pass], [local_changes_spec]); a
      received file is not announced back (SyncLoop [received_file_is_not_an_edit]); no repair
      is lost ([repairs_are_accounted_for]); root hashes are neither too frequent nor missing
      over any run of turns (Rhythm [states_are_paced]).
    - The start: [main] refuses to run with a reason and no socket touched, or sets its
      sockets up in an order in which no announcement is lost (Daemon [main_starts_in_order]).
    - The session: after a create a path has one content (Protocol
      [create_serves_one_content]).
    - The wire: what is sent is understood (Source [sent_messages_are_understood])
      and reaches whom it should ([digest_reaches_its_target]); addresses and the peers file
      are read or refused (Utils, Discovery); times keep to 64 bits or where they do not
      (Reconcile [tombstone_age]).
    - The monitor: a read decodes to the events it was laid out from, and a resync watches
      exactly the tree.
    - The tools: loops end ([watch_ends]), a record says what was seen ([watch_records],
      [summary_spec]), a resumed experiment is the measuring of the cells without a row
      ([resume_measures_what_is_missing]), a cluster is taken down ([experiment_a_cleans_up]),
      tables count every failed run ([nonconvergence_counts_every_failure]).
      The programs agree where they meet: the nodes of the cluster script come up as a mesh
      of daemons (Mesh [mesh_comes_up]), the peaks of a log are those of the tables logged (PeakLog
      [peaks_are_those_of_the_tables]), every row the experiments append is summarised
      (Results [recorded_rows_are_summarised]).
    - Where the code does not do what it says: [alert_in_the_window_is_the_last] (Alerts), an
      alert posted while the loop drains is the last it hears of;
      [messages_are_handled_in_order], what is left of a message too long is handled as one;
      [exchange_converges], a copy its own record defeats is not repaired away; Copies
      [create_on_its_way_stays], a newer create is ignored while an older copy is on its way;
      [digests_need_a_canonical_port], [late_remove_deletes_newer_file], [tombstone_age],
      [parse_long_line].

    ** Bounds and fuel

    [is_int64] and [wrap64] write out the 64-bit arithmetic of times; signed overflow
    on them is named where it can happen.  Fuel: [Discovery.parse_loop] gets two rounds more
    than the file has characters, [Reconcile.for_each_entry] and
    [Monitor.decode_events] one per byte, [Monitor.wait_loop] one per event queued; each has
    a theorem that this is enough.  The polling loops of the tools
    run on the fuel of [PyBase.while], where running out is the outcome [Stuck];
    [watch_ends] and [watch_absent_ends] show that some fuel is enough whenever the
    deadline is finite, the interval not zero and the wall clock set back by a bounded
    amount in all ([Clock], [set_back]), and [make_payload_writes] gives the number of
    rounds.  Reading json takes the length of the text as fuel, and
    printing a float the range of binary64's decimal exponents.

    ** What is not modelled

    In the daemon: the text of log lines, the statistics table apart; the times of
    directories, which no listing has; the descriptor handling
    of [Monitor]'s moves and destructor; the signal handler, whose flag is the end of the list
    of turns.  The walk of a tree is a list of entries taken at one moment, with an error
    ending it where one occurred.  Threads of run_matrix.py run in the order the host gives
    them.  In the tools: the declarations of argparse; [main] takes what it made of the
    command line; what tex_tables.py says on stderr when there are no rows.  Tests, containers and build files hold no logic of the program.

    ** What comes next

    A turn of the loop, with its local changes and its expiring tombstones, as a step of the
    fleet of Replica; a run of several nodes whose sockets carry each other's messages. *)

From stdpp Require Export base list strings sorting.
From Stdlib Require Export ZArith Lia Ascii.
From Stdlib Require Import DecimalString DecimalFacts DecimalZ DecimalN DecimalPos.

#[global] Open Scope Z_scope.
#[global] Arguments Ascii.ascii_dec : simpl never.
#[global] Arguments decide : simpl never.

(** ** Notation and automation shared by every component *)

Declare Scope syncfs_scope.
Delimit Scope syncfs_scope with syncfs.
#[global] Open Scope syncfs_scope.

(** [x ?? d]: the contents of an option, or a default. *)
Notation "x ?? d" := (from_option id d x) (at level 55, no associativity) : syncfs_scope.

Create HintDb syncfs discriminated.
Create Rewrite HintDb syncfs.

(** Splits every boolean connective and comparison in the context. *)
Ltac bool_hyps :=
  repeat match goal with
  | H : (_ && _)%bool = true |- _ => apply andb_true_iff in H as [? ?]
  | H : (_ || _)%bool = false |- _ => apply orb_false_iff in H as [? ?]
  | H : negb _ = true |- _ => apply negb_true_iff in H
  | H : negb _ = false |- _ => apply negb_false_iff in H
  | H : (_ <? _) = true |- _ => apply Z.ltb_lt in H
  | H : (_ <? _) = false |- _ => apply Z.ltb_ge in H
  | H : (_ <=? _) = true |- _ => apply Z.leb_le in H
  | H : (_ <=? _) = false |- _ => apply Z.leb_gt in H
  | H : (_ =? _) = true |- _ => apply Z.eqb_eq in H
  | H : (_ =? _) = false |- _ => apply Z.eqb_neq in H
  end.

(** Case analysis on the scrutinee of the innermost visible [match] or [if]. *)
Ltac break_match :=
  match goal with
  | |- context [match ?x with _ => _ end] =>
      lazymatch x with
      | context [match _ with _ => _ end] => fail
      | _ => destruct x eqn:?
      end
  | H : context [match ?x with _ => _ end] |- _ =>
      lazymatch x with
      | context [match _ with _ => _ end] => fail
      | _ => destruct x eqn:?
      end
  end.

(** ** Machine integers *)

Definition int64_min : Z := - 2 ^ 63.
Definition int64_max : Z := 2 ^ 63 - 1.

Definition is_int64 (z : Z) : Prop := int64_min <= z <= int64_max.

(** Two's complement: the value a 64-bit register holds after an operation. *)
Definition wrap64 (z : Z) : Z := (z + 2 ^ 63) mod 2 ^ 64 - 2 ^ 63.

(** The narrowing [static_cast<unsigned short>]. *)
Definition wrap_u16 (z : Z) : Z := z mod 2 ^ 16.

(** ** Characters and strings *)

Definition NUL : ascii := "000"%char.
Definition SLASH : ascii := "/"%char.
Definition COLON : ascii := ":"%char.
Definition NEWLINE : ascii := "010"%char.
Definition TAB : ascii := "009"%char.

Fixpoint has_char (c : ascii) (s : string) : bool :=
  match s with
  | EmptyString => false
  | String a s' => bool_decide (a = c) || has_char c s'
  end.

(** The text before and after the first [c]. *)
Fixpoint cut (c : ascii) (s : string) : option (string * string) :=
  match s with
  | EmptyString => None
  | String a s' =>
      if decide (a = c) then Some (EmptyString, s')
      else match cut c s' with
           | Some (before, after) => Some (String a before, after)
           | None => None
           end
  end.

(** The text before and after the last [c]. *)
Fixpoint rcut (c : ascii) (s : string) : option (string * string) :=
  match s with
  | EmptyString => None
  | String a s' =>
      match rcut c s' with
      | Some (before, after) => Some (String a before, after)
      | None => if decide (a = c) then Some (EmptyString, s') else None
      end
  end.

(** Every maximal run free of [c], empty ones included. *)
Fixpoint split_on (c : ascii) (s : string) : list string :=
  match s with
  | EmptyString => [EmptyString]
  | String a s' =>
      if decide (a = c) then EmptyString :: split_on c s'
      else match split_on c s' with
           | [] => [String a EmptyString]
           | w :: ws => String a w :: ws
           end
  end.

Fixpoint all_chars (p : ascii -> bool) (s : string) : bool :=
  match s with
  | EmptyString => true
  | String a s' => p a && all_chars p s'
  end.

Fixpoint str_take (n : nat) (s : string) : string :=
  match n, s with
  | S n', String a s' => String a (str_take n' s')
  | _, _ => EmptyString
  end.

Fixpoint str_concat (l : list string) : string :=
  match l with
  | [] => EmptyString
  | s :: l' => s +:+ str_concat l'
  end.

Fixpoint str_join (sep : string) (l : list string) : string :=
  match l with
  | [] => EmptyString
  | [s] => s
  | s :: l' => s +:+ sep +:+ str_join sep l'
  end.

(** ** Decimal integers *)

(** [std::to_string] and Python's [str] on an integer. *)
Definition Z_to_string (z : Z) : string := NilEmpty.string_of_int (Z.to_int z).

Definition digit_val (c : ascii) : option Z :=
  let n := Z.of_nat (nat_of_ascii c) in
  if (48 <=? n) && (n <=? 57) then Some (n - 48) else None.

Definition is_digit (c : ascii) : bool := bool_decide (is_Some (digit_val c)).

(** The value of a run of digits read onto an accumulator; [None] as soon as a
    character is not a digit. *)
Fixpoint parse_digits (acc : Z) (s : string) : option Z :=
  match s with
  | EmptyString => Some acc
  | String c s' =>
      match digit_val c with
      | Some d => parse_digits (10 * acc + d) s'
      | None => None
      end
  end.

Definition parse_nonempty_digits (s : string) : option Z :=
  match s with EmptyString => None | _ => parse_digits 0 s end.

(** [std::from_chars] over the whole of [s] into an integer type of range
    [lo..hi]: an optional minus sign and at least one digit, no white space, no
    plus sign; a value outside the range is an error, and so is anything left
    unread. *)
Definition signed_value (s : string) : option Z :=
  match s with
  | String "-" digits => option_map Z.opp (parse_nonempty_digits digits)
  | _ => parse_nonempty_digits s
  end.

Definition from_chars (lo hi : Z) (s : string) : option Z :=
  match signed_value s with
  | Some v => if (lo <=? v) && (v <=? hi) then Some v else None
  | None => None
  end.

(** ** Lemmas: machine integers *)

Lemma wrap64_range z : is_int64 (wrap64 z).
Proof.
  unfold is_int64, wrap64, int64_min, int64_max.
  pose proof (Z.mod_pos_bound (z + 2 ^ 63) (2 ^ 64)). lia.
Qed.

Lemma wrap64_small z : is_int64 z -> wrap64 z = z.
Proof. unfold is_int64, wrap64, int64_min, int64_max. intros. rewrite Z.mod_small; lia. Qed.

Lemma wrap64_add_sub z d : wrap64 (wrap64 (z - d) + d) = wrap64 z.
Proof.
  unfold wrap64. f_equal.
  replace ((z - d + 2 ^ 63) mod 2 ^ 64 - 2 ^ 63 + d + 2 ^ 63)
    with ((z - d + 2 ^ 63) mod 2 ^ 64 + d) by lia.
  rewrite Zplus_mod_idemp_l. f_equal. lia.
Qed.

Lemma wrap64_sub_add z d : wrap64 (wrap64 (z + d) - d) = wrap64 z.
Proof.
  pose proof (wrap64_add_sub z (- d)) as H.
  replace (z - - d) with (z + d) in H by lia. exact H.
Qed.

#[export] Hint Resolve wrap64_range : syncfs.

(** ** Lemmas: strings *)

Lemma str_app_nil_l s : "" +:+ s = s.
Proof. reflexivity. Qed.

Lemma str_app_cons a s t : String a s +:+ t = String a (s +:+ t).
Proof. reflexivity. Qed.

Lemma str_app_nil_r s : s +:+ "" = s.
Proof. induction s as [|a s IH]; [done|]. by rewrite str_app_cons, IH. Qed.

Lemma str_app_assoc s t u : (s +:+ t) +:+ u = s +:+ (t +:+ u).
Proof. induction s as [|a s IH]; [done|]. by rewrite !str_app_cons, IH. Qed.

Lemma str_length_app s t : String.length (s +:+ t) = (String.length s + String.length t)%nat.
Proof. induction s as [|a s IH]; [done|]. rewrite str_app_cons. simpl. by rewrite IH. Qed.

#[export] Hint Rewrite str_app_nil_l str_app_cons str_app_nil_r str_app_assoc
  str_length_app : syncfs.

Lemma str_app_inj_length s1 s2 t1 t2 :
  String.length s1 = String.length s2 -> s1 +:+ t1 = s2 +:+ t2 -> s1 = s2 /\ t1 = t2.
Proof.
  revert s2. induction s1 as [|a s1 IH]; intros [|b s2] Hl Heq; [done..|].
  rewrite !str_app_cons in Heq. injection Heq as -> Heq. injection Hl as Hl.
  by destruct (IH s2 Hl Heq) as [-> ->].
Qed.

Lemma str_app_inj_head a b c : a +:+ b = a +:+ c -> b = c.
Proof. induction a as [|x a IH]; [done|]. rewrite !str_app_cons. intros [= Ha]. by apply IH. Qed.

Lemma str_app_inj_tail s1 s2 t : s1 +:+ t = s2 +:+ t -> s1 = s2.
Proof.
  intros H. apply (str_app_inj_length s1 s2 t t); [|done].
  apply (f_equal String.length) in H. rewrite !str_length_app in H. lia.
Qed.

Lemma prefix_cons a s b t :
  String.prefix (String a s) (String b t) = bool_decide (a = b) && String.prefix s t.
Proof.
  cbn [String.prefix]. destruct (ascii_dec a b); [by rewrite bool_decide_true|].
  by rewrite bool_decide_false.
Qed.

Lemma has_char_app c s t : has_char c (s +:+ t) = has_char c s || has_char c t.
Proof.
  induction s as [|a s IH]; [done|]. rewrite str_app_cons. simpl. by rewrite IH, orb_assoc.
Qed.

Lemma has_char_cons_false c a s :
  has_char c (String a s) = false <-> a <> c /\ has_char c s = false.
Proof. simpl. rewrite orb_false_iff, bool_decide_eq_false. done. Qed.

Lemma cut_app c s t : has_char c s = false -> cut c (s +:+ String c t) = Some (s, t).
Proof.
  induction s as [|a s IH]; intros Hs; [simpl; by rewrite decide_True|].
  apply has_char_cons_false in Hs as [Ha Hs]. rewrite str_app_cons. simpl.
  rewrite decide_False by done. by rewrite IH.
Qed.

Lemma cut_None c s : cut c s = None <-> has_char c s = false.
Proof.
  induction s as [|a s IH]; [done|]. simpl. case_decide.
  - rewrite bool_decide_true by done. by split.
  - rewrite bool_decide_false by done. simpl. rewrite <- IH.
    by destruct (cut c s) as [[]|].
Qed.

Lemma cut_Some c s before after :
  cut c s = Some (before, after) -> s = before +:+ String c after /\ has_char c before = false.
Proof.
  revert before. induction s as [|a s IH]; intros before; simpl; [done|]. case_decide.
  - intros [= <- <-]. by subst.
  - destruct (cut c s) as [[b' a']|] eqn:E; [|done]. intros [= <- <-].
    destruct (IH b' eq_refl) as [-> Hb]. split; [done|].
    simpl. by rewrite bool_decide_false.
Qed.

Lemma rcut_None c s : has_char c s = false -> rcut c s = None.
Proof.
  induction s as [|a s IH]; [done|]. intros [Ha Hs]%has_char_cons_false. simpl.
  rewrite IH by done. by rewrite decide_False.
Qed.

Lemma rcut_app c s t : has_char c t = false -> rcut c (s +:+ String c t) = Some (s, t).
Proof.
  intros Ht. induction s as [|a s IH].
  - simpl. rewrite rcut_None by done. by rewrite decide_True.
  - rewrite str_app_cons. simpl. by rewrite IH.
Qed.

Lemma rcut_Some c s before after :
  rcut c s = Some (before, after) -> s = before +:+ String c after /\ has_char c after = false.
Proof.
  revert before. induction s as [|a s IH]; intros before; simpl; [done|].
  destruct (rcut c s) as [[b' a']|] eqn:E.
  - intros [= <- <-]. by destruct (IH b' eq_refl) as [-> ?].
  - case_decide; [|done]. intros [= <- <-]. subst. split; [done|].
    clear IH. induction s as [|b s IH]; [done|]. simpl in E.
    destruct (rcut c s) as [[]|]; [done|]. case_decide; [done|].
    apply has_char_cons_false. auto.
Qed.

Lemma split_on_free c s : has_char c s = false -> split_on c s = [s].
Proof.
  induction s as [|a s IH]; [done|]. intros [Ha Hs]%has_char_cons_false. simpl.
  rewrite decide_False by done. by rewrite IH.
Qed.

Lemma split_on_app c s t :
  has_char c s = false -> split_on c (s +:+ String c t) = s :: split_on c t.
Proof.
  induction s as [|a s IH]; [intros _; simpl; by rewrite decide_True|].
  intros [Ha Hs]%has_char_cons_false. rewrite str_app_cons. simpl.
  rewrite decide_False by done. by rewrite IH.
Qed.

Lemma all_chars_app p s t : all_chars p (s +:+ t) = all_chars p s && all_chars p t.
Proof.
  induction s as [|a s IH]; [done|]. rewrite str_app_cons. simpl. by rewrite IH, andb_assoc.
Qed.

Lemma all_chars_has_char p c s : all_chars p s = true -> p c = false -> has_char c s = false.
Proof.
  intros Hs Hc. induction s as [|a s IH]; [done|]. simpl in *. bool_hyps.
  rewrite IH by done. rewrite bool_decide_false; [done|]. intros ->. congruence.
Qed.

Lemma str_take_length_app s t : str_take (String.length s) (s +:+ t) = s.
Proof.
  induction s as [|a s IH]; [by destruct t|]. rewrite str_app_cons. simpl. by rewrite IH.
Qed.

Lemma str_take_0 s : str_take 0 s = "".
Proof. done. Qed.

Lemma str_take_app n s t :
  str_take n (s +:+ t) = str_take n s +:+ str_take (n - String.length s) t.
Proof.
  revert n. induction s as [|a s IH]; intros n; [by rewrite Nat.sub_0_r; destruct n|].
  rewrite str_app_cons. destruct n as [|n]; [done|]. simpl. by rewrite IH, str_app_cons.
Qed.

Lemma str_take_ge n s : (String.length s <= n)%nat -> str_take n s = s.
Proof.
  revert n. induction s as [|a s IH]; intros [|n] Hn; simpl in *; [done..|lia|].
  rewrite IH; [done|lia].
Qed.

Lemma has_char_str_take c n s : has_char c s = false -> has_char c (str_take n s) = false.
Proof.
  revert n. induction s as [|a s IH]; intros [|n] Hs; try done.
  apply has_char_cons_false in Hs as [Ha Hs]. simpl str_take.
  apply has_char_cons_false. eauto.
Qed.

(** ** Lemmas: reversal *)

Lemma filter_filter_and {A} (p q : A -> bool) l :
  List.filter p (List.filter q l) = List.filter (fun x => q x && p x) l.
Proof.
  induction l as [|x l IH]; [done|]. simpl. destruct (q x); simpl; [|done]. destruct (p x); by rewrite IH.
Qed.

Lemma rev_app_acc s t : String.rev_app s t = String.rev s +:+ t.
Proof.
  unfold String.rev. revert t. induction s as [|a s IH]; intros t; [done|]. simpl.
  rewrite IH, (IH (String a "")). by rewrite str_app_assoc.
Qed.

Lemma str_rev_cons a s : String.rev (String a s) = String.rev s +:+ String a "".
Proof. unfold String.rev at 1. simpl. apply rev_app_acc. Qed.

Lemma str_rev_app s t : String.rev (s +:+ t) = String.rev t +:+ String.rev s.
Proof.
  induction s as [|a s IH]; [by rewrite str_app_nil_r|].
  rewrite str_app_cons, !str_rev_cons, IH. by rewrite str_app_assoc.
Qed.

Lemma str_rev_involutive s : String.rev (String.rev s) = s.
Proof. induction s as [|a s IH]; [done|]. by rewrite str_rev_cons, str_rev_app, IH. Qed.

Lemma prefix_app s t : String.prefix s (s +:+ t) = true.
Proof.
  induction s as [|a s IH]; [by destruct t|]. rewrite str_app_cons, prefix_cons, IH.
  by rewrite bool_decide_true.
Qed.

(** ** Lemmas: decimal integers *)

Lemma parse_digits_uint d acc :
  parse_digits (Zpos acc) (NilEmpty.string_of_uint d) = Some (Zpos (Pos.of_uint_acc d acc)).
Proof.
  revert acc. induction d; intros acc; [reflexivity|..];
    cbn [NilEmpty.string_of_uint parse_digits Pos.of_uint_acc];
    rewrite <- IHd;
    match goal with |- context [digit_val ?c] =>
      let v := eval vm_compute in (digit_val c) in change (digit_val c) with v end;
    cbv iota beta; f_equal; lia.
Qed.

Lemma parse_digits_of_uint d :
  parse_digits 0 (NilEmpty.string_of_uint d) = Some (Z.of_N (Pos.of_uint d)).
Proof.
  induction d; [reflexivity|exact IHd|..];
    cbn [NilEmpty.string_of_uint parse_digits Pos.of_uint];
    apply parse_digits_uint.
Qed.

Lemma string_of_uint_digits d : all_chars is_digit (NilEmpty.string_of_uint d) = true.
Proof. induction d; [reflexivity|..]; cbn; by rewrite IHd. Qed.

Lemma string_of_uint_nonempty p : NilEmpty.string_of_uint (Pos.to_uint p) <> "".
Proof.
  intros H. destruct (Pos.to_uint p) eqn:E; try discriminate.
  pose proof (DecimalPos.Unsigned.of_to p) as Hp. rewrite E in Hp. discriminate.
Qed.

Lemma parse_nonempty_to_uint p :
  parse_nonempty_digits (NilEmpty.string_of_uint (Pos.to_uint p)) = Some (Zpos p).
Proof.
  pose proof (string_of_uint_nonempty p) as Hne.
  pose proof (parse_digits_of_uint (Pos.to_uint p)) as Hp.
  rewrite DecimalPos.Unsigned.of_to in Hp.
  destruct (NilEmpty.string_of_uint (Pos.to_uint p)); [done|exact Hp].
Qed.

Lemma string_of_uint_head p :
  exists c s, NilEmpty.string_of_uint (Pos.to_uint p) = String c s /\ is_digit c = true.
Proof.
  pose proof (string_of_uint_nonempty p) as Hne.
  pose proof (string_of_uint_digits (Pos.to_uint p)) as Hd.
  destruct (NilEmpty.string_of_uint (Pos.to_uint p)) as [|c s]; [done|].
  simpl in Hd. bool_hyps. eauto.
Qed.

Lemma signed_value_to_string z : signed_value (Z_to_string z) = Some z.
Proof.
  unfold Z_to_string. destruct z as [|p|p]; cbn [Z.to_int NilEmpty.string_of_int]; [done|..].
  - unfold signed_value. rewrite parse_nonempty_to_uint.
    destruct (string_of_uint_head p) as (c & s & Heq & Hc). rewrite Heq.
    assert (c <> "-"%char) by (intros ->; discriminate Hc).
    by destruct c as [[] [] [] [] [] [] [] []].
  - simpl. by rewrite parse_nonempty_to_uint.
Qed.

(** What [std::to_string] prints, [std::from_chars] reads back. *)
Lemma from_chars_to_string lo hi z : lo <= z <= hi -> from_chars lo hi (Z_to_string z) = Some z.
Proof.
  intros Hz. unfold from_chars. rewrite signed_value_to_string.
  by replace ((lo <=? z) && (z <=? hi)) with true by lia.
Qed.

Definition is_decimal_char (c : ascii) : bool := is_digit c || bool_decide (c = "-"%char).

Lemma is_decimal_of_digits s : all_chars is_digit s = true -> all_chars is_decimal_char s = true.
Proof.
  induction s as [|a s IH]; [done|]. simpl. intros H. bool_hyps. rewrite IH by done.
  unfold is_decimal_char. by rewrite H.
Qed.

Lemma Z_to_string_chars z : all_chars is_decimal_char (Z_to_string z) = true.
Proof.
  unfold Z_to_string. destruct z as [|p|p]; cbn [Z.to_int NilEmpty.string_of_int]; [done|..].
  - apply is_decimal_of_digits, string_of_uint_digits.
  - simpl. apply is_decimal_of_digits, string_of_uint_digits.
Qed.

Lemma Z_to_string_no_char c z : is_decimal_char c = false -> has_char c (Z_to_string z) = false.
Proof. apply all_chars_has_char, Z_to_string_chars. Qed.

Lemma digit_val_range c d : digit_val c = Some d -> 0 <= d <= 9.
Proof. unfold digit_val. destruct (_ && _) eqn:E; [|done]. bool_hyps. intros [= <-]. lia. Qed.

Lemma parse_digits_lower acc s v :
  0 <= acc -> parse_digits acc s = Some v -> acc * 10 ^ Z.of_nat (String.length s) <= v.
Proof.
  revert acc. induction s as [|c s IH]; intros acc Ha; cbn [parse_digits String.length].
  - intros [= <-]. lia.
  - destruct (digit_val c) as [d|] eqn:E; [|done]. intros H.
    pose proof (digit_val_range c d E). apply IH in H; [|lia].
    rewrite Nat2Z.inj_succ, Z.pow_succ_r by lia.
    pose proof (Z.pow_pos_nonneg 10 (Z.of_nat (String.length s))). nia.
Qed.

(** A number is printed without a leading zero. *)
Lemma to_uint_no_leading_zero p u : Pos.to_uint p <> Decimal.D0 u.
Proof.
  intros Hd. pose proof (DecimalPos.Unsigned.of_to p) as Hp. rewrite Hd in Hp.
  pose proof (DecimalPos.Unsigned.to_of (Decimal.D0 u)) as Hn. rewrite Hp in Hn. simpl in Hn.
  rewrite Hd in Hn. unfold Decimal.unorm in Hn. simpl in Hn.
  pose proof (DecimalFacts.nb_digits_nzhead u) as Hl.
  destruct (Decimal.nzhead u) as [|u'|?|?|?|?|?|?|?|?|?] eqn:E; try discriminate.
  - injection Hn as ->. discriminate Hp.
  - injection Hn as ->. simpl in Hl. lia.
Qed.

Lemma Z_to_string_length z k : 0 <= z < 10 ^ Z.of_nat k -> (1 <= k)%nat ->
  (1 <= String.length (Z_to_string z) <= k)%nat.
Proof.
  intros Hz Hk. destruct z as [|p|p]; [simpl; lia| |lia].
  unfold Z_to_string. cbn [Z.to_int NilEmpty.string_of_int].
  pose proof (string_of_uint_nonempty p) as Hne.
  pose proof (parse_digits_of_uint (Pos.to_uint p)) as Hp.
  rewrite DecimalPos.Unsigned.of_to in Hp. pose proof (to_uint_no_leading_zero p) as H0.
  destruct (NilEmpty.string_of_uint (Pos.to_uint p)) as [|c s] eqn:Es; [done|].
  split; [simpl; lia|]. simpl in Hp.
  destruct (digit_val c) as [d|] eqn:Ed; [|done].
  assert (1 <= d) as Hd.
  { pose proof (digit_val_range c d Ed). assert (d <> 0); [|lia]. intros ->.
    destruct (Pos.to_uint p) as [|u|?|?|?|?|?|?|?|?|?]; simpl in Es; try (by injection Es as <- _).
    - discriminate Es.
    - by apply (H0 u). }
  apply parse_digits_lower in Hp; [|lia].
  assert (10 ^ Z.of_nat (String.length s) < 10 ^ Z.of_nat k) as Hlt.
  { pose proof (Z.pow_pos_nonneg 10 (Z.of_nat (String.length s))). simpl Z.of_N in Hp. nia. }
  apply Z.pow_lt_mono_r_iff in Hlt; [|lia|lia]. simpl. lia.
Qed.

#[export] Instance Z_to_string_inj : Inj (=) (=) Z_to_string.
Proof.
  intros x y Hxy. apply (f_equal signed_value) in Hxy.
  rewrite !signed_value_to_string in Hxy. congruence.
Qed.
