(* ===== verification/OrdMap.v ===== *)
(** * [std::map] as a sorted association list

    The daemon keeps every table it has in a [std::map]: the listing, the
    tombstones, the repairs, the peers.  Iteration order is part of what the
    program computes (the wire form of a digest is "sorted by path"), and the
    order of [std::filesystem::path] identifies distinct spellings ("a//b" and
    "a/b"), so the map is modelled with its order and with a key equivalence
    coarser than equality.  [KeyOrder] is the comparator's contract. *)

From S2P Require Import Prelude.

(** A comparator given by a total order on the image of a projection. *)
Class TotalCompare (C : Type) (cmp : C -> C -> comparison) : Prop := {
  tc_eq : forall x y, cmp x y = Eq <-> x = y;
  tc_sym : forall x y, cmp y x = CompOpp (cmp x y);
  tc_trans : forall x y z, cmp x y = Lt -> cmp y z = Lt -> cmp x z = Lt;
}.

Class KeyOrder (K : Type) := {
  key_image : Type;
  key_of : K -> key_image;
  key_cmp : key_image -> key_image -> comparison;
  key_total :: TotalCompare key_image key_cmp;
}.

(** Lexicographic order on sequences, the shorter prefix first. *)
Fixpoint lex_compare {C} (cmp : C -> C -> comparison) (x y : list C) : comparison :=
  match x, y with
  | [], [] => Eq
  | [], _ => Lt
  | _, [] => Gt
  | a :: x', b :: y' => match cmp a b with Eq => lex_compare cmp x' y' | c => c end
  end.

Definition pair_compare {C D} (cc : C -> C -> comparison) (cd : D -> D -> comparison)
    (x y : C * D) : comparison :=
  match cc x.1 y.1 with Eq => cd x.2 y.2 | c => c end.

Definition bool_compare (x y : bool) : comparison :=
  match x, y with
  | false, true => Lt
  | true, false => Gt
  | _, _ => Eq
  end.

Module OrdMap.

Section ops.
Context {K V : Type} `{KeyOrder K}.

Definition kcmp (x y : K) : comparison := key_cmp (key_of x) (key_of y).

(** The equivalence the comparator induces: neither key is before the other. *)
Definition keq (x y : K) : bool := match kcmp x y with Eq => true | _ => false end.

Definition klt (x y : K) : bool := match kcmp x y with Lt => true | _ => false end.

(** [find]: the stored entry whose key is equivalent to [k]. *)
Fixpoint find_entry (m : list (K * V)) (k : K) : option (K * V) :=
  match m with
  | [] => None
  | e :: m' => if keq e.1 k then Some e else find_entry m' k
  end.

Definition find (m : list (K * V)) (k : K) : option V := snd <$> find_entry m k.

Definition contains (m : list (K * V)) (k : K) : bool :=
  match find_entry m k with Some _ => true | None => false end.

(** [insert_or_assign]: an equivalent key already stored keeps its spelling. *)
Fixpoint insert_or_assign (m : list (K * V)) (k : K) (v : V) : list (K * V) :=
  match m with
  | [] => [(k, v)]
  | e :: m' =>
      match kcmp k e.1 with
      | Lt => (k, v) :: m
      | Eq => (e.1, v) :: m'
      | Gt => e :: insert_or_assign m' k v
      end
  end.

(** [emplace] and [try_emplace]: nothing happens to a key already there. *)
Definition try_emplace (m : list (K * V)) (k : K) (v : V) : list (K * V) :=
  if contains m k then m else insert_or_assign m k v.

Definition erase (m : list (K * V)) (k : K) : list (K * V) :=
  List.filter (fun e => negb (keq e.1 k)) m.

(** [std::erase_if]. *)
Definition erase_if (p : K * V -> bool) (m : list (K * V)) : list (K * V) :=
  List.filter (fun e => negb (p e)) m.

(** The invariant of a [std::map]: strictly increasing keys. *)
Definition sorted (m : list (K * V)) : Prop :=
  StronglySorted (fun x y => klt x.1 y.1 = true) m.

Fixpoint sortedb (m : list (K * V)) : bool :=
  match m with
  | x :: ((y :: _) as m') => klt x.1 y.1 && sortedb m'
  | _ => true
  end.

(** A map built by inserting the entries of a list one after another. *)
Definition of_list (l : list (K * V)) : list (K * V) :=
  foldl (fun m e => insert_or_assign m e.1 e.2) [] l.

End ops.

Arguments sorted {K V _} m : simpl never.

Section laws.
Context {K V : Type} `{KeyOrder K}.
Implicit Types (k : K) (v : V) (e : K * V) (m : list (K * V)).

Lemma keq_iff k1 k2 : keq k1 k2 = true <-> key_of k1 = key_of k2.
Proof. unfold keq, kcmp. rewrite <- tc_eq. by destruct (key_cmp _ _). Qed.

Lemma keq_false k1 k2 : keq k1 k2 = false <-> key_of k1 <> key_of k2.
Proof. rewrite <- keq_iff. by destruct (keq k1 k2). Qed.

Lemma kcmp_Eq k1 k2 : kcmp k1 k2 = Eq <-> key_of k1 = key_of k2.
Proof. unfold kcmp. apply tc_eq. Qed.

Lemma klt_iff k1 k2 : klt k1 k2 = true <-> kcmp k1 k2 = Lt.
Proof. unfold klt. by destruct (kcmp k1 k2). Qed.

Lemma kcmp_Gt k1 k2 : kcmp k1 k2 = Gt <-> klt k2 k1 = true.
Proof.
  rewrite klt_iff. unfold kcmp. rewrite (tc_sym (key_of k1)). by destruct (key_cmp _ _).
Qed.

Lemma klt_ne k1 k2 : klt k1 k2 = true -> key_of k1 <> key_of k2.
Proof. rewrite klt_iff, <- kcmp_Eq. congruence. Qed.

Lemma klt_trans k1 k2 k3 : klt k1 k2 = true -> klt k2 k3 = true -> klt k1 k3 = true.
Proof. rewrite !klt_iff. unfold kcmp. apply tc_trans. Qed.

Lemma klt_key k1 k2 k3 : key_of k1 = key_of k2 -> klt k1 k3 = klt k2 k3.
Proof. intros Hk. unfold klt, kcmp. by rewrite Hk. Qed.

Lemma klt_key_r k1 k2 k3 : key_of k1 = key_of k2 -> klt k3 k1 = klt k3 k2.
Proof. intros Hk. unfold klt, kcmp. by rewrite Hk. Qed.

Lemma sorted_nil : sorted (V:=V) [].
Proof. constructor. Qed.

Lemma sorted_cons e m :
  sorted (e :: m) <-> sorted m /\ Forall (fun x => klt e.1 x.1 = true) m.
Proof. unfold sorted. split; [by inversion 1|]. intros []. by constructor. Qed.

Lemma sortedb_sorted m : sortedb m = true <-> sorted m.
Proof.
  induction m as [|e m IH]; [by split; [constructor|]|].
  rewrite sorted_cons, <- IH. simpl. destruct m as [|e' m]; [by split|].
  rewrite andb_true_iff. split; [|intros [? [? _]%Forall_cons]; done].
  intros [Hlt Hs]. split; [done|]. constructor; [done|].
  apply IH, sorted_cons in Hs as [_ Hs].
  eapply Forall_impl; [exact Hs|]. intros x Hx. by eapply klt_trans.
Qed.

(** Entries are compared with a key through their key image only. *)
Lemma find_entry_key m k1 k2 : key_of k1 = key_of k2 -> find_entry m k1 = find_entry m k2.
Proof.
  intros Hk. induction m as [|e m IH]; [done|]. simpl.
  unfold keq, kcmp. by rewrite Hk, IH.
Qed.

Lemma find_cons (m : list (K * V)) e k : find (e :: m) k = if keq e.1 k then Some e.2 else find m k.
Proof. unfold find. simpl. by destruct (keq e.1 k). Qed.

Lemma find_key m k1 k2 : key_of k1 = key_of k2 -> find m k1 = find m k2.
Proof. intros Hk. unfold find. by rewrite (find_entry_key m k1 k2). Qed.

Lemma find_entry_Some m k e : find_entry m k = Some e -> e ∈ m /\ key_of e.1 = key_of k.
Proof.
  induction m as [|e' m IH]; [done|]. simpl. destruct (keq e'.1 k) eqn:E.
  - intros [= ->]. apply keq_iff in E. split; [by left|done].
  - intros [? ?]%IH. split; [by right|done].
Qed.

Lemma find_entry_None_above m k :
  Forall (fun x => klt k x.1 = true) m -> find_entry m k = None.
Proof.
  induction 1 as [|e m He Hm IH]; [done|]. simpl.
  replace (keq e.1 k) with false; [done|]. symmetry. apply keq_false.
  intros Hk. by eapply klt_ne; [exact He|].
Qed.

Lemma find_entry_elem m e : sorted m -> e ∈ m -> find_entry m e.1 = Some e.
Proof.
  induction m as [|e' m IH]; [by inversion 2|].
  intros [Hs Hlt]%sorted_cons Hin. simpl. apply elem_of_cons in Hin as [->|Hin].
  - by replace (keq e'.1 e'.1) with true by (symmetry; by apply keq_iff).
  - replace (keq e'.1 e.1) with false; [by apply IH|]. symmetry. apply keq_false.
    rewrite Forall_forall in Hlt. by apply klt_ne, Hlt.
Qed.

Lemma find_elem m k v : sorted m -> (k, v) ∈ m -> find m k = Some v.
Proof. intros Hs Hin%find_entry_elem; [|done]. unfold find. simpl in Hin. by rewrite Hin. Qed.

Lemma find_Some m k v : find m k = Some v -> exists k', (k', v) ∈ m /\ key_of k' = key_of k.
Proof.
  unfold find. intros ([k' v'] & [Hin Hk]%find_entry_Some & ->)%fmap_Some_1. eauto.
Qed.

Lemma keq_sym k1 k2 : keq k1 k2 = keq k2 k1.
Proof. apply eq_true_iff_eq. rewrite !keq_iff. done. Qed.

Lemma find_entry_insert m k v k' : sorted m ->
  find_entry (insert_or_assign m k v) k' =
  if keq k k' then Some (from_option fst k (find_entry m k), v) else find_entry m k'.
Proof.
  induction m as [|e m IH]; intros Hs; [done|].
  apply sorted_cons in Hs as [Hs Hlt]. simpl.
  destruct (kcmp k e.1) eqn:E.
  - apply kcmp_Eq in E. simpl.
    replace (keq e.1 k) with true by (symmetry; by apply keq_iff). simpl.
    replace (keq k k') with (keq e.1 k'); [by destruct (keq e.1 k')|].
    unfold keq, kcmp. by rewrite E.
  - assert (klt k e.1 = true) as E' by (by apply klt_iff).
    replace (keq e.1 k) with false by (symmetry; apply keq_false; intros Hk;
      by eapply klt_ne in E').
    rewrite (find_entry_None_above m k); [done|].
    eapply Forall_impl; [exact Hlt|]. intros x Hx. by eapply klt_trans.
  - apply kcmp_Gt in E. simpl. rewrite IH by done.
    replace (keq e.1 k) with false by (symmetry; apply keq_false; by apply klt_ne).
    destruct (keq e.1 k') eqn:E1; [|done].
    replace (keq k k') with false; [done|]. symmetry. apply keq_false.
    apply keq_iff in E1. rewrite <- E1. intros Hk. by eapply klt_ne.
Qed.

Lemma find_insert m k v k' : sorted m ->
  find (insert_or_assign m k v) k' = if keq k k' then Some v else find m k'.
Proof. intros Hs. unfold find. rewrite find_entry_insert by done. by destruct (keq k k'). Qed.

Lemma Forall_insert (P : K * V -> Prop) m k v :
  Forall P m -> (forall k', key_of k' = key_of k -> P (k', v)) ->
  Forall P (insert_or_assign m k v).
Proof.
  intros Hm Hk. induction Hm as [|e m He Hm IH]; simpl.
  - constructor; [by apply Hk|done].
  - destruct (kcmp k e.1) eqn:E; constructor; auto.
    apply Hk. symmetry. by apply kcmp_Eq.
Qed.

Lemma sorted_insert m k v : sorted m -> sorted (insert_or_assign m k v).
Proof.
  induction m as [|e m IH]; intros Hs; [repeat constructor|].
  apply sorted_cons in Hs as [Hs Hlt]. simpl.
  destruct (kcmp k e.1) eqn:E; apply sorted_cons; simpl.
  - done.
  - split; [by apply sorted_cons|]. apply klt_iff in E. constructor; [done|].
    eapply Forall_impl; [exact Hlt|]. intros x Hx. by eapply klt_trans.
  - apply kcmp_Gt in E. split; [by apply IH|]. apply Forall_insert; [done|].
    intros k' Hk'. simpl. by rewrite (klt_key_r k' k).
Qed.

Lemma contains_find m k : contains m k = true <-> is_Some (find m k).
Proof.
  unfold contains, find. destruct (find_entry m k); simpl; split; try done; by intros [? ?].
Qed.

Lemma contains_false m k : contains m k = false <-> find m k = None.
Proof. unfold contains, find. by destruct (find_entry m k). Qed.

Lemma sorted_try_emplace m k v : sorted m -> sorted (try_emplace m k v).
Proof. unfold try_emplace. destruct (contains m k); [done|apply sorted_insert]. Qed.

Lemma find_try_emplace m k v k' : sorted m ->
  find (try_emplace m k v) k' = if keq k k' then Some (find m k ?? v) else find m k'.
Proof.
  intros Hs. unfold try_emplace. destruct (contains m k) eqn:E.
  - apply contains_find in E as [v' Hv']. rewrite Hv'. simpl.
    destruct (keq k k') eqn:Ek; [|done]. apply keq_iff in Ek. by rewrite (find_key m k' k).
  - apply contains_false in E. rewrite find_insert by done. by rewrite E.
Qed.

Lemma Forall_filter_keep (P : K * V -> Prop) (p : K * V -> bool) m :
  Forall P m -> Forall P (List.filter p m).
Proof. induction 1; simpl; [done|]. destruct (p x); [by constructor|done]. Qed.

Lemma sorted_filter (p : K * V -> bool) m : sorted m -> sorted (List.filter p m).
Proof.
  induction m as [|e m IH]; [done|]. intros [Hs Hlt]%sorted_cons. simpl.
  destruct (p e); [|by apply IH]. apply sorted_cons. split; [by apply IH|].
  by apply Forall_filter_keep.
Qed.

Lemma find_entry_filter (p : K * V -> bool) m k : sorted m ->
  find_entry (List.filter p m) k =
  match find_entry m k with Some e => if p e then Some e else None | None => None end.
Proof.
  induction m as [|e m IH]; intros Hs; [done|].
  apply sorted_cons in Hs as [Hs Hlt]. simpl.
  destruct (keq e.1 k) eqn:Ek; destruct (p e) eqn:Ep; simpl; rewrite ?Ek; auto.
  apply keq_iff in Ek. rewrite IH by done.
  rewrite (find_entry_None_above m k); [done|].
  eapply Forall_impl; [exact Hlt|]. intros x Hx. simpl in Hx. by rewrite <- (klt_key e.1 k).
Qed.

(** A test that does not read the spelling of a key. *)
Definition spelling_blind (p : K * V -> bool) : Prop :=
  forall k1 k2 v, key_of k1 = key_of k2 -> p (k1, v) = p (k2, v).

Lemma find_filter (p : K * V -> bool) m k : sorted m -> spelling_blind p ->
  find (List.filter p m) k =
  match find m k with Some v => if p (k, v) then Some v else None | None => None end.
Proof.
  intros Hs Hp. unfold find. rewrite find_entry_filter by done.
  destruct (find_entry m k) as [[k' v]|] eqn:E; [|done].
  apply find_entry_Some in E as [_ Hk]. cbn [fmap option_fmap option_map snd].
  rewrite (Hp k' k v Hk). by destruct (p (k, v)).
Qed.

Lemma sorted_erase m k : sorted m -> sorted (erase m k).
Proof. apply sorted_filter. Qed.

Lemma sorted_erase_if (p : K * V -> bool) m : sorted m -> sorted (erase_if p m).
Proof. apply sorted_filter. Qed.

Lemma find_entry_erase_if (p : K * V -> bool) m k : sorted m ->
  find_entry (erase_if p m) k =
  match find_entry m k with Some e => if p e then None else Some e | None => None end.
Proof.
  intros Hs. unfold erase_if. rewrite find_entry_filter by done.
  destruct (find_entry m k) as [e|]; [|done]. by destruct (p e).
Qed.

Lemma find_erase m k k' : sorted m ->
  find (erase m k) k' = if keq k k' then None else find m k'.
Proof.
  intros Hs. unfold erase, find. rewrite find_entry_filter by done.
  destruct (find_entry m k') as [e|] eqn:E; [|by destruct (keq k k')].
  apply find_entry_Some in E as [_ Hk].
  replace (keq e.1 k) with (keq k k'); [by destruct (keq k k')|].
  apply eq_true_iff_eq. rewrite !keq_iff. rewrite Hk. done.
Qed.

(** Two maps that answer every lookup alike, spelling included, are equal. *)
Lemma find_entry_ext m1 m2 : sorted m1 -> sorted m2 ->
  (forall k, find_entry m1 k = find_entry m2 k) -> m1 = m2.
Proof.
  revert m2. induction m1 as [|e1 m1 IH]; intros [|e2 m2] H1 H2 Hf; [done|..].
  - specialize (Hf e2.1). simpl in Hf. by rewrite (proj2 (keq_iff _ _) eq_refl) in Hf.
  - specialize (Hf e1.1). simpl in Hf. by rewrite (proj2 (keq_iff _ _) eq_refl) in Hf.
  - apply sorted_cons in H1 as [Hs1 Hlt1]. apply sorted_cons in H2 as [Hs2 Hlt2].
    assert (key_of e1.1 = key_of e2.1) as Hk.
    { pose proof (Hf e1.1) as F1. pose proof (Hf e2.1) as F2. simpl in F1, F2.
      rewrite (proj2 (keq_iff _ _) eq_refl) in F1.
      rewrite (proj2 (keq_iff e2.1 e2.1) eq_refl) in F2.
      destruct (keq e2.1 e1.1) eqn:E; [by apply keq_iff in E|]. rewrite keq_sym, E in F2.
      symmetry in F1. apply find_entry_Some in F1 as [F1 _], F2 as [F2 _].
      rewrite Forall_forall in Hlt1, Hlt2. apply Hlt1 in F2. apply Hlt2 in F1.
      pose proof (klt_trans _ _ _ F1 F2) as F. by apply klt_ne in F. }
    assert (e1 = e2) as ->.
    { pose proof (Hf e1.1) as F1. simpl in F1. rewrite (proj2 (keq_iff _ _) eq_refl) in F1.
      rewrite (proj2 (keq_iff e2.1 e1.1) (eq_sym Hk)) in F1. congruence. }
    f_equal. apply IH; [done..|]. intros k. specialize (Hf k). simpl in Hf.
    destruct (keq e2.1 k) eqn:E; [|done]. apply keq_iff in E.
    rewrite !(find_entry_key _ k e2.1) by done.
    rewrite !find_entry_None_above; done.
Qed.

Lemma insert_snoc m k v : sorted (m ++ [(k, v)]) -> insert_or_assign m k v = m ++ [(k, v)].
Proof.
  induction m as [|e m IH]; intros Hs; [done|]. simpl in *.
  apply sorted_cons in Hs as [Hs [Hlt [Hk _]%Forall_cons]%Forall_app].
  replace (kcmp k e.1) with Gt by (symmetry; by apply kcmp_Gt). by rewrite IH.
Qed.

Lemma sorted_app_l (m1 m2 : list (K * V)) : sorted (m1 ++ m2) -> sorted m1.
Proof.
  induction m1 as [|e m1 IH]; [constructor|]. simpl. intros [Hs Hlt]%sorted_cons.
  apply sorted_cons. split; [by apply IH|]. by apply Forall_app in Hlt as [? _].
Qed.

(** Inserting in order rebuilds the map. *)
Lemma foldl_insert_sorted acc m : sorted (acc ++ m) ->
  foldl (fun m e => insert_or_assign m e.1 e.2) acc m = acc ++ m.
Proof.
  revert acc. induction m as [|[k v] m IH]; intros acc Hs; simpl; [by rewrite app_nil_r|].
  replace (acc ++ (k, v) :: m) with ((acc ++ [(k, v)]) ++ m) in * by (by rewrite <- app_assoc).
  rewrite (insert_snoc acc k v) by (eapply sorted_app_l; exact Hs). by apply IH.
Qed.

Lemma contains_snoc m k v : sorted (m ++ [(k, v)]) -> contains m k = false.
Proof.
  intros Hs. apply contains_false. destruct (find m k) as [v'|] eqn:E; [|done].
  apply find_Some in E as (k' & Hin & Hk).
  exfalso. revert Hin. clear -Hs Hk. induction m as [|e m IH]; [by inversion 1|].
  intros Hin. simpl in Hs. apply sorted_cons in Hs as [Hs Hlt].
  apply elem_of_cons in Hin as [<-|Hin]; [|by apply IH].
  apply Forall_app in Hlt as [_ [Hlt _]%Forall_cons]. by apply klt_ne in Hlt.
Qed.

Lemma foldl_try_emplace_sorted acc m : sorted (acc ++ m) ->
  foldl (fun m e => try_emplace m e.1 e.2) acc m = acc ++ m.
Proof.
  revert acc. induction m as [|[k v] m IH]; intros acc Hs; simpl; [by rewrite app_nil_r|].
  replace (acc ++ (k, v) :: m) with ((acc ++ [(k, v)]) ++ m) in * by (by rewrite <- app_assoc).
  pose proof (sorted_app_l _ _ Hs) as Hs'.
  assert (try_emplace acc k v = acc ++ [(k, v)]) as ->; [|by apply IH].
  unfold try_emplace. by rewrite (contains_snoc acc k v), (insert_snoc acc k v).
Qed.

(** In a well-formed map no two entries have equivalent keys. *)
Lemma sorted_unique m e1 e2 :
  sorted m -> e1 ∈ m -> e2 ∈ m -> key_of e1.1 = key_of e2.1 -> e1 = e2.
Proof.
  intros Hs H1 H2 Hk. apply find_entry_elem in H1, H2; [|done..].
  rewrite (find_entry_key _ _ _ Hk) in H1. congruence.
Qed.

(** A loop that emplaces the entries of a map that pass a test is a filter. *)
Lemma foldl_emplace_filter (p : K * V -> bool) m : sorted m ->
  foldl (fun acc e => if p e then try_emplace acc e.1 e.2 else acc) [] m = List.filter p m.
Proof.
  intros Hs. transitivity (foldl (fun m e => try_emplace m e.1 e.2) [] (List.filter p m)).
  - clear Hs. generalize (@nil (K * V)). induction m as [|e m IH]; intros acc; simpl; [done|].
    rewrite IH. by destruct (p e).
  - by apply (foldl_try_emplace_sorted []), sorted_filter.
Qed.

(** Erasing, one by one, the keys of the entries that pass a test. *)
Lemma foldl_erase_filter (p : K * V -> bool) m : sorted m ->
  foldl erase m (map fst (List.filter p m)) = erase_if p m.
Proof.
  intros Hs.
  assert (forall ks m', foldl erase m' ks =
    List.filter (fun e => negb (existsb (keq e.1) ks)) m') as Hf.
  { induction ks as [|k ks IH]; intros m'; simpl.
    - induction m' as [|e m' IH]; simpl; [done|]. by f_equal.
    - rewrite IH. unfold erase. clear. induction m' as [|e m' IH]; simpl; [done|].
      destruct (keq e.1 k) eqn:E; simpl; [done|]. by rewrite IH. }
  rewrite Hf. apply List.filter_ext_in. intros e Hin%list_elem_of_In. f_equal.
  apply eq_true_iff_eq. rewrite existsb_exists. split.
  - intros (k & Hk & Heq%keq_iff). apply in_map_iff in Hk as (e' & <- & Hk).
    apply filter_In in Hk as [Hin' Hp]. apply list_elem_of_In in Hin'.
    by rewrite (sorted_unique m e e' Hs Hin Hin' Heq).
  - intros Hp. exists e.1. split; [|by apply keq_iff].
    apply in_map, filter_In. split; [by apply list_elem_of_In|done].
Qed.

Lemma of_list_sorted_id m : sorted m -> of_list m = m.
Proof. intros. by apply (foldl_insert_sorted []). Qed.

Lemma sorted_of_list_acc acc l :
  sorted acc -> sorted (foldl (fun m e => insert_or_assign m e.1 e.2) acc l).
Proof. revert acc. induction l as [|e l IH]; simpl; [done|]. intros. by apply IH, sorted_insert. Qed.

Lemma sorted_of_list (l : list (K * V)) : sorted (of_list l).
Proof. apply sorted_of_list_acc, sorted_nil. Qed.

Lemma sorted_take n m : sorted m -> sorted (take n m).
Proof.
  revert n. induction m as [|e m IH]; intros [|n] Hs; simpl; try apply sorted_nil.
  apply sorted_cons in Hs as [Hs Hlt]. apply sorted_cons. split; [by apply IH|].
  by apply Forall_take.
Qed.

Lemma sorted_cons_inv e m : sorted (e :: m) -> sorted m.
Proof. by intros [? _]%sorted_cons. Qed.

Lemma find_sorted_tail (l : list (K * V)) e q : sorted (e :: l) ->
  key_of e.1 = key_of q -> find l q = None.
Proof.
  intros Hs Hk. destruct (find l q) as [v|] eqn:E; [|done].
  apply find_Some in E as (k & Hin & Hk'). exfalso.
  apply sorted_cons in Hs as [_ Hs]. rewrite Forall_forall in Hs.
  specialize (Hs _ Hin). simpl in Hs. apply klt_ne in Hs. by rewrite Hk, Hk' in Hs.
Qed.
End laws.

End OrdMap.

#[export] Hint Resolve OrdMap.sorted_nil OrdMap.sorted_insert OrdMap.sorted_try_emplace
  OrdMap.sorted_erase OrdMap.sorted_erase_if OrdMap.sorted_filter OrdMap.sorted_of_list
  OrdMap.sorted_take : syncfs.

(** ** Orders used as keys *)

Section orders.
Context {C D : Type} (cc : C -> C -> comparison) (cd : D -> D -> comparison).
Context `{!TotalCompare C cc} `{!TotalCompare D cd}.

#[export] Instance lex_total : TotalCompare (list C) (lex_compare cc).
Proof.
  split.
  - induction x as [|a x IH]; intros [|b y]; simpl; try done.
    destruct (cc a b) eqn:E.
    + apply tc_eq in E as ->. rewrite IH. split; [by intros ->|by intros [= ->]].
    + split; [done|]. intros [= -> ->]. by rewrite (proj2 (tc_eq b b) eq_refl) in E.
    + split; [done|]. intros [= -> ->]. by rewrite (proj2 (tc_eq b b) eq_refl) in E.
  - induction x as [|a x IH]; intros [|b y]; simpl; try done.
    rewrite (tc_sym a b). destruct (cc a b); simpl; [apply IH|done..].
  - induction x as [|a x IH]; intros [|b y] [|c z]; simpl; try done.
    destruct (cc a b) eqn:E1; [apply tc_eq in E1 as ->| |done].
    + destruct (cc b c); [apply IH|done..].
    + destruct (cc b c) eqn:E2; [apply tc_eq in E2 as <-; by rewrite E1| |done].
      by rewrite (tc_trans a b c E1 E2).
Qed.

#[export] Instance pair_total : TotalCompare (C * D) (pair_compare cc cd).
Proof.
  unfold pair_compare. split.
  - intros [a b] [a' b']; simpl. destruct (cc a a') eqn:E.
    + apply tc_eq in E as ->. rewrite tc_eq. split; [by intros ->|by intros [= ->]].
    + split; [done|]. intros [= -> ->]. by rewrite (proj2 (tc_eq a' a') eq_refl) in E.
    + split; [done|]. intros [= -> ->]. by rewrite (proj2 (tc_eq a' a') eq_refl) in E.
  - intros [a b] [a' b']; simpl. rewrite (tc_sym a a'). destruct (cc a a'); simpl; [|done..].
    apply tc_sym.
  - intros [a b] [a' b'] [a'' b'']; simpl.
    destruct (cc a a') eqn:E1; [apply tc_eq in E1 as ->| |done].
    + destruct (cc a' a''); [apply tc_trans|done..].
    + destruct (cc a' a'') eqn:E2; [apply tc_eq in E2 as <-; by rewrite E1| |done].
      by rewrite (tc_trans a a' a'' E1 E2).
Qed.
End orders.

#[export] Instance bool_total : TotalCompare bool bool_compare.
Proof. by split; [intros [] []|intros [] []|intros [] [] []]. Qed.

#[export] Instance Z_total : TotalCompare Z Z.compare.
Proof.
  split.
  - apply Z.compare_eq_iff.
  - intros. apply Z.compare_antisym.
  - intros x y z. rewrite !Z.compare_lt_iff. lia.
Qed.

#[export] Instance ascii_total : TotalCompare ascii Ascii.compare.
Proof.
  unfold Ascii.compare. split.
  - intros x y. rewrite N.compare_eq_iff. split; [|by intros ->].
    intros Hn. by rewrite <- (ascii_N_embedding x), <- (ascii_N_embedding y), Hn.
  - intros. apply N.compare_antisym.
  - intros x y z. rewrite !N.compare_lt_iff. lia.
Qed.

(** [std::string] as a key: bytes compared as unsigned characters. *)
#[export] Instance string_total : TotalCompare string String.compare.
Proof.
  split.
  - intros x y. split; [apply String.compare_eq_iff|intros <-].
    induction x as [|a x IH]; [done|]. simpl. by rewrite (proj2 (tc_eq a a) eq_refl).
  - intros x y. rewrite String.compare_antisym. done.
  - induction x as [|a x IH]; intros [|b y] [|c z]; simpl; try done.
    destruct (Ascii.compare a b) eqn:E1; [apply tc_eq in E1 as ->| |done].
    + destruct (Ascii.compare b c); [apply IH|done..].
    + destruct (Ascii.compare b c) eqn:E2; [apply tc_eq in E2 as <-; by rewrite E1| |done].
      by rewrite (tc_trans a b c E1 E2).
Qed.

#[export] Instance string_key : KeyOrder string := {| key_of s := s; key_cmp := String.compare |}.
