(* ===== verification/FsPath.v ===== *)
(** * [std::filesystem::path], POSIX form

    A path is the text it was built from ([native]) and is compared by its
    components: a root directory sorts after none, repeated separators count
    once, a trailing separator adds an empty last component.  This is the key
    of the listing, the tombstones and the repairs. *)

From S2P Require Import Prelude OrdMap.

Record path := Path { native : string }.

Definition has_root_directory (p : path) : bool :=
  match native p with String a _ => bool_decide (a = SLASH) | _ => false end.

(** The elements of the relative part, as its iterator yields them. *)
Definition components (p : path) : list string :=
  let words := split_on SLASH (native p) in
  let names := List.filter (fun w => negb (String.eqb w "")) words in
  match names, last words with
  | _ :: _, Some EmptyString => names ++ [EmptyString]
  | _, _ => names
  end.

Definition path_image (p : path) : bool * list string := (has_root_directory p, components p).

#[export] Instance path_key : KeyOrder path :=
  {| key_of := path_image; key_cmp := pair_compare bool_compare (lex_compare String.compare) |}.

#[export] Instance path_eq_dec : EqDecision path.
Proof. solve_decision. Defined.

(** [operator/]: an absolute right operand, or an empty left one, gives the
    right operand alone. *)
Definition has_filename (p : path) : bool :=
  match rcut SLASH (native p) with
  | Some (_, after) => negb (String.eqb after "")
  | None => negb (String.eqb (native p) "")
  end.

Definition path_append (p q : path) : path :=
  if has_root_directory q || String.eqb (native p) "" then q
  else if has_filename p then Path (native p +:+ "/" +:+ native q)
  else Path (native p +:+ native q).

(** [lexically_normal]: dots removed, a name followed by dot-dot cancelled, a
    trailing separator kept (or left behind by a dot) unless dot-dot is last.
    [stack] holds the names kept so far, last first. *)
Fixpoint normal_walk (rooted : bool) (stack : list string) (trailing : bool)
    (cs : list string) : list string * bool :=
  match cs with
  | [] => (stack, trailing)
  | c :: cs' =>
      if String.eqb c "" || String.eqb c "." then normal_walk rooted stack true cs'
      else if String.eqb c ".." then
        match stack with
        | top :: rest =>
            if String.eqb top ".." then normal_walk rooted (c :: stack) false cs'
            else normal_walk rooted rest true cs'
        | [] => if rooted then normal_walk rooted [] true cs'
                else normal_walk rooted [c] false cs'
        end
      else normal_walk rooted (c :: stack) false cs'
  end.

Definition lexically_normal (p : path) : path :=
  if String.eqb (native p) "" then p
  else
    let rooted := has_root_directory p in
    let '(stack, trailing) := normal_walk rooted [] false (components p) in
    match stack with
    | [] => Path (if rooted then "/" else ".")
    | top :: _ =>
        Path ((if rooted then "/" else "") +:+ str_join "/" (rev stack)
              +:+ (if trailing && negb (String.eqb top "..") then "/" else ""))
    end.

(** ** Spellings the comparison identifies, and those it does not *)

Example same_path : OrdMap.keq (Path "./a//b") (Path "./a/b") = true.
Proof. reflexivity. Qed.

Example trailing_slash_differs : OrdMap.keq (Path "a/") (Path "a") = false.
Proof. reflexivity. Qed.

(** Component order is not byte order: '-' sorts before '/'. *)
Example component_order : OrdMap.klt (Path "./a/b") (Path "./a-b") = true.
Proof. reflexivity. Qed.

Example normal_dot : lexically_normal (Path "./a/./b/../c") = Path "a/c".
Proof. reflexivity. Qed.

Example normal_trailing : lexically_normal (Path "foo/.///bar/../") = Path "foo/".
Proof. reflexivity. Qed.

Lemma keq_native_refl (p : path) : OrdMap.keq p p = true.
Proof. by apply OrdMap.keq_iff. Qed.

#[export] Hint Resolve keq_native_refl : syncfs.

(** ** The algebra of plain components *)

(** A component a listing is made of: not empty, no dots, no separator. *)
Definition plain_name (w : string) : bool :=
  negb (String.eqb w "") && negb (String.eqb w ".") && negb (String.eqb w "..") && negb (has_char SLASH w).

Definition joined (ws : list string) : string := str_join "/" ws.

Lemma plain_name_spec w : plain_name w = true ->
  w <> "" /\ w <> "." /\ w <> ".." /\ has_char SLASH w = false.
Proof.
  unfold plain_name. intros H. bool_hyps. repeat split; try (by apply String.eqb_neq); done.
Qed.

(** A run of components that [split_on] gives back: not empty, no separator. *)
Definition name_ok (w : string) : Prop := w <> "" /\ has_char SLASH w = false.

Lemma plain_ok ws : Forall (fun w => plain_name w = true) ws -> Forall name_ok ws.
Proof. intros H. eapply Forall_impl; [exact H|]. intros w (? & _ & _ & ?)%plain_name_spec. done. Qed.

Lemma joined_cons w ws : ws <> [] -> joined (w :: ws) = w +:+ String SLASH (joined ws).
Proof. by destruct ws. Qed.

Lemma joined_app a b : a <> [] -> b <> [] -> joined (a ++ b) = joined a +:+ String SLASH (joined b).
Proof.
  intros Ha Hb. induction a as [|w a IH]; [done|]. destruct a as [|w' a].
  - change ([w] ++ b) with (w :: b). by rewrite (joined_cons w b).
  - change ((w :: w' :: a) ++ b) with (w :: ((w' :: a) ++ b)). rewrite joined_cons by done.
    rewrite IH, (joined_cons w (w' :: a)) by done. by rewrite str_app_assoc.
Qed.

Lemma split_on_joined ws : ws <> [] -> Forall name_ok ws -> split_on SLASH (joined ws) = ws.
Proof.
  intros Hne Hws. induction Hws as [|w ws [_ Hw] Hws IH]; [done|]. destruct ws as [|w' ws].
  - by apply split_on_free.
  - rewrite joined_cons by done. rewrite split_on_app by done. by rewrite IH.
Qed.

Lemma filter_names ws : Forall name_ok ws -> List.filter (fun w => negb (String.eqb w "")) ws = ws.
Proof.
  induction 1 as [|w ws [Hw _] Hws IH]; [done|]. simpl. apply String.eqb_neq in Hw. by rewrite Hw, IH.
Qed.

Lemma last_name ws : Forall name_ok ws -> last ws <> Some "".
Proof.
  intros Hws Hl. destruct (last_Some ws "") as [H _]. destruct (H Hl) as (l & ->).
  apply Forall_app in Hws as [_ Hw]. by inversion Hw as [|? ? [? _]].
Qed.

Lemma components_joined ws : ws <> [] -> Forall name_ok ws -> components (Path (joined ws)) = ws.
Proof.
  intros Hne Hws. unfold components. cbn [native]. rewrite split_on_joined, filter_names by done.
  pose proof (last_name ws Hws) as Hl. destruct ws as [|w ws]; [done|].
  destruct (last (w :: ws)) as [[|]|]; done.
Qed.

Lemma components_rooted ws : ws <> [] -> Forall name_ok ws -> components (Path (String SLASH (joined ws))) = ws.
Proof.
  intros Hne Hws. unfold components. cbn [native split_on]. rewrite decide_True by done.
  rewrite split_on_joined by done. cbn [List.filter String.eqb negb]. rewrite filter_names by done.
  pose proof (last_name ws Hws) as Hl. destruct ws as [|w ws]; [done|]. cbn [last].
  destruct (last (w :: ws)) as [[|]|] eqn:E; cbn [last] in *; try done; by rewrite E in Hl.
Qed.

Lemma rooted_joined ws : Forall name_ok ws -> has_root_directory (Path (joined ws)) = false.
Proof.
  intros Hws. destruct ws as [|w ws]; [done|]. inversion Hws as [|? ? [Hw Hs] _]; subst.
  unfold has_root_directory. cbn [native]. destruct w as [|c w]; [done|].
  apply has_char_cons_false in Hs as [Hc _]. destruct ws; cbn; by apply bool_decide_eq_false.
Qed.

Lemma joined_nonempty ws : ws <> [] -> Forall name_ok ws -> joined ws <> "".
Proof.
  intros Hne Hws. destruct ws as [|w ws]; [done|]. inversion Hws as [|? ? [Hw _] _]; subst.
  destruct w as [|c w]; [done|]. by destruct ws.
Qed.

Lemma filename_joined ws : ws <> [] -> Forall name_ok ws -> has_filename (Path (joined ws)) = true.
Proof.
  intros Hne Hws. unfold has_filename. cbn [native].
  induction Hws as [|w ws [Hw Hs] Hws IH]; [done|]. destruct ws as [|w' ws].
  - cbn. rewrite rcut_None by done. apply negb_true_iff. by apply String.eqb_neq.
  - rewrite joined_cons by done. specialize (IH ltac:(done)).
    destruct (rcut SLASH (joined (w' :: ws))) as [[b a]|] eqn:E.
    + apply rcut_Some in E as [-> Ha].
      replace (w +:+ String SLASH (b +:+ String SLASH a)) with ((w +:+ String SLASH b) +:+ String SLASH a)
        by (by rewrite str_app_assoc).
      by rewrite rcut_app.
    + rewrite rcut_app; [done|]. clear IH. revert E. generalize (joined (w' :: ws)). intros s. 
      induction s as [|c s IHs]; [done|]. simpl. destruct (rcut SLASH s) as [[]|]; [done|].
      case_decide; [done|]. intros _. rewrite bool_decide_eq_false_2 by done. by apply IHs.
Qed.

Lemma append_joined a b : a <> [] -> b <> [] -> Forall name_ok a -> Forall name_ok b ->
  path_append (Path (joined a)) (Path (joined b)) = Path (joined (a ++ b)).
Proof.
  intros Ha Hb Hoa Hob. unfold path_append. rewrite rooted_joined by done. cbn [native orb].
  pose proof (joined_nonempty a Ha Hoa) as Hn. apply String.eqb_neq in Hn. rewrite Hn.
  rewrite filename_joined by done. by rewrite joined_app.
Qed.

Lemma append_names a ws : Forall name_ok a -> Forall name_ok ws ->
  foldl (fun r c => path_append r (Path c)) (Path (joined a)) ws = Path (joined (a ++ ws)).
Proof.
  intros Ha Hws. revert a Ha. induction Hws as [|w ws Hw Hws IH]; intros a Ha; [by rewrite app_nil_r|].
  cbn [foldl]. replace (path_append (Path (joined a)) (Path w)) with (Path (joined (a ++ [w]))).
  - rewrite IH; [by rewrite <- app_assoc|]. apply Forall_app. split; [done|by constructor].
  - destruct a as [|x a].
    + unfold path_append. cbn. by rewrite orb_true_r.
    + symmetry. change w with (joined [w]) at 1. apply append_joined; [done..|by constructor].
Qed.

Lemma normal_walk_plain rooted stack t ws : Forall (fun w => plain_name w = true) ws ->
  normal_walk rooted stack t ws = (rev ws ++ stack, match ws with [] => t | _ => false end).
Proof.
  intros Hws. revert stack t. induction Hws as [|w ws Hw Hws IH]; intros stack t; [done|].
  apply plain_name_spec in Hw as (H1 & H2 & H3 & _). apply String.eqb_neq in H1, H2, H3.
  cbn [normal_walk]. rewrite H1, H2, H3. cbn [orb]. rewrite IH. cbn [rev]. rewrite <- app_assoc.
  by destruct ws.
Qed.

Lemma normal_plain ws (dot : bool) : ws <> [] -> Forall (fun w => plain_name w = true) ws ->
  lexically_normal (Path (joined (if dot then "." :: ws else ws))) = Path (joined ws).
Proof.
  intros Hne Hws. pose proof (plain_ok ws Hws) as Hok. unfold lexically_normal. cbn [native].
  set (cs := if dot then "." :: ws else ws).
  assert (Forall name_ok cs /\ cs <> []) as [Hcs Hcn] by (unfold cs; destruct dot; [split; [by constructor|done]|done]).
  pose proof (joined_nonempty cs Hcn Hcs) as Hn. apply String.eqb_neq in Hn. rewrite Hn.
  rewrite rooted_joined, components_joined by done.
  assert (normal_walk false [] false cs = (rev ws, false)) as ->.
  { unfold cs. destruct dot; cbn [normal_walk String.eqb orb]; cbn;
      rewrite normal_walk_plain by done; by destruct ws; rewrite ?app_nil_r. }
  destruct (rev ws) as [|top rest] eqn:E.
  - apply (f_equal (@rev string)) in E. rewrite rev_involutive in E. by subst.
  - rewrite <- E, rev_involutive. cbn. by rewrite str_app_nil_r.
Qed.
