(* ===== verification/Utils.v ===== *)
(** * src/utils.cpp: addresses, verbs and wire times

    Times are 64-bit tick counts (nanoseconds). [sys_time] counts from the
    Unix epoch; [file_time] counts from the file clock's own epoch, and only its
    conversion to [sys_time] ticks means the same thing on two nodes. *)

From S2P Require Import Prelude OrdMap FsPath.

Abbreviation sys_time := Z.
Abbreviation file_time := Z.

(** Nanoseconds between the Unix epoch and libstdc++'s file clock epoch
    (2174-01-01). *)
Definition file_clock_epoch : Z := 6437664000 * 10 ^ 9.

Definition to_sys (t : file_time) : sys_time := wrap64 (t + file_clock_epoch).
Definition from_sys (t : sys_time) : file_time := wrap64 (t - file_clock_epoch).

Definition to_ticks (t : sys_time) : Z := t.
Definition file_to_ticks (t : file_time) : Z := to_ticks (to_sys t).

(** A count that is not a decimal integer of 64 bits reads as the epoch. *)
Definition from_ticks (s : string) : sys_time :=
  match from_chars int64_min int64_max s with
  | Some ticks => ticks
  | None => 0
  end.

Definition to_file_time (t : sys_time) : file_time := from_sys t.

(** The first part of an addressed message. *)
Definition address (verb endpoint : string) : string :=
  verb +:+ String NUL (endpoint +:+ String NUL "").

Definition verb_of (part0 : string) : string :=
  match cut NUL part0 with
  | Some (before, _) => before
  | None => part0
  end.

(** Everything before the last colon, brackets taken off. *)
Definition strip_front_bracket (host : string) : string :=
  match host with String "[" rest => rest | _ => host end.

Fixpoint strip_back_bracket (host : string) : string :=
  match host with
  | EmptyString => EmptyString
  | String "]" EmptyString => EmptyString
  | String a rest => String a (strip_back_bracket rest)
  end.

Definition host_of (addr : string) : string :=
  let host := match rcut COLON addr with Some (before, _) => before | None => addr end in
  strip_back_bracket (strip_front_bracket host).

Definition port_of (addr : string) : option string :=
  match rcut COLON addr with Some (_, after) => Some after | None => None end.

Inductive listen_error :=
| NamesNoOneHost (host : string)
| CarriesNoPort (addr : string)
| NotAPortNumber (port : string)
| PortOutside (number : Z).

Definition int32_min : Z := - 2 ^ 31.
Definition int32_max : Z := 2 ^ 31 - 1.

Definition highest_port : Z := 65535 - 2000.

Definition is_unspecified_char (c : ascii) : bool :=
  bool_decide (c = "0"%char) || bool_decide (c = "."%char) || bool_decide (c = ":"%char).

Definition check_listen_address (addr : string) : unit + listen_error :=
  let host := host_of addr in
  if String.eqb host "*" || all_chars is_unspecified_char host then
    inr (NamesNoOneHost host)
  else
    match port_of addr with
    | None | Some EmptyString => inr (CarriesNoPort addr)
    | Some port =>
        match from_chars int32_min int32_max port with
        | None => inr (NotAPortNumber port)
        | Some number =>
            if (number <? 1) || (highest_port <? number) then inr (PortOutside number)
            else inl tt
        end
    end.

(** [std::stoi]: leading white space skipped, a sign of either kind, the longest
    run of digits, whatever follows left unread. *)
Inductive std_exception := InvalidArgument (what : string) | OutOfRange (what : string).

Fixpoint skip_space (s : string) : string :=
  match s with
  | String a s' => if Ascii.is_space a then skip_space s' else s
  | EmptyString => EmptyString
  end.

Fixpoint digit_prefix (s : string) : string :=
  match s with
  | String a s' => if is_digit a then String a (digit_prefix s') else EmptyString
  | EmptyString => EmptyString
  end.

Definition stoi (s : string) : Z + std_exception :=
  let '(negative, rest) :=
    match skip_space s with
    | String "-" rest => (true, rest)
    | String "+" rest => (false, rest)
    | rest => (false, rest)
    end in
  match parse_nonempty_digits (digit_prefix rest) with
  | None => inr (InvalidArgument "stoi")
  | Some n =>
      let v := if negative : bool then - n else n in
      if (int32_min <=? v) && (v <=? int32_max) then inl v else inr (OutOfRange "stoi")
  end.

(** [tokens.at(1)] throws when there is no colon at all. *)
Definition parse_host_port (s : string) : (string * Z) + std_exception :=
  let tokens := split_on COLON s in
  match tokens with
  | [] => inr (OutOfRange "vector::at")
  | host :: rest =>
      if String.eqb host "" then inr (InvalidArgument s)
      else match rest with
           | [] => inr (OutOfRange "vector::at")
           | port :: _ =>
               match stoi port with
               | inl n => inl (host, n)
               | inr e => inr e
               end
           end
  end.

(** ** Lemmas *)

Lemma file_to_ticks_range t : is_int64 (file_to_ticks t).
Proof. apply wrap64_range. Qed.

(** A wire time survives the trip through the file clock, overflow included. *)
Lemma file_to_ticks_to_file_time t : is_int64 t -> file_to_ticks (to_file_time t) = t.
Proof.
  intros Ht. unfold file_to_ticks, to_ticks, to_sys, to_file_time, from_sys.
  rewrite wrap64_add_sub. by apply wrap64_small.
Qed.

Lemma to_file_time_to_ticks t : is_int64 t -> to_file_time (file_to_ticks t) = t.
Proof.
  intros Ht. unfold file_to_ticks, to_ticks, to_sys, to_file_time, from_sys.
  rewrite wrap64_sub_add. by apply wrap64_small.
Qed.

Lemma from_ticks_to_string z : is_int64 z -> from_ticks (Z_to_string z) = z.
Proof. intros Hz. unfold from_ticks. by rewrite from_chars_to_string. Qed.

Lemma from_chars_range lo hi s z : from_chars lo hi s = Some z -> lo <= z <= hi.
Proof.
  unfold from_chars. destruct (signed_value s); [|done].
  destruct (_ && _) eqn:E; [|done]. intros [= <-]. bool_hyps. lia.
Qed.

Lemma from_ticks_range s : is_int64 (from_ticks s).
Proof.
  unfold from_ticks. destruct (from_chars _ _ s) eqn:E; [by eapply from_chars_range|].
  unfold is_int64, int64_min, int64_max. lia.
Qed.

#[export] Hint Resolve file_to_ticks_range from_ticks_range : syncfs.

Lemma verb_of_plain verb : has_char NUL verb = false -> verb_of verb = verb.
Proof. intros H. unfold verb_of. by rewrite (proj2 (cut_None NUL verb) H). Qed.

Lemma verb_of_address verb e : has_char NUL verb = false -> verb_of (address verb e) = verb.
Proof. intros H. unfold verb_of, address. by rewrite cut_app. Qed.

(** The subscription trie matches a message when the subscriber's text is a
    prefix of the message's first part. *)
Lemma prefix_address_iff v1 v2 e1 e2 :
  has_char NUL v1 = false -> has_char NUL v2 = false ->
  has_char NUL e1 = false -> has_char NUL e2 = false ->
  String.prefix (address v1 e1) (address v2 e2) = true <-> v1 = v2 /\ e1 = e2.
Proof.
  assert (forall s t s' t', has_char NUL s = false -> has_char NUL s' = false ->
    String.prefix (s +:+ String NUL t) (s' +:+ String NUL t') = true <->
    s = s' /\ String.prefix t t' = true) as Hframe.
  { intros s t. induction s as [|a s IH]; intros [|b s'] t' Hs Hs';
      rewrite ?str_app_nil_l, ?str_app_cons, prefix_cons, andb_true_iff, bool_decide_eq_true.
    - naive_solver.
    - apply has_char_cons_false in Hs' as [Hb _]. naive_solver.
    - apply has_char_cons_false in Hs as [Ha _]. naive_solver.
    - apply has_char_cons_false in Hs as [Ha Hs], Hs' as [Hb Hs'].
      rewrite IH by done. naive_solver. }
  intros. unfold address. rewrite !Hframe by done. simpl. naive_solver.
Qed.

Lemma is_digit_iff c : is_digit c = true <-> is_Some (digit_val c).
Proof. unfold is_digit. apply bool_decide_eq_true. Qed.

Lemma parse_digits_all acc s v : parse_digits acc s = Some v -> all_chars is_digit s = true.
Proof.
  revert acc. induction s as [|a s IH]; intros acc; simpl; [done|].
  destruct (digit_val a) as [d|] eqn:E; [|done]. intros Hs.
  rewrite (IH _ Hs). by rewrite (proj2 (is_digit_iff a)) by eauto.
Qed.

Lemma digit_prefix_all s : all_chars is_digit s = true -> digit_prefix s = s.
Proof. induction s as [|a s IH]; simpl; [done|]. intros H. bool_hyps. by rewrite H, IH. Qed.

(** On a port [from_chars] accepts as positive, [stoi] reads the same value. *)
Lemma stoi_from_chars s n :
  from_chars int32_min int32_max s = Some n -> 1 <= n -> stoi s = inl n.
Proof.
  intros Hs Hn. pose proof (from_chars_range _ _ _ _ Hs) as Hr.
  assert (parse_nonempty_digits s = Some n) as Hp.
  { unfold from_chars in Hs. destruct (signed_value s) as [v|] eqn:E; [|done].
    destruct (_ && _); [|done]. injection Hs as ->. unfold signed_value in E.
    destruct s as [|c s]; [done|].
    destruct (decide (c = "-"%char)) as [->|Hc].
    - destruct (parse_nonempty_digits s) as [v|] eqn:Ed; [|done]. injection E as E.
      assert (0 <= v); [|lia]. clear -Ed. destruct s; [done|]. simpl in Ed.
      assert (forall s acc, 0 <= acc -> forall v, parse_digits acc s = Some v -> 0 <= v) as Hpos.
      { clear. induction s as [|a s IH]; simpl; [by intros ? ? ? [= <-]|].
        intros acc Hacc v. unfold digit_val. destruct (_ && _) eqn:E; [|done].
        apply IH. bool_hyps. lia. }
      by eapply (Hpos (String a s) 0); [lia|].
    - by destruct c as [[] [] [] [] [] [] [] []]. }
  assert (all_chars is_digit s = true) as Hd.
  { destruct s; [done|]. by eapply parse_digits_all. }
  unfold stoi. destruct s as [|c s]; [done|].
  assert (skip_space (String c s) = String c s /\ c <> "-"%char /\ c <> "+"%char)
    as (-> & H1 & H2).
  { simpl in Hd. bool_hyps. apply is_digit_iff in H as [d H].
    destruct c as [[] [] [] [] [] [] [] []]; vm_compute in H; try discriminate H; done. }
  replace (match String c s with String "-" rest => (true, rest)
           | String "+" rest => (false, rest) | rest => (false, rest) end)
    with (false, String c s)
    by (destruct c as [[] [] [] [] [] [] [] []]; done).
  rewrite digit_prefix_all, Hp by done.
  replace ((int32_min <=? n) && (n <=? int32_max)) with true by lia. done.
Qed.

Lemma check_listen_address_ok addr :
  check_listen_address addr = inl tt ->
  exists before port n,
    addr = before +:+ String COLON port /\ has_char COLON port = false /\
    from_chars int32_min int32_max port = Some n /\ 1 <= n <= highest_port /\
    host_of addr <> "*" /\ all_chars is_unspecified_char (host_of addr) = false.
Proof.
  unfold check_listen_address. destruct (_ || _) eqn:Eh; [done|]. unfold port_of.
  destruct (rcut COLON addr) as [[before port]|] eqn:Er; [|done].
  destruct port as [|c port]; [done|].
  destruct (from_chars _ _ _) as [n|] eqn:En; [|done].
  destruct ((n <? 1) || (highest_port <? n)) eqn:E; [done|]. intros _.
  apply rcut_Some in Er as [-> Hp]. bool_hyps.
  exists before, (String c port), n. repeat split; try done.
  intros Heq. by rewrite Heq in *.
Qed.

(** ** Properties *)

(** A digest addressed at one endpoint matches exactly the
    subscription of that endpoint.  Without the closing NUL the endpoint
    "tcp://h:555" would also receive what is meant for "tcp://h:5555". *)
Lemma address_matches_one_subscriber verb subscriber target :
  has_char NUL verb = false -> has_char NUL subscriber = false -> has_char NUL target = false ->
  String.prefix (address verb subscriber) (address verb target) = true <-> subscriber = target.
Proof. intros. rewrite prefix_address_iff by done. naive_solver. Qed.


(** C36: an address [check_listen_address] accepts, when it holds a single
    colon, is read by [parse_host_port] as the host before it and a port that
    the narrowing to an unsigned short leaves alone, the data plane's offset of
    two thousand included. *)
Theorem accepted_listen_address_narrows addr host rest :
  check_listen_address addr = inl tt ->
  split_on COLON addr = [host; rest] ->
  exists n, parse_host_port addr = inl (host, n) /\ 1 <= n <= 63535 /\
    wrap_u16 n = n /\ wrap_u16 (n + 2000) = n + 2000.
Proof.
  intros Hc Hs. destruct (check_listen_address_ok _ Hc)
    as (before & port & n & -> & Hp & Hn & Hr & Hh1 & Hh2).
  assert (has_char COLON before = false) as Hb.
  { destruct (has_char COLON before) eqn:E; [|done]. exfalso.
    destruct (cut COLON before) as [[x y]|] eqn:Ec; [|apply cut_None in Ec; congruence].
    apply cut_Some in Ec as [-> Hx]. rewrite str_app_assoc, str_app_cons in Hs.
    rewrite split_on_app in Hs by done. injection Hs as -> Hs.
    clear -Hs. revert Hs. generalize y. clear y. intros y.
    assert (forall y, exists a b l, split_on COLON (y +:+ String COLON port) = a :: b :: l) as Hlen.
    { clear. induction y as [|c y (a & b & l & IH)].
      - rewrite str_app_nil_l. simpl. destruct (split_on COLON port) eqn:E; [|eauto].
        destruct port; simpl in E; [done|]. case_decide; [done|]. by destruct (split_on _ _).
      - rewrite str_app_cons. simpl. rewrite IH. case_decide; eauto. }
    destruct (Hlen y) as (a & b & l & ->). done. }
  rewrite split_on_app, split_on_free in Hs by done. injection Hs as <- <-.
  exists n. unfold parse_host_port. rewrite split_on_app, split_on_free by done.
  assert (String.eqb before "" = false) as ->.
  { apply String.eqb_neq. intros ->. unfold host_of in Hh2. rewrite rcut_app in Hh2 by done.
    done. }
  rewrite (stoi_from_chars _ _ Hn) by lia. unfold highest_port in Hr.
  split; [done|]. unfold wrap_u16. rewrite !Z.mod_small by lia. lia.
Qed.

Lemma accepted_listen_address_narrows_witness :
  exists n, parse_host_port "nodeA:5555" = inl ("nodeA", n) /\ 1 <= n <= 63535 /\
    wrap_u16 n = n /\ wrap_u16 (n + 2000) = n + 2000.
Proof. apply (accepted_listen_address_narrows "nodeA:5555" "nodeA" "5555"); reflexivity. Defined.

(** With a second colon the two readers disagree.  The check looks
    after the last colon and [parse_host_port] after the first, so the daemon
    runs on a port that was never checked, and the narrowing changes it. *)
Lemma listen_address_two_colons :
  check_listen_address "h:70000:5555" = inl tt /\
  parse_host_port "h:70000:5555" = inl ("h", 70000) /\ wrap_u16 70000 = 4464 /\
  check_listen_address "[::1]:5555" = inl tt /\
  parse_host_port "[::1]:5555" = inr (InvalidArgument "stoi").
Proof. repeat split; vm_compute; reflexivity. Qed.
