(* ===== verification/Files.v ===== *)
(** * src/files.cpp: the listing and its differences

    [list] reads the tree through a walk that may stop at an error; [diff],
    [diff_name] and [intersection_name] run the standard library's linear
    merges over two sorted listings.  The theorems give each merge its
    reference definition, a filter of the left listing. *)

From S2P Require Import Prelude OrdMap FsPath Utils.

Abbreviation file_map := (list (path * file_time)).

(** ** The tree walk *)

(** One entry met by the walk; [None] is a question the file system answered
    with an error. *)
Record dir_entry := {
  de_path : path;
  de_time : option file_time;
  de_regular : option bool;
  de_symlink : option bool;
}.

(** What [recursive_directory_iterator] hands over, entry by entry, and the
    error that ends it early. *)
Inductive walk_step := Visit (e : dir_entry) | WalkError.

Fixpoint entries_with_times (walk : list walk_step) : list dir_entry :=
  match walk with
  | Visit e :: walk' => e :: entries_with_times walk'
  | WalkError :: _ | [] => []
  end.

Definition listed (e : dir_entry) : bool :=
  bool_decide (de_regular e = Some true) && bool_decide (de_symlink e = Some false)
  && bool_decide (is_Some (de_time e)).

Definition list_tree (walk : list walk_step) : file_map :=
  foldl (fun m e => OrdMap.try_emplace m (de_path e) (de_time e ?? 0)) []
    (List.filter listed (entries_with_times walk)).

(** ** The merges of <algorithm> *)

Fixpoint set_difference {A} (lt : A -> A -> bool) (l1 : list A) : list A -> list A :=
  fix aux l2 :=
    match l1, l2 with
    | [], _ => []
    | _, [] => l1
    | x :: l1', y :: l2' =>
        if lt x y then x :: set_difference lt l1' l2
        else if lt y x then aux l2'
        else set_difference lt l1' l2'
    end.

Fixpoint set_intersection {A} (lt : A -> A -> bool) (l1 : list A) : list A -> list A :=
  fix aux l2 :=
    match l1, l2 with
    | [], _ => []
    | _, [] => []
    | x :: l1', y :: l2' =>
        if lt x y then set_intersection lt l1' l2
        else if lt y x then aux l2'
        else x :: set_intersection lt l1' l2'
    end.

(** [std::inserter] into an empty map. *)
Definition into_map (l : file_map) : file_map :=
  foldl (fun m e => OrdMap.try_emplace m e.1 e.2) [] l.

(** [operator<] on the entries, and the comparator that reads names alone. *)
Definition by_entry : KeyOrder (path * file_time) :=
  {| key_of e := (path_image e.1, e.2);
     key_cmp := pair_compare (pair_compare bool_compare (lex_compare String.compare)) Z.compare |}.

Definition by_name : KeyOrder (path * file_time) :=
  {| key_of e := path_image e.1;
     key_cmp := pair_compare bool_compare (lex_compare String.compare) |}.

Definition diff (left right : file_map) : file_map :=
  into_map (set_difference (@OrdMap.klt _ by_entry) left right).

Definition diff_name (left right : file_map) : file_map :=
  into_map (set_difference (@OrdMap.klt _ by_name) left right).

Definition intersection_name (left right : file_map) : file_map :=
  into_map (set_intersection (@OrdMap.klt _ by_name) left right).

(** ** Lemmas *)

Section merges.
Context {A : Type} (order : KeyOrder A).
Let lt := @OrdMap.klt A order.
Let eqk := @OrdMap.keq A order.

Lemma existsb_eq_above x (l : list A) :
  Forall (fun y => lt x y = true) l -> existsb (eqk x) l = false.
Proof.
  induction 1 as [|y l Hy Hl IH]; [done|]. simpl. rewrite IH, orb_false_r.
  apply OrdMap.keq_false. by apply OrdMap.klt_ne.
Qed.

Lemma not_lt_either x y : lt x y = false -> lt y x = false -> eqk x y = true.
Proof.
  unfold lt, eqk, OrdMap.klt, OrdMap.keq, OrdMap.kcmp. rewrite (tc_sym (key_of x)).
  by destruct (key_cmp _ _).
Qed.

(** The common part of both merges: below the head of the right list nothing
    on the left meets it. *)
Lemma filter_drop_head (p : bool -> bool) y l1 l2 :
  Forall (fun x => eqk x y = false) l1 ->
  List.filter (fun x => p (existsb (eqk x) (y :: l2))) l1 =
  List.filter (fun x => p (existsb (eqk x) l2)) l1.
Proof.
  intros Hl. apply List.filter_ext_in. intros x Hx%list_elem_of_In.
  rewrite Forall_forall in Hl. simpl. by rewrite Hl.
Qed.

Lemma Forall_lt_neq y l : Forall (fun x => lt y x = true) l -> Forall (fun x => eqk x y = false) l.
Proof.
  intros Hl. eapply Forall_impl; [exact Hl|]. intros x Hx. apply OrdMap.keq_false.
  intros Hk. by apply OrdMap.klt_ne in Hx.
Qed.

Lemma set_difference_spec l1 l2 :
  StronglySorted (fun x y => lt x y = true) l1 ->
  StronglySorted (fun x y => lt x y = true) l2 ->
  set_difference lt l1 l2 = List.filter (fun x => negb (existsb (eqk x) l2)) l1.
Proof.
  intros H1. revert l2. induction H1 as [|x l1 H1 IH1 Hx]; intros l2 H2; [by destruct l2|].
  induction H2 as [|y l2 H2 IH2 Hy].
  { simpl. f_equal. clear. induction l1 as [|a l1 IH]; simpl; [done|]. by f_equal. }
  cbn [set_difference]. fold lt. destruct (lt x y) eqn:Exy; [|destruct (lt y x) eqn:Eyx].
  - rewrite IH1 by (by constructor).
    assert (existsb (eqk x) (y :: l2) = false) as Hf.
    { apply existsb_eq_above. constructor; [done|]. eapply Forall_impl; [exact Hy|].
      intros z Hz. by eapply OrdMap.klt_trans. }
    cbn [List.filter]. by rewrite Hf.
  - cbn [set_difference] in IH2. rewrite IH2. symmetry. apply (filter_drop_head negb).
    apply Forall_lt_neq. constructor; [done|]. eapply Forall_impl; [exact Hx|].
    intros z Hz. by eapply OrdMap.klt_trans.
  - pose proof (not_lt_either _ _ Exy Eyx) as Heq. rewrite IH1 by done.
    cbn [List.filter existsb]. rewrite Heq. simpl. symmetry. apply (filter_drop_head negb).
    apply Forall_lt_neq. eapply Forall_impl; [exact Hx|].
    intros z Hz. unfold lt. apply OrdMap.keq_iff in Heq. by rewrite <- (OrdMap.klt_key x y).
Qed.

Lemma set_intersection_spec l1 l2 :
  StronglySorted (fun x y => lt x y = true) l1 ->
  StronglySorted (fun x y => lt x y = true) l2 ->
  set_intersection lt l1 l2 = List.filter (fun x => existsb (eqk x) l2) l1.
Proof.
  intros H1. revert l2. induction H1 as [|x l1 H1 IH1 Hx]; intros l2 H2; [by destruct l2|].
  induction H2 as [|y l2 H2 IH2 Hy].
  { simpl. clear. induction l1 as [|a l1 IH]; simpl; [done|]. by f_equal. }
  cbn [set_intersection]. fold lt. destruct (lt x y) eqn:Exy; [|destruct (lt y x) eqn:Eyx].
  - rewrite IH1 by (by constructor).
    assert (existsb (eqk x) (y :: l2) = false) as Hf.
    { apply existsb_eq_above. constructor; [done|]. eapply Forall_impl; [exact Hy|].
      intros z Hz. by eapply OrdMap.klt_trans. }
    cbn [List.filter]. by rewrite Hf.
  - cbn [set_intersection] in IH2. rewrite IH2. symmetry. apply (filter_drop_head (fun b => b)).
    apply Forall_lt_neq. constructor; [done|]. eapply Forall_impl; [exact Hx|].
    intros z Hz. by eapply OrdMap.klt_trans.
  - pose proof (not_lt_either _ _ Exy Eyx) as Heq. rewrite IH1 by done.
    cbn [List.filter existsb]. rewrite Heq. simpl. f_equal. symmetry.
    apply (filter_drop_head (fun b => b)).
    apply Forall_lt_neq. eapply Forall_impl; [exact Hx|].
    intros z Hz. unfold lt. apply OrdMap.keq_iff in Heq. by rewrite <- (OrdMap.klt_key x y).
Qed.
End merges.

Lemma sorted_by_entry (m : file_map) :
  OrdMap.sorted m -> StronglySorted (fun x y => @OrdMap.klt _ by_entry x y = true) m.
Proof.
  induction 1 as [|e m Hm IH He]; constructor; [done|].
  eapply Forall_impl; [exact He|]. intros x. unfold OrdMap.klt, OrdMap.kcmp. simpl.
  unfold pair_compare at 2. simpl. unfold pair_compare. simpl.
  by destruct (match bool_compare _ _ with Eq => _ | c => c end).
Qed.

Lemma sorted_by_name (m : file_map) :
  OrdMap.sorted m -> StronglySorted (fun x y => @OrdMap.klt _ by_name x y = true) m.
Proof. done. Qed.

Lemma into_map_id (m : file_map) : OrdMap.sorted m -> into_map m = m.
Proof. intros. by apply (OrdMap.foldl_try_emplace_sorted []). Qed.

Lemma existsb_entry (m : file_map) (e : path * file_time) : OrdMap.sorted m ->
  existsb (@OrdMap.keq _ by_entry e) m = bool_decide (OrdMap.find m e.1 = Some e.2).
Proof.
  intros Hs. apply eq_true_iff_eq. rewrite existsb_exists, bool_decide_eq_true. split.
  - intros ([p t] & Hin%list_elem_of_In & Hk%OrdMap.keq_iff). simpl in Hk.
    injection Hk as H1 H2 H3. apply OrdMap.find_elem in Hin; [|done]. rewrite H3, <- Hin.
    apply OrdMap.find_key. simpl. unfold path_image. congruence.
  - intros (k & Hin & Hk)%OrdMap.find_Some. exists (k, e.2).
    split; [by apply list_elem_of_In|]. apply OrdMap.keq_iff. simpl in *. by rewrite Hk.
Qed.

Lemma existsb_name (m : file_map) (e : path * file_time) :
  existsb (@OrdMap.keq _ by_name e) m = OrdMap.contains m e.1.
Proof.
  induction m as [|x m IH]; [done|]. simpl. rewrite IH. unfold OrdMap.contains. simpl.
  replace (@OrdMap.keq _ by_name e x) with (OrdMap.keq x.1 e.1); [by destruct (OrdMap.keq x.1 e.1)|].
  rewrite OrdMap.keq_sym. done.
Qed.

(** The reference definitions. *)
Lemma diff_filter (left right : file_map) : OrdMap.sorted left -> OrdMap.sorted right ->
  diff left right =
  List.filter (fun e => negb (bool_decide (OrdMap.find right e.1 = Some e.2))) left.
Proof.
  intros Hl Hr. unfold diff.
  rewrite (set_difference_spec by_entry) by (by apply sorted_by_entry).
  rewrite into_map_id by (by apply OrdMap.sorted_filter).
  apply List.filter_ext. intros e. by rewrite existsb_entry.
Qed.

Lemma diff_name_filter (left right : file_map) : OrdMap.sorted left -> OrdMap.sorted right ->
  diff_name left right = List.filter (fun e => negb (OrdMap.contains right e.1)) left.
Proof.
  intros Hl Hr. unfold diff_name.
  rewrite (set_difference_spec by_name) by (by apply sorted_by_name).
  rewrite into_map_id by (by apply OrdMap.sorted_filter).
  apply List.filter_ext. intros e. by rewrite existsb_name.
Qed.

Lemma intersection_name_filter (left right : file_map) :
  OrdMap.sorted left -> OrdMap.sorted right ->
  intersection_name left right = List.filter (fun e => OrdMap.contains right e.1) left.
Proof.
  intros Hl Hr. unfold intersection_name.
  rewrite (set_intersection_spec by_name) by (by apply sorted_by_name).
  rewrite into_map_id by (by apply OrdMap.sorted_filter).
  apply List.filter_ext. intros e. by rewrite existsb_name.
Qed.

Lemma sorted_list_tree walk : OrdMap.sorted (list_tree walk).
Proof.
  unfold list_tree. generalize (List.filter listed (entries_with_times walk)).
  intros l. assert (OrdMap.sorted (V:=file_time) []) as Hs by apply OrdMap.sorted_nil.
  revert Hs. generalize (@nil (path * file_time)).
  induction l as [|e l IH]; intros m Hm; simpl; [done|]. apply IH. by apply OrdMap.sorted_try_emplace.
Qed.

#[export] Hint Resolve sorted_list_tree : syncfs.
