(* ===== verification/Monitor.v ===== *)
(** * src/monitor.cpp: what wakes the loop

    A [Monitor] is the map from watch descriptors to directories and the batch of
    events the last read drained.  inotify, the poll and the directory tree are the
    kernel's: a class.  The buffer a read fills is decoded byte by byte.  The theorems:
    a buffer decodes to the events it was made of, the loop is woken exactly by an event
    that can have changed the listing, and a resync watches exactly the directories. *)

From stdpp Require Import sets.
From S2P Require Import Prelude OrdMap FsPath.

#[export] Instance Z_key : KeyOrder Z := {| key_of z := z; key_cmp := Z.compare |}.

Abbreviation byte := Z.

(** ** The kernel *)

(** One entry of the walk of the tree, with the answers of [is_directory] and
    [is_symlink] (an error answers [false]); an error ends the walk. *)
Inductive visit := Visited (p : path) (directory symlink : bool) | VisitError.

(** What [poll] came back with. *)
Inductive poll_answer :=
| PollInterrupted
| PollFailed
| PollCame (avail : Z) (err hup nval : bool).

Class Kernel := {
  kernel : Type;
  IN_IGNORED : Z; IN_ISDIR : Z; IN_CREATE : Z;
  (** Under the one mask every directory is watched with; [None] is [-1]. *)
  inotify_add_watch : kernel -> path -> kernel * option Z;
  inotify_rm_watch : kernel -> Z -> kernel;
  poll : kernel -> poll_answer;
  (** At most so many bytes; [None] is an error. *)
  read : kernel -> nat -> kernel * option (list byte);
  is_directory : kernel -> path -> bool;
  walk_root : kernel -> list visit;
}.

(** ** The bytes of a read *)

Record raw_event := RawEvent { r_name : string; r_wd : Z; r_mask : Z }.

Definition header_size : nat := 16.
Definition max_event_size : nat := header_size + 255 + 1.
Definition batch_size : nat := 16.

(** Little-endian fields. *)
Definition u32_at (b : list byte) (i : nat) : Z :=
  match drop i b with
  | b0 :: b1 :: b2 :: b3 :: _ => b0 + 2 ^ 8 * b1 + 2 ^ 16 * b2 + 2 ^ 24 * b3
  | _ => 0
  end.

Definition i32_at (b : list byte) (i : nat) : Z :=
  let u := u32_at b i in if u <? 2 ^ 31 then u else u - 2 ^ 32.

Fixpoint c_string (b : list byte) : string :=
  match b with
  | [] => ""
  | x :: b' => if x =? 0 then "" else String (Ascii.ascii_of_nat (Z.to_nat x)) (c_string b')
  end.

(** [struct inotify_event]: wd, mask, cookie, len, name. [fuel] bounds the events. *)
Fixpoint decode_events (fuel : nat) (b : list byte) : list raw_event :=
  match fuel with
  | O => []
  | S fuel' =>
      if (length b <? header_size)%nat then []
      else
        let len := Z.to_nat (u32_at b 12) in
        RawEvent (if (len =? 0)%nat then "" else c_string (drop header_size b)) (i32_at b 0) (u32_at b 4)
        :: decode_events fuel' (drop (header_size + len) b)
  end.

(** ** The monitor *)

Record inotify_event := InotifyEvent { name : option string; mask : Z }.

Record monitor := Monitor { watches : list (Z * path); batch : list inotify_event }.

(** The order of [std::ranges::sort] on paths. *)
Definition not_after (p q : path) : Prop := OrdMap.klt q p = false.

#[export] Instance not_after_dec p q : Decision (not_after p q).
Proof. unfold not_after. apply _. Defined.

Definition watched (m : monitor) : list path := merge_sort not_after (map snd (watches m)).

Section monitor.
Context `{Kernel}.

Definition _read (k : kernel) : kernel * (list raw_event + string) :=
  let '(k, got) := read k (batch_size * max_event_size) in
  match got with
  | None => (k, inr "Failed to read on inotify fd.")
  | Some [] => (k, inr "inotify fd closed")
  | Some b =>
      if (length b <? header_size)%nat then (k, inr "Read something smaller than an inotify event")
      else (k, inl (decode_events (length b) b))
  end.

(** [None] is the exception. *)
Definition _wait (k : kernel) : option Z :=
  match poll k with
  | PollInterrupted => Some 0
  | PollFailed => None
  | PollCame avail err hup nval =>
      if avail =? 1 then if err || hup || nval then None else Some avail
      else Some avail
  end.

Definition root_dir : path := Path ".".

Definition add_watch (st : kernel * monitor) (dir : path) : kernel * monitor :=
  let '(k, m) := st in
  match inotify_add_watch k dir with
  | (k, None) => (k, m)
  | (k, Some wd) => (k, Monitor (OrdMap.insert_or_assign (watches m) wd dir) (batch m))
  end.

(** The watches whose directory is gone, dropped one by one. *)
Fixpoint drop_gone (k : kernel) (w : list (Z * path)) : kernel * list (Z * path) :=
  match w with
  | [] => (k, [])
  | e :: w' =>
      if is_directory k e.2
      then let '(k', kept) := drop_gone k w' in (k', e :: kept)
      else drop_gone (inotify_rm_watch k e.1) w'
  end.

Fixpoint watch_walk (st : kernel * monitor) (walk : list visit) : kernel * monitor :=
  match walk with
  | Visited p directory symlink :: walk' =>
      watch_walk (if directory && negb symlink then add_watch st p else st) walk'
  | VisitError :: _ | [] => st
  end.

Definition resync_watches (k : kernel) (m : monitor) : kernel * monitor :=
  let '(k, kept) := drop_gone k (watches m) in
  let st := add_watch (k, Monitor kept (batch m)) root_dir in
  watch_walk st (walk_root st.1).

Definition drives_sync (ev : inotify_event) : bool :=
  (Z.land (mask ev) IN_CREATE =? 0) || negb (Z.land (mask ev) IN_ISDIR =? 0).

(** The name under the directory its descriptor stands for. *)
Definition expand (m : monitor) (r : raw_event) : inotify_event :=
  InotifyEvent
    (if String.eqb (r_name r) "" then None
     else Some (native (path_append (from_option id root_dir (OrdMap.find (watches m) (r_wd r))) (Path (r_name r)))))
    (r_mask r).

Definition reshapes_tree (r : raw_event) : bool :=
  negb (Z.land (r_mask r) (Z.lor IN_ISDIR IN_IGNORED) =? 0).

Definition refilled (k : kernel) (m : monitor) (raw : list raw_event) : kernel * monitor :=
  let m1 := Monitor
    (foldl (fun w r => if negb (Z.land (r_mask r) IN_IGNORED =? 0) then OrdMap.erase w (r_wd r) else w)
       (watches m) raw)
    (batch m ++ map (expand m) raw) in
  if existsb reshapes_tree raw then resync_watches k m1 else (k, m1).

Definition next_event (k : kernel) (m : monitor) : kernel * monitor * (inotify_event + string) :=
  let '(k, m, failed) :=
    match batch m with
    | [] =>
        match _read k with
        | (k, inr e) => (k, m, Some e)
        | (k, inl raw) => (refilled k m raw, None)
        end
    | _ => (k, m, None)
    end in
  match failed with
  | Some e => (k, m, inr e)
  | None =>
      match batch m with
      | [] => (k, m, inr "Read no inotify event")
      | ev :: rest => (k, Monitor (watches m) rest, inl ev)
      end
  end.

(** [std::runtime_error] out of the poll; [OutOfFuel] when the rounds ran out. *)
Inductive woken := Woken (b : bool) | WaitThrew | OutOfFuel.

Fixpoint wait_loop (fuel : nat) (k : kernel) (m : monitor) : kernel * monitor * woken :=
  match fuel with
  | O => (k, m, OutOfFuel)
  | S fuel' =>
      match next_event k m with
      | (k, m, inr _) => (k, m, Woken false)
      | (k, m, inl ev) =>
          if drives_sync ev then (k, Monitor (watches m) (ev :: batch m), Woken true)
          else match batch m with
               | [] => (k, m, Woken false)
               | _ => wait_loop fuel' k m
               end
      end
  end.

Definition wait (fuel : nat) (k : kernel) (m : monitor) : kernel * monitor * woken :=
  match batch m with
  | [] =>
      match _wait k with
      | None => (k, m, WaitThrew)
      | Some avail => if avail <=? 0 then (k, m, Woken false) else wait_loop fuel k m
      end
  | _ => wait_loop fuel k m
  end.

Definition discard (k : kernel) (m : monitor) : kernel * monitor * option string :=
  let '(k, m, consumed) := next_event k m in
  let '(k, m) := resync_watches k (Monitor (watches m) []) in
  (k, m, match consumed with inr e => Some e | inl _ => None end).

(** [None] is the exception of the constructor. *)
Definition new_monitor (k : kernel) : option (kernel * monitor) :=
  match inotify_add_watch k root_dir with
  | (_, None) => None
  | (k, Some root) => Some (resync_watches k (Monitor (OrdMap.insert_or_assign [] root root_dir) []))
  end.
End monitor.

(** ** Lemmas: the buffer *)

Definition le32 (z : Z) : list byte :=
  [z mod 2 ^ 8; z / 2 ^ 8 mod 2 ^ 8; z / 2 ^ 16 mod 2 ^ 8; z / 2 ^ 24 mod 2 ^ 8].

Definition bytes_of (s : string) : list byte := map (fun c => Z.of_nat (Ascii.nat_of_ascii c)) (String.list_ascii_of_string s).

(** An event as the kernel lays it out, its name padded with NULs. *)
Record laid_event := Laid { l_event : raw_event; l_cookie : Z; l_padding : nat }.

Definition event_bytes (e : laid_event) : list byte :=
  let name := bytes_of (r_name (l_event e)) ++ repeat 0 (l_padding e) in
  le32 (r_wd (l_event e) mod 2 ^ 32) ++ le32 (r_mask (l_event e)) ++ le32 (l_cookie e)
    ++ le32 (Z.of_nat (length name)) ++ name.

Definition laid_ok (e : laid_event) : Prop :=
  - 2 ^ 31 <= r_wd (l_event e) < 2 ^ 31 /\ 0 <= r_mask (l_event e) < 2 ^ 32 /\
  has_char NUL (r_name (l_event e)) = false /\
  (if String.eqb (r_name (l_event e)) "" then l_padding e = 0%nat else (0 < l_padding e)%nat) /\
  Z.of_nat (length (bytes_of (r_name (l_event e))) + l_padding e) < 2 ^ 32.

Lemma u32_le32 z rest : 0 <= z < 2 ^ 32 -> u32_at (le32 z ++ rest) 0 = z.
Proof.
  intros Hz. unfold u32_at, le32. cbn [drop app]. change (2 ^ 8) with 256. change (2 ^ 16) with 65536.
  change (2 ^ 24) with 16777216. pose proof (Z.div_mod z 256 ltac:(lia)).
  pose proof (Z.div_mod (z / 256) 256 ltac:(lia)). pose proof (Z.div_mod (z / 65536) 256 ltac:(lia)).
  assert (z / 65536 = z / 256 / 256) by (by rewrite Z.div_div by lia).
  assert (z / 16777216 = z / 65536 / 256) by (by rewrite Z.div_div by lia).
  rewrite (Z.mod_small (z / 16777216)); [lia|]. split; [apply Z.div_pos; lia|].
  apply Z.div_lt_upper_bound; lia.
Qed.

Lemma u32_at_app a b i : length a = i -> u32_at (a ++ b) i = u32_at b 0.
Proof. intros <-. unfold u32_at. by rewrite drop_app_length. Qed.

Lemma i32_signed w : - 2 ^ 31 <= w < 2 ^ 31 ->
  (if w mod 2 ^ 32 <? 2 ^ 31 then w mod 2 ^ 32 else w mod 2 ^ 32 - 2 ^ 32) = w.
Proof.
  intros Hw. destruct (Z.ltb_spec w 0).
  - replace (w mod 2 ^ 32) with (w + 2 ^ 32).
    + replace (w + 2 ^ 32 <? 2 ^ 31) with false by lia. lia.
    + symmetry. rewrite <- (Z_mod_plus_full w 1 (2 ^ 32)). apply Z.mod_small. lia.
  - rewrite Z.mod_small by lia. by replace (w <? 2 ^ 31) with true by lia.
Qed.

Lemma i32_le32 w rest : - 2 ^ 31 <= w < 2 ^ 31 -> i32_at (le32 (w mod 2 ^ 32) ++ rest) 0 = w.
Proof.
  intros Hw. unfold i32_at. rewrite u32_le32 by (apply Z.mod_pos_bound; lia). by apply i32_signed.
Qed.

Lemma c_string_bytes s n rest : has_char NUL s = false -> (0 < n)%nat ->
  c_string (bytes_of s ++ repeat 0 n ++ rest) = s.
Proof.
  intros Hs Hn. induction s as [|c s IH].
  - destruct n; [lia|]. done.
  - apply has_char_cons_false in Hs as [Hc Hs]. cbn [bytes_of String.list_ascii_of_string map app c_string].
    replace (Z.of_nat (Ascii.nat_of_ascii c) =? 0) with false.
    + rewrite Nat2Z.id, Ascii.ascii_nat_embedding. f_equal. by apply IH.
    + symmetry. apply Z.eqb_neq. intros Heq. apply Hc. unfold NUL.
      rewrite <- (Ascii.ascii_nat_embedding c). by replace (Ascii.nat_of_ascii c) with 0%nat by lia.
Qed.

Lemma length_le32 z : length (le32 z) = 4%nat.
Proof. reflexivity. Qed.

Lemma bytes_of_nil s : bytes_of s = [] -> s = "".
Proof. by destruct s. Qed.

Definition name_field (e : laid_event) : list byte :=
  bytes_of (r_name (l_event e)) ++ repeat 0 (l_padding e).

Lemma length_event_bytes e : length (event_bytes e) = (header_size + length (name_field e))%nat.
Proof. unfold event_bytes, name_field, header_size. rewrite !length_app, !length_le32. lia. Qed.

Lemma decoded_name e rest : laid_ok e ->
  (if (length (name_field e) =? 0)%nat then "" else c_string (name_field e ++ rest)) = r_name (l_event e).
Proof.
  intros (_ & _ & Hnul & Hpad & _). unfold name_field. destruct (String.eqb_spec (r_name (l_event e)) "") as [Hn|Hn].
  - by rewrite Hn, Hpad.
  - replace (_ =? 0)%nat with false.
    + rewrite <- app_assoc. by apply c_string_bytes.
    + symmetry. apply Nat.eqb_neq. rewrite length_app, repeat_length. lia.
Qed.

Lemma decode_one e rest fuel : laid_ok e ->
  decode_events (S fuel) (event_bytes e ++ rest) = l_event e :: decode_events fuel rest.
Proof.
  intros Hok. pose proof (decoded_name e rest Hok) as Hname.
  pose proof (length_event_bytes e) as Hlen. destruct Hok as (Hwd & Hmask & _ & _ & Hfit).
  assert (Z.of_nat (length (name_field e)) < 2 ^ 32) as Hfield.
  { unfold name_field. rewrite length_app, repeat_length. lia. }
  cbn [decode_events]. rewrite length_app, Hlen.
  replace (_ <? header_size)%nat with false by (symmetry; apply Nat.ltb_ge; lia).
  unfold event_bytes in *. fold (name_field e) in *. rewrite <- !app_assoc.
  set (w := le32 (r_wd (l_event e) mod 2 ^ 32)). set (mk := le32 (r_mask (l_event e))).
  set (ck := le32 (l_cookie e)). set (ln := le32 (Z.of_nat (length (name_field e)))).
  replace (u32_at _ 12) with (Z.of_nat (length (name_field e))).
  2: { replace (w ++ mk ++ ck ++ ln ++ name_field e ++ rest)
         with ((w ++ mk ++ ck) ++ ln ++ name_field e ++ rest) by (by rewrite <- !app_assoc).
       rewrite u32_at_app by reflexivity. symmetry. apply u32_le32. lia. }
  rewrite Nat2Z.id.
  replace (i32_at _ 0) with (r_wd (l_event e)) by (symmetry; by apply i32_le32).
  replace (u32_at _ 4) with (r_mask (l_event e))
    by (symmetry; rewrite (u32_at_app w) by reflexivity; by apply u32_le32).
  replace (drop header_size _) with (name_field e ++ rest).
  2: { change (w ++ mk ++ ck ++ ln ++ name_field e ++ rest)
         with ((w ++ mk ++ ck ++ ln) ++ name_field e ++ rest).
       symmetry. by apply drop_app_length'. }
  rewrite Hname. f_equal; [by destruct (l_event e)|]. f_equal.
  replace (w ++ mk ++ ck ++ ln ++ name_field e ++ rest)
    with ((w ++ mk ++ ck ++ ln ++ name_field e) ++ rest) by (by rewrite <- !app_assoc).
  apply drop_app_length'. rewrite !length_app. reflexivity.
Qed.

Lemma decode_all es fuel : Forall laid_ok es -> (length es < fuel)%nat ->
  decode_events fuel (concat (map event_bytes es)) = map l_event es.
Proof.
  revert fuel. induction es as [|e es IH]; intros fuel Hes Hf; (destruct fuel as [|fuel]; [lia|]).
  - reflexivity.
  - apply Forall_cons in Hes as [He Hes]. cbn [map concat]. rewrite decode_one by done.
    f_equal. apply IH; [done|]. simpl in Hf. lia.
Qed.

Lemma length_concat_events es : (header_size * length es <= length (concat (map event_bytes es)))%nat.
Proof.
  induction es as [|e es IH]; [done|]. cbn [map concat]. rewrite length_app, length_event_bytes.
  simpl length. lia.
Qed.

(** ** Lemmas: waking *)

(** What is left once the events that drive nothing are skipped. *)
Fixpoint from_first_driver `{Kernel} (evs : list inotify_event) : list inotify_event :=
  match evs with
  | [] => []
  | ev :: evs' => if drives_sync ev then evs else from_first_driver evs'
  end.

(** The state whose batch [wait] goes through: the batch kept from the last read, or
    the one this read fills; none when nothing is ready or the read fails. *)
Definition pending `{Kernel} (k : kernel) (m : monitor) : option (kernel * monitor) :=
  match batch m with
  | [] =>
      match _wait k with
      | Some avail =>
          if avail <=? 0 then None
          else match _read k with (k', inl raw) => Some (refilled k' m raw) | _ => None end
      | None => None
      end
  | _ => Some (k, m)
  end.

Section waking.
Context `{Kernel}.
Implicit Types (k : kernel) (m : monitor).

Lemma wait_loop_batch fuel k w evs : evs <> [] -> (length evs < fuel)%nat ->
  wait_loop fuel k (Monitor w evs) =
  (k, Monitor w (from_first_driver evs), Woken (existsb drives_sync evs)).
Proof.
  revert fuel. induction evs as [|ev evs IH]; intros fuel Hne Hf; [done|].
  destruct fuel as [|fuel]; [simpl in Hf; lia|].
  cbn [wait_loop next_event batch watches from_first_driver existsb].
  destruct (drives_sync ev); [done|]. cbn [orb]. destruct evs as [|ev' evs]; [done|].
  apply IH; [done|]. simpl in *. lia.
Qed.

(** The batch after a refill: the old one, then the new events under the names their
    descriptors stood for before the resync. *)
Lemma add_watch_batch k m p : batch (add_watch (k, m) p).2 = batch m.
Proof. unfold add_watch. by destruct (inotify_add_watch k p) as [? []]. Qed.

Lemma watch_walk_batch walk st : batch (watch_walk st walk).2 = batch st.2.
Proof.
  revert st. induction walk as [|[p d s|] walk IH]; intros [k m]; [done| |done].
  cbn [watch_walk]. rewrite IH. destruct (d && negb s); [apply add_watch_batch|done].
Qed.

Lemma resync_batch k m : batch (resync_watches k m).2 = batch m.
Proof.
  unfold resync_watches. destruct (drop_gone k (watches m)) as [k' kept].
  by rewrite watch_walk_batch, add_watch_batch.
Qed.

Lemma refilled_batch k m raw : batch (refilled k m raw).2 = batch m ++ map (expand m) raw.
Proof. unfold refilled. destruct (existsb _ _); [by rewrite resync_batch|done]. Qed.

Lemma next_event_refills k m k' raw : batch m = [] -> _read k = (k', inl raw) -> raw <> [] ->
  exists ev evs, batch (refilled k' m raw).2 = ev :: evs /\
    next_event k m = ((refilled k' m raw).1, Monitor (watches (refilled k' m raw).2) evs, inl ev).
Proof.
  intros Hm Hr Hne. unfold next_event. rewrite Hm, Hr. pose proof (refilled_batch k' m raw) as Hb.
  rewrite Hm in Hb. destruct (refilled k' m raw) as [k2 m2]. destruct raw as [|r raw]; [done|].
  simpl in Hb. cbn [fst snd]. rewrite Hb. eauto.
Qed.

Lemma read_nonempty k k' raw : _read k = (k', inl raw) -> raw <> [].
Proof.
  unfold _read. destruct (read k _) as [k1 [b|]]; [|done]. destruct b as [|x b]; [done|].
  destruct (Nat.ltb_spec (length (x :: b)) header_size) as [|Hl]; [done|]. intros [= _ <-].
  cbn [length decode_events]. replace (_ <? _)%nat with false by (symmetry; apply Nat.ltb_ge; done). done.
Qed.

(** The loop is woken exactly when an event that can have changed the
    listing is among those read or kept, that event is still there to be
    consumed, and only events before it are gone; nothing else is dropped, and
    one round per event is enough. *)
Lemma wait_wakes_exactly fuel k m :
  (0 < fuel)%nat ->
  (forall kq mq, pending k m = Some (kq, mq) -> (length (batch mq) < fuel)%nat) ->
  match pending k m with
  | Some (kq, mq) =>
      wait fuel k m =
      (kq, Monitor (watches mq) (from_first_driver (batch mq)), Woken (existsb drives_sync (batch mq)))
  | None => exists k' r, wait fuel k m = (k', m, r) /\ (r = Woken false \/ r = WaitThrew)
  end.
Proof.
  intros H0 Hf. unfold pending in *. destruct m as [w [|ev evs]]; cbn [batch] in *.
  2: { apply wait_loop_batch; [done|]. by apply (Hf k (Monitor w (ev :: evs))). }
  unfold wait. cbn [batch]. destruct (_wait k) as [avail|]; [|eauto]. destruct (avail <=? 0); [eauto|].
  destruct (_read k) as [k' [raw|e]] eqn:Er.
  2: { destruct fuel as [|fuel]; [lia|]. exists k', (Woken false). cbn [wait_loop].
       unfold next_event. cbn [batch]. rewrite Er. auto. }
  pose proof (read_nonempty _ _ _ Er) as Hne.
  destruct (next_event_refills k (Monitor w []) k' raw eq_refl Er Hne) as (ev & evs & Hb & Hn).
  destruct (refilled k' (Monitor w []) raw) as [kq mq]. cbn [fst snd] in *.
  specialize (Hf _ _ eq_refl). destruct fuel as [|fuel]; [lia|].
  cbn [wait_loop]. rewrite Hn. cbn [watches batch]. rewrite Hb in *. cbn [from_first_driver existsb].
  destruct (drives_sync ev); [done|]. cbn [orb]. destruct evs as [|ev' evs]; [done|].
  apply wait_loop_batch; [done|]. simpl in *. lia.
Qed.

(** C26: a read of whole events, as the kernel lays them out, is decoded to exactly
    those events, names and signed descriptors included. *)
Theorem read_decodes_events k k' es :
  read k (batch_size * max_event_size) = (k', Some (concat (map event_bytes es))) ->
  es <> [] -> Forall laid_ok es ->
  _read k = (k', inl (map l_event es)).
Proof.
  intros Hr Hne Hes. unfold _read. rewrite Hr. pose proof (length_concat_events es) as Hl.
  pose proof (decode_all es (length (concat (map event_bytes es))) Hes) as Hd.
  unfold header_size in *. assert (0 < length es)%nat by (destruct es; [done|simpl; lia]).
  destruct (concat (map event_bytes es)) as [|x b]; [simpl in Hl; lia|].
  replace (_ <? _)%nat with false by (symmetry; apply Nat.ltb_ge; lia). rewrite Hd by lia. done.
Qed.
End waking.

(** ** Lemmas: watching the tree *)

(** What inotify(7) promises while the limit of watches is not reached: a directory is
    watched under one descriptor however often it is added, two directories of the tree
    under different ones, and adding or dropping a watch leaves the tree as it is. *)
Class WatchLaws `{Kernel} := {
  wd_of : kernel -> path -> Z;
  add_answers k p : is_directory k p = true -> (inotify_add_watch k p).2 = Some (wd_of k p);
  add_keeps_wd k q p : wd_of (inotify_add_watch k q).1 p = wd_of k p;
  add_keeps_dirs k q p : is_directory (inotify_add_watch k q).1 p = is_directory k p;
  add_keeps_walk k q : walk_root (inotify_add_watch k q).1 = walk_root k;
  rm_keeps_dirs k w p : is_directory (inotify_rm_watch k w) p = is_directory k p;
  root_is_directory k : is_directory k root_dir = true;
  walk_says_directory k p s : Visited p true s ∈ walk_root k -> is_directory k p = true;
}.

(** The directories of a walk that are not symlinks, up to its first error. *)
Fixpoint walked (walk : list visit) : list path :=
  match walk with
  | Visited p directory symlink :: walk' => if directory && negb symlink then p :: walked walk' else walked walk'
  | VisitError :: _ | [] => []
  end.

Definition tree_dirs `{Kernel} (k : kernel) : list path := root_dir :: walked (walk_root k).

(** The watches gained by adding the directories [ps], descriptors given by [f]. *)
Definition watch_all (f : path -> Z) (w : list (Z * path)) (ps : list path) : list (Z * path) :=
  foldl (fun w p => OrdMap.insert_or_assign w (f p) p) w ps.

Section watching.
Context `{WatchLaws}.
Implicit Types (k : kernel) (m : monitor).

Lemma walked_elem p walk : p ∈ walked walk -> exists s, Visited p true s ∈ walk.
Proof.
  induction walk as [|[q d s|] walk IH]; cbn [walked]; [by intros ?%elem_of_nil| |by intros ?%elem_of_nil].
  intros Hp. destruct (d && negb s) eqn:E; [apply elem_of_cons in Hp as [->|Hp]|].
  - bool_hyps. subst. eexists. apply elem_of_cons. by left.
  - destruct (IH Hp) as [s' ?]. exists s'. apply elem_of_cons. by right.
  - destruct (IH Hp) as [s' ?]. exists s'. apply elem_of_cons. by right.
Qed.

Lemma tree_dirs_are_directories k p : p ∈ tree_dirs k -> is_directory k p = true.
Proof.
  intros [->|Hp]%elem_of_cons; [apply root_is_directory|].
  destruct (walked_elem _ _ Hp) as [s Hs]. by eapply walk_says_directory.
Qed.

Lemma watch_walk_folds walk st : watch_walk st walk = foldl add_watch st (walked walk).
Proof.
  revert st. induction walk as [|[p d s|] walk IH]; intros st; [done| |done].
  cbn [watch_walk walked]. rewrite IH. by destruct (d && negb s).
Qed.

Lemma add_watch_adds k m p : is_directory k p = true ->
  add_watch (k, m) p =
  ((inotify_add_watch k p).1, Monitor (OrdMap.insert_or_assign (watches m) (wd_of k p) p) (batch m)).
Proof.
  intros Hp. unfold add_watch. pose proof (add_answers k p Hp) as Ha.
  destruct (inotify_add_watch k p) as [k' o]. simpl in *. by subst.
Qed.

Lemma add_watches ps k m : (forall p, p ∈ ps -> is_directory k p = true) ->
  (foldl add_watch (k, m) ps).2 = Monitor (watch_all (wd_of k) (watches m) ps) (batch m).
Proof.
  revert k m. induction ps as [|p ps IH]; intros k m Hps; [by destruct m|].
  cbn [foldl]. rewrite add_watch_adds by (apply Hps; apply elem_of_cons; by left).
  rewrite IH.
  - cbn [watches batch]. unfold watch_all. cbn [foldl]. f_equal.
    generalize (OrdMap.insert_or_assign (watches m) (wd_of k p) p) as w. clear IH Hps.
    induction ps as [|q ps IHp]; intros w; [done|]. cbn [foldl]. by rewrite add_keeps_wd, IHp.
  - intros q Hq. rewrite add_keeps_dirs. apply Hps, elem_of_cons. by right.
Qed.

Lemma drop_gone_keeps k w : (drop_gone k w).2 = List.filter (fun e => is_directory k e.2) w /\
  forall p, is_directory (drop_gone k w).1 p = is_directory k p.
Proof.
  revert k. induction w as [|e w IH]; intros k; [done|]. cbn [drop_gone List.filter].
  destruct (is_directory k e.2) eqn:E.
  - destruct (IH k) as [Hk Hd]. destruct (drop_gone k w). simpl in *. by rewrite Hk.
  - destruct (IH (inotify_rm_watch k e.1)) as [Hk Hd]. split.
    + rewrite Hk. apply filter_ext. intros. apply rm_keeps_dirs.
    + intros p. by rewrite Hd, rm_keeps_dirs.
Qed.

Lemma watch_all_sorted f w ps : OrdMap.sorted w -> OrdMap.sorted (watch_all f w ps).
Proof.
  revert w. induction ps as [|p ps IH]; intros w Hw; [done|]. apply IH. auto with syncfs.
Qed.

Lemma watch_all_find f w ps p : OrdMap.sorted w ->
  (forall q, q ∈ ps -> f q = f p -> q = p) ->
  OrdMap.find (watch_all f w ps) (f p) = Some p <-> p ∈ ps \/ OrdMap.find w (f p) = Some p.
Proof.
  revert w. induction ps as [|q ps IH]; intros w Hw Hinj.
  - unfold watch_all. cbn [foldl]. rewrite elem_of_nil. tauto.
  - unfold watch_all. cbn [foldl]. fold (watch_all f (OrdMap.insert_or_assign w (f q) q) ps).
    rewrite IH by (auto with syncfs; intros q' Hq'; apply Hinj, elem_of_cons; by right).
    rewrite OrdMap.find_insert by done. rewrite elem_of_cons. unfold OrdMap.keq, OrdMap.kcmp. cbn.
    destruct (Z.compare_spec (f q) (f p)) as [He| |].
    + rewrite (Hinj q) by (try apply elem_of_cons; auto). tauto.
    + split; [tauto|]. intros [[->|?]|?]; [lia|tauto|tauto].
    + split; [tauto|]. intros [[->|?]|?]; [lia|tauto|tauto].
Qed.

Lemma insert_elem (w : list (Z * path)) i p e : e ∈ OrdMap.insert_or_assign w i p -> e = (i, p) \/ e ∈ w.
Proof.
  induction w as [|[j q] w IH]; cbn [OrdMap.insert_or_assign].
  - intros [->|[]%elem_of_nil]%elem_of_cons; auto.
  - unfold OrdMap.kcmp. cbn. destruct (Z.compare_spec i j) as [->| |]; rewrite !elem_of_cons; intuition.
Qed.

Lemma watch_all_elem f w ps e : e ∈ watch_all f w ps -> e.2 ∈ ps \/ e ∈ w.
Proof.
  revert w. induction ps as [|p ps IH]; intros w He; [by right|].
  apply IH in He as [He|He]; [left; apply elem_of_cons; by right|].
  apply insert_elem in He as [->|He]; [left; apply elem_of_cons; by left|by right].
Qed.

(** C25: a resync watches every directory of the tree under its own descriptor,
    and what else is still watched was watched before and is still a directory;
    a stale path does not survive it, and no event is lost. *)
Theorem resync_watches_the_tree k m :
  let k0 := (drop_gone k (watches m)).1 in
  let after := (resync_watches k m).2 in
  OrdMap.sorted (watches m) ->
  (forall p q, p ∈ tree_dirs k0 -> q ∈ tree_dirs k0 -> wd_of k0 p = wd_of k0 q -> p = q) ->
  OrdMap.sorted (watches after) /\ batch after = batch m /\
  (forall p, p ∈ tree_dirs k0 -> OrdMap.find (watches after) (wd_of k0 p) = Some p) /\
  (forall wd p, (wd, p) ∈ watches after ->
     p ∈ tree_dirs k0 \/ (wd, p) ∈ watches m /\ is_directory k p = true).
Proof.
  intros k0 after Hs Hinj.
  assert (after = Monitor (watch_all (wd_of k0) (drop_gone k (watches m)).2 (tree_dirs k0)) (batch m)) as ->.
  { subst after k0. unfold resync_watches. destruct (drop_gone k (watches m)) as [k0 kept]. cbn [fst snd].
    rewrite watch_walk_folds.
    assert (walk_root (add_watch (k0, Monitor kept (batch m)) root_dir).1 = walk_root k0) as ->.
    { rewrite add_watch_adds by apply root_is_directory. apply add_keeps_walk. }
    apply (add_watches (tree_dirs k0) k0 (Monitor kept (batch m))). apply tree_dirs_are_directories. }
  destruct (drop_gone_keeps k (watches m)) as [Hkept Hdirs]. rewrite Hkept.
  assert (OrdMap.sorted (List.filter (fun e : Z * path => is_directory k e.2) (watches m))) as Hf
    by auto with syncfs.
  repeat split; cbn [watches batch].
  - by apply watch_all_sorted.
  - intros p Hp. apply watch_all_find; [done| |by left]. intros q Hq He. by apply Hinj.
  - intros wd p Hin. apply watch_all_elem in Hin as [Hin|Hin]; [by left|right].
    apply list_elem_of_In, filter_In in Hin as [Hin Hd]. apply list_elem_of_In in Hin. done.
Qed.
End watching.

(** ** A concrete kernel *)

Module MonitorSim.
Record toy := Toy { queued : list Z; dirs : list path }.

Fixpoint position (ps : list path) (p : path) : Z :=
  match ps with
  | [] => 1
  | q :: ps' => if decide (q = p) then 1 else 1 + position ps' p
  end.

#[export] Instance toy_kernel : Kernel := {|
  kernel := toy;
  IN_IGNORED := 2 ^ 15; IN_ISDIR := 2 ^ 30; IN_CREATE := 2 ^ 8;
  inotify_add_watch k p :=
    (k, if bool_decide (p ∈ root_dir :: dirs k) then Some (position (root_dir :: dirs k) p) else None);
  inotify_rm_watch k _ := k;
  poll k := PollCame (match queued k with [] => 0 | _ => 1 end) false false false;
  read k _ := (Toy [] (dirs k), Some (queued k));
  is_directory k p := bool_decide (p ∈ root_dir :: dirs k);
  walk_root k := map (fun p => Visited p true false) (dirs k);
|}.

#[export, refine] Instance toy_laws : WatchLaws := {|
  wd_of (k : kernel) p := position (root_dir :: dirs k) p
|}.
Proof.
  - intros k p Hp. cbn in *. by rewrite Hp.
  - done.
  - done.
  - done.
  - done.
  - intros k. cbn. apply bool_decide_eq_true_2, elem_of_cons. by left.
  - intros k p s Hp. cbn in *. apply list_elem_of_fmap in Hp as (q & [= -> _] & Hq).
    apply bool_decide_eq_true_2, elem_of_cons. by right.
Defined.

(** A file created and then written in a watched directory. *)
Definition two_events : list laid_event :=
  [Laid (RawEvent "f" 2 (2 ^ 8)) 0 3; Laid (RawEvent "f" 2 8) 0 3].

Definition disk : toy := Toy (concat (map event_bytes two_events)) [Path "./d"].
Definition fresh : monitor := Monitor [(1, root_dir); (2, Path "./d")] [].

Example woken_by_the_write :
  wait 3 disk fresh =
  (Toy [] [Path "./d"],
   Monitor [(1, root_dir); (2, Path "./d")] [InotifyEvent (Some "./d/f") 8], Woken true).
Proof. reflexivity. Qed.

(** A directory renamed under its descriptor. *)
Example stale_path_is_replaced :
  snd (resync_watches (Toy [] [Path "./new"] : kernel) (Monitor [(1, root_dir); (7, Path "./old")] [])) =
  Monitor [(1, root_dir); (2, Path "./new")] [].
Proof. reflexivity. Qed.
End MonitorSim.
Import MonitorSim.

Lemma read_decodes_events_witness :
  _read (disk : kernel) =
  (Toy [] [Path "./d"], inl [RawEvent "f" 2 (2 ^ 8); RawEvent "f" 2 8]).
Proof.
  apply (@read_decodes_events toy_kernel disk _ two_events); [reflexivity|done|].
  repeat constructor; vm_compute; congruence.
Defined.

Lemma resync_watches_the_tree_witness :
  let k : @kernel toy_kernel := Toy [] [Path "./new"] in
  let after := (resync_watches k (Monitor [(1, root_dir); (7, Path "./old")] [])).2 in
  OrdMap.find (watches after) 2 = Some (Path "./new") /\ (7, Path "./old") ∉ watches after.
Proof.
  intros k; cbv zeta.
  destruct (@resync_watches_the_tree toy_kernel toy_laws k (Monitor [(1, root_dir); (7, Path "./old")] [])) as (_ & _ & Hf & He).
  - by apply OrdMap.sortedb_sorted.
  - intros p q Hp Hq. vm_compute in Hp, Hq. apply list_elem_of_In in Hp, Hq. destruct Hp as [<-|[<-|[]]], Hq as [<-|[<-|[]]]; done.
  - split.
    + apply (Hf (Path "./new")). apply elem_of_cons. right. apply elem_of_cons. by left.
    + intros Hin. apply He in Hin as [Hin|[_ Hd]]; [|done].
      apply list_elem_of_In in Hin. destruct Hin as [Hin|[Hin|[]]]; done.
Defined.
