(* ===== verification/Discovery.v ===== *)
(** * src/discovery.cpp: the peers file

    [parse] reads addresses with [istream::getline] into a fixed buffer.  The
    stream is modelled with its state bits, because the loop's conditions read
    them: [getline] sets [eofbit] at the end of the file, and [failbit] when it
    extracts nothing or fills the buffer before the delimiter. *)

From S2P Require Import Prelude.

Definition max_line_len : nat := String.length "tcp://255.255.255.255:65535" + 1.

(** [broken]: reading past [rest] is a device error, not the end of the file
    (a directory opens, and then cannot be read). *)
Record istream := {
  rest : string;
  broken : bool;
  eofbit : bool;
  failbit : bool;
  badbit : bool;
}.

Definition fresh_stream (contents : string) (broken : bool) : istream :=
  {| rest := contents; broken := broken; eofbit := false; failbit := false; badbit := false |}.

Definition good (f : istream) : bool := negb (eofbit f || failbit f || badbit f).

(** [fail()] reads both bits. *)
Definition fail (f : istream) : bool := failbit f || badbit f.

(** How the extraction of a line ended. *)
Inductive line_end := AtDelimiter | AtEnd | BufferFull.

(** The extraction loop of [getline(buffer, n)]: end of file, then the
    delimiter, then the full buffer, in that order. [room] is how many
    characters may still be stored. *)
Fixpoint getline_loop (room : nat) (s : string) {struct s} : string * line_end * string :=
  match s with
  | EmptyString => (EmptyString, AtEnd, EmptyString)
  | String a s' =>
      if decide (a = NEWLINE) then (EmptyString, AtDelimiter, s')
      else
        match room with
        | O => (EmptyString, BufferFull, s)
        | S room' => let '(line, e, r) := getline_loop room' s' in (String a line, e, r)
        end
  end.

(** A stream whose state is not good stores nothing and fails again; a call
    that extracts nothing at all (end of file at once) fails as well. *)
Definition getline (n : nat) (f : istream) : string * istream :=
  if negb (good f) then
    (EmptyString, {| rest := rest f; broken := broken f; eofbit := eofbit f;
                     failbit := true; badbit := badbit f |})
  else
    let '(line, e, r) := getline_loop (n - 1) (rest f) in
    let at_end := match e with AtEnd => true | _ => false end in
    let full := match e with BufferFull => true | _ => false end in
    (line, {| rest := r; broken := broken f;
              eofbit := at_end && negb (broken f);
              failbit := full || String.eqb (rest f) "";
              badbit := at_end && broken f |}).

(** [std::string_view{line.data()}]: up to the first NUL of the buffer. *)
Definition c_str (line : string) : string :=
  match cut NUL line with Some (before, _) => before | None => line end.

Inductive discovery_error :=
| CannotRead
| LineTooLong (limit : nat).

(** The loop; [fuel] bounds the lines read. *)
Fixpoint parse_loop (fuel : nat) (f : istream) (acc : list string)
    : option (list string + discovery_error) :=
  match fuel with
  | O => None
  | S fuel' =>
      if eofbit f then Some (inl acc)
      else
        let '(line, f') := getline max_line_len f in
        if badbit f' then Some (inr CannotRead)
        else if fail f' && negb (eofbit f') then Some (inr (LineTooLong max_line_len))
        else
          let address := c_str line in
          parse_loop fuel' f' (if String.eqb address "" then acc else acc ++ [address])
  end.

(** What opening the file gives: nothing, or a text and whether the device fails
    after it. *)
Inductive opened := NotOpen | Open (contents : string) (broken : bool).

(** Each line consumes a character, so two more rounds than characters are
    enough. *)
Definition parse (file : opened) : option (list string + discovery_error) :=
  match file with
  | NotOpen => Some (inr CannotRead)
  | Open contents broken =>
      parse_loop (String.length contents + 2) (fresh_stream contents broken) []
  end.

(** ** Examples: the limit is 27 characters *)

Definition text (contents : string) : opened := Open contents false.

Example parse_plain :
  parse (text ("tcp://a:1" +:+ String NEWLINE (String NEWLINE "tcp://b:2"))) =
  Some (inl ["tcp://a:1"; "tcp://b:2"]).
Proof. reflexivity. Qed.

Example parse_27_at_eof :
  parse (text "tcp://255.255.255.255:65535") = Some (inl ["tcp://255.255.255.255:65535"]).
Proof. reflexivity. Qed.

Example parse_28 : parse (text "tcp://255.255.255.255:655350") = Some (inr (LineTooLong 28)).
Proof. reflexivity. Qed.

Example parse_blank : parse (text (String NEWLINE "")) = Some (inl []).
Proof. reflexivity. Qed.

Example parse_directory : parse (Open "" true) = Some (inr CannotRead).
Proof. reflexivity. Qed.

(** ** Lemmas *)

Lemma getline_loop_line room l s :
  has_char NEWLINE l = false -> (String.length l <= room)%nat ->
  getline_loop room (l +:+ String NEWLINE s) = (l, AtDelimiter, s).
Proof.
  revert room. induction l as [|a l IH]; intros room Hl Hr; [by destruct room|].
  apply has_char_cons_false in Hl as [Ha Hl]. rewrite str_app_cons.
  destruct room as [|room]; simpl in *; [lia|]. rewrite decide_False by done.
  rewrite IH by (done || lia). done.
Qed.

Lemma getline_loop_long room l s :
  has_char NEWLINE l = false -> (room < String.length l)%nat ->
  exists line r, getline_loop room (l +:+ s) = (line, BufferFull, r).
Proof.
  revert room. induction l as [|a l IH]; intros room Hl Hr; simpl in *; [lia|].
  apply has_char_cons_false in Hl as [Ha Hl]. rewrite ?str_app_cons.
  destruct room as [|room]; simpl; rewrite decide_False by done; [by eauto|].
  destruct (IH room Hl ltac:(lia)) as (line & r & ->). eauto.
Qed.

(** What is left after a delimiter is shorter than what was there. *)
Lemma getline_loop_shrinks room s line r :
  getline_loop room s = (line, AtDelimiter, r) -> (String.length r < String.length s)%nat.
Proof.
  revert room line r. induction s as [|a s IH]; intros room line r; simpl; [done|].
  case_decide; [intros [= <- <-]; lia|]. destruct room as [|room]; [done|].
  destruct (getline_loop room s) as [[l' e'] r'] eqn:E. intros [= <- -> <-].
  specialize (IH _ _ _ E). lia.
Qed.

Lemma parse_loop_total fuel f acc :
  good f = true -> (String.length (rest f) + 2 <= fuel)%nat -> is_Some (parse_loop fuel f acc).
Proof.
  revert f acc. induction fuel as [|fuel IH]; intros f acc Hf Hl; [lia|].
  cbn [parse_loop]. destruct (eofbit f); [by eexists|].
  unfold getline. rewrite Hf. cbn [negb].
  destruct (getline_loop _ _) as [[line e] r] eqn:E. unfold fail. cbn [failbit eofbit badbit].
  destruct e; cbn [andb orb negb]; [|destruct (broken f); [by eexists|]|by eexists].
  - destruct (String.eqb (rest f) ""); [by eexists|]. apply IH; [done|]. cbn [rest].
    apply getline_loop_shrinks in E. lia.
  - cbn [negb andb]. rewrite andb_false_r.
    destruct fuel as [|fuel]; [lia|]. cbn [parse_loop eofbit]. by eexists.
Qed.

Lemma c_str_id s : has_char NUL s = false -> c_str s = s.
Proof. intros H. unfold c_str. by rewrite (proj2 (cut_None NUL s) H). Qed.

(** A line the parser keeps as it stands. *)
Definition plain_line (l : string) : Prop :=
  has_char NEWLINE l = false /\ has_char NUL l = false /\ (String.length l < max_line_len)%nat.

Definition unlines (ls : list string) : string :=
  str_concat (map (fun l => l +:+ String NEWLINE "") ls).

Definition non_blank (l : string) : bool := negb (String.eqb l "").

Lemma parse_loop_line fuel l s b acc :
  plain_line l ->
  parse_loop (S fuel) (fresh_stream (l +:+ String NEWLINE s) b) acc =
  parse_loop fuel (fresh_stream s b) (if String.eqb l "" then acc else acc ++ [l]).
Proof.
  intros (H1 & H2 & H3). cbn [parse_loop fresh_stream eofbit]. unfold getline, good.
  cbn [fresh_stream eofbit failbit badbit rest orb negb].
  rewrite getline_loop_line by (done || lia). unfold fail.
  cbn [rest eofbit failbit badbit broken orb andb].
  replace (String.eqb (l +:+ String NEWLINE s) "") with false by (by destruct l).
  cbn [andb orb]. by rewrite c_str_id.
Qed.

Lemma parse_loop_unlines ls fuel s b acc :
  Forall plain_line ls ->
  parse_loop (length ls + fuel) (fresh_stream (unlines ls +:+ s) b) acc =
  parse_loop fuel (fresh_stream s b) (acc ++ List.filter non_blank ls).
Proof.
  intros Hls. revert acc. induction Hls as [|l ls Hl Hls IH]; intros acc.
  - by rewrite app_nil_r.
  - unfold unlines. cbn [map str_concat]. rewrite !str_app_assoc, str_app_cons, str_app_nil_l.
    cbn [length Nat.add]. rewrite parse_loop_line by done. fold (unlines ls).
    rewrite IH. simpl. unfold non_blank at 2.
    destruct (String.eqb l ""); [done|]. by rewrite <- app_assoc.
Qed.

Lemma parse_loop_mono fuel fuel' f acc r :
  parse_loop fuel f acc = Some r -> (fuel <= fuel')%nat -> parse_loop fuel' f acc = Some r.
Proof.
  revert fuel' f acc. induction fuel as [|fuel IH]; intros [|fuel'] f acc H Hl; try done; [lia|].
  cbn [parse_loop] in *. destruct (eofbit f); [done|].
  destruct (getline _ f) as [line f']. destruct (badbit f'); [done|].
  destruct (_ && _); [done|]. apply IH; [done|lia].
Qed.

Lemma length_unlines ls : (length ls <= String.length (unlines ls))%nat.
Proof.
  induction ls as [|l ls IH]; [done|]. unfold unlines in *. simpl.
  rewrite !str_length_app. simpl. lia.
Qed.

(** ** Properties *)

(** The loop ends on every file, with a peer list or an error, and
    a device error is never read as a shorter list. *)
Lemma parse_total file : exists r, parse file = Some r.
Proof.
  destruct file as [|contents b]; [by eexists|]. apply parse_loop_total; [done|]. simpl. lia.
Qed.

(** A file of lines that fit parses to exactly its non-blank lines, in
    order; when the device fails after them the answer is an error instead. *)
Lemma parse_unlines ls b :
  Forall plain_line ls ->
  parse (Open (unlines ls) b) =
  Some (if b : bool then inr CannotRead else inl (List.filter non_blank ls)).
Proof.
  intros Hls. unfold parse. apply (parse_loop_mono (length ls + 2)).
  - rewrite <- (str_app_nil_r (unlines ls)). rewrite parse_loop_unlines by done. by destruct b.
  - pose proof (length_unlines ls). lia.
Qed.

(** C35: a line that does not fit is an error wherever it stands, never
    a truncated address or a shorter peer list. *)
Theorem parse_long_line ls l s b :
  Forall plain_line ls -> has_char NEWLINE l = false -> (max_line_len <= String.length l)%nat ->
  parse (Open (unlines ls +:+ l +:+ s) b) = Some (inr (LineTooLong max_line_len)).
Proof.
  intros Hls Hl Hlen. unfold parse. apply (parse_loop_mono (length ls + 1)).
  - rewrite parse_loop_unlines by done. cbn [parse_loop fresh_stream eofbit]. unfold getline, good.
    cbn [fresh_stream eofbit failbit badbit rest orb negb].
    destruct (getline_loop_long (max_line_len - 1) l s Hl) as (line & r & ->); [|done].
    unfold max_line_len in *. simpl in *. lia.
  - rewrite !str_length_app. pose proof (length_unlines ls). lia.
Qed.

Lemma parse_long_line_witness :
  parse (Open (unlines ["tcp://a:1"] +:+ "tcp://a-long-host-name-here:5555" +:+
               String NEWLINE "tcp://b:2") false)
  = Some (inr (LineTooLong max_line_len)).
Proof.
  apply parse_long_line; [repeat constructor; vm_compute; lia|reflexivity|vm_compute; lia].
Defined.
