(* ===== verification/Reconcile.v ===== *)
(** * src/reconcile.cpp: digests, tombstones, gaps and rounds *)

From S2P Require Import Prelude OrdMap FsPath Utils Files.

Abbreviation tombstone_map := (list (path * sys_time)).
(** Moments of the steady clock, in nanoseconds. *)
Abbreviation steady_time := Z.
Abbreviation pending_map := (list (path * steady_time)).

Definition period : Z := 5 * 10 ^ 9.
Definition quiescence_window : Z := 10 * 10 ^ 9.
Definition state_ceiling : Z := 60 * 10 ^ 9.
Definition tombstone_ttl : Z := 3600 * 10 ^ 9.
Definition peer_silence : Z := state_ceiling * 3.

(** ** Tombstones *)

Definition beats (deleted : sys_time) (written : file_time) : bool :=
  file_to_ticks written <? to_ticks deleted.

Definition mark (tombstones : tombstone_map) (p : path) (deleted : sys_time) : tombstone_map :=
  match OrdMap.find tombstones p with
  | None => OrdMap.try_emplace tombstones p deleted
  | Some standing => OrdMap.insert_or_assign tombstones p (Z.max standing deleted)
  end.

(** The age of a record, as the 64-bit subtraction computes it. *)
Definition outlived (now at_ : sys_time) : bool := tombstone_ttl <? wrap64 (now - at_).

Definition expire (tombstones : tombstone_map) (now : sys_time) : tombstone_map :=
  OrdMap.erase_if (fun e => outlived now e.2) tombstones.

(** ** The pinned form of a set *)

Definition append (out : string) (p : path) (ticks : Z) : string :=
  out +:+ native p +:+ String NUL (Z_to_string ticks +:+ String NUL "").

(** Hands back one path and its ticks at a time; a tail that does not close both
    fields is dropped. [fuel] bounds the entries. *)
Fixpoint for_each_entry (fuel : nat) (form : string) : list (string * string) :=
  match fuel, form with
  | O, _ | _, EmptyString => []
  | S fuel', _ =>
      match cut NUL form with
      | None => []
      | Some (p, after) =>
          match cut NUL after with
          | None => []
          | Some (ticks, rest) => (p, ticks) :: for_each_entry fuel' rest
          end
      end
  end.

Definition encode_held (held : file_map) : string :=
  foldl (fun out e => append out e.1 (file_to_ticks e.2)) "" held.

Definition encode_tombstones (deleted : tombstone_map) : string :=
  foldl (fun out e => append out e.1 (to_ticks e.2)) "" deleted.

Definition decode_held (form : string) : file_map :=
  foldl (fun held e => OrdMap.insert_or_assign held (Path e.1) (to_file_time (from_ticks e.2)))
    [] (for_each_entry (String.length form) form).

Definition decode_tombstones (form : string) : tombstone_map :=
  foldl (fun deleted e => OrdMap.insert_or_assign deleted (Path e.1) (from_ticks e.2))
    [] (for_each_entry (String.length form) form).

(** ** The root hash *)

(** libtorrent's incremental SHA-256: what its documentation promises. Updates
    accumulate, the digest is 32 bytes. *)
Class Hasher256 := {
  hasher : Type;
  hasher_new : hasher;
  hasher_update : hasher -> string -> hasher;
  hasher_final : hasher -> string;
  hasher_update_app : forall h a b,
    hasher_final (hasher_update (hasher_update h a) b) = hasher_final (hasher_update h (a +:+ b));
  hasher_final_size : forall h, String.length (hasher_final h) = 32%nat;
}.

Section hash.
Context `{Hasher256}.

Definition digest_of (form : string) : string :=
  hasher_final (if String.eqb form "" then hasher_new else hasher_update hasher_new form).

Definition hash (held : file_map) (deleted : tombstone_map) : string :=
  let files := digest_of (encode_held held) in
  let graves := digest_of (encode_tombstones deleted) in
  hasher_final (hasher_update (hasher_update hasher_new files) graves).

(** These two inputs differ and have one digest. *)
Definition collide (x y : string) : Prop := x <> y /\ digest_of x = digest_of y.

(** The digest of the one and of the other, side by side: what the root hash is made of. *)
Definition root_input (held : file_map) (deleted : tombstone_map) : string :=
  digest_of (encode_held held) +:+ digest_of (encode_tombstones deleted).

(** SHA-256 collides on one of the three pairs of inputs that two root hashes are made of. *)
Definition roots_collide (held1 : file_map) (deleted1 : tombstone_map) (held2 : file_map) (deleted2 : tombstone_map) : Prop :=
  collide (encode_held held1) (encode_held held2) \/
  collide (encode_tombstones deleted1) (encode_tombstones deleted2) \/
  collide (root_input held1 deleted1) (root_input held2 deleted2).

End hash.

(** ** What a digest asks for *)

Definition adopts (held : file_map) (mine : tombstone_map) (now : sys_time)
    (e : path * sys_time) : bool :=
  let '(p, at_) := e in
  if match OrdMap.find mine p with Some ours => at_ <=? ours | None => false end then false
  else if outlived now at_ then false
  else match OrdMap.find held p with
       | Some written => beats at_ written
       | None => true
       end.

Definition adoptable (theirs : tombstone_map) (held : file_map) (mine : tombstone_map)
    (now : sys_time) : tombstone_map :=
  foldl (fun adopt e =>
    if adopts held mine now e then OrdMap.try_emplace adopt e.1 e.2 else adopt) [] theirs.

Definition is_gap (tombstones : tombstone_map) (theirs : file_map) (e : path * file_time) : bool :=
  let '(p, written) := e in
  if match OrdMap.find tombstones p with Some grave => beats grave written | None => false end
  then false
  else match OrdMap.find theirs p with
       | None => true
       | Some peer => file_to_ticks peer <? file_to_ticks written
       end.

Definition gaps (mine : file_map) (tombstones : tombstone_map) (theirs : file_map) : list path :=
  foldl (fun found e => if is_gap tombstones theirs e then found ++ [e.1] else found) [] mine.

(** ** Rounds *)

Record heard := { hashes : string; heard_at : steady_time }.

Abbreviation state_map := (list (string * heard)).

Definition forget_silent (peers : state_map) (now : steady_time) : state_map :=
  OrdMap.erase_if (fun e => peer_silence <? now - heard_at e.2) peers.

(** The generator behind the draw: [uniform_int_distribution{0, last}] answers
    an index no greater than [last]. *)
Class Generator := {
  generator : Type;
  draw : generator -> nat -> nat * generator;
  draw_bound : forall g last, ((draw g last).1 <= last)%nat;
}.

Section pick.
Context `{Generator}.

Definition candidates (peers : state_map) (mine : string) : list string :=
  foldl (fun found e => if String.eqb (hashes e.2) mine then found else found ++ [e.1]) [] peers.

Definition pick (g : generator) (peers : state_map) (mine : string) : option string * generator :=
  match candidates peers mine with
  | [] => (None, g)
  | c :: cs =>
      let '(index, g') := draw g (length (c :: cs) - 1) in
      ((c :: cs) !! index, g')
  end.
End pick.

(** ** Pacing the repairs *)

Definition pace : Z := 20 * 10 ^ 6.

(** Behind whatever is already waiting. *)
Definition arm_base (pending : pending_map) (now : steady_time) : steady_time :=
  foldl (fun next waiting => Z.max next (waiting.2 + pace)) now pending.

Definition arm_one (s : pending_map * steady_time) (p : path) : pending_map * steady_time :=
  let '(pending, next) := s in
  if OrdMap.contains pending p then s
  else (OrdMap.try_emplace pending p next, next + pace).

Definition arm (pending : pending_map) (missing : list path) (now : steady_time) : pending_map :=
  (foldl arm_one (pending, arm_base pending now) missing).1.

Definition due (pending : pending_map) (now : steady_time) : list path * pending_map :=
  let ready := foldl (fun ready e => if e.2 <=? now then ready ++ [e.1] else ready) [] pending in
  (ready, foldl OrdMap.erase pending ready).

(** ** Lemmas: tombstones *)

Lemma sorted_mark t p at_ : OrdMap.sorted t -> OrdMap.sorted (mark t p at_).
Proof. unfold mark. destruct (OrdMap.find t p); eauto with syncfs. Qed.

Lemma sorted_expire t now : OrdMap.sorted t -> OrdMap.sorted (expire t now).
Proof. apply OrdMap.sorted_erase_if. Qed.

#[export] Hint Resolve sorted_mark sorted_expire : syncfs.

Lemma find_mark t p at_ q : OrdMap.sorted t ->
  OrdMap.find (mark t p at_) q =
  if OrdMap.keq p q then Some (from_option (Z.max at_) at_ (OrdMap.find t p))
  else OrdMap.find t q.
Proof.
  intros Hs. unfold mark. destruct (OrdMap.find t p) as [standing|] eqn:E.
  - rewrite OrdMap.find_insert by done. simpl. by rewrite Z.max_comm.
  - rewrite OrdMap.find_try_emplace by done. by rewrite E.
Qed.

(** The order on deletion records: [None] below everything. *)
Definition later (x y : option sys_time) : option sys_time :=
  match x, y with
  | Some a, Some b => Some (Z.max a b)
  | Some a, None => Some a
  | None, o => o
  end.

Lemma find_mark_later t p at_ q : OrdMap.sorted t ->
  OrdMap.find (mark t p at_) q =
  later (OrdMap.find t q) (if OrdMap.keq p q then Some at_ else None).
Proof.
  intros Hs. rewrite find_mark by done. destruct (OrdMap.keq p q) eqn:E.
  - apply OrdMap.keq_iff in E. rewrite (OrdMap.find_key t p q) by done.
    destruct (OrdMap.find t q); simpl; f_equal; lia.
  - by destruct (OrdMap.find t q).
Qed.

Lemma later_assoc x y z : later x (later y z) = later (later x y) z.
Proof. destruct x, y, z; simpl; f_equal; lia. Qed.

Lemma later_comm x y : later x y = later y x.
Proof. destruct x, y; simpl; f_equal; lia. Qed.

Lemma later_idem x : later x x = x.
Proof. destruct x; simpl; f_equal; lia. Qed.

(** ** Lemmas: the pinned form *)

Definition frame (e : string * string) : string :=
  e.1 +:+ String NUL (e.2 +:+ String NUL "").

(** No field of an entry holds the separator. *)
Definition framable (e : string * string) : Prop :=
  has_char NUL e.1 = false /\ has_char NUL e.2 = false.

Lemma length_frame e : (String.length (frame e) = String.length e.1 + String.length e.2 + 2)%nat.
Proof. unfold frame. rewrite str_length_app. simpl. rewrite str_length_app. simpl. lia. Qed.

Lemma for_each_entry_frame fuel e s : framable e ->
  for_each_entry (S fuel) (frame e +:+ s) = e :: for_each_entry fuel s.
Proof.
  intros [H1 H2]. destruct e as [p t]. simpl in *. unfold frame. simpl.
  rewrite str_app_assoc, str_app_cons, str_app_assoc, str_app_cons, str_app_nil_l.
  cbn [for_each_entry]. destruct (p +:+ _) eqn:E; [by destruct p|]. rewrite <- E.
  by rewrite !cut_app.
Qed.

(** A proper prefix of one entry yields nothing. *)
Lemma for_each_entry_cut_frame fuel n e : framable e -> (n < String.length (frame e))%nat ->
  for_each_entry fuel (str_take n (frame e)) = [].
Proof.
  intros [H1 H2] Hn. rewrite length_frame in Hn. destruct fuel as [|fuel]; [done|].
  destruct e as [p t]. simpl in *. unfold frame. simpl fst. simpl snd.
  rewrite str_take_app. cbn [for_each_entry].
  destruct (str_take n p +:+ _) eqn:E; [done|]. rewrite <- E. clear E.
  destruct (n - String.length p)%nat as [|k] eqn:Ek.
  - rewrite str_take_0, str_app_nil_r.
    by rewrite (proj2 (cut_None NUL _) (has_char_str_take _ n _ H1)).
  - rewrite str_take_ge by lia. cbn [str_take]. rewrite cut_app by done.
    rewrite str_take_app. replace (k - String.length t)%nat with 0%nat by lia.
    rewrite str_take_0, str_app_nil_r.
    by rewrite (proj2 (cut_None NUL _) (has_char_str_take _ k _ H2)).
Qed.

Lemma for_each_entry_nil fuel : for_each_entry fuel "" = [].
Proof. by destruct fuel. Qed.

(** Whatever is cut off, what is read back is the entries that came whole. *)
Lemma for_each_entry_take fuel n es : Forall framable es ->
  (length es <= fuel)%nat ->
  exists k, for_each_entry fuel (str_take n (str_concat (map frame es))) = take k es.
Proof.
  intros Hes. revert fuel n. induction Hes as [|e es He Hes IH]; intros fuel n Hf.
  - exists 0%nat. simpl. destruct n; apply for_each_entry_nil.
  - simpl in *. destruct (decide (n < String.length (frame e))%nat) as [Hn|Hn].
    + exists 0%nat. rewrite str_take_app.
      replace (n - String.length (frame e))%nat with 0%nat by lia.
      rewrite str_take_0, str_app_nil_r. by apply for_each_entry_cut_frame.
    + destruct fuel as [|fuel]; [lia|].
      destruct (IH fuel (n - String.length (frame e))%nat ltac:(lia)) as [k Hk].
      exists (S k). rewrite str_take_app, (str_take_ge n) by lia.
      by rewrite for_each_entry_frame, Hk.
Qed.

Lemma for_each_entry_all fuel es : Forall framable es -> (length es <= fuel)%nat ->
  for_each_entry fuel (str_concat (map frame es)) = es.
Proof.
  intros Hes. revert fuel. induction Hes as [|e es He Hes IH]; intros fuel Hf.
  - apply for_each_entry_nil.
  - simpl in *. destruct fuel as [|fuel]; [lia|]. rewrite for_each_entry_frame by done.
    by rewrite IH by lia.
Qed.

(** A round needs a character, so the length of the form is fuel enough: more
    of it changes nothing. *)
Lemma for_each_entry_fuel fuel form : (String.length form <= fuel)%nat ->
  for_each_entry fuel form = for_each_entry (String.length form) form.
Proof.
  remember (String.length form) as n eqn:Hn. assert (String.length form <= n)%nat as Hl by lia.
  clear Hn. revert fuel form Hl.
  induction n as [|n IH]; intros fuel form Hl Hf.
  - destruct form; simpl in Hl; [|lia]. by rewrite !for_each_entry_nil.
  - destruct fuel as [|fuel]; [lia|]. cbn [for_each_entry]. destruct form as [|a form]; [done|].
    destruct (cut NUL (String a form)) as [[p after]|] eqn:E1; [|done].
    destruct (cut NUL after) as [[t rest]|] eqn:E2; [|done]. f_equal.
    apply cut_Some in E1 as [E1 _], E2 as [E2 _].
    assert (String.length rest <= n)%nat as Hr.
    { apply (f_equal String.length) in E1, E2.
      rewrite !str_length_app in E1, E2. simpl in *. lia. }
    rewrite IH by lia. done.
Qed.

Section codec.
Context {V : Type} (ticks : V -> Z) (value : string -> V).

Definition entry_of (e : path * V) : string * string := (native e.1, Z_to_string (ticks e.2)).

Lemma foldl_append_frames (m : list (path * V)) out :
  foldl (fun out e => append out e.1 (ticks e.2)) out m =
  out +:+ str_concat (map frame (map entry_of m)).
Proof.
  revert out. induction m as [|e m IH]; intros out; simpl; [by rewrite str_app_nil_r|].
  rewrite IH. unfold append, frame. simpl. by rewrite !str_app_assoc.
Qed.

Lemma framable_entries (m : list (path * V)) :
  Forall (fun e => has_char NUL (native e.1) = false) m -> Forall framable (map entry_of m).
Proof.
  induction 1; constructor; [|done]. split; [done|]. by apply Z_to_string_no_char.
Qed.

Lemma length_frames (es : list (string * string)) :
  (length es <= String.length (str_concat (map frame es)))%nat.
Proof.
  induction es as [|e es IH]; simpl; [lia|]. rewrite str_length_app, length_frame. lia.
Qed.

(** Reading back the entries of a map whose values survive their ticks. *)
Lemma foldl_decode_entries (m : list (path * V)) :
  OrdMap.sorted m -> Forall (fun e => value (Z_to_string (ticks e.2)) = e.2) m ->
  foldl (fun acc e => OrdMap.insert_or_assign acc (Path e.1) (value e.2)) [] (map entry_of m) = m.
Proof.
  intros Hs Hv.
  transitivity (foldl (fun acc e => OrdMap.insert_or_assign acc e.1 e.2) [] m).
  - clear Hs. generalize (@nil (path * V)).
    induction Hv as [|[[p] v] m Hv _ IH]; intros acc; simpl; [done|].
    simpl in Hv. by rewrite Hv, IH.
  - by apply (OrdMap.foldl_insert_sorted []).
Qed.
End codec.

(** What the wire can carry of a set: names without NUL, times of 64 bits. *)
Definition wire_ok (e : path * Z) : Prop := has_char NUL (native e.1) = false /\ is_int64 e.2.

Lemma wire_ok_names (m : list (path * Z)) :
  Forall wire_ok m -> Forall (fun e => has_char NUL (native e.1) = false) m.
Proof. intros H. eapply Forall_impl; [exact H|]. by intros e [? _]. Qed.

Lemma held_values (m : file_map) : Forall wire_ok m ->
  Forall (fun e => to_file_time (from_ticks (Z_to_string (file_to_ticks e.2))) = e.2) m.
Proof.
  intros H. eapply Forall_impl; [exact H|]. intros e [_ Hi].
  rewrite from_ticks_to_string by apply file_to_ticks_range. by apply to_file_time_to_ticks.
Qed.

Lemma tombstone_values (m : tombstone_map) : Forall wire_ok m ->
  Forall (fun e => from_ticks (Z_to_string (to_ticks e.2)) = e.2) m.
Proof.
  intros H. eapply Forall_impl; [exact H|]. intros e [_ Hi]. by apply from_ticks_to_string.
Qed.

Lemma encode_held_frames m :
  encode_held m = str_concat (map frame (map (entry_of file_to_ticks) m)).
Proof. exact (foldl_append_frames file_to_ticks m ""). Qed.

Lemma encode_tombstones_frames m :
  encode_tombstones m = str_concat (map frame (map (entry_of to_ticks) m)).
Proof. exact (foldl_append_frames to_ticks m ""). Qed.

Lemma length_str_take n s : String.length (str_take n s) = Nat.min n (String.length s).
Proof. revert s. induction n as [|n IH]; intros [|a s]; simpl; [done..|]. by rewrite IH. Qed.

Lemma for_each_entry_take_form n es : Forall framable es ->
  let form := str_take n (str_concat (map frame es)) in
  exists k, for_each_entry (String.length form) form = take k es.
Proof.
  intros Hes form. destruct (for_each_entry_take
    (Nat.max (length es) (String.length form)) n es Hes ltac:(lia)) as [k Hk].
  exists k. fold form in Hk. by rewrite for_each_entry_fuel in Hk by lia.
Qed.

Lemma decode_held_take n m : OrdMap.sorted m -> Forall wire_ok m ->
  exists k, decode_held (str_take n (encode_held m)) = take k m.
Proof.
  intros Hs Hm. rewrite encode_held_frames.
  destruct (for_each_entry_take_form n (map (entry_of file_to_ticks) m)) as [k Hk].
  { by apply framable_entries, wire_ok_names. }
  exists k. unfold decode_held. rewrite Hk, firstn_map.
  apply (foldl_decode_entries file_to_ticks (fun t => to_file_time (from_ticks t))).
  - by apply OrdMap.sorted_take.
  - by apply Forall_take, held_values.
Qed.

Lemma decode_tombstones_take n m : OrdMap.sorted m -> Forall wire_ok m ->
  exists k, decode_tombstones (str_take n (encode_tombstones m)) = take k m.
Proof.
  intros Hs Hm. rewrite encode_tombstones_frames.
  destruct (for_each_entry_take_form n (map (entry_of to_ticks) m)) as [k Hk].
  { by apply framable_entries, wire_ok_names. }
  exists k. unfold decode_tombstones. rewrite Hk, firstn_map.
  apply (foldl_decode_entries to_ticks from_ticks).
  - by apply OrdMap.sorted_take.
  - by apply Forall_take, tombstone_values.
Qed.

Lemma decode_encode_held m : OrdMap.sorted m -> Forall wire_ok m ->
  decode_held (encode_held m) = m.
Proof.
  intros Hs Hm. rewrite encode_held_frames. unfold decode_held.
  rewrite for_each_entry_all; [|by apply framable_entries, wire_ok_names|apply length_frames].
  apply (foldl_decode_entries file_to_ticks (fun t => to_file_time (from_ticks t))); [done|].
  by apply held_values.
Qed.

Lemma decode_encode_tombstones m : OrdMap.sorted m -> Forall wire_ok m ->
  decode_tombstones (encode_tombstones m) = m.
Proof.
  intros Hs Hm. rewrite encode_tombstones_frames. unfold decode_tombstones.
  rewrite for_each_entry_all; [|by apply framable_entries, wire_ok_names|apply length_frames].
  apply (foldl_decode_entries to_ticks from_ticks); [done|]. by apply tombstone_values.
Qed.

Lemma hash_digest_of `{Hasher256} held deleted :
  hash held deleted =
  digest_of (root_input held deleted).
Proof.
  unfold hash, root_input. rewrite hasher_update_app.
  unfold digest_of at 3. destruct (String.eqb _ "") eqn:E; [|done].
  apply String.eqb_eq, (f_equal String.length) in E. rewrite str_length_app in E.
  unfold digest_of in E. rewrite hasher_final_size in E. discriminate.
Qed.

Lemma digest_of_size `{Hasher256} x : String.length (digest_of x) = 32%nat.
Proof. unfold digest_of. destruct (String.eqb x ""); apply hasher_final_size. Qed.

Lemma digest_of_inj `{Hasher256} x y : digest_of x = digest_of y -> x = y \/ collide x y.
Proof. intros Hd. destruct (decide (x = y)); [by left|]. by right. Qed.

(** ** Lemmas: adoption and gaps *)

Lemma adoptable_filter theirs held mine now : OrdMap.sorted theirs ->
  adoptable theirs held mine now = List.filter (adopts held mine now) theirs.
Proof. apply OrdMap.foldl_emplace_filter. Qed.

Lemma sorted_adoptable theirs held mine now : OrdMap.sorted theirs ->
  OrdMap.sorted (adoptable theirs held mine now).
Proof. intros. rewrite adoptable_filter by done. by apply OrdMap.sorted_filter. Qed.

Lemma adopts_iff held mine now p at_ :
  adopts held mine now (p, at_) = true <->
  (forall ours, OrdMap.find mine p = Some ours -> ours < at_) /\
  outlived now at_ = false /\
  (forall written, OrdMap.find held p = Some written -> beats at_ written = true).
Proof.
  unfold adopts. destruct (OrdMap.find mine p) as [ours|]; [destruct (at_ <=? ours) eqn:E|].
  - split; [done|]. intros (H & _ & _). specialize (H _ eq_refl). bool_hyps. lia.
  - bool_hyps. destruct (outlived now at_); [naive_solver|].
    destruct (OrdMap.find held p); naive_solver.
  - destruct (outlived now at_); [naive_solver|]. destruct (OrdMap.find held p); naive_solver.
Qed.

(** Only the images of the keys matter. *)
Lemma adopts_key held mine now p q at_ : key_of p = key_of q ->
  adopts held mine now (p, at_) = adopts held mine now (q, at_).
Proof.
  intros Hk. unfold adopts. by rewrite (OrdMap.find_key mine p q), (OrdMap.find_key held p q).
Qed.

Lemma find_adoptable theirs held mine now p : OrdMap.sorted theirs ->
  OrdMap.find (adoptable theirs held mine now) p =
  match OrdMap.find theirs p with
  | Some at_ => if adopts held mine now (p, at_) then Some at_ else None
  | None => None
  end.
Proof.
  intros Hs. rewrite adoptable_filter by done. unfold OrdMap.find.
  rewrite OrdMap.find_entry_filter by done.
  destruct (OrdMap.find_entry theirs p) as [[k at_]|] eqn:E; [|done].
  apply OrdMap.find_entry_Some in E as [_ Hk]. rewrite (adopts_key held mine now k p at_ Hk).
  cbn [fmap option_fmap option_map snd]. by destruct (adopts held mine now (p, at_)).
Qed.

Lemma foldl_snoc_filter {A B} (p : A -> bool) (f : A -> B) (l : list A) acc :
  foldl (fun found e => if p e then found ++ [f e] else found) acc l =
  acc ++ map f (List.filter p l).
Proof.
  revert acc. induction l as [|e l IH]; intros acc; simpl; [by rewrite app_nil_r|].
  rewrite IH. destruct (p e); [|done]. simpl. by rewrite <- app_assoc.
Qed.

Lemma gaps_filter mine tombstones theirs :
  gaps mine tombstones theirs = map fst (List.filter (is_gap tombstones theirs) mine).
Proof. unfold gaps. by rewrite foldl_snoc_filter. Qed.

Lemma is_gap_iff tombstones theirs p written :
  is_gap tombstones theirs (p, written) = true <->
  (forall grave, OrdMap.find tombstones p = Some grave -> beats grave written = false) /\
  (forall peer, OrdMap.find theirs p = Some peer -> file_to_ticks peer < file_to_ticks written).
Proof.
  unfold is_gap. destruct (OrdMap.find tombstones p) as [grave|]; [destruct (beats grave written) eqn:E|].
  - split; [done|]. intros [H _]. specialize (H _ eq_refl). congruence.
  - destruct (OrdMap.find theirs p); [rewrite Z.ltb_lt|]; naive_solver.
  - destruct (OrdMap.find theirs p); [rewrite Z.ltb_lt|]; naive_solver.
Qed.

Lemma elem_of_gaps mine tombstones theirs p :
  p ∈ gaps mine tombstones theirs <->
  exists written, (p, written) ∈ mine /\ is_gap tombstones theirs (p, written) = true.
Proof.
  rewrite gaps_filter, list_elem_of_In, in_map_iff. split.
  - intros ([q w] & <- & [Hin Hg]%filter_In). exists w.
    split; [by apply list_elem_of_In|done].
  - intros (w & Hin & Hg). exists (p, w). split; [done|].
    apply filter_In. split; [by apply list_elem_of_In|done].
Qed.

(** A listing is walked in order, so no path is asked for twice. *)
Lemma NoDup_keys_filter {V} (q : path * V -> bool) (m : list (path * V)) : OrdMap.sorted m ->
  NoDup (map path_image (map fst (List.filter q m))).
Proof.
  induction m as [|e m IH]; intros Hs; simpl; [constructor|].
  apply OrdMap.sorted_cons in Hs as [Hs Hlt]. destruct (q e); [|by apply IH].
  simpl. constructor; [|by apply IH]. rewrite list_elem_of_In, map_map, in_map_iff.
  intros (e' & Hk & [Hin _]%filter_In). rewrite Forall_forall in Hlt.
  apply list_elem_of_In, Hlt, OrdMap.klt_ne in Hin. by apply Hin.
Qed.

Lemma NoDup_gaps mine tombstones theirs : OrdMap.sorted mine ->
  NoDup (map path_image (gaps mine tombstones theirs)).
Proof. intros. rewrite gaps_filter. by apply NoDup_keys_filter. Qed.

(** ** Lemmas: pacing *)

(** The moments handed out to [news] in order, starting at [next]. *)
Fixpoint armed (news : list path) (next : steady_time) (q : path) : option steady_time :=
  match news with
  | [] => None
  | p :: ps => if OrdMap.keq p q then Some next else armed ps (next + pace) q
  end.

Definition unarmed (pending : pending_map) (missing : list path) : list path :=
  List.filter (fun p => negb (OrdMap.contains pending p)) missing.

Lemma arm_loop missing pending next :
  OrdMap.sorted pending -> NoDup (map path_image missing) ->
  OrdMap.sorted (foldl arm_one (pending, next) missing).1 /\
  forall q, OrdMap.find (foldl arm_one (pending, next) missing).1 q =
    match OrdMap.find pending q with
    | Some t => Some t
    | None => armed (unarmed pending missing) next q
    end.
Proof.
  revert pending next. induction missing as [|p ps IH]; intros pending next Hs Hn.
  - split; [done|]. intros q. simpl. by destruct (OrdMap.find pending q).
  - inversion Hn as [|? ? Hp Hn']; subst. cbn [foldl arm_one].
    unfold unarmed. cbn [List.filter]. destruct (OrdMap.contains pending p) eqn:Ec; [by apply IH|].
    destruct (IH (OrdMap.try_emplace pending p next) (next + pace)) as [Hs' Hf];
      [by apply OrdMap.sorted_try_emplace|done|].
    split; [done|]. intros q. rewrite Hf, OrdMap.find_try_emplace by done.
    apply OrdMap.contains_false in Ec. rewrite Ec. cbn [negb armed].
    destruct (OrdMap.keq p q) eqn:Ek.
    + apply OrdMap.keq_iff in Ek. by rewrite (OrdMap.find_key pending q p), Ec.
    + destruct (OrdMap.find pending q); [done|]. f_equal. apply List.filter_ext_in.
      intros r Hr. f_equal. apply eq_true_iff_eq. rewrite !OrdMap.contains_find.
      rewrite OrdMap.find_try_emplace by done. destruct (OrdMap.keq p r) eqn:Er; [|done].
      apply OrdMap.keq_iff in Er. destruct Hp. apply list_elem_of_In.
      simpl in Er. rewrite Er. by apply in_map.
Qed.

Lemma armed_lookup news next i p :
  NoDup (map path_image news) -> news !! i = Some p ->
  armed news next p = Some (next + pace * Z.of_nat i).
Proof.
  revert next i. induction news as [|r rs IH]; intros next i Hn Hi; [done|].
  inversion Hn as [|? ? Hr Hn']; subst. simpl. destruct i as [|i]; simpl in Hi.
  - injection Hi as ->. rewrite keq_native_refl. f_equal. lia.
  - replace (OrdMap.keq r p) with false; [rewrite (IH _ i) by done; f_equal; lia|].
    symmetry. apply OrdMap.keq_false. intros Hk. simpl in Hk. rewrite Hk in Hr. apply Hr.
    apply list_elem_of_In, in_map, list_elem_of_In. by eapply list_elem_of_lookup_2.
Qed.

Lemma armed_elem news next q t :
  armed news next q = Some t -> exists p, p ∈ news /\ path_image p = path_image q.
Proof.
  revert next. induction news as [|r rs IH]; intros next; simpl; [done|].
  destruct (OrdMap.keq r q) eqn:E.
  - intros _. exists r. split; [by left|]. by apply OrdMap.keq_iff in E.
  - intros (p & Hp & Hk)%IH. exists p. split; [by right|done].
Qed.

Lemma arm_base_spec pending now :
  now <= arm_base pending now /\ Forall (fun e => e.2 + pace <= arm_base pending now) pending.
Proof.
  unfold arm_base. revert now. induction pending as [|e m IH]; intros now; simpl; [by split|].
  destruct (IH (Z.max now (e.2 + pace))) as [H1 H2]. split; [lia|]. constructor; [lia|done].
Qed.

Lemma NoDup_filter_map {A B} (f : A -> B) (p : A -> bool) l :
  NoDup (map f l) -> NoDup (map f (List.filter p l)).
Proof.
  induction l as [|a l IH]; simpl; [done|]. intros Hn. inversion Hn as [|? ? Ha Hn']; subst.
  destruct (p a); [|by apply IH]. simpl. constructor; [|by apply IH].
  rewrite list_elem_of_In, in_map_iff. intros (b & Hb & [Hin _]%filter_In).
  apply Ha, list_elem_of_In. rewrite <- Hb. by apply in_map.
Qed.

Lemma due_spec pending now : OrdMap.sorted pending ->
  due pending now =
  (map fst (List.filter (fun e => e.2 <=? now) pending),
   List.filter (fun e => now <? e.2) pending).
Proof.
  intros Hs. unfold due.
  rewrite (foldl_snoc_filter (fun e : path * Z => e.2 <=? now) fst). f_equal.
  rewrite app_nil_l, OrdMap.foldl_erase_filter by done.
  apply List.filter_ext. intros e. by rewrite Z.ltb_antisym.
Qed.

(** ** Lemmas: the draw *)

Lemma foldl_skip_filter {A B} (p : A -> bool) (f : A -> B) (l : list A) acc :
  foldl (fun found e => if p e then found else found ++ [f e]) acc l =
  acc ++ map f (List.filter (fun e => negb (p e)) l).
Proof.
  rewrite <- foldl_snoc_filter. revert acc.
  induction l as [|e l IH]; intros acc; [done|]. simpl. rewrite IH. by destruct (p e).
Qed.

Lemma candidates_filter peers mine :
  candidates peers mine =
  map fst (List.filter (fun e => negb (String.eqb (hashes e.2) mine)) peers).
Proof.
  unfold candidates.
  by rewrite (foldl_skip_filter (fun e : string * heard => String.eqb (hashes e.2) mine)).
Qed.

Lemma elem_of_candidates peers mine c :
  c ∈ candidates peers mine <-> exists h, (c, h) ∈ peers /\ hashes h <> mine.
Proof.
  rewrite candidates_filter, list_elem_of_In, in_map_iff. split.
  - intros ([x h] & <- & [Hin Hne]%filter_In). exists h. split; [by apply list_elem_of_In|].
    simpl in Hne. bool_hyps. by apply String.eqb_neq.
  - intros (h & Hin & Hne). exists (c, h). split; [done|]. apply filter_In.
    split; [by apply list_elem_of_In|]. simpl. by apply negb_true_iff, String.eqb_neq.
Qed.

(** ** Lemmas: deletions form a join semilattice *)

Definition record_for (q : path) (e : path * sys_time) : option sys_time :=
  if OrdMap.keq e.1 q then Some e.2 else None.

Lemma sorted_foldl_mark l t : OrdMap.sorted t ->
  OrdMap.sorted (foldl (fun t e => mark t e.1 e.2) t l).
Proof. revert t. induction l as [|e l IH]; intros t Hs; [done|]. simpl. apply IH. eauto with syncfs. Qed.

Lemma find_foldl_mark l t q : OrdMap.sorted t ->
  OrdMap.find (foldl (fun t e => mark t e.1 e.2) t l) q =
  foldl later (OrdMap.find t q) (map (record_for q) l).
Proof.
  revert t. induction l as [|e l IH]; intros t Hs; [done|]. simpl.
  rewrite IH by eauto with syncfs. by rewrite find_mark_later by done.
Qed.

(** [x] is no later than [y]. *)
Definition covers (x y : option sys_time) : Prop := later x y = y.

Lemma covers_antisym x y : covers x y -> covers y x -> x = y.
Proof. unfold covers. intros H1 H2. rewrite later_comm in H1. congruence. Qed.

Lemma covers_trans x y z : covers x y -> covers y z -> covers x z.
Proof. unfold covers. intros H1 H2. rewrite <- H2 at 1. by rewrite later_assoc, H1. Qed.

Lemma covers_later_l x y : covers x (later x y).
Proof. unfold covers. by rewrite later_assoc, later_idem. Qed.

Lemma covers_later_r x y : covers y (later x y).
Proof. rewrite later_comm. apply covers_later_l. Qed.

Lemma later_lub x y z : covers x z -> covers y z -> covers (later x y) z.
Proof. unfold covers. intros H1 H2. by rewrite <- later_assoc, H2. Qed.

Lemma foldl_later_ub o l x : x = o \/ x ∈ l -> covers x (foldl later o l).
Proof.
  revert o x. induction l as [|y l IH]; intros o x Hx; simpl.
  - destruct Hx as [->|Hx]; [apply later_idem|by apply elem_of_nil in Hx].
  - assert (covers (later o y) (foldl later (later o y) l)) as Hy by (apply IH; by left).
    destruct Hx as [->|[->|Hx]%elem_of_cons].
    + by eapply covers_trans; [apply covers_later_l|].
    + by eapply covers_trans; [apply covers_later_r|].
    + apply IH. by right.
Qed.

Lemma foldl_later_lub o l z : covers o z -> (forall x, x ∈ l -> covers x z) ->
  covers (foldl later o l) z.
Proof.
  revert o. induction l as [|y l IH]; intros o Ho Hl; simpl; [done|].
  apply IH; [apply later_lub; [done|apply Hl; by left]|]. intros x Hx. apply Hl. by right.
Qed.

Lemma foldl_later_incl o l1 l2 : (forall x, x ∈ l1 -> x ∈ l2) ->
  covers (foldl later o l1) (foldl later o l2).
Proof.
  intros Hl. apply foldl_later_lub; [apply foldl_later_ub; by left|].
  intros x Hx. apply foldl_later_ub. eauto.
Qed.

Lemma outlived_small now at_ : is_int64 (now - at_) ->
  outlived now at_ = true <-> tombstone_ttl < now - at_.
Proof. intros H. unfold outlived. rewrite wrap64_small by done. apply Z.ltb_lt. Qed.

(** ** Properties *)

(** What one node encodes of its listing and of its tombstones is
    what the reader of the digest decodes. *)
Lemma digest_roundtrip held deleted :
  OrdMap.sorted held -> OrdMap.sorted deleted -> Forall wire_ok held -> Forall wire_ok deleted ->
  decode_held (encode_held held) = held /\
  decode_tombstones (encode_tombstones deleted) = deleted.
Proof. split; [by apply decode_encode_held|by apply decode_encode_tombstones]. Qed.

Lemma sorted_by_test {V} (m : list (path * V)) : OrdMap.sortedb m = true -> OrdMap.sorted m.
Proof. apply OrdMap.sortedb_sorted. Qed.

Lemma wire_ok_by_test (m : list (path * Z)) :
  forallb (fun e => negb (has_char NUL (native e.1)) && (int64_min <=? e.2) && (e.2 <=? int64_max)) m
  = true -> Forall wire_ok m.
Proof.
  induction m as [|e m IH]; simpl; [done|]. intros H. bool_hyps.
  constructor; [|by apply IH]. by split.
Qed.

(** A digest cut short anywhere reads as the first entries of the
    set: no entry is invented out of half of one. *)
Lemma digest_truncated n n' held deleted :
  OrdMap.sorted held -> OrdMap.sorted deleted -> Forall wire_ok held -> Forall wire_ok deleted ->
  (exists k, decode_held (str_take n (encode_held held)) = take k held) /\
  (exists k, decode_tombstones (str_take n' (encode_tombstones deleted)) = take k deleted).
Proof. split; [by apply decode_held_take|by apply decode_tombstones_take]. Qed.

Lemma hash_agrees `{Hasher256} held1 deleted1 held2 deleted2 :
  OrdMap.sorted held1 -> OrdMap.sorted held2 -> OrdMap.sorted deleted1 -> OrdMap.sorted deleted2 ->
  Forall wire_ok held1 -> Forall wire_ok held2 ->
  Forall wire_ok deleted1 -> Forall wire_ok deleted2 ->
  hash held1 deleted1 = hash held2 deleted2 ->
  (held1 = held2 /\ deleted1 = deleted2) \/ roots_collide held1 deleted1 held2 deleted2.
Proof.
  unfold roots_collide. intros Hs1 Hs2 Hs3 Hs4 Hw1 Hw2 Hw3 Hw4 Heq. rewrite !hash_digest_of in Heq.
  apply digest_of_inj in Heq as [Heq|]; [|by auto].
  apply str_app_inj_length in Heq as [Hf Hg]; [|by rewrite !digest_of_size].
  apply digest_of_inj in Hf as [Hf|]; [|by auto].
  apply digest_of_inj in Hg as [Hg|]; [|by auto].
  left. apply (f_equal decode_held) in Hf. apply (f_equal decode_tombstones) in Hg.
  rewrite !decode_encode_held in Hf by done. rewrite !decode_encode_tombstones in Hg by done.
  done.
Qed.

(** C17: two nodes whose root hashes agree hold the same files and remember
    the same deletions, unless SHA-256 collides on one of the very pairs that were hashed:
    the two encoded listings, the two encoded records, or what their digests make.  In
    particular a file held and the same path deleted at the same tick differ. *)
Theorem root_hash_agreement `{Hasher256} held1 deleted1 held2 deleted2 :
  OrdMap.sorted held1 -> OrdMap.sorted held2 -> OrdMap.sorted deleted1 -> OrdMap.sorted deleted2 ->
  Forall wire_ok held1 -> Forall wire_ok held2 ->
  Forall wire_ok deleted1 -> Forall wire_ok deleted2 ->
  hash held1 deleted1 = hash held2 deleted2 ->
  (held1 = held2 /\ deleted1 = deleted2) \/ roots_collide held1 deleted1 held2 deleted2.
Proof. apply hash_agrees. Qed.

(** A hasher that keeps the first 32 bytes of a padded input: enough to show the
    interface can be met. *)
Definition zeros32 : string := "00000000000000000000000000000000".

Definition prefix_hasher : Hasher256.
Proof.
  refine {| hasher := string; hasher_new := ""; hasher_update h s := h +:+ s;
            hasher_final h := str_take 32 (h +:+ zeros32) |}.
  - intros. by rewrite !str_app_assoc.
  - intros. rewrite length_str_take, str_length_app.
    change (String.length zeros32) with 32%nat. lia.
Defined.

Lemma root_hash_agreement_witness :
  ([(Path "./a", 1)] = [(Path "./a", 1)] /\ ([] : tombstone_map) = []) \/
  @roots_collide prefix_hasher [(Path "./a", 1)] [] [(Path "./a", 1)] [].
Proof.
  apply (@root_hash_agreement prefix_hasher);
    (apply sorted_by_test || apply wire_ok_by_test || idtac); vm_compute; reflexivity.
Defined.

(** Exactly the deletions that are news here are taken on: later
    than the record standing here, not past the time to live, and not defeated
    by the copy held here. *)
Lemma adoptable_exactly theirs held mine now p at_ :
  OrdMap.sorted theirs ->
  OrdMap.find (adoptable theirs held mine now) p = Some at_ <->
  OrdMap.find theirs p = Some at_ /\
  (forall ours, OrdMap.find mine p = Some ours -> ours < at_) /\
  outlived now at_ = false /\
  (forall written, OrdMap.find held p = Some written -> file_to_ticks written < at_).
Proof.
  intros Hs. rewrite find_adoptable by done.
  destruct (OrdMap.find theirs p) as [a|]; [|naive_solver].
  pose proof (adopts_iff held mine now p a) as Ha. unfold beats, to_ticks in Ha.
  setoid_rewrite Z.ltb_lt in Ha.
  destruct (adopts held mine now (p, a)); naive_solver.
Qed.

(** C23: a path is offered for repair exactly when this node holds it, no
    tombstone here kills that copy, and the peer lacks it or holds an older one;
    each path once. *)
Theorem gaps_exactly mine tombstones theirs :
  OrdMap.sorted mine ->
  NoDup (map path_image (gaps mine tombstones theirs)) /\
  forall p, p ∈ gaps mine tombstones theirs <->
    exists written, (p, written) ∈ mine /\
      (forall grave, OrdMap.find tombstones p = Some grave -> grave <= file_to_ticks written) /\
      (forall peer, OrdMap.find theirs p = Some peer ->
        file_to_ticks peer < file_to_ticks written).
Proof.
  intros Hs. split; [by apply NoDup_gaps|]. intros p. rewrite elem_of_gaps. f_equiv.
  intros written. rewrite is_gap_iff. unfold beats, to_ticks. by setoid_rewrite Z.ltb_ge.
Qed.

Lemma gaps_exactly_witness :
  let g := gaps [(Path "./a", 3); (Path "./b", 4)] [] [(Path "./a", 3)] in
  NoDup (map path_image g) /\
  forall p, p ∈ g <-> exists written, (p, written) ∈ [(Path "./a", 3); (Path "./b", 4)] /\
      (forall grave, OrdMap.find [] p = Some grave -> grave <= file_to_ticks written) /\
      (forall peer, OrdMap.find [(Path "./a", 3)] p = Some peer ->
        file_to_ticks peer < file_to_ticks written).
Proof. apply gaps_exactly. by apply sorted_by_test. Defined.

(** Recording deletions is order-blind and idempotent: any two sequences
    that report the same deletions, in any order and however often, leave the
    same record for every path. *)
Lemma marks_converge tombstones l1 l2 :
  OrdMap.sorted tombstones -> (forall e, e ∈ l1 <-> e ∈ l2) ->
  forall q, OrdMap.find (foldl (fun t e => mark t e.1 e.2) tombstones l1) q =
            OrdMap.find (foldl (fun t e => mark t e.1 e.2) tombstones l2) q.
Proof.
  intros Hs Hl q. rewrite !find_foldl_mark by done.
  assert (forall l l', (forall e, e ∈ l -> e ∈ l') ->
    forall x, x ∈ map (record_for q) l -> x ∈ map (record_for q) l') as Hm.
  { intros l l' Hll x. rewrite !list_elem_of_In, !in_map_iff.
    setoid_rewrite <- list_elem_of_In. naive_solver. }
  apply covers_antisym; apply foldl_later_incl, Hm; naive_solver.
Qed.

(** Gaps already waiting keep their moment; the new ones queue behind
    everything waiting, in order, exactly one pace apart; nothing else appears. *)
Lemma arm_paced pending missing now :
  OrdMap.sorted pending -> NoDup (map path_image missing) ->
  OrdMap.sorted (arm pending missing now) /\
  (forall q t, OrdMap.find pending q = Some t ->
     OrdMap.find (arm pending missing now) q = Some t /\ t + pace <= arm_base pending now) /\
  now <= arm_base pending now /\
  (forall i p, unarmed pending missing !! i = Some p ->
     OrdMap.find (arm pending missing now) p = Some (arm_base pending now + pace * Z.of_nat i)) /\
  (forall q t, OrdMap.find (arm pending missing now) q = Some t ->
     OrdMap.find pending q = None -> exists p, p ∈ missing /\ path_image p = path_image q).
Proof.
  intros Hs Hn. unfold arm.
  destruct (arm_loop missing pending (arm_base pending now) Hs Hn) as [Hs' Hf].
  destruct (arm_base_spec pending now) as [Hb1 Hb2].
  repeat split; [done|by rewrite Hf, H| |done| |].
  - apply OrdMap.find_Some in H as (k & Hin & _). rewrite Forall_forall in Hb2.
    by apply Hb2 in Hin.
  - intros i p Hi. rewrite Hf. assert (p ∈ unarmed pending missing) as Hin.
    { by eapply list_elem_of_lookup_2. }
    apply list_elem_of_In, filter_In in Hin as [_ Hc]. bool_hyps.
    apply OrdMap.contains_false in Hc. rewrite Hc.
    apply armed_lookup; [by apply NoDup_filter_map|done].
  - intros q t Hq Hnone. rewrite Hf, Hnone in Hq.
    apply armed_elem in Hq as (p & Hin & Hk). exists p. split; [|done].
    apply list_elem_of_In, filter_In in Hin as [Hin _]. by apply list_elem_of_In.
Qed.

(** The repairs handed out are exactly those whose moment has come, in
    path order; exactly the others stay, and asking again at once gives none. *)
Lemma due_partition pending now :
  OrdMap.sorted pending ->
  let '(ready, rest) := due pending now in
  ready = map fst (List.filter (fun e => e.2 <=? now) pending) /\
  rest = List.filter (fun e => now <? e.2) pending /\
  due rest now = ([], rest).
Proof.
  intros Hs. rewrite due_spec by done. repeat split.
  rewrite due_spec by (by apply OrdMap.sorted_filter). clear Hs. f_equal.
  - induction pending as [|e m IH]; simpl; [done|].
    destruct (now <? e.2) eqn:E; [|done]. simpl.
    replace (e.2 <=? now) with false by (bool_hyps; lia). done.
  - induction pending as [|e m IH]; simpl; [done|].
    destruct (now <? e.2) eqn:E; [|done]. simpl. by rewrite E, IH.
Qed.

Lemma due_partition_witness :
  let '(ready, rest) := due [(Path "./a", 5); (Path "./b", 9)] 6 in
  ready = map fst (List.filter (fun e => e.2 <=? 6) [(Path "./a", 5); (Path "./b", 9)]) /\
  rest = List.filter (fun e => 6 <? e.2) [(Path "./a", 5); (Path "./b", 9)] /\
  due rest 6 = ([], rest).
Proof. apply (due_partition [(Path "./a", 5); (Path "./b", 9)] 6). by apply sorted_by_test. Defined.

(** A peer is asked exactly when some peer's last root hash differed,
    and the one asked is one of those, whatever the generator draws. *)
Lemma pick_differing `{Generator} g peers mine :
  (is_Some (pick g peers mine).1 <-> exists c h, (c, h) ∈ peers /\ hashes h <> mine) /\
  (forall c, (pick g peers mine).1 = Some c -> exists h, (c, h) ∈ peers /\ hashes h <> mine).
Proof.
  setoid_rewrite <- elem_of_candidates. unfold pick.
  destruct (candidates peers mine) as [|c cs]; simpl.
  - split; [|done]. split; [by intros [? ?]|]. by intros (c & Hc%elem_of_nil).
  - pose proof (draw_bound g (length cs - 0)) as Hb.
    destruct (draw g (length cs - 0)) as [index g'] eqn:E. simpl in *.
    assert (is_Some ((c :: cs) !! index)) as [x Hx] by (apply lookup_lt_is_Some; simpl; lia).
    rewrite Hx. split; [split|]; [by exists c; left|by eexists|].
    intros c' [= <-]. by eapply list_elem_of_lookup_2.
Qed.

(** C40: within the range of a 64-bit difference a record outlives the time to
    live exactly when it is older than an hour.  A wire time near the bottom of
    the range makes the subtraction overflow: such a record is adopted for any
    path not held, and [expire] never drops it. *)
Theorem tombstone_age now at_ p :
  (is_int64 (now - at_) -> outlived now at_ = true <-> tombstone_ttl < now - at_) /\
  (0 <= now < 2 ^ 62 -> from_ticks "-9223372036854775808" = int64_min /\
     adoptable [(p, int64_min)] [] [] now = [(p, int64_min)] /\
     expire [(p, int64_min)] now = [(p, int64_min)]).
Proof.
  split; [apply outlived_small|]. intros Hnow. split; [reflexivity|].
  assert (outlived now int64_min = false) as Ho.
  { unfold outlived. replace (wrap64 (now - int64_min)) with (now - 2 ^ 63).
    - apply Z.ltb_ge. unfold tombstone_ttl. lia.
    - unfold wrap64, int64_min.
      replace (now - - 2 ^ 63 + 2 ^ 63) with (now + 1 * 2 ^ 64) by lia.
      rewrite Z_mod_plus_full, Z.mod_small by lia. lia. }
  split; [|unfold expire, OrdMap.erase_if; simpl; by rewrite Ho].
  unfold adoptable. simpl. by rewrite Ho.
Qed.

Lemma tombstone_age_witness :
  outlived (tombstone_ttl + 8) 7 = true <-> tombstone_ttl < tombstone_ttl + 8 - 7.
Proof. apply (tombstone_age (tombstone_ttl + 8) 7 (Path "./a")). vm_compute. split; discriminate. Defined.

(** A time that is not a decimal integer reads as the epoch.  Against a
    file written since the epoch such a deletion loses; against an older file it
    wins, so the epoch does not lose every comparison. *)
Lemma garbled_deletion s written :
  from_chars int64_min int64_max s = None ->
  beats (from_ticks s) written = true <-> file_to_ticks written < 0.
Proof. intros Hs. unfold beats, from_ticks, to_ticks. rewrite Hs. apply Z.ltb_lt. Qed.
