(* ===== verification/Replica.v ===== *)
(** * What reconciliation is for: the abstract specification

    Of one path a node knows that a file written at some time is present, that it was
    deleted at some time, or nothing.  Knowledge is ordered by time, a file before a
    deletion of the same tick (SPEC.md: delete against create, the create wins), and two
    nodes combine what they know by taking the later: a semilattice.  A fleet exchanges
    messages that say no more than their sender knows; they may be delayed, repeated,
    reordered or lost.  The theorems: nothing is invented and nothing is lost, so a
    fleet that agrees knows everything any of its members knew. *)

From stdpp Require Import sets relations.
From S2P Require Import Prelude.

(** Wire ticks. *)
Inductive entry := Present (at_ : Z) | Deleted (at_ : Z).

#[export] Instance entry_eq_dec : EqDecision entry.
Proof. solve_decision. Defined.

Definition rank (e : entry) : Z :=
  match e with Deleted t => 2 * t | Present t => 2 * t + 1 end.

Abbreviation knowledge := (option entry).

Definition merge (x y : knowledge) : knowledge :=
  match x, y with
  | Some a, Some b => Some (if rank a <? rank b then b else a)
  | None, _ => y
  | _, None => x
  end.

(** [x] is known to whoever knows [y]. *)
Definition below (x y : knowledge) : Prop := merge x y = y.

Definition merge_all (l : list knowledge) : knowledge := foldr merge None l.

(** ** The semilattice *)

#[export] Instance rank_inj : Inj (=) (=) rank.
Proof. intros [x|x] [y|y]; simpl; intros H; f_equal; lia. Qed.

(** The rank of [merge] is the greater one. *)
Lemma merge_rank a b : merge (Some a) (Some b) = Some (if rank a <? rank b then b else a).
Proof. done. Qed.

Ltac by_rank := repeat match goal with
  | |- context [rank ?a <? rank ?b] => destruct (Z.ltb_spec (rank a) (rank b))
  | H : context [rank ?a <? rank ?b] |- _ => destruct (Z.ltb_spec (rank a) (rank b))
  end; try done; try lia; try (f_equal; apply (inj rank); lia).

#[export] Instance merge_assoc : Assoc (=) merge.
Proof. intros [a|] [b|] [c|]; simpl; try done; by_rank. Qed.

#[export] Instance merge_comm : Comm (=) merge.
Proof. intros [a|] [b|]; simpl; try done; by_rank. Qed.

#[export] Instance merge_idemp : IdemP (=) merge.
Proof. intros [a|]; simpl; try done; by_rank. Qed.

#[export] Instance merge_left_id : LeftId (=) None merge.
Proof. intros []; done. Qed.

#[export] Instance merge_right_id : RightId (=) None merge.
Proof. intros []; done. Qed.

#[export] Instance below_partial_order : PartialOrder below.
Proof.
  split; [split|]; unfold below.
  - intros x. apply merge_idemp.
  - intros x y z Hxy Hyz. by rewrite <- Hyz, (assoc_L merge), Hxy.
  - intros x y Hxy Hyx. by rewrite <- Hyx, (comm_L merge), Hxy.
Qed.

Lemma below_None x : below None x.
Proof. apply left_id, _. Qed.

Lemma below_merge_l x y : below x (merge x y).
Proof. unfold below. by rewrite (assoc_L merge), (idemp_L merge). Qed.

Lemma below_merge_r x y : below y (merge x y).
Proof. rewrite (comm_L merge). apply below_merge_l. Qed.

Lemma merge_lub x y z : below x z -> below y z -> below (merge x y) z.
Proof. unfold below. intros Hx Hy. by rewrite <- (assoc_L merge), Hy. Qed.

Lemma merge_mono x x' y y' : below x x' -> below y y' -> below (merge x y) (merge x' y').
Proof.
  intros Hx Hy. apply merge_lub.
  - etrans; [exact Hx|]. apply below_merge_l.
  - etrans; [exact Hy|]. apply below_merge_r.
Qed.

Lemma below_Some a b : below (Some a) (Some b) <-> rank a <= rank b.
Proof.
  unfold below. simpl. destruct (Z.ltb_spec (rank a) (rank b)); [split; [lia|done]|].
  split; [intros [= ->]; lia|]. intros. f_equal. apply (inj rank). lia.
Qed.

Lemma not_below_None a : ~ below (Some a) None.
Proof. done. Qed.

#[export] Hint Resolve below_None below_merge_l below_merge_r merge_lub : syncfs.

Lemma merge_all_ub l x : x ∈ l -> below x (merge_all l).
Proof.
  induction l as [|y l IH]; intros Hx; [by apply elem_of_nil in Hx|]. cbn [merge_all foldr].
  apply elem_of_cons in Hx as [->|Hx]; [apply below_merge_l|].
  etrans; [by apply IH|]. apply below_merge_r.
Qed.

Lemma merge_all_lub l z : (forall x, x ∈ l -> below x z) -> below (merge_all l) z.
Proof.
  induction l as [|y l IH]; intros Hl; [apply below_None|]. cbn [merge_all foldr].
  apply merge_lub; [apply Hl; by left|]. apply IH. intros x Hx. apply Hl. by right.
Qed.

Lemma merge_all_const l x : l <> [] -> (forall y, y ∈ l -> y = x) -> merge_all l = x.
Proof.
  intros Hne Hl. apply (anti_symm below).
  - apply merge_all_lub. intros y Hy. by rewrite (Hl y Hy).
  - destruct l as [|y l]; [done|]. rewrite <- (Hl y) at 1 by by left. apply merge_all_ub. by left.
Qed.

(** Two nodes that knew [x] and [y]: the first merges the other's deletions [d] and
    knows [ha] and [da] of what it has and has deleted, the second then [hb] and [db];
    what each is told of the other's files, [ta] and [tb], covers what it lacked. *)
Lemma exchange_bounds x y ha hb da db d sa sb ta tb :
  sa = merge ha da -> sb = merge hb db -> sa = merge x d -> sb = merge y da -> below d y ->
  below ha (merge (merge y da) ta) -> below hb (merge (merge sa db) tb) ->
  below db (merge d sa) -> below ta sa -> below tb sb ->
  merge sa tb = merge x y /\ merge sb ta = merge x y.
Proof.
  intros Ha Hb Hsa Hsb Hd Hta Htb Hdb Hua Hub.
  assert (below da sa) as Hda by (rewrite Ha; apply below_merge_r).
  assert (below d sa) as Hds by (rewrite Hsa; apply below_merge_r).
  assert (below sa (merge x y)) as Hsx by (rewrite Hsa; by apply merge_mono).
  assert (below sb (merge x y)) as Hsy.
  { rewrite Hsb. apply merge_lub; [apply below_merge_r|]. by etrans. }
  assert (below db sa) as Hdb' by (etrans; [exact Hdb|]; by apply merge_lub).
  split; apply (anti_symm below).
  - apply merge_lub; [done|]. by etrans.
  - apply merge_lub; [etrans; [|apply below_merge_l]; rewrite Hsa; apply below_merge_l|].
    transitivity sb; [rewrite Hsb; apply below_merge_l|]. rewrite Hb. apply merge_lub.
    + etrans; [exact Htb|]. apply merge_mono; [|done]. by apply merge_lub.
    + etrans; [exact Hdb'|]. apply below_merge_l.
  - apply merge_lub; [done|]. by etrans.
  - apply merge_lub; [|etrans; [|apply below_merge_l]; rewrite Hsb; apply below_merge_l].
    transitivity sa; [rewrite Hsa; apply below_merge_l|]. rewrite Ha. apply merge_lub.
    + etrans; [exact Hta|]. by rewrite <- Hsb.
    + etrans; [|apply below_merge_l]. rewrite Hsb. apply below_merge_r.
Qed.

(** ** A fleet, one path *)

(** What each node knows, and what was ever said. *)
Record gossip := Gossip { knows : list knowledge; rumours : list knowledge }.

Inductive gossip_step : gossip -> gossip -> Prop :=
| says l bag i x m :
    l !! i = Some x -> below m x -> gossip_step (Gossip l bag) (Gossip l (m :: bag))
| hears l bag i x m :
    l !! i = Some x -> m ∈ bag -> gossip_step (Gossip l bag) (Gossip (<[i := merge x m]> l) bag).

(** Whatever was said or is known, some node knew at the start. *)
Definition accounted (all : knowledge) (g : gossip) : Prop :=
  merge_all (knows g) = all /\ forall m, m ∈ rumours g -> below m all.

Lemma merge_all_insert l i x m : l !! i = Some x -> below m (merge_all l) ->
  merge_all (<[i := merge x m]> l) = merge_all l.
Proof.
  intros Hi Hm. apply (anti_symm below).
  - apply merge_all_lub. intros y Hy. apply list_elem_of_lookup in Hy as [j Hj].
    apply list_lookup_insert_Some in Hj as [(-> & <- & _)|[_ Hj]].
    + apply merge_lub; [|done]. apply merge_all_ub. by eapply list_elem_of_lookup_2.
    + apply merge_all_ub. by eapply list_elem_of_lookup_2.
  - apply merge_all_lub. intros y Hy. apply list_elem_of_lookup in Hy as [j Hj].
    destruct (decide (i = j)) as [->|Hne].
    + assert (x = y) as <- by congruence. etrans; [apply (below_merge_l x m)|]. apply merge_all_ub.
      eapply list_elem_of_lookup_2, list_lookup_insert_eq. by eapply lookup_lt_Some.
    + apply merge_all_ub. apply (list_elem_of_lookup_2 _ j). by rewrite list_lookup_insert_ne.
Qed.

Lemma gossip_accounted all g g' : accounted all g -> gossip_step g g' -> accounted all g'.
Proof.
  intros [Hk Hs] Hstep. destruct Hstep as [l bag i x m Hi Hm|l bag i x m Hi Hm]; split; simpl in *.
  - done.
  - intros y [->|Hy]%elem_of_cons; [|by apply Hs]. etrans; [exact Hm|]. rewrite <- Hk.
    apply merge_all_ub. by eapply list_elem_of_lookup_2.
  - rewrite <- Hk. apply merge_all_insert; [done|]. rewrite Hk. by apply Hs.
  - done.
Qed.

Lemma gossip_accounted_rtc all g g' : accounted all g -> rtc gossip_step g g' -> accounted all g'.
Proof. intros Ha Hr. induction Hr as [|a b c Hab Hbc IH]; [done|]. apply IH. by eapply gossip_accounted. Qed.
