(* ===== verification/LocalChanges.v ===== *)
(** * Local changes: what a listing says of the one before (src/syncfs.cpp)

    The difference of two listings, without what this node wrote itself and without what
    a tombstone defeats: what is announced, and the tombstones that follow.  The theorems
    say the difference in one pass over the listings, and of every path whether it is
    announced and what becomes of its tombstone. *)

From stdpp Require Import sets.
From S2P Require Import Prelude OrdMap FsPath Utils Files Reconcile.

(** ** Local changes *)

Record diff_t := Diff { removed : file_map; created : file_map; modified : file_map }.

Definition create_diff (former current : file_map) : diff_t :=
  let removed := diff former current in
  let created := diff current former in
  let modified := intersection_name removed created in
  Diff (diff_name removed modified) (diff_name created modified) modified.

(** The entries of [modified] hold the old time; what is announced is the current one. *)
Definition with_current_times (current m : file_map) : file_map :=
  map (fun e => match OrdMap.find current e.1 with Some t => (e.1, t) | None => e end) m.

Definition is_echo (written current : file_map) (e : path * file_time) : bool :=
  match OrdMap.find written e.1, OrdMap.find current e.1 with
  | Some seen, Some now => seen =? now
  | _, _ => false
  end.

(** A predicate that erases the tombstones it finds defeated. *)
Definition loses_to_tombstone (current : file_map) (tombstones : tombstone_map) (e : path * file_time)
    : bool * tombstone_map :=
  match OrdMap.find tombstones e.1 with
  | None => (false, tombstones)
  | Some grave =>
      match OrdMap.find current e.1 with
      | Some now => if negb (beats grave now) then (false, OrdMap.erase tombstones e.1) else (true, tombstones)
      | None => (true, tombstones)
      end
  end.

(** [std::erase_if] under that predicate. *)
Definition erase_losing (current : file_map) (m : file_map) (tombstones : tombstone_map)
    : file_map * tombstone_map :=
  foldl (fun acc e =>
    let '(loses, t) := loses_to_tombstone current acc.2 e in
    (if loses : bool then acc.1 else acc.1 ++ [e], t)) ([], tombstones) m.

Definition local_changes (former current written : file_map) (tombstones : tombstone_map)
    (noticed : sys_time) : diff_t * tombstone_map :=
  let diff := create_diff former current in
  let created := OrdMap.erase_if (is_echo written current) (created diff) in
  let modified := OrdMap.erase_if (is_echo written current) (modified diff) in
  let '(created, tombstones) := erase_losing current created tombstones in
  let '(modified, tombstones) := erase_losing current modified tombstones in
  let removed := OrdMap.erase_if (fun e => OrdMap.contains tombstones e.1) (removed diff) in
  (Diff removed created modified,
   foldl (fun t e => mark t e.1 noticed) tombstones removed).

Definition forget_spent_marks (current written : file_map) (tombstones : tombstone_map) (now : sys_time)
    : file_map * tombstone_map :=
  (OrdMap.erase_if (fun e => negb (OrdMap.contains current e.1)) written, expire tombstones now).

(** ** Lemmas: the diff *)

Section changes.
Implicit Types (former current written m : file_map) (tombstones t : tombstone_map).

Lemma find_diff left right q : OrdMap.sorted left -> OrdMap.sorted right ->
  OrdMap.find (diff left right) q =
  match OrdMap.find left q with
  | Some a => if bool_decide (OrdMap.find right q = Some a) then None else Some a
  | None => None
  end.
Proof.
  intros Hl Hr. rewrite diff_filter by done. rewrite OrdMap.find_filter; [|done|].
  - destruct (OrdMap.find left q) as [a|]; [|done]. simpl. by destruct (bool_decide _).
  - intros k1 k2 v Hk. simpl. by rewrite (OrdMap.find_key right k1 k2).
Qed.

Lemma sorted_diff left right : OrdMap.sorted left -> OrdMap.sorted right -> OrdMap.sorted (diff left right).
Proof. intros. rewrite diff_filter by done. by apply OrdMap.sorted_filter. Qed.

Lemma contains_is_some {V} (m : list (path * V)) q :
  OrdMap.contains m q = match OrdMap.find m q with Some _ => true | None => false end.
Proof. unfold OrdMap.contains, OrdMap.find. by destruct (OrdMap.find_entry m q). Qed.

Lemma contains_blind {V W} (m : list (path * V)) : OrdMap.spelling_blind (fun e : path * W => OrdMap.contains m e.1).
Proof. intros k1 k2 v Hk. simpl. rewrite !contains_is_some. by rewrite (OrdMap.find_key m k1 k2). Qed.

Lemma find_diff_name left right q : OrdMap.sorted left -> OrdMap.sorted right ->
  OrdMap.find (diff_name left right) q = if OrdMap.contains right q then None else OrdMap.find left q.
Proof.
  intros Hl Hr. rewrite diff_name_filter by done. rewrite OrdMap.find_filter; [|done|].
  - simpl. destruct (OrdMap.find left q), (OrdMap.contains right q); done.
  - intros k1 k2 v Hk. f_equal. by apply (contains_blind right k1 k2 v).
Qed.

Lemma sorted_diff_name left right : OrdMap.sorted left -> OrdMap.sorted right ->
  OrdMap.sorted (diff_name left right).
Proof. intros. rewrite diff_name_filter by done. by apply OrdMap.sorted_filter. Qed.

Lemma find_intersection left right q : OrdMap.sorted left -> OrdMap.sorted right ->
  OrdMap.find (intersection_name left right) q = if OrdMap.contains right q then OrdMap.find left q else None.
Proof.
  intros Hl Hr. rewrite intersection_name_filter by done. rewrite OrdMap.find_filter; [|done|].
  - simpl. destruct (OrdMap.find left q), (OrdMap.contains right q); done.
  - intros k1 k2 v Hk. by apply (contains_blind right k1 k2 v).
Qed.

Lemma sorted_intersection left right : OrdMap.sorted left -> OrdMap.sorted right ->
  OrdMap.sorted (intersection_name left right).
Proof. intros. rewrite intersection_name_filter by done. by apply OrdMap.sorted_filter. Qed.

Definition sorted_diff_t (df : diff_t) : Prop :=
  OrdMap.sorted (removed df) /\ OrdMap.sorted (created df) /\ OrdMap.sorted (modified df).

(** Gone, new, or there before under another time. *)
Lemma create_diff_spec former current q : OrdMap.sorted former -> OrdMap.sorted current ->
  let df := create_diff former current in
  sorted_diff_t df /\
  OrdMap.find (removed df) q = match OrdMap.find current q with None => OrdMap.find former q | Some _ => None end /\
  OrdMap.find (created df) q = match OrdMap.find former q with None => OrdMap.find current q | Some _ => None end /\
  OrdMap.find (modified df) q =
    match OrdMap.find former q, OrdMap.find current q with
    | Some a, Some b => if bool_decide (a = b) then None else Some a
    | _, _ => None
    end.
Proof.
  intros Hf Hc df. unfold df, create_diff, sorted_diff_t.
  pose proof (sorted_diff former current Hf Hc) as H1. pose proof (sorted_diff current former Hc Hf) as H2.
  pose proof (sorted_intersection _ _ H1 H2) as H3. cbn [removed created modified].
  split; [auto using sorted_diff_name|].
  rewrite !find_diff_name, !contains_is_some, !find_intersection, !contains_is_some, !find_diff by done.
  destruct (OrdMap.find former q) as [a|] eqn:Ea, (OrdMap.find current q) as [b|] eqn:Eb; simpl; try done.
  rewrite !bool_decide_decide.
  destruct (decide (Some a = Some b)), (decide (Some b = Some a)), (decide (a = b)); simpl; try congruence;
    rewrite ?bool_decide_decide; repeat case_decide; simpl; auto; congruence.
Qed.

(** The entry's path is there too, under another time. *)
Definition retimed (current : file_map) (e : path * file_time) : bool :=
  match OrdMap.find current e.1 with Some now => negb (now =? e.2) | None => false end.

(** C13: what has changed, in one pass.  The five merges of the standard library that
    create_diff runs come to three filters: the entries of the former listing whose path is
    gone, those of the current one whose path is new, and those of the former one whose
    path is there under another time; each in the order of its listing and with its own
    spelling of the path. *)
Theorem create_diff_is_one_pass former current :
  OrdMap.sorted former -> OrdMap.sorted current ->
  create_diff former current =
  Diff (List.filter (fun e => negb (OrdMap.contains current e.1)) former)
       (List.filter (fun e => negb (OrdMap.contains former e.1)) current)
       (List.filter (retimed current) former).
Proof.
  intros Hf Hc. pose proof (fun q => create_diff_spec former current q Hf Hc) as Hspec. cbn zeta in Hspec.
  unfold create_diff in *. cbn [removed created modified] in Hspec.
  set (m := intersection_name (diff former current) (diff current former)) in *.
  assert (forall q, OrdMap.contains m q = match OrdMap.find former q, OrdMap.find current q with
    | Some a, Some b => negb (bool_decide (a = b)) | _, _ => false end) as Hm.
  { intros q. destruct (Hspec q) as (_ & _ & _ & Hq). rewrite contains_is_some, Hq.
    destruct (OrdMap.find former q), (OrdMap.find current q); try done. by destruct (bool_decide _). }
  assert (OrdMap.sorted m) as Hs by (apply (Hspec (Path ""))). f_equal.
  - rewrite diff_name_filter, diff_filter by auto using sorted_diff. rewrite filter_filter_and.
    apply List.filter_ext_in. intros [p t] Hin%list_elem_of_In. cbn [fst snd]. rewrite Hm, contains_is_some.
    rewrite (OrdMap.find_elem former p t Hf Hin). destruct (OrdMap.find current p) as [now|]; [|by rewrite bool_decide_eq_false_2].
    destruct (decide (now = t)) as [->|Hne]; [by rewrite !bool_decide_eq_true_2|].
    by rewrite !bool_decide_eq_false_2 by congruence.
  - rewrite diff_name_filter, diff_filter by auto using sorted_diff. rewrite filter_filter_and.
    apply List.filter_ext_in. intros [p t] Hin%list_elem_of_In. cbn [fst snd]. rewrite Hm, contains_is_some.
    rewrite (OrdMap.find_elem current p t Hc Hin). destruct (OrdMap.find former p) as [before|]; [|by rewrite bool_decide_eq_false_2].
    destruct (decide (before = t)) as [->|Hne]; [by rewrite !bool_decide_eq_true_2|].
    by rewrite !bool_decide_eq_false_2 by congruence.
  - unfold m. rewrite intersection_name_filter, (diff_filter former current) by auto using sorted_diff.
    rewrite filter_filter_and. apply List.filter_ext_in. intros [p t] Hin%list_elem_of_In. cbn [fst snd].
    rewrite contains_is_some, find_diff by done. rewrite (OrdMap.find_elem former p t Hf Hin). unfold retimed. cbn [fst snd].
    destruct (OrdMap.find current p) as [now|]; [|by rewrite andb_false_r].
    destruct (Z.eqb_spec now t) as [->|Hne]; [by rewrite bool_decide_eq_true_2|].
    by rewrite !bool_decide_eq_false_2 by congruence.
Qed.

(** Erasing under the predicate that forgets what it finds defeated. *)
Definition stays_dead current tombstones (e : path * file_time) : bool :=
  match OrdMap.find tombstones e.1 with
  | None => false
  | Some grave => match OrdMap.find current e.1 with Some now => beats grave now | None => true end
  end.

Definition defeated current tombstones (q : path) : bool :=
  match OrdMap.find tombstones q, OrdMap.find current q with
  | Some grave, Some now => negb (beats grave now)
  | _, _ => false
  end.

Lemma loses_spec current t e :
  loses_to_tombstone current t e =
  (stays_dead current t e, if defeated current t e.1 then OrdMap.erase t e.1 else t).
Proof.
  unfold loses_to_tombstone, stays_dead, defeated. destruct (OrdMap.find t e.1) as [g|]; [|done].
  destruct (OrdMap.find current e.1) as [n|]; [|done]. by destruct (beats g n).
Qed.

Lemma erase_losing_acc current m t acc : OrdMap.sorted m -> OrdMap.sorted t ->
  exists t', foldl (fun acc e =>
      let '(loses, t) := loses_to_tombstone current acc.2 e in
      (if loses : bool then acc.1 else acc.1 ++ [e], t)) (acc, t) m =
    (acc ++ List.filter (fun e => negb (stays_dead current t e)) m, t') /\ OrdMap.sorted t' /\
    forall q, OrdMap.find t' q =
      if OrdMap.contains m q && defeated current t q then None else OrdMap.find t q.
Proof.
  revert t acc. induction m as [|e m IH]; intros t acc Hm Ht.
  - exists t. simpl. by rewrite app_nil_r.
  - cbn [foldl]. rewrite loses_spec. cbn [fst snd].
    set (t1 := if defeated current t e.1 then OrdMap.erase t e.1 else t).
    assert (OrdMap.sorted t1) as Ht1 by (unfold t1; destruct (defeated _ _ _); [by apply OrdMap.sorted_erase|done]).
    assert (forall q, key_of e.1 <> key_of q -> OrdMap.find t1 q = OrdMap.find t q) as Hsame.
    { intros q Hq. unfold t1. destruct (defeated _ _ _); [|done]. rewrite OrdMap.find_erase by done.
      by rewrite (proj2 (OrdMap.keq_false e.1 q) Hq). }
    destruct (IH t1 (if stays_dead current t e then acc else acc ++ [e])
      ltac:(by eapply OrdMap.sorted_cons_inv) Ht1) as (t' & -> & Hs' & Hf').
    exists t'. split; [|split; [done|]].
    + f_equal. cbn [List.filter].
      replace (List.filter (fun e => negb (stays_dead current t1 e)) m)
        with (List.filter (fun e => negb (stays_dead current t e)) m).
      * destruct (stays_dead current t e); simpl; [done|by rewrite <- app_assoc].
      * apply List.filter_ext_in. intros x Hx%list_elem_of_In. apply OrdMap.sorted_cons in Hm as [_ Hlt].
        rewrite Forall_forall in Hlt. apply Hlt, OrdMap.klt_ne in Hx. unfold stays_dead. by rewrite Hsame.
    + intros q. rewrite Hf'. rewrite !contains_is_some, OrdMap.find_cons.
      destruct (OrdMap.keq e.1 q) eqn:Ek.
      * apply OrdMap.keq_iff in Ek. rewrite (OrdMap.find_sorted_tail m e q Hm Ek). simpl.
        assert (defeated current t q = defeated current t e.1) as Hd.
        { unfold defeated. by rewrite (OrdMap.find_key t q e.1), (OrdMap.find_key current q e.1). }
        rewrite Hd. unfold t1. destruct (defeated current t e.1); [|done].
        rewrite OrdMap.find_erase by done. by rewrite (proj2 (OrdMap.keq_iff e.1 q) Ek).
      * apply OrdMap.keq_false in Ek. unfold defeated. by rewrite !Hsame.
Qed.

Lemma erase_losing_spec current m t : OrdMap.sorted m -> OrdMap.sorted t ->
  let '(kept, t') := erase_losing current m t in
  kept = List.filter (fun e => negb (stays_dead current t e)) m /\ OrdMap.sorted t' /\
  forall q, OrdMap.find t' q = if OrdMap.contains m q && defeated current t q then None else OrdMap.find t q.
Proof.
  intros Hm Ht. destruct (erase_losing_acc current m t [] Hm Ht) as (t' & He & H'). unfold erase_losing.
  by rewrite He.
Qed.

Lemma find_with_current_times current m q :
  OrdMap.find (with_current_times current m) q =
  match OrdMap.find m q with Some v => Some (from_option id v (OrdMap.find current q)) | None => None end.
Proof.
  induction m as [|e m IH]; [done|]. cbn [with_current_times map]. rewrite !OrdMap.find_cons.
  destruct (OrdMap.find current e.1) as [t|] eqn:E; cbn [fst snd]; destruct (OrdMap.keq e.1 q) eqn:Ek;
    try exact IH; apply OrdMap.keq_iff in Ek; by rewrite (OrdMap.find_key current q e.1), E by done.
Qed.

(** Here under a time that is neither the one listed before nor the one libtorrent
    left it with. *)
Definition changed former current written (q : path) : option file_time :=
  match OrdMap.find current q with
  | Some now =>
      if bool_decide (OrdMap.find former q = Some now) || bool_decide (OrdMap.find written q = Some now)
      then None else Some now
  | None => None
  end.

Lemma find_not_echo written current m q : OrdMap.sorted m ->
  OrdMap.find (OrdMap.erase_if (is_echo written current) m) q =
  match OrdMap.find m q, OrdMap.find current q with
  | Some v, Some now => if bool_decide (OrdMap.find written q = Some now) then None else Some v
  | o, _ => o
  end.
Proof.
  intros Hm. unfold OrdMap.erase_if. rewrite OrdMap.find_filter; [|done|].
  - destruct (OrdMap.find m q) as [v|]; [|done]. unfold is_echo. cbn [fst].
    destruct (OrdMap.find written q) as [seen|], (OrdMap.find current q) as [now|]; try done.
    rewrite bool_decide_decide. destruct (Z.eqb_spec seen now), (decide (Some seen = Some now)); simpl; congruence.
  - intros k1 k2 v Hk. unfold is_echo. simpl.
    by rewrite (OrdMap.find_key written k1 k2), (OrdMap.find_key current k1 k2).
Qed.

Lemma find_kept current t m q : OrdMap.sorted m ->
  OrdMap.find (List.filter (fun e => negb (stays_dead current t e)) m) q =
  match OrdMap.find m q with Some v => if stays_dead current t (q, v) then None else Some v | None => None end.
Proof.
  intros Hm. rewrite OrdMap.find_filter; [|done|].
  - destruct (OrdMap.find m q) as [v|]; [|done]. by destruct (stays_dead current t (q, v)).
  - intros k1 k2 v Hk. unfold stays_dead. simpl.
    by rewrite (OrdMap.find_key t k1 k2), (OrdMap.find_key current k1 k2).
Qed.

Lemma contains_not_echo former current written q :
  OrdMap.sorted former -> OrdMap.sorted current ->
  let df := create_diff former current in
  OrdMap.contains (OrdMap.erase_if (is_echo written current) (created df)) q ||
  OrdMap.contains (OrdMap.erase_if (is_echo written current) (modified df)) q =
  match changed former current written q with Some _ => true | None => false end.
Proof.
  intros Hf Hc df. destruct (create_diff_spec former current q Hf Hc) as ((_ & Hs1 & Hs2) & _ & H1 & H2).
  fold df in Hs1, Hs2, H1, H2. rewrite !contains_is_some, !find_not_echo, H1, H2 by done. unfold changed.
  destruct (OrdMap.find former q) as [a|], (OrdMap.find current q) as [b|]; simpl; try done.
  - rewrite !bool_decide_decide. destruct (decide (a = b)), (decide (Some a = Some b)); simpl; try congruence.
    by destruct (decide (OrdMap.find written q = Some b)).
  - by destruct (bool_decide _).
Qed.
End changes.

(** What [local_changes] decides for a path. *)
Definition announced (former current written : file_map) (tombstones : tombstone_map) (q : path) (now : file_time) : Prop :=
  OrdMap.find current q = Some now /\ OrdMap.find former q <> Some now /\
  OrdMap.find written q <> Some now /\
  forall grave, OrdMap.find tombstones q = Some grave -> grave <= file_to_ticks now.

Section decisions.
Context (former current written : file_map) (tombstones : tombstone_map).
Context (Hf : OrdMap.sorted former) (Hc : OrdMap.sorted current) (Ht : OrdMap.sorted tombstones).

Lemma announced_iff q now :
  announced former current written tombstones q now <->
  changed former current written q = Some now /\ stays_dead current tombstones (q, now) = false.
Proof.
  unfold announced, changed, stays_dead, beats. cbn [fst]. split.
  - intros (H1 & H2 & H3 & H4). rewrite H1. rewrite !bool_decide_eq_false_2 by done. split; [done|].
    destruct (OrdMap.find tombstones q) as [g|]; [|done]. apply Z.ltb_ge. by apply H4.
  - intros [H1 H2]. destruct (OrdMap.find current q) as [n|]; [|done].
    destruct (bool_decide _) eqn:E1; [done|]. destruct (bool_decide (OrdMap.find written q = _)) eqn:E2; [done|].
    injection H1 as ->. apply bool_decide_eq_false in E1, E2. repeat split; try done.
    intros g Hg. rewrite Hg in H2. by apply Z.ltb_ge in H2.
Qed.

Let df := create_diff former current.
Let c1 := OrdMap.erase_if (is_echo written current) (created df).
Let m1 := OrdMap.erase_if (is_echo written current) (modified df).

Lemma changes_disjoint q : OrdMap.contains c1 q = true -> OrdMap.contains m1 q = true -> False.
Proof.
  destruct (create_diff_spec former current q Hf Hc) as ((_ & Hs1 & Hs2) & _ & H1 & H2).
  unfold c1, m1. rewrite !contains_is_some, !find_not_echo by done. fold df in H1, H2. rewrite H1, H2.
  by destruct (OrdMap.find former q).
Qed.

(** The tombstones once the defeated ones are gone. *)
Lemma tombstones_left t1 t2 :
  (forall q, OrdMap.find t1 q =
     if OrdMap.contains c1 q && defeated current tombstones q then None else OrdMap.find tombstones q) ->
  (forall q, OrdMap.find t2 q = if OrdMap.contains m1 q && defeated current t1 q then None else OrdMap.find t1 q) ->
  forall q, OrdMap.find t2 q =
    match changed former current written q with
    | Some _ => if defeated current tombstones q then None else OrdMap.find tombstones q
    | None => OrdMap.find tombstones q
    end.
Proof.
  intros H1 H2 q. pose proof (contains_not_echo former current written q Hf Hc) as Hch. cbn zeta in Hch.
  fold df c1 m1 in Hch. pose proof (changes_disjoint q) as Hdis. rewrite H2. unfold defeated at 1.
  rewrite H1. destruct (OrdMap.contains c1 q), (OrdMap.contains m1 q); simpl in *;
    try (exfalso; by apply Hdis); destruct (changed former current written q); try done.
Qed.

Lemma find_m1_dead t1 q v :
  (forall q, OrdMap.find t1 q =
     if OrdMap.contains c1 q && defeated current tombstones q then None else OrdMap.find tombstones q) ->
  OrdMap.find m1 q = Some v -> stays_dead current t1 (q, v) = stays_dead current tombstones (q, v).
Proof.
  intros H1 Hm. unfold stays_dead. cbn [fst]. rewrite H1. pose proof (changes_disjoint q) as Hdis.
  destruct (OrdMap.contains c1 q); [|done]. exfalso. apply Hdis; [done|]. by rewrite contains_is_some, Hm.
Qed.

Lemma changed_entries q now :
  changed former current written q = Some now <->
  OrdMap.find current q = Some now /\ (is_Some (OrdMap.find c1 q) \/ is_Some (OrdMap.find m1 q)).
Proof.
  pose proof (contains_not_echo former current written q Hf Hc) as Hch. cbn zeta in Hch. fold df c1 m1 in Hch.
  rewrite !contains_is_some in Hch. split.
  - intros Hq. rewrite Hq in Hch. unfold changed in Hq. destruct (OrdMap.find current q) as [n|]; [|done].
    destruct (_ || _) eqn:E in Hq; [done|]. split; [done|].
    destruct (OrdMap.find c1 q); [left; by eexists|]. destruct (OrdMap.find m1 q); [right; by eexists|done].
  - intros [Hq Ho]. destruct (changed former current written q) as [n|] eqn:E.
    + unfold changed in E. rewrite Hq in E. destruct (_ || _) in E; congruence.
    + exfalso. destruct Ho as [[x Hx]|[x Hx]]; rewrite Hx in Hch; [done|]. by destruct (OrdMap.find c1 q).
Qed.
End decisions.

Lemma later_None x : later x None = x.
Proof. by destruct x. Qed.

Lemma sorted_marked (l : file_map) (t : tombstone_map) at_ : OrdMap.sorted t ->
  OrdMap.sorted (foldl (fun t e => mark t e.1 at_) t l).
Proof. revert t. induction l as [|e l IH]; intros t Hs; [done|]. apply IH. by apply sorted_mark. Qed.

Lemma find_marked (l : file_map) (t : tombstone_map) at_ q : OrdMap.sorted t ->
  OrdMap.find (foldl (fun t e => mark t e.1 at_) t l) q =
  later (OrdMap.find t q) (if OrdMap.contains l q then Some at_ else None).
Proof.
  revert t. induction l as [|e l IH]; intros t Hs; simpl; [by destruct (OrdMap.find t q)|].
  rewrite IH, find_mark_later by (by try apply sorted_mark). rewrite !contains_is_some, OrdMap.find_cons.
  destruct (OrdMap.keq e.1 q); destruct (OrdMap.find t q), (OrdMap.find l q); simpl; f_equal; lia.
Qed.

Section spec.
Implicit Types (former current written : file_map) (tombstones : tombstone_map).

(** What has gone and is not marked already. *)
Lemma find_unmarked former current tombstones t2 q : OrdMap.sorted former -> OrdMap.sorted current ->
  (forall q, OrdMap.find current q = None -> OrdMap.find t2 q = OrdMap.find tombstones q) ->
  OrdMap.find (OrdMap.erase_if (fun e => OrdMap.contains t2 e.1) (removed (create_diff former current))) q =
  match OrdMap.find current q, OrdMap.find tombstones q with
  | None, None => OrdMap.find former q | _, _ => None end.
Proof.
  intros Hf Hc Hgone. destruct (create_diff_spec former current q Hf Hc) as ((Hs & _) & Hr & _).
  unfold OrdMap.erase_if. rewrite OrdMap.find_filter; [|done|].
  - rewrite Hr. cbn [fst]. destruct (OrdMap.find current q) as [n|] eqn:E; [done|].
    rewrite contains_is_some, Hgone by done. by destruct (OrdMap.find former q), (OrdMap.find tombstones q).
  - intros k1 k2 v Hk. f_equal. by apply (contains_blind t2 k1 k2 v).
Qed.

(** C15: what a listing makes a node announce, and remember, path by path.  A file
    is announced, under its current time, exactly when that time is news, is not the one
    libtorrent left the file with, and is not older than a deletion on record; a deletion
    is published exactly when the path is gone and no deletion of it is on record, and is
    then on record; a tombstone goes exactly when a changed file is no older than it. *)
Theorem local_changes_spec former current written tombstones noticed :
  OrdMap.sorted former -> OrdMap.sorted current -> OrdMap.sorted tombstones ->
  let '(df, tombstones') := local_changes former current written tombstones noticed in
  (forall q now,
     OrdMap.find (with_current_times current (created df)) q = Some now \/
     OrdMap.find (with_current_times current (modified df)) q = Some now <->
     announced former current written tombstones q now) /\
  (forall q, is_Some (OrdMap.find (removed df) q) <->
     is_Some (OrdMap.find former q) /\ OrdMap.find current q = None /\ OrdMap.find tombstones q = None) /\
  (forall q, OrdMap.find tombstones' q =
     if OrdMap.contains (removed df) q then Some noticed
     else match changed former current written q with
          | Some _ => if defeated current tombstones q then None else OrdMap.find tombstones q
          | None => OrdMap.find tombstones q
          end) /\
  OrdMap.sorted tombstones'.
Proof.
  intros Hf Hc Ht. unfold local_changes.
  destruct (create_diff_spec former current (Path "") Hf Hc) as ((Hs0 & Hs1 & Hs2) & _).
  set (df := create_diff former current) in *.
  set (c1 := OrdMap.erase_if (is_echo written current) (created df)).
  set (m1 := OrdMap.erase_if (is_echo written current) (modified df)).
  pose proof (erase_losing_spec current c1 tombstones ltac:(by apply OrdMap.sorted_erase_if) Ht) as Hl1.
  destruct (erase_losing current c1 tombstones) as [c2 t1]. destruct Hl1 as (-> & Hst1 & Ht1).
  pose proof (erase_losing_spec current m1 t1 ltac:(by apply OrdMap.sorted_erase_if) Hst1) as Hl2.
  destruct (erase_losing current m1 t1) as [m2 t2]. destruct Hl2 as (-> & Hst2 & Ht2).
  pose proof (tombstones_left former current written tombstones Hf Hc t1 t2 Ht1 Ht2) as Hleft.
  assert (forall q, OrdMap.find current q = None -> OrdMap.find t2 q = OrdMap.find tombstones q) as Hgone.
  { intros q Hq. rewrite Hleft. unfold changed. by rewrite Hq. }
  set (rm := OrdMap.erase_if (fun e => OrdMap.contains t2 e.1) (removed df)).
  pose proof (fun q => find_unmarked former current tombstones t2 q Hf Hc Hgone) as Hrm. fold df rm in Hrm.
  assert (OrdMap.sorted rm) as Hsr by (by apply OrdMap.sorted_erase_if). cbn [removed created modified].
  split; [|split; [|split]].
  - intros q now. rewrite announced_iff, !find_with_current_times, !find_kept by (by apply OrdMap.sorted_erase_if).
    rewrite changed_entries by done. fold df c1 m1.
    pose proof (find_m1_dead former current written tombstones Hf Hc t1 q) as Hdead. fold df c1 m1 in Hdead.
    assert (forall v, stays_dead current tombstones (q, v) = stays_dead current tombstones (q, now)) as Hv by done.
    destruct (OrdMap.find current q) as [n|] eqn:En; cbn [from_option id]; [|].
    + destruct (OrdMap.find c1 q) as [x|], (OrdMap.find m1 q) as [y|];
        try rewrite (Hdead y Ht1 eq_refl); rewrite ?(Hv x), ?(Hv y);
        destruct (stays_dead current tombstones (q, now)); unfold is_Some; naive_solver.
    + assert (OrdMap.find c1 q = None /\ OrdMap.find m1 q = None) as [-> ->]; [|naive_solver].
      destruct (create_diff_spec former current q Hf Hc) as (_ & _ & Hcr & Hmo). fold df in Hcr, Hmo.
      unfold c1, m1. rewrite !find_not_echo, Hcr, Hmo, En by done. by destruct (OrdMap.find former q).
  - intros q. rewrite Hrm. destruct (OrdMap.find current q), (OrdMap.find tombstones q);
      (split; [intros H|intros (H & H' & H'')]); try done; by destruct H.
  - intros q. rewrite find_marked, contains_is_some, Hrm by done. destruct (OrdMap.find current q) as [n|] eqn:E; [by rewrite later_None, Hleft|].
    rewrite Hgone by done. unfold changed. rewrite E.
    by destruct (OrdMap.find tombstones q), (OrdMap.find former q).
  - by apply sorted_marked.
Qed.
End spec.

(** ** At concrete inputs *)

Lemma create_diff_is_one_pass_witness :
  create_diff [(Path "./a", 1); (Path "./b", 2); (Path "./c", 3)] [(Path "./b", 9); (Path "./c", 3); (Path "./d", 4)] =
  Diff [(Path "./a", 1)] [(Path "./d", 4)] [(Path "./b", 2)].
Proof.
  refine (eq_trans (create_diff_is_one_pass [(Path "./a", 1); (Path "./b", 2); (Path "./c", 3)]
    [(Path "./b", 9); (Path "./c", 3); (Path "./d", 4)] _ _) _); [by apply sorted_by_test..|].
  vm_compute. reflexivity.
Defined.

Lemma local_changes_spec_witness :
  let former := [(Path "./a", 1); (Path "./d", 1)] in
  let current := [(Path "./a", 2); (Path "./b", 3)] in
  let written := [(Path "./b", 3)] in
  let tombstones := [(Path "./c", 4)] in
  let '(df, tombstones') := local_changes former current written tombstones 9 in
  (forall q now,
     OrdMap.find (with_current_times current (created df)) q = Some now \/
     OrdMap.find (with_current_times current (modified df)) q = Some now <->
     announced former current written tombstones q now) /\
  (forall q, is_Some (OrdMap.find (removed df) q) <->
     is_Some (OrdMap.find former q) /\ OrdMap.find current q = None /\ OrdMap.find tombstones q = None) /\
  (forall q, OrdMap.find tombstones' q =
     if OrdMap.contains (removed df) q then Some 9
     else match changed former current written q with
          | Some _ => if defeated current tombstones q then None else OrdMap.find tombstones q
          | None => OrdMap.find tombstones q
          end) /\
  OrdMap.sorted tombstones'.
Proof.
  apply (local_changes_spec [(Path "./a", 1); (Path "./d", 1)] [(Path "./a", 2); (Path "./b", 3)]
    [(Path "./b", 3)] [(Path "./c", 4)] 9); by apply sorted_by_test.
Defined.
