(* ===== verification/Protocol.v ===== *)
(** * src/protocol.cpp: what a message does to a node

    [act] reads one message and applies it to the session, the disk and the
    tombstones; [adopt] takes on the deletions of a peer's digest.  libtorrent and
    the file system are not under src/: they are classes, with the documented
    behaviour the theorems use as laws. The theorems: a malformed message changes
    nothing, a path is served by one content, and a digest adopted once leaves
    nothing to adopt.  [take_copy] is the rule of [wins] alone, an order on copies; Copies.v
    says when a node follows it. *)

From stdpp Require Import sets.
From S2P Require Import Prelude OrdMap FsPath Utils Files Reconcile.

(** ** libtorrent *)

(** Content hashes, ordered as [info_hash_t] is; torrents, and reading one from an
    announcement ([None] is the exception of a buffer that is no torrent). *)
Class Torrents := {
  content : Type;
  content_eq :: EqDecision content;
  content_ltb : content -> content -> bool;
  torrent : Type;
  info_hashes : torrent -> content;
  (** [layout().file_path(...)] of the torrent's only file. *)
  file_path : torrent -> string;
  dht_nodes : torrent -> list (string * Z);
  load_torrent_buffer : string -> option torrent;
}.

(** The order on contents is a strict total order. *)
Class TorrentLaws `{Torrents} : Prop := {
  content_irrefl : forall c, content_ltb c c = false;
  content_trans : forall a b c, content_ltb a b = true -> content_ltb b c = true -> content_ltb a c = true;
  content_total : forall a b, content_ltb a b = false -> content_ltb b a = false -> a = b;
}.

(** The session: [status] is what get_torrent_status answers for every torrent, a
    handle, its save path and, unless the metadata is gone, its torrent. *)
Class Session `{Torrents} := {
  session : Type;
  handle : Type;
  handle_eq :: EqDecision handle;
  status : session -> list (handle * string * option torrent);
  remove_torrent : session -> handle -> session;
  add_torrent : session -> torrent -> string -> session * handle;
  add_dht_node : session -> string * Z -> session;
  force_dht_announce : session -> handle -> session;
  flush_cache : session -> handle -> session;
}.

(** What libtorrent documents: a removed handle is gone and no other; an added
    torrent is listed, under the path it was given, unless one of the same content
    is there, which is then what add_torrent answers; the DHT calls and a flush list
    and unlist nothing. *)
Class SessionLaws `{Torrents} `{!Session} := {
  complete_path : string -> string;
  status_remove : forall s h, status (remove_torrent s h) = List.filter (fun e => negb (bool_decide (e.1.1 = h))) (status s);
  status_add : forall s t p,
    status (add_torrent s t p).1 =
      if existsb (fun e => match e.2 with Some t' => bool_decide (info_hashes t' = info_hashes t) | None => false end) (status s)
      then status s else status s ++ [((add_torrent s t p).2, complete_path p, Some t)];
  status_handles : forall s, NoDup (map (fun e => e.1.1) (status s));
  status_dht : forall s n, status (add_dht_node s n) = status s;
  status_announce : forall s h, status (force_dht_announce s h) = status s;
  status_flush : forall s h, status (flush_cache s h) = status s;
}.

(** ** The file system under the sync root *)

Class Disk := {
  disk : Type;
  (** [None] is an error: the file is not there. *)
  last_write_time : disk -> path -> option file_time;
  (** [std::filesystem::remove]; [None] is the exception it throws. *)
  fs_remove : disk -> path -> option disk;
  (** Setting a file's modification time. *)
  set_time : disk -> path -> file_time -> disk;
  current_path : disk -> path;
}.

(** Two spellings of one place.  The laws below are those of regular files, the only
    ones a listing has: the time of a directory changes with its entries. *)
Definition same_place (p q : path) : bool := OrdMap.keq (lexically_normal p) (lexically_normal q).

Class DiskLaws `{Disk} : Prop := {
  time_removed : forall d p d' q, fs_remove d p = Some d' ->
    last_write_time d' q = if same_place p q then None else last_write_time d q;
  time_set : forall d p t q, is_Some (last_write_time d p) ->
    last_write_time (set_time d p t) q = if same_place p q then Some t else last_write_time d q;
}.

(** ** Paths *)

(** [lexically_relative]: the components after the common ones, behind a dot-dot for
    every component of the base that is left. *)
Fixpoint drop_common (a b : list string) : list string * list string :=
  match a, b with
  | x :: a', y :: b' => if String.eqb x y then drop_common a' b' else (a, b)
  | _, _ => (a, b)
  end.

Definition ups (b : list string) : Z :=
  foldl (fun n c => if String.eqb c ".." then n - 1
                    else if String.eqb c "" || String.eqb c "." then n else n + 1) 0 b.

Definition lexically_relative (p base : path) : path :=
  if negb (Bool.eqb (has_root_directory p) (has_root_directory base)) then Path ""
  else
    let '(a, b) := drop_common (components p) (components base) in
    match a, b with
    | [], [] => Path "."
    | _, _ =>
        let n := ups b in
        if n <? 0 then Path ""
        else if (n =? 0) && match a with [] => true | x :: _ => String.eqb x "" end then Path "."
        else foldl (fun r c => path_append r (Path c)) (Path "") (repeat ".." (Z.to_nat n) ++ a)
    end.

(** Taking the separators off the end. *)
Fixpoint strip_slashes_rev (s : string) : string :=
  match s with String c s' => if decide (c = SLASH) then strip_slashes_rev s' else s | EmptyString => EmptyString end.

Definition ends_with (s tail : string) : bool := String.prefix (String.rev tail) (String.rev s).

Definition save_path_for (announced in_torrent : path) : string :=
  let whole := native (lexically_normal announced) in
  let tail := native (lexically_normal in_torrent) in
  if (String.length whole <? String.length tail)%nat || negb (ends_with whole tail) then "."
  else
    let directory := str_take (String.length whole - String.length tail) whole in
    let directory := String.rev (strip_slashes_rev (String.rev directory)) in
    if String.eqb directory "" then "." else directory.

(** ** The repair cache *)

Section protocol.
Context `{Torrents}.

Record applied_t := Applied { applied_origin : file_time; applied_content : content }.

Abbreviation applied_map := (list (path * applied_t)).

Record repairs_t := Repairs {
  pending : pending_map;
  applied : applied_map;
  announcements : list (path * string);
}.

Definition forget (r : repairs_t) (p : path) : repairs_t :=
  {| announcements := OrdMap.erase (announcements r) p;
     applied := OrdMap.erase (applied r) p;
     pending := OrdMap.erase (pending r) p |}.

Context `{!Session} `{Disk}.

(** What [act] may change. *)
Record world := World { ses : session; dsk : disk; graves : tombstone_map }.

Definition join (root : path) (save_path : string) (ti : torrent) : path :=
  lexically_normal (path_append (lexically_relative (Path save_path) root) (Path (file_path ti))).

Definition torrents_at (s : session) (root p : path) : list handle :=
  let wanted := lexically_normal p in
  omap (fun st : handle * string * option torrent =>
    match st.2 with
    | Some info => if OrdMap.keq (join root st.1.2 info) wanted then Some st.1.1 else None
    | None => None
    end) (status s).

(** The handles at the path are read once; one is kept if it has the content. *)
Definition remove_stale_torrents (s : session) (root announced : path) (added : torrent) : bool * session :=
  foldl (fun (acc : bool * session) (h : handle) =>
    match List.find (fun st : handle * string * option torrent => bool_decide (st.1.1 = h)) (status s) with
    | Some (_, _, Some info) =>
        if bool_decide (info_hashes info = info_hashes added) then (true, acc.2)
        else (acc.1, remove_torrent acc.2 h)
    | _ => acc
    end) (false, s) (torrents_at s root announced).

(** Whether an announced file beats the copy here, on its time and content. *)
Definition wins (known : applied_map) (announced : path) (origin : file_time) (incoming : content)
    (here : option file_time) : bool :=
  match here with
  | None => true
  | Some here =>
      let theirs := file_to_ticks origin in
      let ours := file_to_ticks here in
      if negb (theirs =? ours) then ours <? theirs
      else
        match OrdMap.find known announced with
        | None => true
        | Some k =>
            if negb (file_to_ticks (applied_origin k) =? ours) then true
            else negb (content_ltb (applied_content k) incoming)
        end
  end.

(** *** Verbs *)

Definition verbs : list (string * nat) := [("create", 4); ("remove", 3); ("state", 3); ("digest", 3)]%nat.

Definition remove_parts : nat := 3.
Definition max_parts : nat := 4.

Definition parts_for (part0 : string) : option nat :=
  option_map snd (List.find (fun v : string * nat => String.eqb v.1 (verb_of part0)) verbs).

Definition part (v : list string) (i : nat) : string := match v !! i with Some s => s | None => "" end.

Definition removed_path (v : list string) : option path :=
  if negb (length v =? remove_parts)%nat || negb (String.eqb (verb_of (part v 0)) "remove") then None
  else Some (Path (part v 1)).

Definition add_nodes (s : session) (nodes : list (string * Z)) : string * session :=
  foldl (fun (acc : string * session) (n : string * Z) =>
    (acc.1 +:+ " " +:+ n.1 +:+ ":" +:+ Z_to_string n.2, add_dht_node acc.2 n)) ("", s) nodes.

(** *** act *)

Record outcome := Outcome {
  verb : string;
  message : string;
  created : option path;
  origin : file_time;
  out_content : option content;
  already_held : bool;
}.

Definition said (v m : string) : outcome := Outcome v m None 0 None false.

(** [std::expected], and the exceptions that go past it. *)
Inductive acted := Done (o : outcome) | Unexpected (e : string) | Thrown.

Definition DQUOTE : ascii := "034"%char.

Definition quoted (p : path) : string := String DQUOTE (native p +:+ String DQUOTE "").

(** The torrents first, then the file. *)
Definition erase (s : session) (d : disk) (p : path) : session * option disk :=
  (foldl remove_torrent s (torrents_at s (current_path d) p), fs_remove d p).

Definition act_remove (v : list string) (removed : path) (w : world) : acted * world :=
  let '(s', d') := erase (ses w) (dsk w) removed in
  match d' with
  | None => (Thrown, World s' (dsk w) (graves w))
  | Some d' =>
      (Done (said (verb_of (part v 0)) ("Delete " +:+ quoted removed)),
       World s' d' (mark (graves w) removed (from_ticks (part v 2))))
  end.

Definition act_create (v : list string) (known : applied_map) (w : world) : acted * world :=
  let verb := verb_of (part v 0) in
  let announced := Path (part v 3) in
  let written := to_file_time (from_ticks (part v 2)) in
  let grave := OrdMap.find (graves w) announced in
  if match grave with Some g => beats g written | None => false end then
    (Done (said verb ("Ignore " +:+ quoted announced +:+ ", deleted since")), w)
  else
    let w := match grave with
             | Some _ => World (ses w) (dsk w) (OrdMap.erase (graves w) announced)
             | None => w
             end in
    match load_torrent_buffer (part v 1) with
    | None => (Thrown, w)
    | Some ti =>
        if negb (wins known announced written (info_hashes ti) (last_write_time (dsk w) announced)) then
          (Done (said verb ("Ignore " +:+ quoted announced +:+ ", not newer")), w)
        else
          let save := save_path_for announced (Path (file_path ti)) in
          let '(held, s) := remove_stale_torrents (ses w) (current_path (dsk w)) announced ti in
          let '(s, h) := add_torrent s ti save in
          let '(nodes, s) := add_nodes s (dht_nodes ti) in
          let s := force_dht_announce s h in
          (Done {| verb := verb; message := "Added nodes for " +:+ quoted announced +:+ nodes;
                   created := Some announced; origin := written; out_content := Some (info_hashes ti);
                   already_held := held |},
           World s (dsk w) (graves w))
    end.

Definition act (v : list string) (known : applied_map) (w : world) : acted * world :=
  match v with
  | [] => (Unexpected "Wrong protocol length.", w)
  | part0 :: _ =>
      match parts_for part0 with
      | None => (Unexpected "Wrong protocol verb.", w)
      | Some parts =>
          if negb (length v =? parts)%nat then (Unexpected "Wrong protocol length.", w)
          else
            match removed_path v with
            | Some removed => act_remove v removed w
            | None =>
                if String.eqb (verb_of part0) "create" then act_create v known w
                else (Done (said (verb_of part0) ("Nothing to do for " +:+ quoted (Path (verb_of part0)))), w)
            end
      end
  end.

(** *** The digest's deletions *)

(** What [adopt] changes besides the tombstones and the listing. *)
Record adopting := Adopting {
  a_ses : session; a_dsk : disk; a_former : file_map; a_mine : tombstone_map;
  a_repairs : repairs_t; a_deleted : list path;
}.

(** One adopted deletion; [None] once the disk has thrown. *)
Definition adopt_one (st : option adopting) (e : path * sys_time) : option adopting :=
  match st with
  | None => None
  | Some a =>
      let '(p, at_) := e in
      let mine := mark (a_mine a) p at_ in
      if OrdMap.contains (a_former a) p then
        let '(s', d') := erase (a_ses a) (a_dsk a) p in
        match d' with
        | None => None
        | Some d' =>
            Some {| a_ses := s'; a_dsk := d'; a_former := OrdMap.erase (a_former a) p; a_mine := mine;
                    a_repairs := forget (a_repairs a) p; a_deleted := a_deleted a ++ [p] |}
        end
      else Some {| a_ses := a_ses a; a_dsk := a_dsk a; a_former := a_former a; a_mine := mine;
                   a_repairs := a_repairs a; a_deleted := a_deleted a |}
  end.

Definition adopt (s : session) (d : disk) (theirs : tombstone_map) (former : file_map)
    (mine : tombstone_map) (repairs : repairs_t) (now : sys_time) : option adopting :=
  foldl adopt_one (Some (Adopting s d former mine repairs [])) (adoptable theirs former mine now).

(** *** held_path *)

Definition held_path (d : disk) (st : handle * string * option torrent) : option path :=
  match st.2 with
  | None => None
  | Some info => Some (path_append (Path ".") (join (current_path d) st.1.2 info))
  end.

End protocol.

Abbreviation applied_map := (list (path * applied_t)).

(** ** Malformed messages *)

Section wellformed.
Context `{Torrents} `{!Session} `{Disk}.

(** A message whose verb is unknown, or whose number of parts is not the
    one its verb has, is an error and leaves the session, the disk and the
    tombstones as they were; the parts of a well-formed one are never more than the
    receiver takes off the wire. *)
Lemma malformed_changes_nothing (v : list string) known w :
  (forall part0 rest, v = part0 :: rest -> parts_for part0 <> Some (length v)) ->
  exists e, act v known w = (Unexpected e, w).
Proof.
  intros Hv. destruct v as [|part0 rest]; [by eexists|]. specialize (Hv part0 rest eq_refl).
  unfold act. destruct (parts_for part0) as [parts|]; [|by eexists].
  destruct (length (part0 :: rest) =? parts)%nat eqn:E; [|by eexists].
  apply Nat.eqb_eq in E as <-. done.
Qed.

Lemma parts_for_bound part0 n : parts_for part0 = Some n -> (n <= max_parts)%nat.
Proof.
  unfold parts_for. destruct (List.find _ _) as [[v k]|] eqn:E; [|done]. intros [= <-].
  apply List.find_some in E as [Hin _]. unfold max_parts. simpl in *.
  destruct Hin as [[= _ <-]|[[= _ <-]|[[= _ <-]|[[= _ <-]|[]]]]]; lia.
Qed.

(** A root hash and a digest are left to the reconciliation. *)
Lemma state_and_digest_change_nothing v part0 rest known w :
  v = part0 :: rest -> verb_of part0 = "state" \/ verb_of part0 = "digest" -> length v = 3%nat ->
  exists o, act v known w = (Done o, w) /\ created o = None.
Proof.
  intros -> Hv Hl. destruct rest as [|p1 [|p2 [|? ?]]]; try discriminate Hl.
  unfold act, parts_for, removed_path. change (part [part0; p1; p2] 0) with part0.
  destruct Hv as [-> | ->]; simpl; by eexists.
Qed.
End wellformed.

(** ** Which copy wins *)

Section copies.
Context `{TorrentLaws}.

(** A copy of a file: when it was written at its origin and what it holds. *)
Definition copy : Type := file_time * content.

(** What a node with copy [c] remembers of it. *)
Definition known_of (p : path) (c : option copy) : list (path * applied_t) :=
  match c with Some (t, h) => [(p, Applied t h)] | None => [] end.

(** What the rule alone makes of two copies, with both in place.  Copies.v says when a node
    follows it: the copy here has to have arrived and to have been stamped. *)
Definition take_copy (p : path) (here : option copy) (incoming : copy) : option copy :=
  if wins (known_of p here) p incoming.1 incoming.2 (fst <$> here) then Some incoming else here.

(** The order the rule comes from: older, and on a tie the higher hash, loses. *)
Definition loses (x y : copy) : bool :=
  (file_to_ticks x.1 <? file_to_ticks y.1) ||
  ((file_to_ticks x.1 =? file_to_ticks y.1) && content_ltb y.2 x.2).

Lemma take_copy_some p x y : take_copy p (Some x) y = Some (if loses y x then x else y).
Proof.
  destruct x as [t h], y as [t' h']. unfold take_copy, wins, known_of, loses. simpl.
  unfold OrdMap.find. simpl. rewrite keq_native_refl. simpl. rewrite Z.eqb_refl. simpl.
  destruct (Z.eqb_spec (file_to_ticks t') (file_to_ticks t)) as [->|Hne]; simpl.
  - rewrite Z.ltb_irrefl. simpl. by destruct (content_ltb h h').
  - rewrite orb_false_r. destruct (Z.ltb_spec (file_to_ticks t) (file_to_ticks t')),
      (Z.ltb_spec (file_to_ticks t') (file_to_ticks t)); done || lia.
Qed.

Lemma loses_irrefl x : loses x x = false.
Proof. unfold loses. rewrite Z.ltb_irrefl, Z.eqb_refl. simpl. apply content_irrefl. Qed.

Lemma loses_trans x y z : loses x y = true -> loses y z = true -> loses x z = true.
Proof.
  unfold loses. intros H1 H2. apply orb_true_iff in H1, H2. apply orb_true_iff.
  destruct H1 as [H1|H1], H2 as [H2|H2]; bool_hyps; try (left; apply Z.ltb_lt; lia).
  right. apply andb_true_iff. split; [apply Z.eqb_eq; lia|]. by eapply content_trans.
Qed.

Lemma loses_total x y : is_int64 x.1 -> is_int64 y.1 ->
  loses x y = false -> loses y x = false -> x = y.
Proof.
  destruct x as [t h], y as [t' h']. simpl. intros Ht Ht' H1 H2. unfold loses in *. simpl in *.
  bool_hyps. assert (file_to_ticks t = file_to_ticks t') as Heq by lia.
  assert (t = t') as ->.
  { rewrite <- (to_file_time_to_ticks t), <- (to_file_time_to_ticks t') by done. by rewrite Heq. }
  rewrite Z.eqb_refl in *. simpl in *. f_equal. by apply content_total.
Qed.

(** The copy a node ends with is one it was sent that loses to no other. *)
Lemma take_copies p l x : exists y, foldl (take_copy p) (Some x) l = Some y /\
  (y = x \/ y ∈ l) /\ loses y x = false /\ forall z, z ∈ l -> loses y z = false.
Proof.
  revert x. induction l as [|a l IH]; intros x; simpl.
  - exists x. split; [done|]. split; [by left|]. split; [apply loses_irrefl|].
    intros z Hz. by apply elem_of_nil in Hz.
  - rewrite take_copy_some. set (b := if loses a x then x else a).
    destruct (IH b) as (y & Hf & Hy & Hb & Hl). exists y. split; [done|].
    assert (loses b a = false /\ loses b x = false) as [Hba Hbx].
    { unfold b. destruct (loses a x) eqn:E; split; try apply loses_irrefl; try done.
      destruct (loses x a) eqn:E'; [|done]. pose proof (loses_trans _ _ _ E E') as Hc.
      by rewrite loses_irrefl in Hc. }
    assert (forall c, loses b c = false -> loses y c = false) as Hstep.
    { intros c Hc. destruct (loses y c) eqn:E; [|done].
      destruct Hy as [->|Hy]; [congruence|].
      (* [b] does not beat [y], and [y] loses to [c]: so [b] does *)
      destruct (loses b y) eqn:Eby; [by rewrite (loses_trans _ _ _ Eby E) in Hc|].
      unfold loses in *. bool_hyps. exfalso.
      apply orb_true_iff in E as [E|E]; bool_hyps; [lia|].
      assert (file_to_ticks b.1 = file_to_ticks y.1) as Heq by lia.
      rewrite Heq, Z.eqb_refl in *. simpl in *.
      assert (b.2 = y.2) as Hbc by (by apply content_total). rewrite Hbc in *.
      assert (file_to_ticks y.1 = file_to_ticks c.1) as Heq' by lia.
      rewrite Heq', Z.eqb_refl in *. simpl in *. congruence. }
    split; [|split; [by apply Hstep|]].
    + destruct Hy as [->|Hy]; [|right; by right]. unfold b. destruct (loses a x); [by left|right; by left].
    + intros z [->|Hz]%elem_of_cons; [by apply Hstep|by apply Hl].
Qed.

End copies.

(** ** Adopting a digest's deletions *)

Section adopting.
Context `{Torrents} `{!Session} `{Disk}.

Lemma erase_absent {V} (m : list (path * V)) p : OrdMap.sorted m -> OrdMap.contains m p = false -> OrdMap.erase m p = m.
Proof.
  intros _ Hc. unfold OrdMap.erase. apply OrdMap.contains_false in Hc.
  induction m as [|e m IH]; [done|]. rewrite OrdMap.find_cons in Hc. simpl.
  destruct (OrdMap.keq e.1 p); [done|]. simpl. by rewrite IH.
Qed.

(** The paths whose file goes. *)
Definition losing (former : file_map) (l : tombstone_map) : list path :=
  map fst (List.filter (fun e => OrdMap.contains former e.1) l).

Lemma adopt_fold l a a' :
  OrdMap.sorted l -> OrdMap.sorted (a_former a) ->
  foldl adopt_one (Some a) l = Some a' ->
  a_former a' = foldl (fun m e => OrdMap.erase m e.1) (a_former a) l /\
  a_mine a' = foldl (fun t e => mark t e.1 e.2) (a_mine a) l /\
  a_deleted a' = a_deleted a ++ losing (a_former a) l /\
  a_repairs a' = foldl forget (a_repairs a) (losing (a_former a) l) /\
  foldl (fun d p => match d with Some d => fs_remove d p | None => None end) (Some (a_dsk a)) (losing (a_former a) l)
    = Some (a_dsk a').
Proof.
  revert a. induction l as [|[p at_] l IH]; intros a Hs Hf Hrun.
  - injection Hrun as <-. unfold losing. simpl. by rewrite app_nil_r.
  - simpl in Hrun. pose proof (OrdMap.sorted_cons_inv _ _ Hs) as Hs'.
    assert (forall m, OrdMap.erase (a_former a) p = m -> losing m l = losing (a_former a) l) as Hlose.
    { intros m <-. unfold losing. f_equal. apply List.filter_ext_in. intros [q t] Hin%list_elem_of_In. simpl.
      apply eq_true_iff_eq. rewrite !OrdMap.contains_find, OrdMap.find_erase by done.
      destruct (OrdMap.keq p q) eqn:E; [|done]. apply OrdMap.keq_iff in E.
      pose proof (OrdMap.find_sorted_tail l (p, at_) q Hs E) as Hn.
      rewrite (OrdMap.find_elem l q t Hs' Hin) in Hn. done. }
    unfold losing at 1 2 3. cbn [List.filter fst]. destruct (OrdMap.contains (a_former a) p) eqn:Ec.
    + unfold erase in Hrun. destruct (fs_remove (a_dsk a) p) as [d|] eqn:Ed; [|].
      2: { exfalso. clear -Hrun. induction l as [|e l IHl]; [done|]. by apply IHl. }
      apply IH in Hrun as (Hf' & Hm' & Hd' & Hr' & Hk'); [|done|by apply OrdMap.sorted_erase]. simpl in *.
      rewrite (Hlose _ eq_refl) in Hd', Hr', Hk'. rewrite Ed.
      split; [done|]. split; [done|]. split; [by rewrite Hd', <- app_assoc|]. by split.
    + apply IH in Hrun as (Hf' & Hm' & Hd' & Hr' & Hk'); [|done|done]. simpl in *.
      rewrite erase_absent by done. by repeat split.
Qed.

Lemma find_foldl_erase {V W} (l : list (path * W)) (m : list (path * V)) q : OrdMap.sorted m ->
  OrdMap.find (foldl (fun m e => OrdMap.erase m e.1) m l) q =
  if OrdMap.contains l q then None else OrdMap.find m q.
Proof.
  revert m. induction l as [|e l IH]; intros m Hm; [done|]. simpl.
  rewrite IH, OrdMap.find_erase by (by try apply OrdMap.sorted_erase).
  unfold OrdMap.contains, OrdMap.find. simpl. destruct (OrdMap.keq e.1 q); simpl; [|done].
  by destruct (OrdMap.find_entry l q).
Qed.

Lemma foldl_record l t q : OrdMap.sorted l ->
  foldl later t (map (record_for q) l) = later t (OrdMap.find l q).
Proof.
  revert t. induction l as [|e l IH]; intros t Hs; simpl; [by destruct t|].
  rewrite IH by (by eapply OrdMap.sorted_cons_inv). rewrite OrdMap.find_cons. unfold record_for.
  destruct (OrdMap.keq e.1 q) eqn:E.
  - apply OrdMap.keq_iff in E. rewrite (OrdMap.find_sorted_tail l e q Hs E). by destruct t.
  - by destruct t, (OrdMap.find l q).
Qed.

(** What is taken on is not news afterwards. *)
Lemma settled_adopts theirs former mine now former' mine' :
  OrdMap.sorted theirs ->
  (forall q, OrdMap.find former' q =
     if OrdMap.contains (adoptable theirs former mine now) q then None else OrdMap.find former q) ->
  (forall q, OrdMap.find mine' q =
     later (OrdMap.find mine q) (OrdMap.find (adoptable theirs former mine now) q)) ->
  adoptable theirs former' mine' now = [].
Proof.
  intros Hs Hf Hm. apply OrdMap.find_entry_ext; [by apply sorted_adoptable|exact OrdMap.sorted_nil|].
  intros q. cut (OrdMap.find (adoptable theirs former' mine' now) q = None).
  { unfold OrdMap.find. by destruct (OrdMap.find_entry _ q). }
  rewrite find_adoptable by done. destruct (OrdMap.find theirs q) as [at_|] eqn:Et; [|done].
  destruct (adopts former' mine' now (q, at_)) eqn:E; [|done]. exfalso.
  apply adopts_iff in E as (E1 & E2 & E3).
  assert (Ha := find_adoptable theirs former mine now q Hs). rewrite Et in Ha.
  destruct (adopts former mine now (q, at_)) eqn:E.
  - assert (Hm' := Hm q). rewrite Ha in Hm'.
    destruct (OrdMap.find mine q); simpl in Hm'; apply E1 in Hm'; lia.
  - enough (adopts former mine now (q, at_) = true) by congruence. apply adopts_iff.
    assert (Hm' := Hm q). assert (Hf' := Hf q).
    replace (OrdMap.contains _ q) with false in Hf' by (symmetry; by apply OrdMap.contains_false).
    rewrite Ha in Hm'. rewrite Hf' in E3. split; [|done].
    intros ours Ho. rewrite Ho in Hm'. by apply E1.
Qed.

Lemma elem_of_losing former l p : p ∈ losing former l <->
  OrdMap.contains former p = true /\ exists at_, (p, at_) ∈ l.
Proof.
  unfold losing. rewrite list_elem_of_In, in_map_iff. split.
  - intros ([q t] & <- & [Hin Hc]%filter_In). split; [done|]. exists t. by apply list_elem_of_In.
  - intros [Hc [t Hin]]. exists (p, t). split; [done|]. apply filter_In.
    split; [by apply list_elem_of_In|done].
Qed.

Lemma removed_stays_away `{!DiskLaws} ps d d' q :
  foldl (fun d p => match d with Some d => fs_remove d p | None => None end) (Some d) ps = Some d' ->
  last_write_time d q = None \/ q ∈ ps -> last_write_time d' q = None.
Proof.
  revert d. induction ps as [|p ps IH]; simpl; intros d Hrun Hq.
  - injection Hrun as <-. destruct Hq as [|Hq]; [done|by apply elem_of_nil in Hq].
  - destruct (fs_remove d p) as [d1|] eqn:E.
    + apply (IH d1 Hrun). pose proof (time_removed d p d1 q E) as Ht.
      destruct Hq as [Hq|[->|Hq]%elem_of_cons]; [|left|by right].
      * left. rewrite Ht. by destruct (same_place p q).
      * rewrite Ht. unfold same_place. by rewrite keq_native_refl.
    + exfalso. clear -Hrun. induction ps as [|p' ps IHl]; [done|]. by apply IHl.
Qed.

Definition sorted_repairs (r : repairs_t) : Prop :=
  OrdMap.sorted (pending r) /\ OrdMap.sorted (applied r) /\ OrdMap.sorted (announcements r).

Definition knows_nothing (r : repairs_t) (p : path) : Prop :=
  OrdMap.find (pending r) p = None /\ OrdMap.find (applied r) p = None /\
  OrdMap.find (announcements r) p = None.

Lemma sorted_forget r p : sorted_repairs r -> sorted_repairs (forget r p).
Proof. intros (? & ? & ?). repeat split; by apply OrdMap.sorted_erase. Qed.

Lemma forget_knows_nothing r p q : sorted_repairs r ->
  knows_nothing r q \/ OrdMap.keq p q = true -> knows_nothing (forget r p) q.
Proof.
  intros (Hp & Ha & Hn) Hq. unfold knows_nothing, forget. simpl.
  rewrite !OrdMap.find_erase by done. destruct (OrdMap.keq p q); [done|].
  by destruct Hq.
Qed.

Lemma forget_all r ps q : sorted_repairs r ->
  knows_nothing r q \/ q ∈ ps -> knows_nothing (foldl forget r ps) q.
Proof.
  revert r. induction ps as [|p ps IH]; simpl; intros r Hr Hq.
  - destruct Hq as [|Hq]; [done|by apply elem_of_nil in Hq].
  - apply IH; [by apply sorted_forget|].
    destruct Hq as [Hq|[->|Hq]%elem_of_cons]; [left|left|by right].
    + apply forget_knows_nothing; [done|by left].
    + apply forget_knows_nothing; [done|]. right. apply keq_native_refl.
Qed.

(** What [adopt] makes of the two sets, the cache and the disk. *)
Lemma adopt_maps s d theirs former mine repairs now a :
  OrdMap.sorted theirs -> OrdMap.sorted former -> OrdMap.sorted mine ->
  adopt s d theirs former mine repairs now = Some a ->
  let taken := adoptable theirs former mine now in
  (forall p, OrdMap.find (a_mine a) p = later (OrdMap.find mine p) (OrdMap.find taken p)) /\
  (forall p, OrdMap.find (a_former a) p =
     if OrdMap.contains taken p then None else OrdMap.find former p) /\
  a_deleted a = losing former taken /\ a_repairs a = foldl forget repairs (losing former taken) /\
  foldl (fun d p => match d with Some d => fs_remove d p | None => None end) (Some d) (losing former taken)
    = Some (a_dsk a).
Proof.
  intros Ht Hf Hm Hrun taken. unfold adopt in Hrun. fold taken in Hrun.
  assert (OrdMap.sorted taken) as Hs by (by apply sorted_adoptable).
  apply adopt_fold in Hrun as (Ef & Em & Ed & Er & Ek); [|done|done]. simpl in *.
  split; [intros p; by rewrite Em, find_foldl_mark, foldl_record|].
  split; [intros p; by rewrite Ef, find_foldl_erase|done].
Qed.

(** C16: a digest's deletions, once taken on, are settled.  Every record is the
    later of the two nodes'; the listing loses exactly the paths taken on; those that
    were listed are off the disk, reported, and forgotten by the repair cache; and the
    same digest has nothing left to adopt. *)
Theorem adopt_settles `{!DiskLaws} s d theirs former mine repairs now a :
  OrdMap.sorted theirs -> OrdMap.sorted former -> OrdMap.sorted mine -> sorted_repairs repairs ->
  adopt s d theirs former mine repairs now = Some a ->
  let taken := adoptable theirs former mine now in
  (forall p, OrdMap.find (a_mine a) p = later (OrdMap.find mine p) (OrdMap.find taken p)) /\
  (forall p, OrdMap.find (a_former a) p =
     if OrdMap.contains taken p then None else OrdMap.find former p) /\
  adoptable theirs (a_former a) (a_mine a) now = [] /\
  (forall p, p ∈ a_deleted a <-> OrdMap.contains former p = true /\ exists at_, (p, at_) ∈ taken) /\
  (forall p, p ∈ a_deleted a -> last_write_time (a_dsk a) p = None /\ knows_nothing (a_repairs a) p).
Proof.
  intros Ht Hf Hm Hr Hrun taken.
  destruct (adopt_maps s d theirs former mine repairs now a Ht Hf Hm Hrun) as (Hmine & Hformer & Ed & Er & Ek).
  split; [done|]. split; [done|]. split; [by eapply settled_adopts|].
  split; [intros p; rewrite Ed; apply elem_of_losing|].
  intros p Hp. rewrite Ed in Hp. split; [by eapply removed_stays_away; [|right]|].
  rewrite Er. apply forget_all; [done|by right].
Qed.
End adopting.

(** ** One path, one content *)

Section stale.
Context `{Torrents} `{!Session} `{!SessionLaws} `{Disk}.

Abbreviation listing := (handle * string * option torrent)%type.

(** The content a handle serves. *)
Definition served (s : session) (h : handle) : option content :=
  match List.find (fun st : listing => bool_decide (st.1.1 = h)) (status s) with
  | Some (_, _, Some info) => Some (info_hashes info)
  | _ => None
  end.

Definition stale_handle (s : session) (added : torrent) (h : handle) : bool :=
  match served s h with Some c => negb (bool_decide (c = info_hashes added)) | None => false end.

Definition same_handle (s : session) (added : torrent) (h : handle) : bool :=
  match served s h with Some c => bool_decide (c = info_hashes added) | None => false end.

Lemma stale_fold s added hs b s1 :
  foldl (fun (acc : bool * session) (h : handle) =>
    match List.find (fun st : listing => bool_decide (st.1.1 = h)) (status s) with
    | Some (_, _, Some info) =>
        if bool_decide (info_hashes info = info_hashes added) then (true, acc.2)
        else (acc.1, remove_torrent acc.2 h)
    | _ => acc
    end) (b, s1) hs =
  (b || existsb (same_handle s added) hs, foldl remove_torrent s1 (List.filter (stale_handle s added) hs)).
Proof.
  revert b s1. induction hs as [|h hs IH]; intros b s1; simpl; [by rewrite orb_false_r|].
  unfold same_handle at 1, stale_handle at 1, served.
  destruct (List.find _ (status s)) as [[[h' sp] [info|]]|]; simpl; [|by rewrite IH..].
  destruct (bool_decide _); simpl; rewrite IH; [by rewrite orb_true_r|done].
Qed.

Lemma status_removes s hs :
  status (foldl remove_torrent s hs) =
  List.filter (fun e => negb (existsb (fun h => bool_decide (e.1.1 = h)) hs)) (status s).
Proof.
  revert s. induction hs as [|h hs IH]; intros s; simpl.
  - induction (status s) as [|e l IHl]; simpl; [done|by f_equal].
  - rewrite IH, status_remove. induction (status s) as [|e l IHl]; simpl; [done|].
    destruct (bool_decide (e.1.1 = h)); simpl; [done|].
    destruct (negb _); by rewrite ?IHl.
Qed.

Lemma served_listed s h sp info : (h, sp, Some info) ∈ status s -> served s h = Some (info_hashes info).
Proof.
  unfold served. pose proof (status_handles s) as Hn. intros Hin.
  induction (status s) as [|e l IH]; [by apply elem_of_nil in Hin|]. simpl in *.
  inversion Hn as [|? ? Hne Hn']; subst. apply elem_of_cons in Hin as [<-|Hin].
  - simpl. by rewrite bool_decide_eq_true_2.
  - rewrite bool_decide_eq_false_2; [by apply IH|]. intros Heq. apply Hne.
    rewrite list_elem_of_In, in_map_iff. exists (h, sp, Some info). split; [done|].
    by apply list_elem_of_In.
Qed.

(** The torrents listed at a path. *)
Definition at_path (s : session) (root p : path) (h : handle) (c : content) : Prop :=
  exists sp info, (h, sp, Some info) ∈ status s /\
    OrdMap.keq (join root sp info) (lexically_normal p) = true /\ info_hashes info = c.

Lemma elem_of_torrents_at s root p h :
  h ∈ torrents_at s root p <-> exists c, at_path s root p h c.
Proof.
  unfold torrents_at. rewrite list_elem_of_omap. split.
  - intros ([[h' sp] [info|]] & Hin & Hh); simpl in Hh; [|done].
    destruct (OrdMap.keq _ _) eqn:E; [|done]. injection Hh as ->. by exists (info_hashes info), sp, info.
  - intros (c & sp & info & Hin & Hk & _). exists (h, sp, Some info). split; [done|]. simpl. by rewrite Hk.
Qed.

Lemma status_add_nodes s nodes : status (add_nodes s nodes).2 = status s.
Proof.
  unfold add_nodes. match goal with |- status (foldl ?f ?a nodes).2 = _ =>
    cut (forall acc : string * session, status (foldl f acc nodes).2 = status acc.2); [intros Hall; by rewrite Hall|] end.
  induction nodes as [|n nodes IH]; intros acc; [done|]. cbn [foldl]. rewrite IH. apply status_dht.
Qed.

Lemma remove_stale_spec s root p added :
  let '(held, s') := remove_stale_torrents s root p added in
  (held = true <-> exists h, at_path s root p h (info_hashes added)) /\
  (forall h c, at_path s' root p h c -> c = info_hashes added) /\
  (forall h c q, at_path s root q h c -> c = info_hashes added -> at_path s' root q h c).
Proof.
  unfold remove_stale_torrents. rewrite stale_fold. simpl. split; [|split].
  - rewrite existsb_exists. split.
    + intros (h & Hin%list_elem_of_In & Hs). apply elem_of_torrents_at in Hin as (c & Hc). exists h.
      pose proof Hc as (sp & info & Hl & _ & Hi). unfold same_handle in Hs.
      rewrite (served_listed _ _ _ _ Hl) in Hs. apply bool_decide_eq_true in Hs. congruence.
    + intros (h & Hc). exists h. split; [apply list_elem_of_In, elem_of_torrents_at; by eexists|].
      destruct Hc as (sp & info & Hl & _ & Hi). unfold same_handle.
      rewrite (served_listed _ _ _ _ Hl). by apply bool_decide_eq_true.
  - intros h c (sp & info & Hl & Hk & <-). rewrite status_removes in Hl.
    apply list_elem_of_In, filter_In in Hl as [Hl%list_elem_of_In Hn]. simpl in Hn.
    destruct (decide (info_hashes info = info_hashes added)) as [|Hne]; [done|exfalso].
    apply negb_true_iff, not_true_iff_false in Hn. apply Hn, existsb_exists. exists h.
    split; [|by apply bool_decide_eq_true]. apply filter_In. split.
    + apply list_elem_of_In, elem_of_torrents_at. by eexists _, sp, info.
    + unfold stale_handle. rewrite (served_listed _ _ _ _ Hl). by rewrite bool_decide_eq_false_2.
  - intros h c q (sp & info & Hl & Hk & Hi) Hc. exists sp, info. split; [|done].
    rewrite status_removes. apply list_elem_of_In, filter_In. split; [by apply list_elem_of_In|]. simpl.
    apply negb_true_iff, not_true_iff_false. rewrite existsb_exists.
    intros (h' & [_ Hs]%filter_In & <-%bool_decide_eq_true). unfold stale_handle in Hs.
    rewrite (served_listed _ _ _ _ Hl), bool_decide_eq_true_2 in Hs by congruence. done.
Qed.

Lemma add_torrent_serves s t p :
  exists sp h, (h, sp, Some t) ∈ status (add_torrent s t p).1 \/
    exists info, (h, sp, Some info) ∈ status (add_torrent s t p).1 /\ info_hashes info = info_hashes t.
Proof.
  rewrite status_add. destruct (existsb _ (status s)) eqn:E.
  - apply existsb_exists in E as ([[h sp] [info|]] & Hin & Hc); [|done]. exists sp, h. right.
    exists info. split; [by apply list_elem_of_In|]. by apply bool_decide_eq_true in Hc.
  - eexists _, _. left. apply elem_of_app. right. by left.
Qed.

Lemma at_path_add s t p root q h c :
  at_path (add_torrent s t p).1 root q h c -> at_path s root q h c \/ c = info_hashes t.
Proof.
  intros (sp & info & Hin & Hk & Hi). rewrite status_add in Hin.
  destruct (existsb _ (status s)); [left; by exists sp, info|].
  apply elem_of_app in Hin as [Hin|Hin]; [left; by exists sp, info|]. right.
  apply elem_of_cons in Hin as [[= -> -> ->]|Hin]; [done|by apply elem_of_nil in Hin].
Qed.

(** A create that is taken: what [act] answers it with. *)
Lemma act_create_taken v known w o w' :
  act_create v known w = (Done o, w') -> created o <> None ->
  exists ti, load_torrent_buffer (part v 1) = Some ti /\
    let announced := Path (part v 3) in
    let written := to_file_time (from_ticks (part v 2)) in
    let '(held, s) := remove_stale_torrents (ses w) (current_path (dsk w)) announced ti in
    let '(s, h) := add_torrent s ti (save_path_for announced (Path (file_path ti))) in
    created o = Some announced /\ origin o = written /\ out_content o = Some (info_hashes ti) /\
    already_held o = held /\
    match OrdMap.find (graves w) announced with Some g => beats g written = false | None => True end /\
    wins known announced written (info_hashes ti) (last_write_time (dsk w) announced) = true /\
    w' = World (force_dht_announce (add_nodes s (dht_nodes ti)).2 h) (dsk w)
           (match OrdMap.find (graves w) announced with
            | Some _ => OrdMap.erase (graves w) announced | None => graves w end).
Proof.
  unfold act_create. intros Hrun Hc.
  destruct (OrdMap.find (graves w) _) as [g|] eqn:Eg; [destruct (beats g _) eqn:Eb|];
    try (injection Hrun as <- <-; done); simpl in Hrun;
    (destruct (load_torrent_buffer (part v 1)) as [ti|] eqn:El; [|done]);
    (destruct (negb _) eqn:Ew in Hrun; [injection Hrun as <- <-; done|]);
    exists ti; (split; [done|]); cbn zeta; apply negb_false_iff in Ew;
    destruct (remove_stale_torrents _ _ _ _) as [held s1]; destruct (add_torrent _ _ _) as [s2 h];
    destruct (add_nodes _ _) as [nodes s3] eqn:En; injection Hrun as <- <-; simpl; by repeat split.
Qed.

(** C20: a create that is taken leaves one content per path.  Every torrent
    the session still has at the announced path has the announced content, one with
    that content is in the session, no other path loses a torrent of that content, the
    answer says whether it was there already, and the path's tombstone is gone. *)
Theorem create_serves_one_content v known w o w' ti :
  OrdMap.sorted (graves w) ->
  act v known w = (Done o, w') -> created o = Some (Path (part v 3)) ->
  load_torrent_buffer (part v 1) = Some ti ->
  let root := current_path (dsk w) in
  (forall h c, at_path (ses w') root (Path (part v 3)) h c -> c = info_hashes ti) /\
  (exists sp h info, (h, sp, Some info) ∈ status (ses w') /\ info_hashes info = info_hashes ti) /\
  (already_held o = true <-> exists h, at_path (ses w) root (Path (part v 3)) h (info_hashes ti)) /\
  OrdMap.find (graves w') (Path (part v 3)) = None /\ dsk w' = dsk w.
Proof.
  intros Hg Hrun Hc Hl root.
  assert (act_create v known w = (Done o, w')) as Hac.
  { revert Hrun. unfold act. destruct v as [|p0 v']; [done|]. destruct (parts_for p0); [|done].
    destruct (negb _); [done|]. destruct (removed_path _).
    - unfold act_remove. destruct (erase _ _ _) as [? [?|]]; [|done]. intros [= <- _]. done.
    - destruct (String.eqb _ _); [done|]. intros [= <- _]. done. }
  apply act_create_taken in Hac as (ti' & Hl' & Hac); [|congruence].
  rewrite Hl in Hl'. injection Hl' as <-. cbn zeta in Hac.
  pose proof (remove_stale_spec (ses w) root (Path (part v 3)) ti) as Hst.
  fold root in Hac. destruct (remove_stale_torrents _ _ _ _) as [held s1].
  pose proof (fun q h c => at_path_add s1 ti (save_path_for (Path (part v 3)) (Path (file_path ti))) root q h c) as Hadd.
  destruct (add_torrent_serves s1 ti (save_path_for (Path (part v 3)) (Path (file_path ti)))) as (sp & h0 & Hserv).
  destruct (add_torrent s1 _ _) as [s2 h2]. destruct Hac as (_ & _ & _ & Hh & _ & _ & ->).
  destruct Hst as (Hheld & Hone & _). simpl in *. rewrite status_announce, status_add_nodes.
  split; [|split; [|split; [by rewrite Hh|split; [|done]]]].
  - intros h c (sp' & info & Hin & Hk & Hi). rewrite status_announce, status_add_nodes in Hin.
    destruct (Hadd (Path (part v 3)) h c) as [Ha|Ha]; [by exists sp', info|by eapply Hone|done].
  - destruct Hserv as [Hs|(info & Hs & Hi)]; [by exists sp, h0, ti|by exists sp, h0, info].
  - destruct (OrdMap.find (graves w) (Path (part v 3))) eqn:E; [|done].
    rewrite OrdMap.find_erase by done. by rewrite keq_native_refl.
Qed.
End stale.

(** ** Messages about deletions *)

Section deletions.
Context `{Torrents} `{!Session} `{Disk}.

(** The three parts of a remove. *)
Definition remove_message (p : string) (at_ : sys_time) : list string := ["remove"; p; Z_to_string at_].

Lemma act_remove_message p at_ known w d : is_int64 at_ ->
  fs_remove (dsk w) (Path p) = Some d ->
  (act (remove_message p at_) known w).2 =
  World (foldl remove_torrent (ses w) (torrents_at (ses w) (current_path (dsk w)) (Path p))) d
    (mark (graves w) (Path p) at_).
Proof.
  intros Hat Hd. unfold act, remove_message, parts_for, removed_path. simpl.
  unfold act_remove, erase, part. simpl. rewrite Hd. simpl. by rewrite from_ticks_to_string.
Qed.

(** C38: a remove and a digest carry the same deletion and are not read the
    same way.  Against a file written after the deletion the digest adopts nothing, as
    the ordering of writes and deletions has it; the remove takes the file off the
    disk, and leaves the deletion on record. *)
Theorem late_remove_deletes_newer_file `{!DiskLaws} p at_ now written known w d :
  is_int64 at_ -> OrdMap.sorted (graves w) ->
  last_write_time (dsk w) (Path p) = Some written -> at_ < file_to_ticks written ->
  fs_remove (dsk w) (Path p) = Some d ->
  (forall mine, adoptable [(Path p, at_)] [(Path p, written)] mine now = []) /\
  let w' := (act (remove_message p at_) known w).2 in
  last_write_time (dsk w') (Path p) = None /\
  OrdMap.find (graves w') (Path p) =
    Some (from_option (Z.max at_) at_ (OrdMap.find (graves w) (Path p))).
Proof.
  intros Hat Hg Hw Hlt Hd. split.
  - intros mine. rewrite adoptable_filter by (by apply OrdMap.sortedb_sorted). simpl.
    destruct (adopts [(Path p, written)] mine now (Path p, at_)) eqn:E; [|unfold adopts in E; by rewrite E].
    apply adopts_iff in E as (_ & _ & E). specialize (E written). unfold OrdMap.find in E. simpl in E.
    rewrite keq_native_refl in E. specialize (E eq_refl). unfold beats, to_ticks in E. bool_hyps. lia.
  - rewrite (act_remove_message p at_ known w d Hat Hd). simpl. split.
    + rewrite (time_removed _ _ _ (Path p) Hd). unfold same_place. by rewrite keq_native_refl.
    + rewrite find_mark by done. by rewrite keq_native_refl.
Qed.
End deletions.

(** ** A session and a disk to run on *)

Module ProtocolSim.

Record sim_torrent := SimTorrent { sim_hash : Z; sim_path : string }.

(** An announcement is the hash, a space and the path. *)
Definition sim_load (buffer : string) : option sim_torrent :=
  match cut " "%char buffer with
  | Some (h, p) => Some (SimTorrent (from_ticks h) p)
  | None => None
  end.

Definition sim_torrents : Torrents :=
  {| content := Z; content_ltb := Z.ltb; torrent := sim_torrent; info_hashes := sim_hash;
     file_path := sim_path; dht_nodes _ := []; load_torrent_buffer := sim_load |}.

#[local] Existing Instance sim_torrents.

Lemma sim_torrent_laws : @TorrentLaws sim_torrents.
Proof.
  split; simpl; intros; rewrite ?Z.ltb_lt, ?Z.ltb_ge in *; lia.
Qed.

(** Torrents under distinct numbers. *)
Definition entry : Type := nat * string * option sim_torrent.

Definition fresh (l : list entry) : nat := S (foldr (fun e n => Nat.max e.1.1 n) 0%nat l).

Lemma fresh_spec l e : e ∈ l -> (e.1.1 < fresh l)%nat.
Proof.
  unfold fresh. induction l as [|x l IH]; intros He; [by apply elem_of_nil in He|].
  simpl. apply elem_of_cons in He as [->|He]; [lia|]. apply IH in He. lia.
Qed.

Definition sim_session : Type := { l : list entry | NoDup (map (fun e => e.1.1) l) }.

Definition sim_remove (s : sim_session) (h : nat) : sim_session.
Proof.
  refine (exist _ (List.filter (fun e => negb (bool_decide (e.1.1 = h))) (proj1_sig s)) _).
  apply NoDup_filter_map, (proj2_sig s).
Defined.

Definition serves (t : sim_torrent) (e : entry) : bool :=
  match e.2 with Some t' => bool_decide (sim_hash t' = sim_hash t) | None => false end.

Definition sim_complete (p : string) : string := if String.eqb p "." then "/sync" else "/sync/" +:+ p.

Definition appended (s : sim_session) (t : sim_torrent) (p : string) : sim_session.
Proof.
  refine (exist _ (proj1_sig s ++ [(fresh (proj1_sig s), sim_complete p, Some t)]) _).
  rewrite map_app. apply NoDup_app. split; [apply (proj2_sig s)|]. split; [|apply NoDup_singleton].
  intros h Hh Hf. simpl in Hf. apply list_elem_of_singleton in Hf as ->.
  apply list_elem_of_In, in_map_iff in Hh as (e & He & Hin%list_elem_of_In).
  apply fresh_spec in Hin. simpl in *. lia.
Defined.

Definition sim_add (s : sim_session) (t : sim_torrent) (p : string) : sim_session * nat :=
  match List.find (serves t) (proj1_sig s) with
  | Some e => (s, e.1.1)
  | None => (appended s t p, fresh (proj1_sig s))
  end.

Definition sim_sessions : @Session sim_torrents :=
  {| session := sim_session; handle := nat; status s := proj1_sig s;
     remove_torrent := sim_remove; add_torrent := sim_add;
     add_dht_node s _ := s; force_dht_announce s _ := s; flush_cache s _ := s |}.

Definition sim_session_laws : @SessionLaws sim_torrents sim_sessions.
Proof.
  refine {| complete_path := sim_complete |}; try done.
  - intros s t p. cbn. unfold sim_add. match goal with |- context [existsb ?f _] => change f with (serves t) end.
    destruct (List.find (serves t) (proj1_sig s)) as [e|] eqn:E.
    + apply List.find_some in E as [Hin He].
      assert (existsb (serves t) (proj1_sig s) = true) as Hex by (apply existsb_exists; by exists e).
      match goal with |- context [if ?b then _ else _] => assert (b = true) as -> by exact Hex end. reflexivity.
    + assert (existsb (serves t) (proj1_sig s) = false) as Hex.
      { apply not_true_iff_false. intros (e & Hin & He)%existsb_exists.
        by rewrite (List.find_none _ _ E e Hin) in He. }
      match goal with |- context [if ?b then _ else _] => assert (b = false) as -> by exact Hex end. reflexivity.
  - intros s. apply (proj2_sig s).
Defined.

(** Files by the normal form of their path. *)
Definition sim_disk : Disk :=
  {| disk := list (path * file_time);
     last_write_time d p := OrdMap.find d (lexically_normal p);
     fs_remove d p := Some (List.filter (fun e => negb (OrdMap.keq e.1 (lexically_normal p))) d);
     set_time d p t := map (fun e => if OrdMap.keq e.1 (lexically_normal p) then (e.1, t) else e) d;
     current_path _ := Path "/sync" |}.

Lemma keq_trans_l (p q r : path) : OrdMap.keq p q = true -> OrdMap.keq p r = OrdMap.keq q r.
Proof.
  intros H%OrdMap.keq_iff. apply eq_true_iff_eq. rewrite !OrdMap.keq_iff. by rewrite H.
Qed.

Lemma sim_disk_laws : @DiskLaws sim_disk.
Proof.
  split; simpl; unfold same_place.
  - intros d p d' q [= <-]. induction d as [|e d IH]; simpl.
    + by destruct (OrdMap.keq _ _).
    + rewrite OrdMap.find_cons. destruct (OrdMap.keq e.1 (lexically_normal p)) eqn:E; simpl.
      * rewrite IH. rewrite (keq_trans_l _ _ (lexically_normal q) E).
        by destruct (OrdMap.keq (lexically_normal p) (lexically_normal q)).
      * rewrite OrdMap.find_cons, IH. destruct (OrdMap.keq e.1 (lexically_normal q)) eqn:E'; [|done].
        replace (OrdMap.keq (lexically_normal p) (lexically_normal q)) with false; [done|].
        rewrite OrdMap.keq_sym, <- (keq_trans_l _ _ _ E'). done.
  - intros d p t q Hs. induction d as [|e d IH]; simpl in *.
    + by apply is_Some_None in Hs.
    + rewrite !OrdMap.find_cons in *. destruct (OrdMap.keq e.1 (lexically_normal p)) eqn:E; simpl.
      * rewrite (keq_trans_l _ _ (lexically_normal q) E).
        destruct (OrdMap.keq (lexically_normal p) (lexically_normal q)) eqn:E'; [done|].
        clear IH Hs. induction d as [|e' d IH]; [done|]. simpl. rewrite !OrdMap.find_cons.
        destruct (OrdMap.keq e'.1 (lexically_normal p)) eqn:E2; simpl; [|by rewrite IH].
        by rewrite (keq_trans_l _ _ (lexically_normal q) E2), E'.
      * rewrite IH by done. destruct (OrdMap.keq e.1 (lexically_normal q)) eqn:E'; [|done].
        replace (OrdMap.keq (lexically_normal p) (lexically_normal q)) with false; [done|].
        rewrite OrdMap.keq_sym, <- (keq_trans_l _ _ _ E'). done.
Qed.
End ProtocolSim.

(** ** The theorems at concrete inputs *)

#[local] Existing Instances ProtocolSim.sim_torrents ProtocolSim.sim_sessions ProtocolSim.sim_disk.

(** One torrent of content 7 at a, a file there, and a deletion of it on record. *)
Definition sim_ses : session :=
  (add_torrent (exist _ [] (NoDup_nil_2) : ProtocolSim.sim_session) (ProtocolSim.SimTorrent 7 "a") ".").1.

Definition sim_world : world :=
  World sim_ses [(Path "a", to_file_time 5)] [(Path "./a", 4)].

Example sim_torrent_listed : torrents_at sim_ses (Path "/sync") (Path "./a") = [1%nat].
Proof. vm_compute. reflexivity. Qed.

Definition sim_adopted : option adopting :=
  adopt sim_ses [(Path "a", to_file_time 5)] [(Path "./a", 9); (Path "./b", 3)]
    [(Path "./a", to_file_time 5)] [(Path "./a", 4)] (Repairs [] [] []) 10.

Lemma adopt_settles_witness :
  exists a, sim_adopted = Some a /\
  let theirs := [(Path "./a", 9); (Path "./b", 3)] in
  let taken := adoptable theirs [(Path "./a", to_file_time 5)] [(Path "./a", 4)] 10 in
  (forall p, OrdMap.find (a_mine a) p = later (OrdMap.find [(Path "./a", 4)] p) (OrdMap.find taken p)) /\
  (forall p, OrdMap.find (a_former a) p =
     if OrdMap.contains taken p then None else OrdMap.find [(Path "./a", to_file_time 5)] p) /\
  adoptable theirs (a_former a) (a_mine a) 10 = [] /\
  (forall p, p ∈ a_deleted a <->
     OrdMap.contains [(Path "./a", to_file_time 5)] p = true /\ exists at_, (p, at_) ∈ taken) /\
  (forall p, p ∈ a_deleted a -> last_write_time (a_dsk a) p = None /\ knows_nothing (a_repairs a) p).
Proof.
  eexists. split; [reflexivity|].
  apply (@adopt_settles ProtocolSim.sim_torrents ProtocolSim.sim_sessions ProtocolSim.sim_disk
    ProtocolSim.sim_disk_laws sim_ses [(Path "a", to_file_time 5)] [(Path "./a", 9); (Path "./b", 3)]
    [(Path "./a", to_file_time 5)] [(Path "./a", 4)] (Repairs [] [] []) 10);
    [by apply OrdMap.sortedb_sorted..| |reflexivity].
  repeat split; by apply OrdMap.sortedb_sorted.
Defined.

Lemma create_serves_one_content_witness :
  let v := ["create"; "8 a"; "6"; "./a"] in
  exists o w' ti, act v [] sim_world = (Done o, w') /\
  (forall h c, at_path (ses w') (Path "/sync") (Path "./a") h c -> c = info_hashes ti) /\
  (exists sp h info, (h, sp, Some info) ∈ status (ses w') /\ info_hashes info = info_hashes ti) /\
  (already_held o = true <-> exists h, at_path (ses sim_world) (Path "/sync") (Path "./a") h (info_hashes ti)) /\
  OrdMap.find (graves w') (Path "./a") = None /\ dsk w' = dsk sim_world.
Proof.
  eexists _, _, (ProtocolSim.SimTorrent 8 "a"). split; [reflexivity|].
  apply (@create_serves_one_content ProtocolSim.sim_torrents ProtocolSim.sim_sessions
    ProtocolSim.sim_session_laws ProtocolSim.sim_disk ["create"; "8 a"; "6"; "./a"] [] sim_world);
    [by apply OrdMap.sortedb_sorted|reflexivity..].
Defined.

Lemma late_remove_deletes_newer_file_witness :
  last_write_time (dsk sim_world) (Path "./a") = Some (to_file_time 5) /\
  (forall mine, adoptable [(Path "./a", 4)] [(Path "./a", to_file_time 5)] mine 10 = []) /\
  let w' := (act (remove_message "./a" 4) [] sim_world).2 in
  last_write_time (dsk w') (Path "./a") = None /\
  OrdMap.find (graves w') (Path "./a") =
    Some (from_option (Z.max 4) 4 (OrdMap.find (graves sim_world) (Path "./a"))).
Proof.
  split; [reflexivity|].
  apply (@late_remove_deletes_newer_file ProtocolSim.sim_torrents ProtocolSim.sim_sessions
    ProtocolSim.sim_disk ProtocolSim.sim_disk_laws "./a" 4 10 (to_file_time 5) [] sim_world []);
    [by split; vm_compute|by apply OrdMap.sortedb_sorted|reflexivity|by vm_compute|reflexivity].
Defined.
