(* ===== verification/Source.v ===== *)
(** * src/source.cpp and protocol::subscribe: what goes on the wire, and to whom

    A message is the list of its parts.  The publisher hands a message to a peer when
    one of the peer's subscriptions is a prefix of the first part, which is what ZMQ
    documents.  Making a torrent of a file is libtorrent's: a parameter. *)

From stdpp Require Import sets.
From S2P Require Import Prelude OrdMap FsPath Utils Files Reconcile Protocol.

Abbreviation wire := (list string).

(** What a function sends, and whether it came to its end: [false] is an exception. *)
Abbreviation emission := (list wire * bool)%type.

Definition quiet : emission := ([], true).

Definition sends (w : wire) : emission := ([w], true).

Definition and_then (a b : emission) : emission := if a.2 then (a.1 ++ b.1, b.2) else a.

(** Whether [directory_entry] reports an error; the announcement libtorrent makes of a
    file, under the address the node listens on ([None]: hashing threw). *)
Class Announcer `{Disk} := {
  entry_error : disk -> path -> bool;
  generate : disk -> string * Z -> path -> option string;
}.

Record source := Source { addr : string * Z; endpoint : string }.

Definition announce (bencoded_torrent : string) (mtime : file_time) (file : path) : wire :=
  ["create"; bencoded_torrent; Z_to_string (file_to_ticks mtime); native file].

Definition repair (file : path) (mtime : file_time) (bencoded : string) : wire :=
  announce bencoded mtime file.

(** [now] is the clock as this message is made. *)
Definition remove (now : sys_time) (file : path) : wire :=
  ["remove"; native file; Z_to_string (to_ticks now)].

Definition state (server : source) (hashes : string) : wire := ["state"; hashes; endpoint server].

Definition digest (target held deleted : string) : wire := [address "digest" target; held; deleted].

Definition create `{Disk} `{!Announcer} (server : source) (d : disk) (file : path) (mtime : file_time) : emission :=
  if entry_error d file then quiet
  else match generate d (addr server) file with
       | None => ([], false)
       | Some bencoded => sends (announce bencoded mtime file)
       end.

(** The overloads on a container. *)
Definition create_all `{Disk} `{!Announcer} (server : source) (d : disk) (m : file_map) : emission :=
  foldl (fun e f => and_then e (create server d f.1 f.2)) quiet m.

Definition remove_all (now : path -> sys_time) (m : file_map) : emission :=
  (map (fun f => remove (now f.1) f.1) m, true).

(** ** Subscriptions *)

Definition subscribe (endpoint : string) : list string :=
  ["create"; "remove"; "state"; address "digest" endpoint].

(** Whether the publisher writes a message to a peer's pipe. *)
Definition delivered (subscriptions : list string) (w : wire) : bool :=
  existsb (fun s => String.prefix s (part w 0)) subscriptions.

(** ** What arrives *)

Lemma parts_of_announce b t p : parts_for (part (announce b t p) 0) = Some (length (announce b t p)).
Proof. reflexivity. Qed.

Lemma prefix_of_broadcast e w : part w 0 ∈ ["create"; "remove"; "state"] ->
  delivered (subscribe e) w = true.
Proof.
  intros Hw. unfold delivered, subscribe. cbn [existsb].
  apply elem_of_cons in Hw as [->|Hw]; [reflexivity|].
  apply elem_of_cons in Hw as [->|Hw]; [reflexivity|].
  apply list_elem_of_singleton in Hw as ->. reflexivity.
Qed.

Section received.
Context `{Torrents} `{!Session} `{Disk}.

(** C27: what one node sends another acts on as it was meant.  Every message is well
    formed; a create names the file, the origin time and the announcement it was made
    of; a remove marks the path deleted at the moment it was sent; and a digest decodes
    to the two sets it was encoded from. *)
Theorem sent_messages_are_understood server e b t p now d target held deleted known w :
  is_int64 t -> is_int64 now ->
  OrdMap.sorted held -> OrdMap.sorted deleted -> Forall wire_ok held -> Forall wire_ok deleted ->
  fs_remove (dsk w) p = Some d ->
  (forall m, m ∈ [announce b t p; remove now p; state server e;
                  digest target (encode_held held) (encode_tombstones deleted)] ->
     parts_for (part m 0) = Some (length m)) /\
  act (announce b t p) known w = act_create (announce b t p) known w /\
  (from_ticks (part (announce b t p) 2), Path (part (announce b t p) 3)) = (file_to_ticks t, p) /\
  graves (act (remove now p) known w).2 = mark (graves w) p now /\
  dsk (act (remove now p) known w).2 = d /\
  (let m := digest target (encode_held held) (encode_tombstones deleted) in
   (decode_held (part m 1), decode_tombstones (part m 2)) = (held, deleted)).
Proof.
  intros Ht Hn Hs1 Hs2 Hw1 Hw2 Hd.
  assert (forall q, Path (native q) = q) as Hnative by (by intros []).
  split; [|split; [reflexivity|split; [|split; [|split]]]].
  - intros m Hm. rewrite !elem_of_cons, elem_of_nil in Hm.
    by destruct Hm as [->|[->|[->|[->|[]]]]].
  - unfold announce, part. cbn [lookup list_lookup]. rewrite Hnative.
    by rewrite from_ticks_to_string by apply file_to_ticks_range.
  - pose proof (act_remove_message (native p) now known w d Hn) as Ha. rewrite Hnative in Ha.
    unfold remove_message in Ha. unfold remove, to_ticks. by rewrite Ha.
  - pose proof (act_remove_message (native p) now known w d Hn) as Ha. rewrite Hnative in Ha.
    unfold remove_message in Ha. unfold remove, to_ticks. by rewrite Ha.
  - intros m. change (part m 1) with (encode_held held). change (part m 2) with (encode_tombstones deleted).
    by rewrite decode_encode_held, decode_encode_tombstones.
Qed.

(** C28: creates, removes and root hashes reach every subscriber, and a digest
    the one node it is addressed at. *)
Theorem digest_reaches_its_target server e b t p now target held deleted h :
  has_char NUL e = false -> has_char NUL target = false ->
  delivered (subscribe e) (announce b t p) = true /\
  delivered (subscribe e) (remove now p) = true /\
  delivered (subscribe e) (state server h) = true /\
  (delivered (subscribe e) (digest target held deleted) = true <-> e = target).
Proof.
  intros He Ht. split; [reflexivity|]. split; [reflexivity|]. split; [reflexivity|].
  change (delivered (subscribe e) (digest target held deleted))
    with (String.prefix (address "digest" e) (address "digest" target) || false).
  rewrite orb_false_r. rewrite prefix_address_iff by done. naive_solver.
Qed.
End received.

(** ** The theorems at concrete inputs *)

#[local] Existing Instances ProtocolSim.sim_torrents ProtocolSim.sim_sessions ProtocolSim.sim_disk.

Lemma sent_messages_are_understood_witness :
  let w := sim_world in
  let held := [(Path "./a", 5)] in
  let deleted := [(Path "./b", 7)] in
  let p := Path "./a" in
  (forall m, m ∈ [announce "8 a" 5 p; remove 9 p; state (Source ("h", 1) "tcp://h:1") "x";
                  digest "tcp://k:2" (encode_held held) (encode_tombstones deleted)] ->
     parts_for (part m 0) = Some (length m)) /\
  act (announce "8 a" 5 p) [] w = act_create (announce "8 a" 5 p) [] w /\
  (from_ticks (part (announce "8 a" 5 p) 2), Path (part (announce "8 a" 5 p) 3)) = (file_to_ticks 5, p) /\
  graves (act (remove 9 p) [] w).2 = mark (graves w) p 9 /\
  dsk (act (remove 9 p) [] w).2 = @nil (path * file_time) /\
  (let m := digest "tcp://k:2" (encode_held held) (encode_tombstones deleted) in
   (decode_held (part m 1), decode_tombstones (part m 2)) = (held, deleted)).
Proof.
  apply (@sent_messages_are_understood ProtocolSim.sim_torrents ProtocolSim.sim_sessions ProtocolSim.sim_disk (Source ("h", 1) "tcp://h:1") "x" "8 a" 5 (Path "./a") 9 (@nil (path * file_time)) "tcp://k:2"
    [(Path "./a", 5)] [(Path "./b", 7)] [] sim_world);
    [by split; vm_compute|by split; vm_compute|by apply sorted_by_test|by apply sorted_by_test
    |by apply wire_ok_by_test|by apply wire_ok_by_test|reflexivity].
Defined.

Lemma digest_reaches_its_target_witness :
  delivered (subscribe "tcp://h:1") (announce "8 a" 5 (Path "./a")) = true /\
  delivered (subscribe "tcp://h:1") (remove 9 (Path "./a")) = true /\
  delivered (subscribe "tcp://h:1") (state (Source ("h", 1) "tcp://k:2") "x") = true /\
  (delivered (subscribe "tcp://h:1") (digest "tcp://h:12" "" "") = true <-> "tcp://h:1" = "tcp://h:12").
Proof. by apply digest_reaches_its_target. Defined.
