(* ===== verification/Sink.v ===== *)
(** * src/sink.cpp: receiving

    ZMQ's socket is a class.  Its laws are what zmq and zmq_addon.hpp document: messages
    are read in the order they came; [recv_multipart_n] of a message of more parts than
    asked for takes exactly that many and throws [std::runtime_error], the rest pending;
    a poll reports an event when a part can be read.  The theorem says what a run of
    receives makes of a queue of messages: [pieces]. *)

From stdpp Require Import base list.
From S2P Require Import Prelude.
From Equations Require Import Equations.

Inductive recv_error := RuntimeError | RecvZmqError (errno : Z).

Inductive polled := Polled (events : nat) | PollZmqError (errno : Z).

Class Receiving := {
  zmq_socket : Type;
  (** The messages ZMQ's threads have put into the queue by the time the poll returns. *)
  arrive : zmq_socket -> list (list string) -> zmq_socket;
  wait_all : zmq_socket -> zmq_socket * polled;
  recv_multipart_n : zmq_socket -> nat -> zmq_socket * (list string + recv_error);
}.

Class ReceivingLaws `{Receiving} := {
  queue : zmq_socket -> list (list string);
  queue_arrive : forall s ms, queue (arrive s ms) = queue s ++ ms;
  queue_wait_all : forall s, queue (wait_all s).1 = queue s;
  wait_all_finds : forall s n, (wait_all s).2 = Polled n -> n <> O <-> queue s <> [];
  recv_fits : forall s n m rest, queue s = m :: rest -> (length m <= n)%nat ->
    (recv_multipart_n s n).2 = inl m /\ queue (recv_multipart_n s n).1 = rest;
  recv_exceeds : forall s n m rest, queue s = m :: rest -> (n < length m)%nat ->
    (recv_multipart_n s n).2 = inr RuntimeError /\ queue (recv_multipart_n s n).1 = drop n m :: rest;
}.

Definition EINTR : Z := 4.

Section sink.
Context `{Receiving}.

(** [std::expected]; [None] is a [zmq::error_t] on its way out, which is not a
    [std::runtime_error]. *)
Definition receive (s : zmq_socket) (max_messages : nat) : zmq_socket * option (list string + string) :=
  match recv_multipart_n s max_messages with
  | (s, inl recv_msgs) => (s, Some (inl recv_msgs))
  | (s, inr RuntimeError) => (s, Some (inr "Did not receive the expected number of messages"))
  | (s, inr (RecvZmqError _)) => (s, None)
  end.

Definition receive_ready (s : zmq_socket) : zmq_socket * option bool :=
  match wait_all s with
  | (s, Polled n) => (s, Some (negb (n =? 0)%nat))
  | (s, PollZmqError e) => (s, if e =? EINTR then Some false else None)
  end.

(** What the end of a turn reads. *)
Inductive delivery := Idle | Received (r : list string + string) | Threw.

(** [if (listener.receive_ready()) { ... listener.receive(max_parts) ... }]. *)
Definition listen (s : zmq_socket) (max_messages : nat) : zmq_socket * delivery :=
  match receive_ready s with
  | (s, None) => (s, Threw)
  | (s, Some false) => (s, Idle)
  | (s, Some true) =>
      match receive s max_messages with
      | (s, Some r) => (s, Received r)
      | (s, None) => (s, Threw)
      end
  end.
End sink.

(** ** What is read of a queue *)

Section pieces.
Context (max_messages : nat) (Hmax : (0 < max_messages)%nat).

(** A message that fits is read; of a longer one, [max_messages] parts are refused and the
    rest is read as if it were a message. *)
Equations? pieces (m : list string) : list (list string + string) by wf (length m) lt :=
  pieces m with le_lt_dec (length m) max_messages => {
    | left _ := [inl m];
    | right _ := inr "Did not receive the expected number of messages" :: pieces (drop max_messages m) }.
Proof. rewrite length_drop. lia. Qed.

Lemma pieces_fits m : (length m <= max_messages)%nat -> pieces m = [inl m].
Proof. intros Hm. simp pieces. by destruct (le_lt_dec _ _); [|lia]. Qed.

Lemma pieces_exceeds m : (max_messages < length m)%nat ->
  pieces m = inr "Did not receive the expected number of messages" :: pieces (drop max_messages m).
Proof. intros Hm. rewrite pieces_equation_1. by destruct (le_lt_dec _ _); [lia|]. Qed.

Definition in_pieces (q : list (list string)) : list (list string + string) := flat_map pieces q.

Definition read_by (d : delivery) : list (list string + string) :=
  match d with Received r => [r] | _ => [] end.

Context `{ReceivingLaws}.

(** One look at the socket takes the first piece off the queue, or nothing. *)
Lemma listen_takes_a_piece s s' d : listen s max_messages = (s', d) -> d <> Threw ->
  read_by d ++ in_pieces (queue s') = in_pieces (queue s).
Proof.
  unfold listen, receive_ready. intros Hl Hd.
  pose proof (queue_wait_all s) as Hq. pose proof (wait_all_finds s) as Hf.
  destruct (wait_all s) as [s1 [n|e]]; cbn [fst snd] in Hq, Hf.
  2: { destruct (e =? EINTR); injection Hl as <- <-; [|done]. by rewrite Hq. }
  destruct n as [|n]; [injection Hl as <- <-; by rewrite Hq|].
  cbn [Nat.eqb negb] in Hl. destruct (queue s) as [|m rest]; [by destruct (proj1 (Hf (S n) eq_refl))|].
  clear Hf. unfold receive in Hl. destruct (le_lt_dec (length m) max_messages) as [Hm|Hm].
  - destruct (recv_fits s1 max_messages m rest Hq Hm) as [Hr Hq2].
    destruct (recv_multipart_n s1 max_messages) as [s2 r2]. cbn [fst snd] in Hr, Hq2. subst r2. injection Hl as <- <-.
    rewrite Hq2. unfold in_pieces. cbn [flat_map]. by rewrite pieces_fits.
  - destruct (recv_exceeds s1 max_messages m rest Hq Hm) as [Hr Hq2].
    destruct (recv_multipart_n s1 max_messages) as [s2 r2]. cbn [fst snd] in Hr, Hq2. subst r2. injection Hl as <- <-.
    rewrite Hq2. unfold in_pieces. cbn [flat_map]. by rewrite (pieces_exceeds m).
Qed.

(** A message waiting is read unless the poll fails. *)
Lemma listen_reads s s' d : listen s max_messages = (s', d) -> queue s <> [] ->
  (exists n, (wait_all s).2 = Polled n) -> exists r, d = Received r.
Proof.
  unfold listen, receive_ready. intros Hl Hne [n Hp]. pose proof (wait_all_finds s n Hp) as Hf.
  pose proof (queue_wait_all s) as Hq. destruct (wait_all s) as [s1 p]. cbn [fst snd] in *. subst p.
  destruct n as [|n]; [by destruct (proj2 Hf Hne)|]. cbn [Nat.eqb negb] in Hl. rewrite <- Hq in Hne.
  destruct (queue s1) as [|m rest] eqn:Eq; [done|]. unfold receive in Hl.
  destruct (le_lt_dec (length m) max_messages) as [Hm|Hm].
  - destruct (recv_fits s1 max_messages m rest Eq Hm) as [Hr _].
    destruct (recv_multipart_n s1 max_messages) as [s2 r2]. cbn [snd] in Hr. subst r2. injection Hl as <- <-. by eexists.
  - destruct (recv_exceeds s1 max_messages m rest Eq Hm) as [Hr _].
    destruct (recv_multipart_n s1 max_messages) as [s2 r2]. cbn [snd] in Hr. subst r2. injection Hl as <- <-. by eexists.
Qed.
End pieces.

(** ** A socket that is its queue *)

Module SinkSim.
#[export] Instance sim_receiving : Receiving := {|
  zmq_socket := list (list string);
  arrive s ms := s ++ ms;
  wait_all s := (s, Polled (match s with [] => 0 | _ => 1 end)%nat);
  recv_multipart_n s n :=
    match s with
    | [] => ([], inr (RecvZmqError 11))
    | m :: rest => if (length m <=? n)%nat then (rest, inl m) else (drop n m :: rest, inr RuntimeError)
    end;
|}.

#[export] Instance sim_receiving_laws : ReceivingLaws.
Proof.
  refine {| queue := fun s : zmq_socket => s : list (list string) |}; try done.
  - intros [|m s] n [= <-]; split; done.
  - intros s n m rest -> Hm. cbn. by apply Nat.leb_le in Hm as ->.
  - intros s n m rest -> Hm. cbn. by apply Nat.leb_gt in Hm as ->.
Defined.
End SinkSim.
