(* ===== verification/SyncLoop.v ===== *)
(** * src/syncfs.cpp: the loop that ties the parts together

    One function per function of the file, and [iteration] for the body of the loop.
    The clocks, the listing of the tree, the alerts and the message of a turn are its
    inputs; what it publishes is part of its result. *)

From stdpp Require Import sets.
From S2P Require Import Prelude OrdMap FsPath Utils Files Reconcile Protocol Source Sink LocalChanges.

(** ** When the root hash is due *)

Record quiescence_t := Quiescence {
  q_now : steady_time; last_state : steady_time; last_change : steady_time; settled : bool;
}.

Definition state_due (q : quiescence_t) : bool :=
  let since_state := q_now q - last_state q in
  let quiescent := settled q && (quiescence_window <=? q_now q - last_change q) in
  (state_ceiling <=? since_state) || (quiescent && (period <=? since_state)).

(** [torrent_status::state_t]. *)
Inductive state_t :=
| checking_files | downloading_metadata | downloading | finished | seeding
| checking_resume_data | unknown (code : Z).

Definition to_string (s : state_t) : string :=
  match s with
  | checking_files => "checking_files"
  | downloading_metadata => "downloading_metadata"
  | downloading => "downloading"
  | finished => "finished"
  | seeding => "seeding"
  | checking_resume_data => "checking_resume_data"
  | unknown code => "unknown(" +:+ Z_to_string code +:+ ")"
  end.

Definition all_settled (torrents : list state_t) : bool :=
  forallb (fun t => match t with seeding | finished => true | _ => false end) torrents.

(** ** What a node keeps *)

Record inbound_t := Inbound { origins : file_map; written : file_map }.

(** A step that sends, and [None] when an exception leaves the loop. *)
Abbreviation step A := (list wire * option A)%type.

Section loop.
Context `{Torrents} `{!Session} `{Disk} `{!Announcer} `{Hasher256} `{Generator}.

Definition send (server : source) (d : disk) (now : path -> sys_time) (df : diff_t) (current : file_map)
    : emission :=
  and_then (remove_all now (removed df))
    (and_then (create_all server d (with_current_times current (created df)))
      (create_all server d (with_current_times current (modified df)))).

(** *** The write libtorrent made *)

Definition stamp_and_remember (inbound : inbound_t) (former : file_map) (d : disk) (p : path)
    (written_by : file_time) : inbound_t * file_map * disk :=
  match last_write_time d p with
  | None => (inbound, former, d)
  | Some before_stamp =>
      if written_by <? before_stamp then
        (Inbound (OrdMap.erase (origins inbound) p) (written inbound), former, d)
      else
        let '(origins, d) :=
          match OrdMap.find (origins inbound) p with
          | Some origin => (OrdMap.erase (origins inbound) p, set_time d p origin)
          | None => (origins inbound, d)
          end in
        match last_write_time d p with
        | None => (Inbound origins (written inbound), former, d)
        | Some time =>
            (Inbound origins (OrdMap.insert_or_assign (written inbound) p time),
             OrdMap.insert_or_assign former p time, d)
        end
  end.

(** An alert; [at_] is what [alert_time] makes of it. *)
Inductive alert := TorrentFinished (h : handle) | CacheFlushed (h : handle) (at_ : file_time) | OtherAlert.

Definition listed_as (s : session) (h : handle) : option (handle * string * option torrent) :=
  List.find (fun st : handle * string * option torrent => bool_decide (st.1.1 = h)) (status s).

Record node := Node {
  n_world : world; n_former : file_map; n_inbound : inbound_t; n_repairs : repairs_t; n_peers : state_map;
}.

Definition on_alert (n : node) (a : alert) : node :=
  match a with
  | TorrentFinished h =>
      match listed_as (ses (n_world n)) h with
      | Some _ => Node (World (flush_cache (ses (n_world n)) h) (dsk (n_world n)) (graves (n_world n)))
                    (n_former n) (n_inbound n) (n_repairs n) (n_peers n)
      | None => n
      end
  | CacheFlushed h at_ =>
      match listed_as (ses (n_world n)) h with
      | Some st =>
          match held_path (dsk (n_world n)) st with
          | Some p =>
              let '(inbound, former, d) := stamp_and_remember (n_inbound n) (n_former n) (dsk (n_world n)) p at_ in
              Node (World (ses (n_world n)) d (graves (n_world n))) former inbound (n_repairs n) (n_peers n)
          | None => n
          end
      | None => n
      end
  | OtherAlert => n
  end.

Definition drain_alerts (n : node) (alerts : list alert) : node := foldl on_alert n alerts.

(** *** Repairs *)

(** One path whose wait is up: what is sent, whether one was rebuilt, what waits on. *)
Definition publish_one (server : source) (d : disk) (repairs : repairs_t) (former : file_map)
    (acc : emission * bool * list path) (p : path) : emission * bool * list path :=
  let '(sent, rebuilt, waiting) := acc in
  match OrdMap.find former p with
  | None => acc
  | Some mtime =>
      match OrdMap.find (announcements repairs) p with
      | Some announcement => (and_then sent (sends (repair p mtime announcement)), rebuilt, waiting)
      | None =>
          if rebuilt : bool then (sent, rebuilt, waiting ++ [p])
          else (and_then sent (create server d p mtime), true, waiting)
      end
  end.

Definition publish_repairs (server : source) (d : disk) (repairs : repairs_t) (former : file_map)
    (now : steady_time) : emission * repairs_t :=
  let '(ready, rest) := due (pending repairs) now in
  let '(sent, _, waiting) := foldl (publish_one server d repairs former) (quiet, false, []) ready in
  (sent, Repairs (arm rest waiting now) (applied repairs) (announcements repairs)).

(** *** A peer's digest *)

(** [None] once the disk has thrown. *)
Definition read_digest (v : wire) (n : node) (sys_now : sys_time) (steady_now : steady_time) : option node :=
  let held := decode_held (part v 1) in
  let deleted := decode_tombstones (part v 2) in
  match adopt (ses (n_world n)) (dsk (n_world n)) deleted (n_former n) (graves (n_world n)) (n_repairs n) sys_now with
  | None => None
  | Some a =>
      let missing := gaps (a_former a) (a_mine a) held in
      let repairs := match missing with
        | [] => a_repairs a
        | _ => Repairs (arm (pending (a_repairs a)) missing steady_now) (applied (a_repairs a))
                 (announcements (a_repairs a))
        end in
      Some (Node (World (a_ses a) (a_dsk a) (a_mine a)) (a_former a) (n_inbound n) repairs (n_peers n))
  end.

Definition reconcile_message (verb : string) (v : wire) (own_endpoint : string) (n : node)
    (sys_now : sys_time) (steady_now : steady_time) : option node :=
  if String.eqb verb "state" then
    let sender := part v 2 in
    Some (if String.eqb sender own_endpoint then n
          else Node (n_world n) (n_former n) (n_inbound n) (n_repairs n)
                 (OrdMap.insert_or_assign (n_peers n) sender {| hashes := part v 1; heard_at := steady_now |}))
  else if String.eqb verb "digest" then read_digest v n sys_now steady_now
  else Some n.

(** *** One message *)

(** What a create that was taken leaves behind. *)
Definition on_created (v : wire) (o : outcome) (p : path) (n : node) : node :=
  let inbound := Inbound (OrdMap.insert_or_assign (origins (n_inbound n)) p (origin o)) (written (n_inbound n)) in
  let '(inbound, former, d) :=
    if already_held o then stamp_and_remember inbound (n_former n) (dsk (n_world n)) p (origin o)
    else (inbound, n_former n, dsk (n_world n)) in
  let r := n_repairs n in
  Node (World (ses (n_world n)) d (graves (n_world n))) former inbound
    {| announcements := OrdMap.insert_or_assign (announcements r) p (part v 1);
       applied := match out_content o with
                  | Some c => OrdMap.insert_or_assign (applied r) p (Applied (origin o) c)
                  | None => applied r
                  end;
       pending := OrdMap.erase (pending r) p |} (n_peers n).

Definition on_removed (v : wire) (n : node) : node :=
  match removed_path v with
  | Some gone => Node (n_world n) (n_former n) (n_inbound n) (forget (n_repairs n) gone) (n_peers n)
  | None => n
  end.

(** [received] is what [listener.receive] gave. *)
Definition receive_one (received : wire + string) (own_endpoint : string) (n : node)
    (sys_now : sys_time) (steady_now : steady_time) : option node :=
  match received with
  | inr _ => Some n
  | inl v =>
      match act v (applied (n_repairs n)) (n_world n) with
      | (Thrown, _) => None
      | (Unexpected _, _) => Some n
      | (Done o, w) =>
          let n := Node w (n_former n) (n_inbound n) (n_repairs n) (n_peers n) in
          let n := on_removed v n in
          let n := match Protocol.created o with Some p => on_created v o p n | None => n end in
          reconcile_message (verb o) v own_endpoint n sys_now steady_now
      end
  end.

(** *** The body of the loop *)

(** What a turn reads of the world around it. *)
Record turn := Turn {
  t_now : steady_time;
  t_statuses : list state_t;
  t_alerts : option (list alert);
  (** The walk of the tree, when the monitor woke the loop. *)
  t_walk : option (list walk_step);
  t_noticed : sys_time; t_moments : path -> sys_time; t_expiry : sys_time;
  (** What the socket had, and the clocks as it is read. *)
  t_message : delivery; t_sys : sys_time; t_steady : steady_time;
}.

Record loop_state := LoopState {
  l_node : node; l_partner : generator; l_last_stats : steady_time; l_last_change : steady_time;
  l_last_state : steady_time; l_settled : bool;
}.

Definition interval : Z := 2 * 10 ^ 9.

Definition step_bind {A B} (r : step A) (k : A -> step B) : step B :=
  match r.2 with None => (r.1, None) | Some a => (r.1 ++ (k a).1, (k a).2) end.

Definition emitted {A} (e : emission) (a : A) : step A := (e.1, if e.2 then Some a else None).

Definition with_node (st : loop_state) (n : node) : loop_state :=
  LoopState n (l_partner st) (l_last_stats st) (l_last_change st) (l_last_state st) (l_settled st).

Definition statistics (t : turn) (st : loop_state) : loop_state :=
  if interval <=? t_now t - l_last_stats st then
    LoopState (l_node st) (l_partner st) (l_last_stats st + interval) (l_last_change st) (l_last_state st)
      (all_settled (t_statuses t))
  else st.

Definition on_alerts (t : turn) (st : loop_state) : loop_state :=
  match t_alerts t with Some alerts => with_node st (drain_alerts (l_node st) alerts) | None => st end.

Definition on_file_event (server : source) (t : turn) (st : loop_state) : step loop_state :=
  match t_walk t with
  | None => ([], Some st)
  | Some walk =>
      let n := l_node st in
      let w := n_world n in
      let current := list_tree walk in
      let '(df, tombstones) := local_changes (n_former n) current (written (n_inbound n)) (graves w) (t_noticed t) in
      let '(written, spent) := forget_spent_marks current (written (n_inbound n)) tombstones (t_expiry t) in
      emitted (send server (dsk w) (t_moments t) df current)
        (LoopState (Node (World (ses w) (dsk w) spent) current (Inbound (origins (n_inbound n)) written)
                      (n_repairs n) (n_peers n))
           (l_partner st) (l_last_stats st) (t_now t) (l_last_state st) (l_settled st))
  end.

Definition on_round (server : source) (t : turn) (st : loop_state) : step loop_state :=
  if state_due (Quiescence (t_now t) (l_last_state st) (l_last_change st) (l_settled st)) then
    let n := l_node st in
    let mine := hash (n_former n) (graves (n_world n)) in
    let peers := forget_silent (n_peers n) (t_now t) in
    let '(asked, partner) := pick (l_partner st) peers mine in
    (state server mine ::
       match asked with
       | Some target => [digest target (encode_held (n_former n)) (encode_tombstones (graves (n_world n)))]
       | None => []
       end,
     Some (LoopState (Node (n_world n) (n_former n) (n_inbound n) (n_repairs n) peers) partner
             (l_last_stats st) (l_last_change st) (t_now t) (l_settled st)))
  else ([], Some st).

Definition on_repairs (server : source) (t : turn) (st : loop_state) : step loop_state :=
  let n := l_node st in
  let '(sent, repairs) := publish_repairs server (dsk (n_world n)) (n_repairs n) (n_former n) (t_now t) in
  emitted sent (with_node st (Node (n_world n) (n_former n) (n_inbound n) repairs (n_peers n))).

Definition on_message (server : source) (t : turn) (st : loop_state) : step loop_state :=
  match t_message t with
  | Idle => ([], Some st)
  | Threw => ([], None)
  | Received r =>
      ([], option_map (with_node st) (receive_one r (endpoint server) (l_node st) (t_sys t) (t_steady t)))
  end.

Definition iteration (server : source) (t : turn) (st : loop_state) : step loop_state :=
  step_bind (on_file_event server t (on_alerts t (statistics t st))) (fun st =>
  step_bind (on_round server t st) (fun st =>
  step_bind (on_repairs server t st) (on_message server t))).
End loop.

(** ** The write libtorrent made *)

Section echo.
Context `{Torrents} `{!Session} `{Disk} `{!DiskLaws}.

Lemma same_place_refl p : same_place p p = true.
Proof. apply keq_native_refl. Qed.

(** C21: a file libtorrent wrote is given its origin time, remembered and listed under
    it, and as long as the file keeps that time no listing announces it, whatever else
    changed; a file edited since the flush keeps its time and is forgotten, so that the
    edit travels. *)
Theorem received_file_is_not_an_edit inbound former d p written_by before :
  OrdMap.sorted (origins inbound) -> OrdMap.sorted (written inbound) -> OrdMap.sorted former ->
  last_write_time d p = Some before ->
  let '(inbound', former', d') := stamp_and_remember inbound former d p written_by in
  OrdMap.find (origins inbound') p = None /\
  if written_by <? before then
    d' = d /\ former' = former /\ written inbound' = written inbound
  else
    exists time, last_write_time d' p = Some time /\
      time = from_option id before (OrdMap.find (origins inbound) p) /\
      OrdMap.find (written inbound') p = Some time /\ OrdMap.find former' p = Some time /\
      forall listed current tombstones now, OrdMap.find current p = Some time ->
        ~ announced listed current (written inbound') tombstones p now.
Proof.
  intros Ho Hw Hf Hb. unfold stamp_and_remember. rewrite Hb. destruct (written_by <? before).
  { cbn [origins written]. rewrite OrdMap.find_erase, keq_native_refl by done. done. }
  assert (forall time w, OrdMap.find w p = Some time ->
    forall listed current tombstones now, OrdMap.find current p = Some time ->
    ~ announced listed current w tombstones p now) as Hquiet.
  { intros time w Hwt listed current tombstones now Hc (Ha & _ & Hb' & _). congruence. }
  destruct (OrdMap.find (origins inbound) p) as [origin|] eqn:Eo; cbn [from_option id].
  - assert (last_write_time (set_time d p origin) p = Some origin) as Ht.
    { rewrite time_set by (by eexists). by rewrite same_place_refl. }
    rewrite Ht. cbn [origins written]. rewrite OrdMap.find_erase, keq_native_refl by done. split; [done|].
    exists origin. rewrite !OrdMap.find_insert, keq_native_refl by done. repeat split; try done.
    apply Hquiet. by rewrite OrdMap.find_insert, keq_native_refl by done.
  - rewrite Hb. cbn [origins written]. split; [done|]. exists before.
    rewrite !OrdMap.find_insert, keq_native_refl by done. repeat split; try done.
    apply Hquiet. by rewrite OrdMap.find_insert, keq_native_refl by done.
Qed.
End echo.

(** ** Repairs *)

Section repairs.
Context `{Torrents} `{!Session} `{Disk} `{!Announcer}.
Context (server : source) (d : disk) (r : repairs_t) (former : file_map).

(** What is sent for a due path, when [rebuilt] is the one made afresh. *)
Definition repair_of (rebuilt : option path) (p : path) : list wire :=
  match OrdMap.find former p with
  | None => []
  | Some mtime =>
      match OrdMap.find (announcements r) p with
      | Some announcement => [repair p mtime announcement]
      | None => if bool_decide (rebuilt = Some p) then (create server d p mtime).1 else []
      end
  end.

(** Held, and with no announcement in hand. *)
Definition to_rebuild (p : path) : bool :=
  OrdMap.contains former p && negb (OrdMap.contains (announcements r) p).

Definition first_to_rebuild (ready : list path) : option path := head (List.filter to_rebuild ready).

Lemma and_then_ok a b : (and_then a b).2 = true -> a.2 = true /\ b.2 = true /\ (and_then a b).1 = a.1 ++ b.1.
Proof. unfold and_then. destruct (a.2) eqn:E; simpl; [done|congruence]. Qed.

(** Once one is rebuilt, the others wait. *)
Lemma publish_rebuilt ready sent waiting out :
  foldl (publish_one server d r former) (sent, true, waiting) ready = out -> out.1.1.2 = true ->
  out.1.1.1 = sent.1 ++ flat_map (repair_of None) ready /\ out.1.2 = true /\
  out.2 = waiting ++ List.filter to_rebuild ready /\ sent.2 = true.
Proof.
  revert sent waiting. induction ready as [|p ready IH]; intros sent waiting Hout Hok; simpl in Hout.
  - subst out. simpl in *. by rewrite !app_nil_r.
  - cbn [flat_map List.filter]. unfold repair_of at 1, to_rebuild at 1. rewrite !contains_is_some.
    destruct (OrdMap.find former p) as [mtime|]; [|by apply IH in Hout].
    destruct (OrdMap.find (announcements r) p) as [b|]; cbn [andb negb].
    + apply IH in Hout as (Hk1 & Hk2 & Hk3 & Hk4); [|done]. apply and_then_ok in Hk4 as (Hk4 & _ & He).
      split; [|done]. rewrite Hk1, He. by rewrite <- app_assoc.
    + apply IH in Hout as (Hk1 & Hk2 & Hk3 & Hk4); [|done]. rewrite bool_decide_eq_false_2 by done.
      split; [done|]. split; [done|]. split; [|done]. by rewrite Hk3, <- app_assoc.
Qed.

Lemma repair_of_others rebuilt ready : (forall p, rebuilt = Some p -> p ∉ List.filter to_rebuild ready) ->
  flat_map (repair_of rebuilt) ready = flat_map (repair_of None) ready.
Proof.
  induction ready as [|p ready IH]; intros Hn; [done|]. cbn [flat_map List.filter] in *.
  unfold to_rebuild in Hn at 1. rewrite !contains_is_some in Hn. unfold repair_of at 1 3.
  destruct (OrdMap.find former p) as [mtime|]; [|by rewrite IH].
  destruct (OrdMap.find (announcements r) p) as [b|]; cbn [andb negb] in Hn; [by rewrite IH|].
  rewrite (bool_decide_eq_false_2 (None = Some p)) by done. rewrite bool_decide_eq_false_2.
  - rewrite IH; [done|]. intros q Hq Hin. apply (Hn q Hq). by right.
  - intros Hr. apply (Hn p Hr). by left.
Qed.

Lemma publish_fold ready sent waiting out : NoDup ready ->
  foldl (publish_one server d r former) (sent, false, waiting) ready = out -> out.1.1.2 = true ->
  out.1.1.1 = sent.1 ++ flat_map (repair_of (first_to_rebuild ready)) ready /\
  out.2 = waiting ++ tail (List.filter to_rebuild ready) /\ sent.2 = true.
Proof.
  revert sent waiting. induction ready as [|p ready IH]; intros sent waiting Hn Hout Hok; simpl in Hout.
  - subst out. simpl in *. by rewrite !app_nil_r.
  - inversion Hn as [|? ? Hp Hn']; subst x l. cbn [flat_map]. unfold first_to_rebuild in *. cbn [List.filter].
    unfold repair_of at 1. destruct (to_rebuild p) eqn:Et; unfold to_rebuild in Et; rewrite !contains_is_some in Et;
      (destruct (OrdMap.find former p) as [mtime|]; [|(done || by apply IH in Hout)]);
      (destruct (OrdMap.find (announcements r) p) as [b|]; try discriminate Et); clear Et.
    2: { apply IH in Hout as (Hk1 & Hk2 & Hk4); [|done..]. apply and_then_ok in Hk4 as (Hk4 & _ & He).
      split; [|done]. rewrite Hk1, He. by rewrite <- app_assoc. }
    + apply publish_rebuilt in Hout as (Hk1 & Hk2 & Hk3 & Hk4); [|done]. apply and_then_ok in Hk4 as (Hk4 & _ & He).
      cbn [head tail]. rewrite bool_decide_eq_true_2 by done. split; [|done]. rewrite Hk1, He.
      rewrite (repair_of_others (Some p)); [by rewrite <- app_assoc|].
      intros q [= <-] Hin. apply list_elem_of_In, filter_In in Hin as [Hin _]. by apply Hp, list_elem_of_In.
Qed.
End repairs.

Lemma NoDup_images (l : list path) : NoDup (map path_image l) -> NoDup l.
Proof.
  induction l as [|p l IH]; simpl; intros Hn; [constructor|]. inversion Hn as [|? ? Hp Hn']; subst.
  constructor; [|by apply IH]. intros Hin. apply Hp. by apply list_elem_of_In, in_map, list_elem_of_In.
Qed.

Lemma elem_of_tail_filter (f : path -> bool) l p :
  p ∈ l -> f p = true -> head (List.filter f l) <> Some p -> p ∈ tail (List.filter f l).
Proof.
  intros Hin Hf Hh. assert (p ∈ List.filter f l) as Hp.
  { apply list_elem_of_In, filter_In. split; [by apply list_elem_of_In|done]. }
  destruct (List.filter f l) as [|x m]; [by apply elem_of_nil in Hp|]. simpl in *.
  by apply elem_of_cons in Hp as [->|Hp].
Qed.

Lemma NoDup_tail {A} (l : list A) : NoDup l -> NoDup (tail l).
Proof. destruct l; [done|]. by inversion 1. Qed.

(** What [arm] does to a path that was not waiting. *)
Lemma find_armed pending missing now p :
  OrdMap.sorted pending -> NoDup (map path_image missing) -> p ∈ missing -> OrdMap.find pending p = None ->
  exists t, OrdMap.find (arm pending missing now) p = Some t /\ now <= t.
Proof.
  intros Hs Hn Hp Hnone. destruct (arm_loop missing pending (arm_base pending now) Hs Hn) as [_ Hf].
  unfold arm. rewrite Hf, Hnone. assert (p ∈ unarmed pending missing) as Hu.
  { apply list_elem_of_In, filter_In. split; [by apply list_elem_of_In|].
    by apply negb_true_iff, OrdMap.contains_false. }
  apply list_elem_of_lookup in Hu as [i Hi]. eexists. split.
  - apply (armed_lookup _ _ i); [by apply NoDup_filter_map|done].
  - destruct (arm_base_spec pending now) as [Hb _]. unfold pace. lia.
Qed.

Section accounted.
Context `{Torrents} `{!Session} `{Disk} `{!Announcer}.

Lemma map_tail {A B} (f : A -> B) l : map f (tail l) = tail (map f l).
Proof. by destruct l. Qed.

(** C18: no repair is lost.  As long as nothing throws, the due paths are answered
    in order: with the announcement in hand, or with one made afresh, which at most one
    is; one that is held and gets neither is waiting again, from now on at the earliest;
    one no longer held is dropped; what was not due keeps its moment. *)
Theorem repairs_are_accounted_for server d r former now :
  OrdMap.sorted (pending r) ->
  let '(sent, r') := publish_repairs server d r former now in
  let ready := map fst (List.filter (fun e => e.2 <=? now) (pending r)) in
  let rebuilt := first_to_rebuild r former ready in
  sent.2 = true ->
  sent.1 = flat_map (repair_of server d r former rebuilt) ready /\
  (forall p, p ∈ ready -> OrdMap.contains former p = true -> OrdMap.contains (announcements r) p = false ->
     rebuilt <> Some p -> exists t, OrdMap.find (pending r') p = Some t /\ now <= t) /\
  (forall p at_, OrdMap.find (pending r) p = Some at_ -> now < at_ -> OrdMap.find (pending r') p = Some at_) /\
  announcements r' = announcements r /\ applied r' = applied r.
Proof.
  intros Hs. unfold publish_repairs. rewrite due_spec by done.
  set (ready := map fst (List.filter (fun e => e.2 <=? now) (pending r))).
  set (rest := List.filter (fun e => now <? e.2) (pending r)).
  assert (NoDup (map path_image ready)) as Hni by (by apply NoDup_keys_filter).
  destruct (foldl (publish_one server d r former) (quiet, false, []) ready) as [[sent b] waiting] eqn:E.
  cbn [fst snd pending announcements applied]. intros Hok.
  apply publish_fold in E as (Hsent & Hwait & _); [|by apply NoDup_images|done]. cbn [fst snd] in *.
  split; [done|]. rewrite app_nil_l in Hwait. subst waiting.
  assert (OrdMap.sorted rest) as Hr by (by apply OrdMap.sorted_filter).
  assert (NoDup (map path_image (tail (List.filter (to_rebuild r former) ready)))) as Hnw.
  { rewrite map_tail. by apply NoDup_tail, NoDup_filter_map. }
  split; [|split; [|done]].
  - intros p Hp Hc Ha Hh. apply find_armed; [done|done| |].
    + apply elem_of_tail_filter; [done| |done]. unfold to_rebuild. by rewrite Hc, Ha.
    + unfold rest. rewrite OrdMap.find_filter by done.
      apply list_elem_of_In, in_map_iff in Hp as ([q t] & Hq & [Hin Ht]%filter_In). simpl in Hq. subst q.
      rewrite (OrdMap.find_elem (pending r) p t) by (done || by apply list_elem_of_In). cbn [snd] in *.
      bool_hyps. by replace (now <? t) with false by (symmetry; apply Z.ltb_ge; lia).
  - intros p at_ Hp Hlt. destruct (arm_loop (tail (List.filter (to_rebuild r former) ready)) rest
      (arm_base rest now) Hr Hnw) as [_ Hf]. unfold arm. rewrite Hf. unfold rest at 1.
    rewrite OrdMap.find_filter, Hp by done. cbn [snd]. by rewrite (proj2 (Z.ltb_lt _ _) Hlt).
Qed.
End accounted.

(** ** The node's name on the control plane *)

(** What [main] subscribes under, and what [sync_loop] signs its root hashes with. *)
Definition my_address (arg : string) : string := "tcp://" +:+ arg.

Definition own_endpoint (local_addr : string) (local_port : Z) : string :=
  "tcp://" +:+ local_addr +:+ ":" +:+ Z_to_string local_port.

(** C37: a node reads its address twice, and its digests arrive exactly when the two
    readings spell the port alike.  It subscribes under the text of the argument and signs
    with the number in it, so an accepted "h:0555" is answered at "tcp://h:555", which
    nobody subscribes to. *)
Theorem digests_need_a_canonical_port host rest h n held deleted :
  has_char NUL host = false -> has_char NUL rest = false ->
  has_char COLON host = false -> has_char COLON rest = false ->
  parse_host_port (host +:+ String COLON rest) = inl (h, n) ->
  (delivered (subscribe (my_address (host +:+ String COLON rest)))
     (digest (own_endpoint h n) held deleted) = true <-> rest = Z_to_string n) /\
  check_listen_address "h:0555" = inl tt /\ parse_host_port "h:0555" = inl ("h", 555) /\
  delivered (subscribe (my_address "h:0555")) (digest (own_endpoint "h" 555) held deleted) = false.
Proof.
  intros Hn1 Hn2 Hc1 Hc2 Hp. split; [|by repeat split].
  assert (h = host) as ->.
  { unfold parse_host_port in Hp. rewrite split_on_app, split_on_free in Hp by done.
    destruct (String.eqb host ""); [done|]. destruct (stoi rest); [|done]. by injection Hp as <-. }
  change (delivered (subscribe (my_address (host +:+ String COLON rest))) (digest (own_endpoint host n) held deleted))
    with (String.prefix (address "digest" (my_address (host +:+ String COLON rest)))
            (address "digest" (own_endpoint host n)) || false).
  rewrite orb_false_r, prefix_address_iff; [|done|done|..].
  - unfold my_address, own_endpoint. split.
    + intros [_ He]. apply str_app_inj_head, str_app_inj_head in He. by injection He.
    + intros ->. split; [done|]. done.
  - unfold my_address. rewrite !has_char_app. simpl. by rewrite Hn1, Hn2.
  - unfold own_endpoint. rewrite !has_char_app. simpl. rewrite Hn1. by apply Z_to_string_no_char.
Qed.

(** ** The theorems at concrete inputs *)

Module LoopSim.

#[export] Existing Instances ProtocolSim.sim_torrents ProtocolSim.sim_sessions ProtocolSim.sim_disk.

#[export] Instance sim_announcer : Announcer :=
  {| entry_error _ _ := false; generate _ _ p := Some ("8 " +:+ native p) |}.

#[export] Instance sim_generator : Generator.
Proof. refine {| generator := unit; draw g _ := (0%nat, g) |}. simpl. lia. Defined.

#[export] Existing Instance prefix_hasher.

Definition sim_source : source := Source ("h", 1) "tcp://h:1".

Definition sim_node : node :=
  Node (World sim_ses [(Path "a", to_file_time 5)] [(Path "./c", 4)])
    [(Path "./a", to_file_time 5)] (Inbound [] [])
    (Repairs [(Path "./a", 100); (Path "./b", 5)] [] []) [("tcp://k:2", {| hashes := "x"; heard_at := 0 |})].

Definition sim_state : loop_state := LoopState sim_node tt 0 0 0 true.

Definition sim_turn (now : steady_time) : turn :=
  Turn now [seeding] None (Some [Visit {| de_path := Path "./a"; de_time := Some (to_file_time 5); de_regular := Some true; de_symlink := Some false |}]) 9 (fun _ => 9) 9
    (Received (inl ["state"; "h"; "tcp://h:1"])) 9 now.
End LoopSim.

Import LoopSim.

Lemma received_file_is_not_an_edit_witness :
  let inbound := Inbound [(Path "./a", to_file_time 3)] [] in
  let d := [(Path "a", to_file_time 5)] in
  let '(inbound', former', d') := stamp_and_remember inbound [] (d : disk) (Path "./a") (to_file_time 6) in
  OrdMap.find (origins inbound') (Path "./a") = None /\
  if to_file_time 6 <? to_file_time 5 then d' = d /\ former' = [] /\ written inbound' = written inbound
  else
    exists time, last_write_time d' (Path "./a") = Some time /\
      time = from_option id (to_file_time 5) (OrdMap.find (origins inbound) (Path "./a")) /\
      OrdMap.find (written inbound') (Path "./a") = Some time /\ OrdMap.find former' (Path "./a") = Some time /\
      forall listed current tombstones now, OrdMap.find current (Path "./a") = Some time ->
        ~ announced listed current (written inbound') tombstones (Path "./a") now.
Proof.
  apply (@received_file_is_not_an_edit ProtocolSim.sim_disk ProtocolSim.sim_disk_laws
    (Inbound [(Path "./a", to_file_time 3)] []) [] [(Path "a", to_file_time 5)] (Path "./a")
    (to_file_time 6) (to_file_time 5)); try (by apply sorted_by_test). reflexivity.
Defined.

Lemma repairs_are_accounted_for_witness :
  let r := n_repairs sim_node in
  let former := n_former sim_node in
  let '(sent, r') := publish_repairs sim_source [] r former 100 in
  let ready := map fst (List.filter (fun e => e.2 <=? 100) (pending r)) in
  let rebuilt := first_to_rebuild r former ready in
  sent.2 = true ->
  sent.1 = flat_map (repair_of sim_source [] r former rebuilt) ready /\
  (forall p, p ∈ ready -> OrdMap.contains former p = true -> OrdMap.contains (announcements r) p = false ->
     rebuilt <> Some p -> exists t, OrdMap.find (pending r') p = Some t /\ 100 <= t) /\
  (forall p at_, OrdMap.find (pending r) p = Some at_ -> 100 < at_ -> OrdMap.find (pending r') p = Some at_) /\
  announcements r' = announcements r /\ applied r' = applied r.
Proof.
  apply (@repairs_are_accounted_for ProtocolSim.sim_torrents ProtocolSim.sim_disk sim_announcer sim_source []
    (n_repairs sim_node) (n_former sim_node) 100). by apply sorted_by_test.
Defined.

Lemma digests_need_a_canonical_port_witness :
  (delivered (subscribe (my_address ("h" +:+ String COLON "555"))) (digest (own_endpoint "h" 555) "" "") = true <->
   "555" = Z_to_string 555) /\
  check_listen_address "h:0555" = inl tt /\ parse_host_port "h:0555" = inl ("h", 555) /\
  delivered (subscribe (my_address "h:0555")) (digest (own_endpoint "h" 555) "" "") = false.
Proof. by apply (digests_need_a_canonical_port "h" "555"). Defined.
