(* ===== verification/LoopInvariant.v ===== *)
(** * What holds of the loop whatever happens

    [node_ok] is kept by every operation of the loop (syncfs.cpp), and what a turn sends is
    well formed ([loop_invariant]); what a digest asks for is taken after its deletions. *)

From stdpp Require Import sets.
From S2P Require Import Prelude OrdMap FsPath Utils Files Reconcile Protocol Source Sink LocalChanges SyncLoop.

(** ** The invariant of the loop *)

Section invariant.
Context `{Torrents} `{!Session} `{Disk} `{!Announcer} `{Hasher256} `{Generator}.

(** Every map in order, and never this node among its peers. *)
Record node_ok (own : string) (n : node) : Prop := {
  ok_former : OrdMap.sorted (n_former n);
  ok_graves : OrdMap.sorted (graves (n_world n));
  ok_origins : OrdMap.sorted (origins (n_inbound n));
  ok_written : OrdMap.sorted (written (n_inbound n));
  ok_repairs : sorted_repairs (n_repairs n);
  ok_peers : OrdMap.sorted (n_peers n);
  ok_not_own : OrdMap.find (n_peers n) own = None;
}.

Lemma stamp_sorted inbound former d p at_ :
  OrdMap.sorted (origins inbound) -> OrdMap.sorted (written inbound) -> OrdMap.sorted former ->
  let '(inbound', former', _) := stamp_and_remember inbound former d p at_ in
  OrdMap.sorted (origins inbound') /\ OrdMap.sorted (written inbound') /\ OrdMap.sorted former'.
Proof.
  intros Ho Hw Hf. unfold stamp_and_remember. destruct (last_write_time d p); [|done].
  destruct (_ <? _); [split; [by apply OrdMap.sorted_erase|done]|].
  destruct (OrdMap.find (origins inbound) p); destruct (last_write_time _ p);
    simpl; auto using OrdMap.sorted_erase, OrdMap.sorted_insert.
Qed.

Lemma on_alert_ok own n a : node_ok own n -> node_ok own (on_alert n a).
Proof.
  intros [Hf Hg Ho Hw Hr Hp Hn]. destruct a as [h|h at_|]; simpl; [|..]; try by constructor.
  - by destruct (listed_as _ h).
  - destruct (listed_as _ h) as [st|]; [|by constructor]. destruct (held_path _ st) as [p|]; [|by constructor].
    pose proof (stamp_sorted (n_inbound n) (n_former n) (dsk (n_world n)) p at_ Ho Hw Hf) as Hst.
    destruct (stamp_and_remember _ _ _ _ _) as [[i f] d]. destruct Hst as (? & ? & ?). by constructor.
Qed.

Lemma drain_alerts_ok own n l : node_ok own n -> node_ok own (drain_alerts n l).
Proof. revert n. induction l as [|a l IH]; intros n Hn; [done|]. by apply IH, on_alert_ok. Qed.

Lemma sorted_arm_one st p : OrdMap.sorted st.1 -> OrdMap.sorted (arm_one st p).1.
Proof. destruct st as [m t]. simpl. destruct (OrdMap.contains m p); [done|]. apply OrdMap.sorted_try_emplace. Qed.

Lemma sorted_arm m l now : OrdMap.sorted m -> OrdMap.sorted (arm m l now).
Proof.
  unfold arm. intros Hm. assert (OrdMap.sorted (m, arm_base m now).1) as Hs by done. revert Hs.
  generalize (m, arm_base m now). induction l as [|p l IH]; intros st Hs; [done|]. by apply IH, sorted_arm_one.
Qed.

Lemma sorted_due m now : OrdMap.sorted m -> OrdMap.sorted (due m now).2.
Proof. intros Hm. rewrite due_spec by done. by apply OrdMap.sorted_filter. Qed.

Lemma sorted_decode_tombstones form : OrdMap.sorted (decode_tombstones form).
Proof.
  unfold decode_tombstones. generalize (for_each_entry (String.length form) form). intros l.
  assert (OrdMap.sorted (@nil (path * sys_time))) as Hs by apply OrdMap.sorted_nil. revert Hs.
  generalize (@nil (path * sys_time)). induction l as [|e l IH]; intros m Hm; [done|].
  by apply IH, OrdMap.sorted_insert.
Qed.

Lemma sorted_repairs_forget r ps : sorted_repairs r -> sorted_repairs (foldl forget r ps).
Proof. revert r. induction ps as [|p ps IH]; intros r Hr; [done|]. by apply IH, sorted_forget. Qed.

Lemma sorted_foldl_erase {V W} (l : list (path * W)) (m : list (path * V)) :
  OrdMap.sorted m -> OrdMap.sorted (foldl (fun m e => OrdMap.erase m e.1) m l).
Proof. revert m. induction l as [|e l IH]; intros m Hm; [done|]. by apply IH, OrdMap.sorted_erase. Qed.

Lemma adopt_sorted s d theirs former mine r now a :
  OrdMap.sorted theirs -> OrdMap.sorted former -> OrdMap.sorted mine -> sorted_repairs r ->
  adopt s d theirs former mine r now = Some a ->
  OrdMap.sorted (a_former a) /\ OrdMap.sorted (a_mine a) /\ sorted_repairs (a_repairs a).
Proof.
  intros Ht Hf Hm Hr Ha. apply adopt_fold in Ha as (-> & -> & _ & -> & _); [|by apply sorted_adoptable|done].
  split; [by apply sorted_foldl_erase|]. split; [by apply sorted_foldl_mark|by apply sorted_repairs_forget].
Qed.

Lemma read_digest_ok own v n s t n' : node_ok own n -> read_digest v n s t = Some n' -> node_ok own n'.
Proof.
  intros [Hf Hg Ho Hw Hr Hp Hn]. unfold read_digest. destruct (adopt _ _ _ _ _ _ _) as [a|] eqn:E; [|done].
  intros [= <-]. apply adopt_sorted in E as (Hf' & Hm' & Hr'); [|apply sorted_decode_tombstones|done..].
  constructor; simpl; try done. destruct (gaps _ _ _) as [|g gs]; [done|].
  destruct Hr' as (? & ? & ?). repeat split; simpl; try done. by apply sorted_arm.
Qed.

Lemma act_graves_sorted v known w : OrdMap.sorted (graves w) -> OrdMap.sorted (graves (act v known w).2).
Proof.
  intros Hg. unfold act. destruct v as [|p0 v]; [done|]. destruct (parts_for p0); [|done].
  destruct (negb _); [done|]. destruct (removed_path _).
  - unfold act_remove. destruct (erase _ _ _) as [s' [d'|]]; [by apply sorted_mark|done].
  - destruct (String.eqb _ _); [|done]. unfold act_create.
    destruct (OrdMap.find (graves w) _) as [g|] eqn:Eg; [destruct (beats g _); [done|]|]; simpl;
      (destruct (load_torrent_buffer _); [|try done; by apply OrdMap.sorted_erase]);
      (destruct (negb _); [try done; by apply OrdMap.sorted_erase|]);
      destruct (remove_stale_torrents _ _ _ _); destruct (add_torrent _ _ _); destruct (add_nodes _ _);
      simpl; try done; by apply OrdMap.sorted_erase.
Qed.

Lemma on_created_ok own v o p n : node_ok own n -> node_ok own (on_created v o p n).
Proof.
  intros [Hf Hg Ho Hw Hr Hp Hn]. unfold on_created.
  pose proof (OrdMap.sorted_insert (origins (n_inbound n)) p (origin o) Ho) as Ho'.
  pose proof (stamp_sorted (Inbound (OrdMap.insert_or_assign (origins (n_inbound n)) p (origin o))
    (written (n_inbound n))) (n_former n) (dsk (n_world n)) p (origin o) Ho' Hw Hf) as Hst.
  destruct Hr as (? & ? & ?).
  assert (forall i f d, OrdMap.sorted (origins i) /\ OrdMap.sorted (written i) /\ OrdMap.sorted f ->
    node_ok own (Node (World (ses (n_world n)) d (graves (n_world n))) f i
    {| announcements := OrdMap.insert_or_assign (announcements (n_repairs n)) p (part v 1);
       applied := match out_content o with
                  | Some c => OrdMap.insert_or_assign (applied (n_repairs n)) p (Applied (origin o) c)
                  | None => applied (n_repairs n)
                  end;
       pending := OrdMap.erase (pending (n_repairs n)) p |} (n_peers n))) as Hok.
  { intros i f d (? & ? & ?). constructor; simpl; try done. repeat split; simpl;
      [by apply OrdMap.sorted_erase| |by apply OrdMap.sorted_insert].
    destruct (out_content o); [by apply OrdMap.sorted_insert|done]. }
  destruct (already_held o).
  - destruct (stamp_and_remember _ _ _ _ _) as [[i f] d]. by apply Hok.
  - by apply Hok.
Qed.

Lemma on_removed_ok own v n : node_ok own n -> node_ok own (on_removed v n).
Proof.
  intros [Hf Hg Ho Hw Hr Hp Hn]. unfold on_removed. destruct (removed_path v); [|by constructor].
  constructor; simpl; try done. by apply sorted_forget.
Qed.

Lemma reconcile_message_ok own verb v n s t n' :
  node_ok own n -> reconcile_message verb v own n s t = Some n' -> node_ok own n'.
Proof.
  intros Hok. unfold reconcile_message. destruct (String.eqb verb "state").
  - intros [= <-]. destruct (String.eqb (part v 2) own) eqn:E; [done|]. destruct Hok as [Hf Hg Ho Hw Hr Hp Hn].
    constructor; simpl; try done; [by apply OrdMap.sorted_insert|]. rewrite OrdMap.find_insert by done.
    replace (OrdMap.keq (part v 2) own) with false; [done|]. symmetry. apply OrdMap.keq_false.
    by apply String.eqb_neq in E.
  - destruct (String.eqb verb "digest"); [|by intros [= <-]]. by apply read_digest_ok.
Qed.

Lemma receive_one_ok own (raw : wire + string) n s t n' : node_ok own n -> receive_one raw own n s t = Some n' -> node_ok own n'.
Proof.
  intros Hok. unfold receive_one. destruct raw as [v|e]; [|by intros [= <-]].
  pose proof (act_graves_sorted v (applied (n_repairs n)) (n_world n) (ok_graves _ _ Hok)) as Hg.
  destruct (act v _ _) as [[o|e|] w]; [|by intros [= <-]|done]. apply reconcile_message_ok.
  assert (node_ok own (on_removed v (Node w (n_former n) (n_inbound n) (n_repairs n) (n_peers n)))) as Hok'.
  { apply on_removed_ok. destruct Hok. by constructor. }
  destruct (Protocol.created o); [by apply on_created_ok|done].
Qed.

(** A message the receiver takes, and a digest only for somebody else. *)
Definition sent_ok (own : string) (m : wire) : Prop :=
  parts_for (part m 0) = Some (length m) /\
  (verb_of (part m 0) = "digest" -> exists target, part m 0 = address "digest" target /\ target <> own).

Lemma announce_ok own b t p : sent_ok own (announce b t p).
Proof. split; [reflexivity|]. intros Hv. discriminate Hv. Qed.

Lemma remove_ok own now p : sent_ok own (remove now p).
Proof. split; [reflexivity|]. intros Hv. discriminate Hv. Qed.

Lemma and_then_sent own a b : Forall (sent_ok own) a.1 -> Forall (sent_ok own) b.1 -> Forall (sent_ok own) (and_then a b).1.
Proof. intros Ha Hb. unfold and_then. destruct (a.2); [by apply Forall_app|done]. Qed.

Lemma create_sent own server d p t : Forall (sent_ok own) (create server d p t).1.
Proof.
  unfold create. destruct (entry_error d p); [constructor|].
  destruct (generate d (addr server) p); simpl; [constructor; [apply announce_ok|constructor]|constructor].
Qed.

Lemma create_all_sent own server d m : Forall (sent_ok own) (create_all server d m).1.
Proof.
  unfold create_all. assert (Forall (sent_ok own) quiet.1) as Hq by constructor. revert Hq. generalize quiet.
  induction m as [|f m IH]; intros e He; [done|]. by apply IH, and_then_sent; [|apply create_sent].
Qed.

Lemma send_sent own server d now df current : Forall (sent_ok own) (send server d now df current).1.
Proof.
  unfold send. repeat apply and_then_sent; try apply create_all_sent. unfold remove_all. cbn [fst].
  apply Forall_forall. intros m Hm. apply list_elem_of_In, in_map_iff in Hm as (f & <- & _). apply remove_ok.
Qed.

Lemma publish_sent own server d r former now : Forall (sent_ok own) (publish_repairs server d r former now).1.1.
Proof.
  unfold publish_repairs. destruct (due (pending r) now) as [ready rest].
  assert (forall acc, Forall (sent_ok own) acc.1.1.1 ->
    Forall (sent_ok own) (foldl (publish_one server d r former) acc ready).1.1.1) as Hall.
  { induction ready as [|p ready IH]; intros acc Ha; [done|]. apply IH. clear IH.
    destruct acc as [[sent b] waiting]. unfold publish_one. destruct (OrdMap.find former p); [|done].
    destruct (OrdMap.find (announcements r) p); [|destruct b; [done|]]; cbn [fst snd] in *;
      apply and_then_sent; try done; [|apply create_sent]. constructor; [apply announce_ok|constructor]. }
  specialize (Hall (quiet, false, []) (List.Forall_nil _)).
  by destruct (foldl _ _ ready) as [[sent b] waiting].
Qed.

Lemma digest_ok own target held deleted : target <> own -> sent_ok own (digest target held deleted).
Proof. intros Hne. split; [reflexivity|]. intros _. by exists target. Qed.

Definition step_ok (own : string) (r : step loop_state) : Prop :=
  Forall (sent_ok own) r.1 /\ forall st, r.2 = Some st -> node_ok own (l_node st).

Lemma step_bind_ok own r k : step_ok own r -> (forall st, node_ok own (l_node st) -> step_ok own (k st)) ->
  step_ok own (step_bind r k).
Proof.
  intros [Hm Hst] Hk. unfold step_bind. destruct (r.2) as [st|]; [|by split].
  destruct (Hk st (Hst st eq_refl)) as [Hm' Hst']. split; [by apply Forall_app|done].
Qed.

Lemma local_changes_sorted former current written tombstones noticed :
  OrdMap.sorted former -> OrdMap.sorted current -> OrdMap.sorted tombstones ->
  OrdMap.sorted (local_changes former current written tombstones noticed).2.
Proof.
  intros Hf Hc Ht. unfold local_changes.
  destruct (create_diff_spec former current (Path "") Hf Hc) as ((_ & Hs1 & Hs2) & _).
  pose proof (erase_losing_spec current (OrdMap.erase_if (is_echo written current) (created (create_diff former current)))
    tombstones ltac:(by apply OrdMap.sorted_erase_if) Ht) as Hl1.
  destruct (erase_losing current _ tombstones) as [c2 t1]. destruct Hl1 as (_ & Hst1 & _).
  pose proof (erase_losing_spec current (OrdMap.erase_if (is_echo written current) (modified (create_diff former current)))
    t1 ltac:(by apply OrdMap.sorted_erase_if) Hst1) as Hl2.
  destruct (erase_losing current _ t1) as [m2 t2]. destruct Hl2 as (_ & Hst2 & _). by apply sorted_marked.
Qed.

Lemma on_file_event_ok server t st : node_ok (endpoint server) (l_node st) ->
  step_ok (endpoint server) (on_file_event server t st).
Proof.
  intros [Hf Hg Ho Hw Hr Hp Hn]. unfold on_file_event. destruct (t_walk t) as [walk|].
  - pose proof (local_changes_sorted (n_former (l_node st)) (list_tree walk) (written (n_inbound (l_node st)))
      (graves (n_world (l_node st))) (t_noticed t) Hf (sorted_list_tree walk) Hg) as Hl.
    destruct (local_changes _ _ _ _ _) as [df tombstones]. cbn [snd] in Hl.
    unfold forget_spent_marks, emitted. split; [apply send_sent|].
    intros st'. cbn [snd]. destruct (send _ _ _ _ _).2; [|done]. intros [= <-]. constructor; simpl; try done.
    + apply sorted_list_tree.
    + by apply sorted_expire.
    + by apply OrdMap.sorted_erase_if.
  - split; [constructor|]. intros st' [= <-]. by constructor.
Qed.

Lemma on_round_ok server t st : node_ok (endpoint server) (l_node st) ->
  step_ok (endpoint server) (on_round server t st).
Proof.
  intros Hok. unfold on_round. destruct (state_due _); [|split; [constructor|by intros st' [= <-]]].
  destruct Hok as [Hf Hg Ho Hw Hr Hp Hn].
  set (peers := forget_silent (n_peers (l_node st)) (t_now t)).
  assert (OrdMap.find peers (endpoint server) = None) as Hnone.
  { unfold peers, forget_silent, OrdMap.erase_if. rewrite OrdMap.find_filter by done. by rewrite Hn. }
  destruct (pick_differing (l_partner st) peers (hash (n_former (l_node st)) (graves (n_world (l_node st))))) as [_ Hpick].
  assert (OrdMap.sorted peers) as Hsp by (by apply OrdMap.sorted_erase_if).
  destruct (pick _ _ _) as [asked partner]. split.
  - constructor; [split; [reflexivity|intros Hv; discriminate Hv]|].
    destruct asked as [target|]; [|constructor]. constructor; [|constructor]. apply digest_ok.
    intros ->. destruct (Hpick _ eq_refl) as (h & Hin & _). by rewrite (OrdMap.find_elem _ _ _ Hsp Hin) in Hnone.
  - intros st' [= <-]. by constructor.
Qed.

Lemma on_repairs_ok server t st : node_ok (endpoint server) (l_node st) ->
  step_ok (endpoint server) (on_repairs server t st).
Proof.
  intros [Hf Hg Ho Hw Hr Hp Hn]. unfold on_repairs.
  pose proof (publish_sent (endpoint server) server (dsk (n_world (l_node st))) (n_repairs (l_node st))
    (n_former (l_node st)) (t_now t)) as Hsent.
  assert (sorted_repairs (publish_repairs server (dsk (n_world (l_node st))) (n_repairs (l_node st))
    (n_former (l_node st)) (t_now t)).2) as Hr'.
  { destruct Hr as (Hp1 & ? & ?). unfold publish_repairs.
    pose proof (sorted_due (pending (n_repairs (l_node st))) (t_now t) Hp1) as Hd. destruct (due _ _) as [ready rest].
    destruct (foldl _ _ _) as [[sent b] waiting]. repeat split; simpl; try done. by apply sorted_arm. }
  destruct (publish_repairs _ _ _ _ _) as [sent r']. split; [done|]. intros st'. unfold emitted. cbn [snd].
  destruct (sent.2); [|done]. intros [= <-]. by constructor.
Qed.

Lemma on_message_ok server t st : node_ok (endpoint server) (l_node st) ->
  step_ok (endpoint server) (on_message server t st).
Proof.
  intros Hok. unfold on_message. destruct (t_message t) as [|v|].
  - split; [constructor|]. by intros st' [= <-].
  - split; [constructor|]. cbn [snd]. intros st'. destruct (receive_one _ _ _ _ _) as [n'|] eqn:E; [|done].
    intros [= <-]. by eapply receive_one_ok.
  - by split.
Qed.

(** Whatever arrives, a turn of the loop keeps every map of the node in order and
    this node out of its own record of peers, and sends only messages its peers can read,
    a digest never to itself. *)
Lemma loop_invariant server t st :
  node_ok (endpoint server) (l_node st) ->
  Forall (sent_ok (endpoint server)) (iteration server t st).1 /\
  forall st', (iteration server t st).2 = Some st' -> node_ok (endpoint server) (l_node st').
Proof.
  intros Hok. apply step_bind_ok.
  - apply on_file_event_ok. unfold on_alerts, statistics.
    destruct (t_alerts t); [apply drain_alerts_ok|]; by destruct (_ <=? _).
  - intros st1 H1'. apply step_bind_ok; [by apply on_round_ok|]. intros st2 H2'.
    apply step_bind_ok; [by apply on_repairs_ok|]. intros st3 H3'. by apply on_message_ok.
Qed.
End invariant.

(** ** What a peer's digest asks for *)

Section digests.
Context `{Torrents} `{!Session} `{Disk}.

Lemma arm_only pending missing now p t :
  OrdMap.sorted pending -> NoDup (map path_image missing) ->
  OrdMap.find (arm pending missing now) p = Some t ->
  OrdMap.find pending p = Some t \/ exists q, q ∈ missing /\ path_image q = path_image p.
Proof.
  intros Hs Hn. destruct (arm_loop missing pending (arm_base pending now) Hs Hn) as [_ Hf]. unfold arm.
  rewrite Hf. destruct (OrdMap.find pending p); [by left|]. intros Ha. right.
  apply armed_elem in Ha as (q & Hq & Hk). exists q. split; [|done].
  apply list_elem_of_In, filter_In in Hq as [Hq _]. by apply list_elem_of_In.
Qed.

Lemma arm_keeps pending missing now p t :
  OrdMap.sorted pending -> NoDup (map path_image missing) ->
  OrdMap.find pending p = Some t -> OrdMap.find (arm pending missing now) p = Some t.
Proof.
  intros Hs Hn Hp. destruct (arm_loop missing pending (arm_base pending now) Hs Hn) as [_ Hf]. unfold arm.
  by rewrite Hf, Hp.
Qed.

Lemma gap_held mine tombstones theirs p : OrdMap.sorted mine ->
  p ∈ gaps mine tombstones theirs -> is_Some (OrdMap.find mine p).
Proof.
  intros Hs (w & Hin & _)%elem_of_gaps. exists w. by apply OrdMap.find_elem.
Qed.

Lemma forget_less ps r q : OrdMap.sorted (pending r) ->
  OrdMap.find (pending (foldl forget r ps)) q = None \/
  OrdMap.find (pending (foldl forget r ps)) q = OrdMap.find (pending r) q.
Proof.
  revert r. induction ps as [|p ps IH]; intros r Hr; [by right|]. simpl.
  destruct (IH (forget r p) ltac:(by apply OrdMap.sorted_erase)) as [->| ->]; [by left|]. cbn [forget pending].
  rewrite OrdMap.find_erase by done. destruct (OrdMap.keq p q); [by left|by right].
Qed.

(** C19: a digest is read deletions first.  Every path this node then still holds and
    the peer lacks waits for its repair; nothing else starts to wait; and a path whose
    deletion was just taken on is neither held, nor waiting, nor offered back. *)
Theorem digest_read_deletions_first own v n sys_now steady_now n' :
  node_ok own n -> read_digest v n sys_now steady_now = Some n' ->
  let held := decode_held (part v 1) in
  let taken := adoptable (decode_tombstones (part v 2)) (n_former n) (graves (n_world n)) sys_now in
  let missing := gaps (n_former n') (graves (n_world n')) held in
  (forall p, p ∈ missing -> is_Some (OrdMap.find (pending (n_repairs n')) p)) /\
  (forall p t, OrdMap.find (pending (n_repairs n')) p = Some t ->
     OrdMap.find (pending (n_repairs n)) p = Some t \/ exists q, q ∈ missing /\ path_image q = path_image p) /\
  (forall p at_, (p, at_) ∈ taken -> OrdMap.contains (n_former n) p = true ->
     OrdMap.find (n_former n') p = None /\ OrdMap.find (pending (n_repairs n')) p = None /\ p ∉ missing).
Proof.
  intros [Hf Hg _ _ Hr _ _]. unfold read_digest. destruct (adopt _ _ _ _ _ _ _) as [a|] eqn:E; [|done].
  pose proof E as E'. apply adopt_sorted in E' as (Hsf & Hsm & Hsr); [|apply sorted_decode_tombstones|done..].
  apply adopt_maps in E as (_ & Hformer & _ & Hrep & _); [|apply sorted_decode_tombstones|done..].
  intros [= <-]. set (held := decode_held (part v 1)).
  set (taken := adoptable (decode_tombstones (part v 2)) (n_former n) (graves (n_world n)) sys_now) in *.
  cbn [n_repairs n_former n_world graves pending]. set (missing := gaps (a_former a) (a_mine a) held).
  assert (NoDup (map path_image missing)) as Hn by (by apply NoDup_gaps).
  pose proof Hsr as (Hsp & _ & _).
  set (pend := pending (match missing with [] => a_repairs a | _ :: _ =>
    Repairs (arm (pending (a_repairs a)) missing steady_now) (applied (a_repairs a)) (announcements (a_repairs a)) end)).
  assert (pend = pending (a_repairs a) /\ missing = [] \/ pend = arm (pending (a_repairs a)) missing steady_now) as Hpend.
  { unfold pend. destruct missing; [by left|by right]. }
  assert (forall q, OrdMap.find (pending (a_repairs a)) q = None \/
    OrdMap.find (pending (a_repairs a)) q = OrdMap.find (pending (n_repairs n)) q) as Hless.
  { intros q. rewrite Hrep. by apply forget_less, Hr. }
  split; [|split].
  - intros p Hp. destruct Hpend as [[_ Hm]| ->]; [rewrite Hm in Hp; by apply elem_of_nil in Hp|].
    destruct (OrdMap.find (pending (a_repairs a)) p) as [t|] eqn:Et.
    + eexists. by apply arm_keeps.
    + destruct (find_armed (pending (a_repairs a)) missing steady_now p Hsp Hn Hp Et) as (t & Ht & _). by exists t.
  - intros p t Ht. assert (OrdMap.find (pending (a_repairs a)) p = Some t \/
      exists q, q ∈ missing /\ path_image q = path_image p) as [Ho|]; [|left|by right].
    + destruct Hpend as [[Hp _]|Hp]; rewrite Hp in Ht; [by left|by eapply arm_only].
    + destruct (Hless p) as [Hl|Hl]; congruence.
  - intros p at_ Hin Hc.
    assert (OrdMap.find (a_former a) p = None) as Hnone.
    { rewrite Hformer. replace (OrdMap.contains taken p) with true; [done|]. symmetry. apply OrdMap.contains_find.
      exists at_. apply OrdMap.find_elem; [|done]. apply sorted_adoptable, sorted_decode_tombstones. }
    assert (p ∉ missing) as Hm by (intros Hp; apply gap_held in Hp; [|done]; rewrite Hnone in Hp; by destruct Hp).
    split; [done|]. split; [|done].
    assert (OrdMap.find (pending (a_repairs a)) p = None) as Hpn.
    { rewrite Hrep. apply forget_all; [done|]. right. apply elem_of_losing. eauto. }
    destruct (OrdMap.find pend p) as [t|] eqn:Et; [|done]. exfalso.
    destruct Hpend as [[Hp _]|Hp]; rewrite Hp in Et; [congruence|].
    apply arm_only in Et as [Et|(q & Hq & Hk)]; [congruence| |done|done].
    apply gap_held in Hq as [x Hx]; [|done]. rewrite (OrdMap.find_key (a_former a) q p) in Hx by exact Hk. congruence.
Qed.
End digests.

(** ** At a concrete node *)

Import LoopSim.

Lemma sim_node_ok : node_ok (endpoint sim_source) sim_node.
Proof.
  constructor; try (by apply sorted_by_test); [|by apply OrdMap.sortedb_sorted|reflexivity].
  repeat split; by apply sorted_by_test.
Qed.

(** The peer holds nothing and has deleted the file here. *)
Definition sim_digest : wire := digest "tcp://h:1" "" (encode_tombstones [(Path "./a", 9)]).

Lemma digest_read_deletions_first_witness :
  exists n', read_digest sim_digest sim_node 10 10 = Some n' /\
  let held := decode_held (part sim_digest 1) in
  let taken := adoptable (decode_tombstones (part sim_digest 2)) (n_former sim_node) (graves (n_world sim_node)) 10 in
  let missing := gaps (n_former n') (graves (n_world n')) held in
  (forall p, p ∈ missing -> is_Some (OrdMap.find (pending (n_repairs n')) p)) /\
  (forall p t, OrdMap.find (pending (n_repairs n')) p = Some t ->
     OrdMap.find (pending (n_repairs sim_node)) p = Some t \/
     exists q, q ∈ missing /\ path_image q = path_image p) /\
  (forall p at_, (p, at_) ∈ taken -> OrdMap.contains (n_former sim_node) p = true ->
     OrdMap.find (n_former n') p = None /\ OrdMap.find (pending (n_repairs n')) p = None /\ p ∉ missing).
Proof.
  eexists. split; [reflexivity|].
  apply (digest_read_deletions_first (endpoint sim_source) sim_digest sim_node 10 10).
  - apply sim_node_ok.
  - reflexivity.
Defined.
