(* ===== verification/Rhythm.v ===== *)
(** * The rhythm of the root hashes

    Over any run of turns (syncfs.cpp): two root hashes are a period apart, and none is
    missing for longer than the ceiling. *)

From stdpp Require Import sets.
From S2P Require Import Prelude OrdMap FsPath Utils Files Reconcile Protocol Source Sink LocalChanges SyncLoop.

Section rhythm.
Context `{Torrents} `{!Session} `{Disk} `{!Announcer} `{Hasher256} `{Generator}.
Context (server : source).

(** Whether a root hash is among what was sent. *)
Definition speaks (sent : list wire) : bool := existsb (fun m => String.eqb (part m 0) "state") sent.

Lemma speaks_app a b : speaks (a ++ b) = speaks a || speaks b.
Proof. apply existsb_app. Qed.

Lemma and_then_silent a b : speaks a.1 = false -> speaks b.1 = false -> speaks (and_then a b).1 = false.
Proof. intros Ha Hb. unfold and_then. destruct (a.2); [|done]. cbn [fst]. by rewrite speaks_app, Ha, Hb. Qed.

Lemma create_silent d p t : speaks (create server d p t).1 = false.
Proof. unfold create. destruct (entry_error d p); [done|]. by destruct (generate d (addr server) p). Qed.

Lemma create_all_silent d m : speaks (create_all server d m).1 = false.
Proof.
  unfold create_all. assert (speaks quiet.1 = false) as Hq by done. revert Hq. generalize quiet.
  induction m as [|f m IH]; intros e He; [done|]. by apply IH, and_then_silent; [|apply create_silent].
Qed.

Lemma send_silent d now df current : speaks (send server d now df current).1 = false.
Proof.
  unfold send. repeat apply and_then_silent; try apply create_all_silent. unfold remove_all. cbn [fst].
  induction (removed df) as [|f m IH]; [done|]. exact IH.
Qed.

Lemma publish_silent d r former now : speaks (publish_repairs server d r former now).1.1 = false.
Proof.
  unfold publish_repairs. destruct (due (pending r) now) as [ready rest].
  assert (forall acc, speaks acc.1.1.1 = false ->
    speaks (foldl (publish_one server d r former) acc ready).1.1.1 = false) as Hall.
  { induction ready as [|p ready IH]; intros acc Ha; [done|]. apply IH. clear IH.
    destruct acc as [[sent b] waiting]. unfold publish_one. destruct (OrdMap.find former p); [|done].
    destruct (OrdMap.find (announcements r) p); [|destruct b; [done|]]; cbn [fst snd] in *;
      apply and_then_silent; try done. apply create_silent. }
  specialize (Hall (quiet, false, []) eq_refl). by destruct (foldl _ _ ready) as [[sent b] waiting].
Qed.

(** A turn that speaks was due and resets the clock; one that does not was not due. *)
Lemma iteration_speaks t st st' sent : iteration server t st = (sent, Some st') ->
  exists changed settled,
  let q := Quiescence (t_now t) (l_last_state st) changed settled in
  speaks sent = state_due q /\
  l_last_state st' = if state_due q then t_now t else l_last_state st.
Proof.
  unfold iteration, step_bind. intros Hit.
  assert (l_last_state (on_alerts t (statistics t st)) = l_last_state st) as H0'.
  { unfold on_alerts, statistics. destruct (t_alerts t); by destruct (_ <=? _). }
  set (st0 := on_alerts t (statistics t st)) in *.
  assert (speaks (on_file_event server t st0).1 = false /\
    forall st1, (on_file_event server t st0).2 = Some st1 -> l_last_state st1 = l_last_state st0) as [H1' H1''].
  { unfold on_file_event. destruct (t_walk t) as [walk|]; [|by split; [|intros ? [= <-]]].
    destruct (local_changes _ _ _ _ _) as [df ts]. unfold forget_spent_marks, emitted. cbn [fst snd].
    split; [apply send_silent|]. intros st1. destruct (send _ _ _ _ _).2; [|done]. by intros [= <-]. }
  destruct (on_file_event server t st0) as [sent1 [st1|]]; [|done]. cbn [fst snd] in *. specialize (H1'' _ eq_refl).
  exists (l_last_change st1), (l_settled st1). rewrite <- H0', <- H1''.
  assert (speaks (on_round server t st1).1 =
      state_due (Quiescence (t_now t) (l_last_state st1) (l_last_change st1) (l_settled st1)) /\
    exists st2, (on_round server t st1).2 = Some st2 /\ l_last_state st2 =
      if state_due (Quiescence (t_now t) (l_last_state st1) (l_last_change st1) (l_settled st1))
      then t_now t else l_last_state st1) as (H2' & st2 & H2'' & H2s).
  { unfold on_round. destruct (state_due _); [|by split; [|eexists]]. destruct (pick _ _ _) as [asked partner].
    split; [done|]. by eexists. }
  destruct (on_round server t st1) as [sent2 o2]. cbn [fst snd] in *. subst o2.
  pose proof (publish_silent (dsk (n_world (l_node st2))) (n_repairs (l_node st2)) (n_former (l_node st2)) (t_now t)) as H3'.
  unfold on_repairs in Hit. destruct (publish_repairs _ _ _ _ _) as [sent3 r']. unfold emitted in Hit. cbn [fst snd] in *.
  destruct (sent3.2); [|done]. unfold on_message in Hit. cbn [fst snd] in Hit. revert Hit.
  destruct (t_message t) as [|v|]; cbn [fst snd]; [| |done].
  - intros [= <- <-]. rewrite !speaks_app, H1', H2', H3'. simpl. by rewrite !orb_false_r.
  - destruct (receive_one _ _ _ _ _) as [n'|]; [|done]. simpl. intros [= <- <-].
    rewrite !speaks_app, H1', H2', H3'. simpl. by rewrite !orb_false_r.
Qed.

(** Turns one after the other, with the moment of each and whether it spoke. *)
Fixpoint run (st : loop_state) (ts : list turn) : option (list (steady_time * bool) * loop_state) :=
  match ts with
  | [] => Some ([], st)
  | t :: ts' =>
      match iteration server t st with
      | (sent, Some st') =>
          match run st' ts' with
          | Some (log, last) => Some ((t_now t, speaks sent) :: log, last)
          | None => None
          end
      | (_, None) => None
      end
  end.

Definition spoken (log : list (steady_time * bool)) : list steady_time := map fst (List.filter snd log).

Lemma last_indep {A} (l : list A) x d d' : List.last (x :: l) d = List.last (x :: l) d'.
Proof. revert x. induction l as [|y l IH]; intros x; [done|]. exact (IH y). Qed.

Lemma last_cons_default {A} (x : A) l d : List.last (x :: l) d = List.last l x.
Proof. destruct l as [|y l]; [done|]. exact (last_indep l y d x). Qed.

(** C22: however the turns fall, two root hashes are never less than a period apart,
    and no turn is silent once the ceiling has passed since the last one. *)
Theorem states_are_paced st ts log st' :
  run st ts = Some (log, st') ->
  StronglySorted (fun a b => a + period <= b) (l_last_state st :: spoken log) /\
  forall before now after, log = before ++ (now, false) :: after ->
    now < List.last (spoken before) (l_last_state st) + state_ceiling.
Proof.
  revert st log. induction ts as [|t ts IH]; intros st log Hrun; simpl in Hrun.
  - injection Hrun as <- <-. split; [repeat constructor|]. intros before now after Hl. by destruct before.
  - destruct (iteration server t st) as [sent [st1|]] eqn:E; [|done].
    destruct (run st1 ts) as [[log1 last]|] eqn:Er; [|done]. injection Hrun as <- <-.
    apply iteration_speaks in E as (ch & se & Hsp & Hls). cbn zeta in *. rewrite Hsp.
    apply IH in Er as [Hs Hc]. unfold state_due in *. cbn [q_now last_state settled last_change] in *.
    unfold spoken. cbn [List.filter snd].
    destruct (_ || _) eqn:Ed in Hls |- *; rewrite ?Ed; rewrite Hls in *.
    + cbn [map fst]. split.
      * constructor; [done|]. constructor.
        -- apply orb_true_iff in Ed. unfold state_ceiling, period in *. destruct Ed; bool_hyps; lia.
        -- apply Sorted.StronglySorted_inv in Hs as [_ Hall]. eapply Forall_impl; [exact Hall|].
           intros b Hb. cbn beta in *.
           assert (l_last_state st + period <= t_now t); [|unfold period in *; lia].
           apply orb_true_iff in Ed. unfold state_ceiling, period in *. destruct Ed; bool_hyps; lia.
      * intros [|[n b] before] now after Hl; simpl in Hl; [done|]. injection Hl as <- <- ->.
        specialize (Hc before now after eq_refl). cbn [List.filter snd map fst]. unfold spoken in Hc.
        by rewrite last_cons_default.
    + split; [done|]. apply orb_false_iff in Ed as [Ed _].
      intros [|[n b] before] now after Hl; simpl in Hl.
      * injection Hl as <- <-. simpl. bool_hyps. lia.
      * injection Hl as <- <- ->. cbn [List.filter snd]. by eapply Hc.
Qed.
End rhythm.

(** ** Two turns a minute apart *)

Import LoopSim.

Definition sim_turns : list turn := [sim_turn (10 ^ 9); sim_turn (61 * 10 ^ 9)].

Lemma sim_runs : match run sim_source sim_state sim_turns with
  | Some (log, _) => bool_decide (log = [(10 ^ 9, false); (61 * 10 ^ 9, true)]) | None => false end = true.
Proof. vm_compute. reflexivity. Qed.

Lemma states_are_paced_witness :
  exists log st', run sim_source sim_state sim_turns = Some (log, st') /\
  log = [(10 ^ 9, false); (61 * 10 ^ 9, true)] /\
  StronglySorted (fun a b => a + period <= b) (l_last_state sim_state :: spoken log) /\
  forall before now after, log = before ++ (now, false) :: after ->
    now < List.last (spoken before) (l_last_state sim_state) + state_ceiling.
Proof.
  pose proof sim_runs as Hr. destruct (run sim_source sim_state sim_turns) as [[log st']|] eqn:E; [|discriminate Hr].
  exists log, st'. split; [reflexivity|]. split; [exact (bool_decide_eq_true_1 _ Hr)|].
  exact (states_are_paced sim_source sim_state sim_turns log st' E).
Defined.
