(* ===== verification/Alerts.v ===== *)
(** * The flag between libtorrent's threads and the loop

    syncfs.cpp does not poll libtorrent: a callback sets [alert_ready] from one of
    libtorrent's threads, and the loop drains the alerts of a turn that finds it set and
    then clears it.  The two run concurrently, so the loop's four operations are steps
    of their own and an alert may be posted between any two of them.  libtorrent's queue
    is a class; its laws are what the documentation of set_alert_notify and pop_alerts
    says: the callback is made when an alert is posted to an empty queue, and not again
    until the queue has been popped. *)

From stdpp Require Import relations.
From S2P Require Import Prelude.

Class AlertQueue (A : Type) := {
  alert_queue : Type;
  queued : alert_queue -> list A;
  (** The queue with one more alert, and whether the callback was made. *)
  post_alert : alert_queue -> A -> alert_queue * bool;
  pop_alerts : alert_queue -> alert_queue * list A;
}.

Class AlertQueueLaws (A : Type) `{AlertQueue A} := {
  post_appends : forall q a, queued (post_alert q a).1 = queued q ++ [a];
  post_notifies : forall q a, (post_alert q a).2 = match queued q with [] => true | _ => false end;
  pop_empties : forall q, queued (pop_alerts q).1 = [];
  pop_answers : forall q, (pop_alerts q).2 = queued q;
}.

(** Where the loop is: anywhere else in its turn, about to pop, handling what it
    popped, about to clear the flag. *)
Inductive loop_at := Elsewhere | Popping | Draining | Clearing.

Section handshake.
Context {A : Type} `{AlertQueueLaws A}.

Record handshake := Handshake {
  queue : alert_queue;
  alert_ready : bool;
  place : loop_at;
  (** Every alert the loop was handed so far. *)
  handed : list A;
}.

Inductive handshake_step : handshake -> handshake -> Prop :=
(** libtorrent's thread, at any moment. *)
| posted q r l h a :
    handshake_step (Handshake q r l h) (Handshake (post_alert q a).1 (r || (post_alert q a).2) l h)
(** The test at the head of a turn. *)
| found_set q h : handshake_step (Handshake q true Elsewhere h) (Handshake q true Popping h)
| found_clear q h : handshake_step (Handshake q false Elsewhere h) (Handshake q false Elsewhere h)
(** [drain_alerts]. *)
| popped q r h :
    handshake_step (Handshake q r Popping h) (Handshake (pop_alerts q).1 r Draining (h ++ (pop_alerts q).2))
| drained q r h : handshake_step (Handshake q r Draining h) (Handshake q r Clearing h)
| cleared q r h : handshake_step (Handshake q r Clearing h) (Handshake q false Elsewhere h).

(** Nothing is overlooked: whatever waits, the flag says so. *)
Definition alerted (s : handshake) : Prop :=
  place s <> Draining -> place s <> Clearing -> queued (queue s) <> [] -> alert_ready s = true.

(** The window: popped and not cleared yet. *)
Definition in_window (s : handshake) : Prop := place s = Draining \/ place s = Clearing.

(** While nothing is posted in the window, nothing is overlooked. *)
Definition outside (s s' : handshake) : Prop := handshake_step s s' /\ (in_window s -> queue s = queue s').

Definition quiet_window (s : handshake) : Prop := alerted s /\ (in_window s -> queued (queue s) = []).

Lemma outside_keeps s s' : quiet_window s -> outside s s' -> quiet_window s'.
Proof.
  intros [Ha Hw] [Hstep Hq].
  destruct Hstep as [q r l h a|q h|q h|q r h|q r h|q r h]; unfold quiet_window, alerted, in_window in *; cbn in *.
  - split.
    + intros H1 H2 _. rewrite post_notifies. destruct (queued q) eqn:E; [by rewrite orb_true_r|].
      by rewrite Ha.
    + intros Hl. rewrite <- (Hq Hl). by apply Hw.
  - split; [done|]. by intros [|].
  - split; [done|]. by intros [|].
  - split; [done|]. intros _. apply pop_empties.
  - split; [done|]. intros _. apply Hw. by left.
  - split; [|by intros [|]]. intros _ _ Hne. exfalso. apply Hne, Hw. by right.
Qed.

(** The loop will not look at the queue again, whatever is posted. *)
Definition deaf (s : handshake) : Prop :=
  place s = Elsewhere /\ alert_ready s = false /\ queued (queue s) <> [].

Lemma deaf_step s s' : deaf s -> handshake_step s s' -> deaf s' /\ handed s' = handed s /\
  exists more, queued (queue s') = queued (queue s) ++ more.
Proof.
  intros (Hp & Hr & Hq) Hstep. destruct Hstep; cbn in *; try discriminate; simplify_eq.
  - split; [|split; [done|eexists; apply post_appends]]. split; [done|]. cbn. split.
    + rewrite post_notifies. by destruct (queued q).
    + rewrite post_appends. by destruct (queued q).
  - split; [done|]. split; [done|]. exists []. by rewrite app_nil_r.
Qed.

Lemma deaf_forever s s' : deaf s -> rtc handshake_step s s' -> deaf s' /\ handed s' = handed s /\
  exists more, queued (queue s') = queued (queue s) ++ more.
Proof.
  intros Hd Hr. induction Hr as [s|s s1 s' H1 Hr IH].
  - split; [done|]. split; [done|]. exists []. by rewrite app_nil_r.
  - destruct (deaf_step s s1 Hd H1) as (Hd1 & Hh1 & m1 & Hm1). destruct (IH Hd1) as (Hd' & Hh' & m' & Hm').
    split; [done|]. split; [congruence|]. exists (m1 ++ m'). by rewrite Hm', Hm1, app_assoc.
Qed.

(** C5: an alert posted while the loop drains is the last one the loop hears of.  As long as
    nothing is posted between the pop and the clearing of the flag, whatever is queued
    has the flag set.  One alert posted in that window leaves, once the flag is cleared, a
    queue that is not empty behind a flag that is down: libtorrent does not call back
    again, and in no continuation is any alert ever handed to the loop: no flush, no
    stamp, no file in the listing. *)
Theorem alert_in_the_window_is_the_last q0 r h0 a :
  (forall s s', quiet_window s -> rtc outside s s' -> quiet_window s') /\
  exists s, rtc handshake_step (Handshake q0 r Popping h0) s /\
    handed s = h0 ++ queued q0 /\ queued (queue s) = [a] /\
    forall s', rtc handshake_step s s' ->
      handed s' = handed s /\ alert_ready s' = false /\ a ∈ queued (queue s').
Proof.
  split.
  { intros s s' Hs Hr. induction Hr as [|s s1 s' H1 Hr IH]; [done|]. apply IH. by eapply outside_keeps. }
  set (q1 := (pop_alerts q0).1). set (q2 := (post_alert q1 a).1).
  assert (queued q2 = [a]) as Hq2 by (unfold q2, q1; by rewrite post_appends, pop_empties).
  exists (Handshake q2 false Elsewhere (h0 ++ queued q0)). split.
  - eapply rtc_l; [apply popped|]. eapply rtc_l; [apply (posted _ _ _ _ a)|].
    eapply rtc_l; [apply drained|]. eapply rtc_l; [apply cleared|]. rewrite pop_answers. apply rtc_refl.
  - split; [done|]. split; [done|]. intros s' Hr.
    destruct (deaf_forever (Handshake q2 false Elsewhere (h0 ++ queued q0)) s') as ((_ & Hf & _) & Hh & m & Hm);
      [by split; [|split; [|cbn; by rewrite Hq2]]|done|].
    split; [done|]. split; [done|]. cbn in Hm. rewrite Hm, Hq2. apply elem_of_app. left. by left.
Qed.
End handshake.

(** ** A queue to run on *)

#[local] Instance list_queue {A} : AlertQueue A :=
  {| alert_queue := list A; queued q := q;
     post_alert q a := (q ++ [a], match q with [] => true | _ => false end);
     pop_alerts q := ([], q) |}.

#[local] Instance list_queue_laws {A} : AlertQueueLaws A.
Proof. by split. Qed.

(** A flush is asked for while the alerts are handled, and reported in the window. *)
Lemma alert_in_the_window_is_the_last_witness :
  exists s : @handshake string _, rtc handshake_step (Handshake (["finished"] : alert_queue) true Popping []) s /\
    handed s = ["finished"] /\ queued (queue s) = ["flushed"] /\
    forall s', rtc handshake_step s s' ->
      handed s' = handed s /\ alert_ready s' = false /\ "flushed" ∈ queued (queue s').
Proof.
  exact (proj2 (alert_in_the_window_is_the_last (["finished"] : @alert_queue string list_queue) true [] "flushed")).
Defined.
