(* ===== verification/Exchange.v ===== *)
(** * The exchange: the reconciliation of the code as merges of replicas

    A replica is what reconciliation sees of a node: its listing and its tombstones
    ([former] and [tombstones] of syncfs.cpp).  [seen] is its knowledge of a path in the
    sense of Replica.v.  The refinement theorems: reading a digest merges the deletions
    it carries; a create, once its file has arrived, merges that file; so every step of a
    fleet that exchanges encoded digests and creates is a step of the specification.  What
    follows: a fleet whose root hashes agree knows what any of its members knew, or two of
    the texts they hashed collide; and one exchange in each direction is enough for two
    nodes to know the same and, but for copies kept beside a record that defeats them, to
    hold the same. *)

From stdpp Require Import sets relations.
From S2P Require Import Prelude OrdMap FsPath Utils Files Reconcile Replica Protocol Source LocalChanges SyncLoop LoopInvariant.

Record replica := Rep { held : file_map; deleted : tombstone_map }.

Definition present (t : option file_time) : knowledge := (fun t => Present (file_to_ticks t)) <$> t.
Definition buried (t : option sys_time) : knowledge := (fun t => Deleted (to_ticks t)) <$> t.

Definition seen (r : replica) (p : path) : knowledge :=
  merge (present (OrdMap.find (held r) p)) (buried (OrdMap.find (deleted r) p)).

(** What both maps are, however they came about. *)
Record wf (r : replica) : Prop := {
  wf_held_sorted : OrdMap.sorted (held r);
  wf_deleted_sorted : OrdMap.sorted (deleted r);
  wf_held : Forall wire_ok (held r);
  wf_deleted : Forall wire_ok (deleted r);
}.

(** ** The two ways a replica learns *)

Definition read_deletions (now : sys_time) (theirs : tombstone_map) (r : replica) : replica :=
  let taken := adoptable theirs (held r) (deleted r) now in
  Rep (foldl (fun m e => OrdMap.erase m e.1) (held r) taken)
      (foldl (fun t e => mark t e.1 e.2) (deleted r) taken).

(** A create of [p] at [t], its file in place; what defeats it leaves it out. *)
Definition take_file (p : path) (t : file_time) (r : replica) : replica :=
  if match OrdMap.find (deleted r) p with Some g => beats g t | None => false end then r
  else
    Rep (if match OrdMap.find (held r) p with
            | Some here => file_to_ticks t <? file_to_ticks here | None => false end
         then held r else OrdMap.insert_or_assign (held r) p t)
        (OrdMap.erase (deleted r) p).

(** The part of a digest's deletions that is not past the time to live. *)
Definition news (now : sys_time) (theirs : tombstone_map) (p : path) : knowledge :=
  match OrdMap.find theirs p with
  | Some at_ => if outlived now at_ then None else Some (Deleted (to_ticks at_))
  | None => None
  end.

(** Case analysis on every comparison of a goal about ticks. *)
Ltac by_ticks :=
  unfold present, buried in *; simpl in *; unfold beats, to_ticks in *; simpl in *; bool_hyps;
  repeat match goal with
  | |- context [?a <? ?b] =>
      lazymatch constr:((a, b)) with context [if _ then _ else _] => fail | _ => destruct (Z.ltb_spec a b); simpl in * end
  | |- context [?a <=? ?b] => destruct (Z.leb_spec a b); simpl in *
  end; try done; try lia; try (do 2 f_equal; lia).

Lemma seen_read_deletions now theirs r p :
  OrdMap.sorted theirs -> OrdMap.sorted (held r) -> OrdMap.sorted (deleted r) ->
  seen (read_deletions now theirs r) p = merge (seen r p) (news now theirs p).
Proof.
  intros Ht Hh Hd. unfold seen, read_deletions, news. cbn [held deleted].
  assert (OrdMap.sorted (adoptable theirs (held r) (deleted r) now)) as Hs by (by apply sorted_adoptable).
  rewrite find_foldl_erase, find_foldl_mark, foldl_record by done.
  rewrite contains_is_some, find_adoptable by done.
  destruct (OrdMap.find theirs p) as [at_|].
  2: { rewrite (right_id_L None merge). by destruct (OrdMap.find (deleted r) p). }
  unfold adopts. destruct (outlived now at_).
  { rewrite (right_id_L None merge). by destruct (OrdMap.find (deleted r) p) as [g|]; [destruct (at_ <=? g)|]. }
  destruct (OrdMap.find (held r) p) as [w|], (OrdMap.find (deleted r) p) as [g|]; by_ticks.
Qed.

Lemma seen_take_file p t r q : OrdMap.sorted (held r) -> OrdMap.sorted (deleted r) ->
  seen (take_file p t r) q =
  merge (seen r q) (if OrdMap.keq p q then Some (Present (file_to_ticks t)) else None).
Proof.
  intros Hh Hd. unfold take_file, seen. destruct (OrdMap.keq p q) eqn:E.
  - pose proof (proj1 (OrdMap.keq_iff p q) E) as Hk.
    rewrite (OrdMap.find_key (deleted r) p q), (OrdMap.find_key (held r) p q) by done.
    destruct (OrdMap.find (deleted r) q) as [g|] eqn:Eg; cbn [held deleted].
    + destruct (beats g t) eqn:Eb; cbn [held deleted].
      * rewrite Eg. destruct (OrdMap.find (held r) q) as [w|]; by_ticks.
      * rewrite OrdMap.find_erase, E by done.
        destruct (OrdMap.find (held r) q) as [w|] eqn:Ew; [destruct (file_to_ticks t <? file_to_ticks w) eqn:El|];
          rewrite ?OrdMap.find_insert, ?E, ?Ew by done; by_ticks.
    + rewrite OrdMap.find_erase, E by done.
      destruct (OrdMap.find (held r) q) as [w|] eqn:Ew; [destruct (file_to_ticks t <? file_to_ticks w) eqn:El|];
        rewrite ?OrdMap.find_insert, ?E, ?Ew by done; by_ticks.
  - rewrite (right_id_L None merge). destruct (match OrdMap.find (deleted r) p with Some _ => _ | None => _ end); [done|].
    cbn [held deleted]. rewrite OrdMap.find_erase, E by done.
    destruct (match OrdMap.find (held r) p with Some _ => _ | None => _ end); [done|].
    by rewrite OrdMap.find_insert, E.
Qed.

(** ** Both keep a replica well formed *)

Lemma Forall_insert_entry {V} (P : path * V -> Prop) m p v :
  Forall P m -> P (p, v) -> (forall e, e ∈ m -> P (e.1, v)) -> Forall P (OrdMap.insert_or_assign m p v).
Proof.
  intros Hm Hp He. induction Hm as [|e m Hpe Hm IH]; cbn [OrdMap.insert_or_assign]; [by repeat (constructor || done)|].
  assert (Forall P (OrdMap.insert_or_assign m p v)) by (apply IH; intros; apply He; by right).
  destruct (OrdMap.kcmp p e.1); constructor; try done; [|by constructor]. apply He. by left.
Qed.

Lemma wire_ok_insert (m : list (path * Z)) p v : Forall wire_ok m -> wire_ok (p, v) ->
  Forall wire_ok (OrdMap.insert_or_assign m p v).
Proof.
  intros Hm Hp. apply Forall_insert_entry; [done..|]. intros e He. rewrite Forall_forall in Hm.
  split; [exact (proj1 (Hm e He))|exact (proj2 Hp)].
Qed.

Lemma wire_ok_mark (m : tombstone_map) p at_ : OrdMap.sorted m -> Forall wire_ok m -> wire_ok (p, at_) ->
  Forall wire_ok (mark m p at_).
Proof.
  intros Hs Hm Hp. unfold mark. destruct (OrdMap.find m p) as [g|] eqn:E.
  - apply wire_ok_insert; [done|]. split; [exact (proj1 Hp)|]. simpl.
    apply OrdMap.find_Some in E as (k & Hin & _). rewrite Forall_forall in Hm.
    destruct (Hm _ Hin) as [_ Hg], Hp as [_ Ha]. simpl in *. unfold is_int64 in *. lia.
  - unfold OrdMap.try_emplace. destruct (OrdMap.contains m p); [done|]. by apply wire_ok_insert.
Qed.

Lemma wire_ok_erase (m : list (path * Z)) p : Forall wire_ok m -> Forall wire_ok (OrdMap.erase m p).
Proof. apply OrdMap.Forall_filter_keep. Qed.

#[local] Hint Resolve wire_ok_insert wire_ok_mark wire_ok_erase : syncfs.

Lemma wf_read_deletions now theirs r : OrdMap.sorted theirs -> Forall wire_ok theirs -> wf r ->
  wf (read_deletions now theirs r).
Proof.
  intros Hs Hw [Hh Hd Hwh Hwd]. unfold read_deletions. cbn zeta.
  assert (Forall wire_ok (adoptable theirs (held r) (deleted r) now)) as Ht.
  { rewrite adoptable_filter by done. by apply OrdMap.Forall_filter_keep. }
  generalize dependent (adoptable theirs (held r) (deleted r) now). intros l Hl.
  generalize dependent (held r). generalize dependent (deleted r).
  induction Hl as [|e l He Hl IH]; intros d Hd Hwd h Hh Hwh; [by split|]. cbn [foldl].
  apply IH; auto with syncfs.
Qed.

Lemma wf_take_file p t r : wire_ok (p, t) -> wf r -> wf (take_file p t r).
Proof.
  intros Hp [Hh Hd Hwh Hwd]. unfold take_file.
  destruct (match OrdMap.find (deleted r) p with Some _ => _ | None => _ end); [by split|].
  destruct (match OrdMap.find (held r) p with Some _ => _ | None => _ end); split; cbn [held deleted]; auto with syncfs.
Qed.

(** ** A fleet *)

(** The nodes, and every message that was ever sent: one may be read late, again, or never. *)
Record fleet := Fleet { nodes : list replica; sent : list wire }.

Definition digest_of_replica (target : string) (r : replica) : wire :=
  digest target (encode_held (held r)) (encode_tombstones (deleted r)).

Definition read_message (now : sys_time) (m : wire) (r : replica) : replica :=
  read_deletions now (decode_tombstones (part m 2)) r.

Definition take_message (m : wire) (r : replica) : replica :=
  take_file (Path (part m 3)) (to_file_time (from_ticks (part m 2))) r.

Inductive exchange : fleet -> fleet -> Prop :=
(** A round addresses a digest at a peer. *)
| asks ns ms i r target :
    ns !! i = Some r -> exchange (Fleet ns ms) (Fleet ns (digest_of_replica target r :: ms))
(** A gap is answered with a create. *)
| repairs_gap ns ms i r p t b :
    ns !! i = Some r -> (p, t) ∈ held r -> exchange (Fleet ns ms) (Fleet ns (announce b t p :: ms))
(** A digest is read, at whatever time it is there. *)
| reads ns ms i r m now :
    ns !! i = Some r -> m ∈ ms -> verb_of (part m 0) = "digest" ->
    exchange (Fleet ns ms) (Fleet (<[i := read_message now m r]> ns) ms)
(** A create is read and its file arrives. *)
| takes ns ms i r m :
    ns !! i = Some r -> m ∈ ms -> verb_of (part m 0) = "create" ->
    exchange (Fleet ns ms) (Fleet (<[i := take_message m r]> ns) ms).

(** A message is one some well-formed replica could send. *)
Definition honest (m : wire) : Prop :=
  (exists target r, wf r /\ m = digest_of_replica target r) \/
  (exists b p t, wire_ok (p, t) /\ m = announce b t p).

Definition fleet_ok (f : fleet) : Prop := Forall wf (nodes f) /\ Forall honest (sent f).

Lemma wf_held_elem r p t : wf r -> (p, t) ∈ held r -> wire_ok (p, t).
Proof. intros [_ _ Hw _] Hin. rewrite Forall_forall in Hw. by apply Hw. Qed.

(** Which digest a message is, and which create. *)
Lemma honest_digest m : honest m -> verb_of (part m 0) = "digest" ->
  exists r, wf r /\ decode_tombstones (part m 2) = deleted r.
Proof.
  intros [(target & r & Hr & ->)|(b & p & t & _ & ->)] Hv; [|discriminate Hv].
  exists r. split; [done|]. apply decode_encode_tombstones; apply Hr.
Qed.

Lemma honest_create m : honest m -> verb_of (part m 0) = "create" ->
  exists b p t, m = announce b t p /\ wire_ok (p, t) /\
    Path (part m 3) = p /\ to_file_time (from_ticks (part m 2)) = t.
Proof.
  intros [(target & r & Hr & ->)|(b & p & t & Hp & ->)] Hv; [discriminate Hv|].
  exists b, p, t. split; [done|]. split; [done|]. split; [by destruct p|]. cbn.
  rewrite from_ticks_to_string by apply file_to_ticks_range. apply to_file_time_to_ticks, Hp.
Qed.

(** What a message tells of a path. *)
Definition tells (m : wire) (p : path) : knowledge :=
  if String.eqb (verb_of (part m 0)) "create" then
    if OrdMap.keq (Path (part m 3)) p then Some (Present (from_ticks (part m 2))) else None
  else buried (OrdMap.find (decode_tombstones (part m 2)) p).

Lemma exchange_ok f f' : fleet_ok f -> exchange f f' -> fleet_ok f'.
Proof.
  intros [Hn Hm] Hstep. rewrite Forall_forall in Hm. destruct Hstep as
    [ns ms i r target Hi|ns ms i r p t b Hi Hp|ns ms i r m now Hi Hin Hv|ns ms i r m Hi Hin Hv];
    cbn [nodes sent] in *; (assert (wf r) as Hr by (by eapply Forall_lookup_1));
    split; cbn [nodes sent]; try done; try (by apply Forall_forall).
  - constructor; [|by apply Forall_forall]. left. by exists target, r.
  - constructor; [|by apply Forall_forall]. right. exists b, p, t. split; [|done]. by eapply wf_held_elem.
  - apply Forall_insert; [done|]. destruct (honest_digest m (Hm m Hin) Hv) as (r' & Hr' & Hd).
    unfold read_message. rewrite Hd. apply wf_read_deletions; [apply Hr'..|done].
  - apply Forall_insert; [done|]. destruct (honest_create m (Hm m Hin) Hv) as (b & p & t & _ & Hp & Hq & Ht).
    unfold take_message. rewrite Hq, Ht. by apply wf_take_file.
Qed.

Lemma exchange_ok_rtc f f' : fleet_ok f -> rtc exchange f f' -> fleet_ok f'.
Proof. intros Hf Hr. induction Hr as [|a b c Hab Hbc IH]; [done|]. apply IH. by eapply exchange_ok. Qed.

(** ** The refinement *)

(** A fleet, as the specification sees it at a path. *)
Definition abstracts (p : path) (f : fleet) (g : gossip) : Prop :=
  knows g = map (fun r => seen r p) (nodes f) /\ forall m, m ∈ sent f -> tells m p ∈ rumours g.

Lemma tells_digest target r p : wf r ->
  tells (digest_of_replica target r) p = buried (OrdMap.find (deleted r) p).
Proof.
  intros Hr. unfold tells. change (verb_of (part (digest_of_replica target r) 0)) with "digest".
  cbn [String.eqb]. change (part (digest_of_replica target r) 2) with (encode_tombstones (deleted r)).
  by rewrite decode_encode_tombstones by apply Hr.
Qed.

Lemma tells_announce b t p q :
  tells (announce b t p) q = if OrdMap.keq p q then Some (Present (file_to_ticks t)) else None.
Proof.
  unfold tells. cbn. rewrite from_ticks_to_string by apply file_to_ticks_range. by destruct p.
Qed.

Lemma seen_read_message now m r p : wf r -> honest m -> verb_of (part m 0) = "digest" ->
  seen (read_message now m r) p = seen r p \/ seen (read_message now m r) p = merge (seen r p) (tells m p).
Proof.
  intros Hr Hm Hv. destruct (honest_digest m Hm Hv) as (r' & Hr' & Hd).
  unfold read_message. rewrite seen_read_deletions by (rewrite ?Hd; apply Hr || apply Hr').
  unfold tells. rewrite Hv. cbn [String.eqb]. unfold news.
  destruct (OrdMap.find (decode_tombstones (part m 2)) p) as [at_|]; [|by left; rewrite (right_id_L None merge)].
  destruct (outlived now at_); [left; by rewrite (right_id_L None merge)|by right].
Qed.

Lemma seen_take_message m r p : wf r -> honest m -> verb_of (part m 0) = "create" ->
  seen (take_message m r) p = merge (seen r p) (tells m p).
Proof.
  intros Hr Hm Hv. destruct (honest_create m Hm Hv) as (b & q & t & -> & Hp & Hq & Ht).
  unfold take_message. rewrite Hq, Ht. rewrite seen_take_file by apply Hr. by rewrite tells_announce.
Qed.

Lemma insert_map {A B} (f : A -> B) (l : list A) i x : map f (<[i := x]> l) = <[i := f x]> (map f l).
Proof. revert i. induction l as [|y l IH]; intros [|i]; simpl; [done..|]. by rewrite IH. Qed.

Lemma exchange_simulates p f f' g : fleet_ok f -> abstracts p f g -> exchange f f' ->
  exists g', rtc gossip_step g g' /\ abstracts p f' g'.
Proof.
  intros [Hn Hm] [Hk Hs] Hstep. rewrite Forall_forall in Hm. destruct g as [l bag].
  destruct Hstep as
    [ns ms i r target Hi|ns ms i r q t b Hi Hp|ns ms i r m now Hi Hin Hv|ns ms i r m Hi Hin Hv];
    cbn [nodes sent knows rumours] in *; (assert (wf r) as Hr by (by eapply Forall_lookup_1));
    (assert (l !! i = Some (seen r p)) as Hl by (by rewrite Hk, list_lookup_fmap, Hi)).
  - exists (Gossip l (tells (digest_of_replica target r) p :: bag)). split.
    + apply rtc_once. eapply says; [exact Hl|]. rewrite tells_digest by done. apply below_merge_r.
    + split; [done|]. intros m [->|Hin]%elem_of_cons; [by left|]. right. by apply Hs.
  - exists (Gossip l (tells (announce b t q) p :: bag)). split.
    + apply rtc_once. eapply says; [exact Hl|]. rewrite tells_announce.
      destruct (OrdMap.keq q p) eqn:E; [|apply below_None]. apply OrdMap.keq_iff in E.
      etrans; [|apply below_merge_l]. rewrite <- (OrdMap.find_key (held r) q p) by done.
      by rewrite (OrdMap.find_elem (held r) q t) by (done || apply Hr).
    + split; [done|]. intros m [->|Hin]%elem_of_cons; [by left|]. right. by apply Hs.
  - destruct (seen_read_message now m r p Hr (Hm m Hin) Hv) as [He|He].
    + exists (Gossip l bag). split; [done|]. split; [|done]. cbn [nodes knows].
      rewrite insert_map, He, <- Hk. by rewrite list_insert_id.
    + exists (Gossip (<[i := merge (seen r p) (tells m p)]> l) bag). split.
      * apply rtc_once. eapply hears; [exact Hl|]. by apply Hs.
      * split; [|done]. cbn [nodes knows]. by rewrite Hk, insert_map, He.
  - exists (Gossip (<[i := merge (seen r p) (tells m p)]> l) bag). split.
    + apply rtc_once. eapply hears; [exact Hl|]. by apply Hs.
    + split; [|done]. cbn [nodes knows]. by rewrite Hk, insert_map, seen_take_message by auto.
Qed.

Lemma exchange_simulates_rtc p f f' g : fleet_ok f -> abstracts p f g -> rtc exchange f f' ->
  exists g', rtc gossip_step g g' /\ abstracts p f' g'.
Proof.
  intros Hf Ha Hr. revert g Ha. induction Hr as [f|f f1 f' Hstep Hr IH]; intros g Ha; [by exists g|].
  destruct (exchange_simulates p f f1 g Hf Ha Hstep) as (g1 & Hg1 & Ha1).
  destruct (IH (exchange_ok _ _ Hf Hstep) g1 Ha1) as (g' & Hg' & Ha').
  exists g'. split; [|done]. by etrans.
Qed.

(** What the whole fleet knows of a path does not change while it only exchanges. *)
Lemma fleet_knowledge ns f p : Forall wf ns -> rtc exchange (Fleet ns []) f ->
  fleet_ok f /\ merge_all (map (fun r => seen r p) (nodes f)) = merge_all (map (fun r => seen r p) ns).
Proof.
  intros Hns Hr. assert (fleet_ok (Fleet ns [])) as Hok by (split; [done|constructor]).
  split; [by eapply exchange_ok_rtc|].
  destruct (exchange_simulates_rtc p (Fleet ns []) f (Gossip (map (fun r => seen r p) ns) []) Hok)
    as (g & Hg & [Hk _]); [|done|].
  - split; [done|]. intros m Hm. by apply elem_of_nil in Hm.
  - rewrite <- Hk. apply (gossip_accounted_rtc _ (Gossip (map (fun r => seen r p) ns) [])); [|done].
    split; [done|]. intros m Hm. by apply elem_of_nil in Hm.
Qed.

(** ** One exchange between two nodes *)

(** The creates a node answers a digest with: its gaps, each under the bytes [torrents]
    has for it. *)
Definition answers (torrents : path -> string) (r : replica) (v : wire) : list wire :=
  omap (fun p => (fun t => announce (torrents p) t p) <$> OrdMap.find (held r) p)
    (gaps (held r) (deleted r) (decode_held (part v 1))).

(** [a] reads the digest of [b] and is read in turn; each takes what the other answers. *)
Definition exchanged (now : sys_time) (torrents : path -> string) (a b : replica) : replica * replica :=
  let a1 := read_message now (digest_of_replica "" b) a in
  let b1 := read_message now (digest_of_replica "" a1) b in
  (foldl (fun r m => take_message m r) a1 (answers torrents b1 (digest_of_replica "" a1)),
   foldl (fun r m => take_message m r) b1 (answers torrents a1 (digest_of_replica "" b))).

(** No record of the replica is past the time to live. *)
Definition fresh (now : sys_time) (r : replica) : Prop :=
  forall p at_, OrdMap.find (deleted r) p = Some at_ -> outlived now at_ = false.

(** The path is not both held and on record as deleted.  A node can break this:
    [local_changes] leaves a file that is back, and no newer than its deletion, where it is. *)
Definition tidy (r : replica) (p : path) : Prop :=
  OrdMap.find (held r) p = None \/ OrdMap.find (deleted r) p = None.

(** The path is held by a file that the record of its deletion defeats. *)
Definition defeated_copy (r : replica) (p : path) (g : sys_time) : Prop :=
  exists t, OrdMap.find (held r) p = Some t /\ OrdMap.find (deleted r) p = Some g /\ beats g t = true.

Lemma digest_decodes target r : wf r ->
  decode_held (part (digest_of_replica target r) 1) = held r /\
  decode_tombstones (part (digest_of_replica target r) 2) = deleted r.
Proof. intros Hr. split; [apply decode_encode_held|apply decode_encode_tombstones]; apply Hr. Qed.

Lemma read_message_digest now target a b : wf b ->
  read_message now (digest_of_replica target b) a = read_deletions now (deleted b) a.
Proof. intros Hb. unfold read_message. by rewrite (proj2 (digest_decodes target b Hb)). Qed.

Lemma elem_of_answers torrents r q p t : wf r -> wf q ->
  OrdMap.find (held r) p = Some t ->
  is_gap (deleted r) (held q) (p, t) = true ->
  exists p', announce (torrents p') t p' ∈ answers torrents r (digest_of_replica "" q) /\ path_image p' = path_image p.
Proof.
  intros Hr Hq Hf Hg. unfold answers. rewrite (proj1 (digest_decodes "" q Hq)).
  pose proof (OrdMap.find_Some _ _ _ Hf) as (p' & Hin & Hk). exists p'. split; [|exact Hk].
  apply list_elem_of_omap. exists p'. split.
  - apply elem_of_gaps. exists t. split; [done|]. revert Hg. unfold is_gap.
    by rewrite (OrdMap.find_key (deleted r) p' p), (OrdMap.find_key (held q) p' p).
  - by rewrite (OrdMap.find_elem (held r) p' t) by (done || apply Hr).
Qed.

Lemma answers_honest torrents r v m : wf r -> m ∈ answers torrents r v ->
  honest m /\ verb_of (part m 0) = "create" /\ forall p, below (tells m p) (present (OrdMap.find (held r) p)).
Proof.
  intros Hr (q & Hq & Ht)%list_elem_of_omap. destruct (OrdMap.find (held r) q) as [t|] eqn:E; [|done].
  injection Ht as <-. apply elem_of_gaps in Hq as (w & Hin & _).
  assert (t = w) as -> by (rewrite (OrdMap.find_elem (held r) q w) in E by (done || apply Hr); congruence).
  split; [right; exists (torrents q), q, w; split; [by eapply wf_held_elem|done]|]. split; [done|].
  intros p. rewrite tells_announce. destruct (OrdMap.keq q p) eqn:Ek; [|apply below_None].
  apply OrdMap.keq_iff in Ek. rewrite <- (OrdMap.find_key (held r) q p Ek), E. by apply below_Some.
Qed.

Lemma seen_take_all ms r p : wf r ->
  (forall m, m ∈ ms -> honest m /\ verb_of (part m 0) = "create") ->
  seen (foldl (fun r m => take_message m r) r ms) p = merge (seen r p) (merge_all (map (fun m => tells m p) ms)) /\
  wf (foldl (fun r m => take_message m r) r ms).
Proof.
  revert r. induction ms as [|m ms IH]; intros r Hr Hms; cbn [foldl map merge_all foldr].
  - by rewrite (right_id_L None merge).
  - destruct (Hms m) as [Hm Hv]; [by left|].
    assert (wf (take_message m r)) as Hr'.
    { destruct (honest_create m Hm Hv) as (b & q & t & _ & Hp & Hq & Ht). unfold take_message.
      rewrite Hq, Ht. by apply wf_take_file. }
    destruct (IH (take_message m r) Hr') as [-> Hw]; [intros; apply Hms; by right|].
    split; [|done]. by rewrite seen_take_message, (assoc_L merge) by done.
Qed.

Lemma seen_take_answers torrents r q taker p : wf r -> wf taker ->
  let told := merge_all (map (fun m => tells m p) (answers torrents r (digest_of_replica "" q))) in
  let after := foldl (fun r m => take_message m r) taker (answers torrents r (digest_of_replica "" q)) in
  seen after p = merge (seen taker p) told /\ wf after /\ below told (seen r p).
Proof.
  intros Hr Ht told after.
  destruct (seen_take_all (answers torrents r (digest_of_replica "" q)) taker p Ht) as [E Hw].
  { intros m Hm. by destruct (answers_honest _ _ _ _ Hr Hm) as (? & ? & _). }
  split; [done|]. split; [done|].
  apply merge_all_lub. intros x (m & <- & Hm)%list_elem_of_In%in_map_iff. apply list_elem_of_In in Hm.
  destruct (answers_honest _ _ _ _ Hr Hm) as (_ & _ & Hp). etrans; [apply Hp|]. apply below_merge_l.
Qed.

(** What a node holds is known to the peer that takes its answers. *)
Lemma answers_cover torrents r q p : wf r -> wf q ->
  below (present (OrdMap.find (held r) p))
    (merge (merge (seen q p) (buried (OrdMap.find (deleted r) p)))
       (merge_all (map (fun m => tells m p) (answers torrents r (digest_of_replica "" q))))).
Proof.
  intros Hr Hq. destruct (OrdMap.find (held r) p) as [t|] eqn:E; [|apply below_None].
  destruct (is_gap (deleted r) (held q) (p, t)) eqn:Eg.
  - destruct (elem_of_answers torrents r q p t Hr Hq E Eg) as (p' & Hin & Hk).
    etrans; [|apply below_merge_r]. apply merge_all_ub. apply list_elem_of_In, in_map_iff.
    exists (announce (torrents p') t p'). split; [|by apply list_elem_of_In].
    rewrite tells_announce. by replace (OrdMap.keq p' p) with true by (symmetry; by apply OrdMap.keq_iff).
  - etrans; [|apply below_merge_l]. unfold is_gap in Eg.
    destruct (match OrdMap.find (deleted r) p with Some g => beats g t | None => false end) eqn:Eb.
    + etrans; [|apply below_merge_r]. destruct (OrdMap.find (deleted r) p) as [g|]; [|done].
      apply below_Some. unfold beats in Eb. bool_hyps. simpl. lia.
    + etrans; [|apply below_merge_l]. unfold seen. etrans; [|apply below_merge_l].
      destruct (OrdMap.find (held q) p) as [w|]; [|done]. bool_hyps. apply below_Some. simpl. lia.
Qed.

Lemma news_fresh now r p : fresh now r -> news now (deleted r) p = buried (OrdMap.find (deleted r) p).
Proof. intros Hf. unfold news. destruct (OrdMap.find (deleted r) p) as [g|] eqn:E; [|done]. by rewrite (Hf p g E). Qed.

Lemma buried_later x y : buried (later x y) = merge (buried x) (buried y).
Proof. destruct x as [x|], y as [y|]; try done. by_ticks. Qed.

(** The records after reading a digest: one's own, and some of its. *)
Lemma find_deleted_read now r b p : wf r -> wf b ->
  OrdMap.find (deleted (read_deletions now (deleted b) r)) p = OrdMap.find (deleted r) p \/
  OrdMap.find (deleted (read_deletions now (deleted b) r)) p =
    later (OrdMap.find (deleted r) p) (OrdMap.find (deleted b) p).
Proof.
  intros Hr Hb. unfold read_deletions. cbn [deleted].
  rewrite find_foldl_mark by apply Hr. rewrite foldl_record by apply sorted_adoptable, Hb.
  rewrite find_adoptable by apply Hb. destruct (OrdMap.find (deleted b) p) as [g|]; [|by left; destruct (OrdMap.find (deleted r) p)].
  destruct (adopts _ _ _ _); [by right|]. left. by destruct (OrdMap.find (deleted r) p).
Qed.

Lemma fresh_read now r b : wf r -> wf b -> fresh now r -> fresh now b ->
  fresh now (read_deletions now (deleted b) r).
Proof.
  intros Hr Hb Hfr Hfb p at_ Hf. destruct (find_deleted_read now r b p Hr Hb) as [He|He];
    rewrite He in Hf; [by eapply Hfr|].
  destruct (OrdMap.find (deleted r) p) as [x|] eqn:E1, (OrdMap.find (deleted b) p) as [y|] eqn:E2; simpl in Hf;
    simplify_eq; [|by eapply Hfr|by eapply Hfb].
  destruct (Z.max_spec x y) as [[_ ->]|[_ ->]]; [by eapply Hfb|by eapply Hfr].
Qed.

Lemma buried_read_below now r b p : wf r -> wf b ->
  below (buried (OrdMap.find (deleted (read_deletions now (deleted b) r)) p))
    (merge (buried (OrdMap.find (deleted r) p)) (seen b p)).
Proof.
  intros Hr Hb. destruct (find_deleted_read now r b p Hr Hb) as [-> | ->]; [apply below_merge_l|].
  rewrite buried_later. apply merge_mono; [done|]. apply below_merge_r.
Qed.

(** What each ends with is no more than the two knew, and no less. *)
Lemma exchanged_knowledge now torrents a b p : wf a -> wf b -> fresh now a -> fresh now b ->
  let '(a2, b2) := exchanged now torrents a b in
  (wf a2 /\ wf b2) /\ seen a2 p = merge (seen a p) (seen b p) /\ seen b2 p = merge (seen a p) (seen b p).
Proof.
  intros Ha Hb Hfa Hfb. unfold exchanged. rewrite (read_message_digest now "" a b Hb).
  set (a1 := read_deletions now (deleted b) a).
  assert (wf a1) as Ha1 by (apply wf_read_deletions; [apply Hb..|done]).
  assert (fresh now a1) as Hf1 by (by apply fresh_read).
  rewrite (read_message_digest now "" b a1 Ha1). set (b1 := read_deletions now (deleted a1) b).
  assert (wf b1) as Hb1 by (apply wf_read_deletions; [apply Ha1..|done]).
  destruct (seen_take_answers torrents b1 a1 a1 p Hb1 Ha1) as (Ea & Hwa & Hua).
  destruct (seen_take_answers torrents a1 b b1 p Ha1 Hb1) as (Eb & Hwb & Hub).
  split; [done|]. rewrite Ea, Eb. apply (exchange_bounds _ _ (present (OrdMap.find (held a1) p))
    (present (OrdMap.find (held b1) p)) (buried (OrdMap.find (deleted a1) p))
    (buried (OrdMap.find (deleted b1) p)) (buried (OrdMap.find (deleted b) p))).
  - done.
  - done.
  - unfold a1. rewrite seen_read_deletions by (apply Ha || apply Hb). by rewrite news_fresh.
  - unfold b1. rewrite seen_read_deletions by (apply Hb || apply Ha1). by rewrite news_fresh.
  - apply below_merge_r.
  - by apply answers_cover.
  - by apply answers_cover.
  - by apply buried_read_below.
  - done.
  - done.
Qed.

(** ** Tidy replicas: what is known is what the maps hold *)

Lemma tidy_read now theirs r p : wf r -> OrdMap.sorted theirs -> tidy r p -> tidy (read_deletions now theirs r) p.
Proof.
  intros Hr Ht Hy. unfold tidy, read_deletions. cbn [held deleted].
  rewrite find_foldl_erase by apply Hr. rewrite find_foldl_mark by apply Hr.
  rewrite foldl_record by by apply sorted_adoptable. rewrite contains_is_some.
  destruct (OrdMap.find (adoptable theirs (held r) (deleted r) now) p); [by left|].
  destruct Hy as [-> | ->]; [by left|by right].
Qed.

Lemma tidy_take p t r q : wf r -> tidy r q -> tidy (take_file p t r) q.
Proof.
  intros Hr Hy. unfold tidy, take_file.
  destruct (match OrdMap.find (deleted r) p with Some _ => _ | None => _ end); [done|].
  cbn [held deleted]. rewrite OrdMap.find_erase by apply Hr. destruct (OrdMap.keq p q) eqn:E; [by right|].
  destruct (match OrdMap.find (held r) p with Some _ => _ | None => _ end); [done|].
  by rewrite OrdMap.find_insert, E by apply Hr.
Qed.

(** What every create that is taken keeps. *)
Lemma take_all_keeps (P : replica -> Prop) ms r :
  (forall m r, wf r -> P r -> m ∈ ms -> P (take_message m r)) ->
  (forall m, m ∈ ms -> honest m /\ verb_of (part m 0) = "create") ->
  wf r -> P r -> P (foldl (fun r m => take_message m r) r ms).
Proof.
  revert r. induction ms as [|m ms IH]; intros r Hk Hms Hr Hp; [done|]. cbn [foldl].
  destruct (Hms m) as [Hm Hv]; [by left|].
  destruct (honest_create m Hm Hv) as (b & q & t & _ & Hq' & Hq & Ht).
  apply IH; [intros; apply Hk; [done..|by right]|intros; apply Hms; by right| |apply Hk; [done..|by left]].
  unfold take_message. rewrite Hq, Ht. by apply wf_take_file.
Qed.

Lemma tidy_take_answers torrents q v taker p : wf q -> wf taker -> tidy taker p ->
  tidy (foldl (fun r m => take_message m r) taker (answers torrents q v)) p.
Proof.
  intros Hq. apply (take_all_keeps (fun r => tidy r p)).
  - intros m r Hr Hy Hm. by apply tidy_take.
  - intros m Hm. by destruct (answers_honest _ _ _ _ Hq Hm) as (? & ? & _).
Qed.

Lemma exchanged_tidy now torrents a b p : wf a -> wf b -> tidy a p -> tidy b p ->
  tidy (exchanged now torrents a b).1 p /\ tidy (exchanged now torrents a b).2 p.
Proof.
  intros Ha Hb Hya Hyb. unfold exchanged. cbn [fst snd]. rewrite (read_message_digest now "" a b Hb).
  assert (wf (read_deletions now (deleted b) a)) as Ha1 by (apply wf_read_deletions; [apply Hb..|done]).
  rewrite (read_message_digest now "" b _ Ha1).
  assert (wf (read_deletions now (deleted (read_deletions now (deleted b) a)) b)) as Hb1
    by (apply wf_read_deletions; [apply Ha1..|done]).
  split; apply tidy_take_answers; try done; apply tidy_read; (done || apply Hb || apply Ha1).
Qed.

(** ** A copy its own record defeats *)

(** Nothing that is known of [p] elsewhere is later than the deletion at [g]. *)
Lemma defeated_read now theirs r p g : wf r -> OrdMap.sorted theirs ->
  below (buried (OrdMap.find theirs p)) (Some (Deleted (to_ticks g))) ->
  OrdMap.find (deleted r) p = Some g ->
  OrdMap.find (held (read_deletions now theirs r)) p = OrdMap.find (held r) p /\
  OrdMap.find (deleted (read_deletions now theirs r)) p = Some g.
Proof.
  intros Hr Ht Hb Hg. unfold read_deletions. cbn [held deleted].
  rewrite find_foldl_erase, find_foldl_mark by apply Hr.
  rewrite foldl_record by by apply sorted_adoptable. rewrite contains_is_some.
  rewrite find_adoptable by done. destruct (OrdMap.find theirs p) as [at_|]; [|by rewrite Hg].
  unfold adopts. rewrite Hg. apply below_Some in Hb. unfold to_ticks in Hb. cbn [rank] in Hb.
  by rewrite (proj2 (Z.leb_le at_ g)) by lia.
Qed.

Lemma defeated_take m r p g : wf r -> honest m -> verb_of (part m 0) = "create" ->
  below (tells m p) (Some (Deleted (to_ticks g))) -> OrdMap.find (deleted r) p = Some g ->
  OrdMap.find (held (take_message m r)) p = OrdMap.find (held r) p /\
  OrdMap.find (deleted (take_message m r)) p = Some g.
Proof.
  intros Hr Hm Hv Hb Hg. destruct (honest_create m Hm Hv) as (b & q & t & -> & _ & Hq & Ht).
  rewrite tells_announce in Hb. unfold take_message. rewrite Hq, Ht. unfold take_file.
  destruct (OrdMap.keq q p) eqn:E.
  - apply OrdMap.keq_iff in E. rewrite (OrdMap.find_key (deleted r) q p), Hg by done.
    apply below_Some in Hb. unfold to_ticks in Hb. cbn [rank] in Hb. unfold beats, to_ticks.
    by rewrite (proj2 (Z.ltb_lt (file_to_ticks t) g)) by lia.
  - destruct (match OrdMap.find (deleted r) q with Some _ => _ | None => _ end); [done|]. cbn [held deleted].
    rewrite OrdMap.find_erase, E by apply Hr.
    destruct (match OrdMap.find (held r) q with Some _ => _ | None => _ end); [done|].
    by rewrite OrdMap.find_insert, E by apply Hr.
Qed.

Lemma defeated_take_answers torrents q v taker p g : wf q -> wf taker ->
  below (seen q p) (Some (Deleted (to_ticks g))) -> OrdMap.find (deleted taker) p = Some g ->
  let after := foldl (fun r m => take_message m r) taker (answers torrents q v) in
  OrdMap.find (held after) p = OrdMap.find (held taker) p /\ OrdMap.find (deleted after) p = Some g.
Proof.
  intros Hq Ht Hb Hg after. unfold after.
  apply (take_all_keeps (fun r => OrdMap.find (held r) p = OrdMap.find (held taker) p /\
    OrdMap.find (deleted r) p = Some g)); [|intros m Hm; by destruct (answers_honest _ _ _ _ Hq Hm) as (? & ? & _)|done..].
  intros m r Hr [Hh Hd] Hm. destruct (answers_honest _ _ _ _ Hq Hm) as (Ho & Hv & Hp). rewrite <- Hh.
  apply defeated_take; [done..| |done]. etrans; [apply Hp|]. etrans; [|exact Hb]. apply below_merge_l.
Qed.

Lemma answers_skip_defeated torrents r v m p g : wf r -> defeated_copy r p g ->
  m ∈ answers torrents r v -> tells m p = None.
Proof.
  intros Hr (t & Ht & Hg & Hb) (q & Hq & Hm)%list_elem_of_omap.
  destruct (OrdMap.find (held r) q) as [w|] eqn:Ew; [|done]. injection Hm as <-. rewrite tells_announce.
  destruct (OrdMap.keq q p) eqn:E; [|done]. apply OrdMap.keq_iff in E. exfalso.
  apply elem_of_gaps in Hq as (x & Hin & Hgap). rewrite (OrdMap.find_elem (held r) q x) in Ew by (done || apply Hr).
  rewrite <- (OrdMap.find_key (held r) q p E), (OrdMap.find_elem (held r) q x) in Ht by (done || apply Hr).
  unfold is_gap in Hgap. rewrite (OrdMap.find_key (deleted r) q p E), Hg in Hgap. by simplify_eq; rewrite Hb in Hgap.
Qed.

(** A tidy peer that knows nothing later reads the deletion and has no copy left. *)
Lemma defeated_spreads now theirs b p g : wf b -> OrdMap.sorted theirs -> tidy b p ->
  below (seen b p) (Some (Deleted (to_ticks g))) ->
  OrdMap.find theirs p = Some g -> outlived now g = false ->
  OrdMap.find (held (read_deletions now theirs b)) p = None.
Proof.
  intros Hb Ht Hy Hk Hg Ho. unfold read_deletions. cbn [held].
  rewrite find_foldl_erase, contains_is_some, find_adoptable, Hg by (done || apply Hb).
  unfold adopts. rewrite Ho. unfold seen in Hk. destruct (OrdMap.find (held b) p) as [t|] eqn:Eh; [|by destruct (match OrdMap.find (deleted b) p with Some _ => _ | None => _ end)].
  destruct Hy as [Hy|Hy]; [congruence|]. rewrite Hy in *. cbn [present buried fmap option_fmap option_map] in Hk.
  rewrite (right_id_L None merge) in Hk. apply below_Some in Hk. unfold to_ticks in Hk. cbn [rank] in Hk.
  unfold beats, to_ticks. by rewrite (proj2 (Z.ltb_lt (file_to_ticks t) g)) by lia.
Qed.

Lemma untaken_answers torrents q v taker p g : wf q -> wf taker -> defeated_copy q p g ->
  OrdMap.find (held taker) p = None ->
  OrdMap.find (held (foldl (fun r m => take_message m r) taker (answers torrents q v))) p = None.
Proof.
  intros Hq Ht Hc. apply (take_all_keeps (fun r => OrdMap.find (held r) p = None)); [| |done].
  - intros m r Hr Hn Hm. pose proof (answers_skip_defeated _ _ _ _ _ _ Hq Hc Hm) as Htell.
    destruct (answers_honest _ _ _ _ Hq Hm) as (Ho & Hv & _).
    destruct (honest_create m Ho Hv) as (b & p' & t & -> & _ & Hp' & Ht'). rewrite tells_announce in Htell.
    destruct (OrdMap.keq p' p) eqn:E; [done|]. unfold take_message. rewrite Hp', Ht'. unfold take_file.
    destruct (match OrdMap.find (deleted r) p' with Some _ => _ | None => _ end); [done|]. cbn [held].
    destruct (match OrdMap.find (held r) p' with Some _ => _ | None => _ end); [done|].
    by rewrite OrdMap.find_insert, E by apply Hr.
  - intros m Hm. by destruct (answers_honest _ _ _ _ Hq Hm) as (? & ? & _).
Qed.

Lemma exchanged_defeated now torrents a b p g : wf a -> wf b -> fresh now a ->
  defeated_copy a p g -> tidy b p -> below (seen b p) (Some (Deleted (to_ticks g))) ->
  OrdMap.find (held (exchanged now torrents a b).1) p = OrdMap.find (held a) p /\
  OrdMap.find (held (exchanged now torrents a b).2) p = None.
Proof.
  intros Ha Hb Hfa (t & Ht & Hg & Hbt) Hy Hk. unfold exchanged. cbn [fst snd]. rewrite (read_message_digest now "" a b Hb).
  assert (wf (read_deletions now (deleted b) a)) as Ha1 by (apply wf_read_deletions; [apply Hb..|done]).
  rewrite (read_message_digest now "" b _ Ha1).
  destruct (defeated_read now (deleted b) a p g Ha ltac:(apply Hb)) as [Hh1 Hg1]; [|done|].
  { etrans; [|exact Hk]. apply below_merge_r. }
  set (a1 := read_deletions now (deleted b) a) in *.
  assert (wf (read_deletions now (deleted a1) b)) as Hb1 by (apply wf_read_deletions; [apply Ha1..|done]).
  split.
  - rewrite <- Hh1. apply (defeated_take_answers _ _ _ a1 p g); [done..| |done].
    rewrite seen_read_deletions by (apply Ha1 || apply Hb). apply merge_lub; [done|].
    unfold news. rewrite Hg1. destruct (outlived now g); [apply below_None|done].
  - apply (untaken_answers _ _ _ _ p g); [done..| |].
    + exists t. by rewrite Hh1.
    + apply (defeated_spreads now (deleted a1) b p g); [done|apply Ha1|done..|]. by eapply Hfa.
Qed.

Lemma file_to_ticks_inj t1 t2 : is_int64 t1 -> is_int64 t2 -> file_to_ticks t1 = file_to_ticks t2 -> t1 = t2.
Proof. intros H1 H2 He. by rewrite <- (to_file_time_to_ticks t1), He, to_file_time_to_ticks. Qed.

Lemma wf_find_held r p t : wf r -> OrdMap.find (held r) p = Some t -> is_int64 t.
Proof. intros Hr (k & Hin & _)%OrdMap.find_Some. by destruct (wf_held_elem r k t Hr Hin). Qed.

(** Tidy replicas that know the same hold the same. *)
Lemma tidy_seen r1 r2 p : wf r1 -> wf r2 -> tidy r1 p -> tidy r2 p -> seen r1 p = seen r2 p ->
  OrdMap.find (held r1) p = OrdMap.find (held r2) p /\ OrdMap.find (deleted r1) p = OrdMap.find (deleted r2) p.
Proof.
  intros H1 H2 T1 T2. unfold seen, tidy in *.
  pose proof (wf_find_held r1 p) as W1. pose proof (wf_find_held r2 p) as W2.
  destruct (OrdMap.find (held r1) p) as [t1|], (OrdMap.find (deleted r1) p) as [g1|];
    destruct (OrdMap.find (held r2) p) as [t2|], (OrdMap.find (deleted r2) p) as [g2|];
    try (by destruct T1); try (by destruct T2); simpl; intros Hs; simplify_eq; try done.
  split; [|done]. f_equal. apply file_to_ticks_inj; auto.
Qed.

(** ** Properties *)

(** C1: what one exchange in each direction comes to.  The first of two nodes, neither
    with a record past the time to live, reads the other's digest, the other then reads
    the first's, and each takes the creates the other answers with.  Of every path both
    then know the later of what the two knew.  Where neither held a path beside a record of
    its deletion they end with the same file, by origin time, and the same record.  Where
    the first keeps a copy that its own record defeats and the peer knows nothing later,
    the exchange does not repair it: the copy stays, and the peer has none. *)
Theorem exchange_converges now torrents a b p :
  wf a -> wf b -> fresh now a -> fresh now b ->
  let '(a2, b2) := exchanged now torrents a b in
  (seen a2 p = merge (seen a p) (seen b p) /\ seen b2 p = merge (seen a p) (seen b p)) /\
  (tidy a p -> tidy b p ->
   OrdMap.find (held a2) p = OrdMap.find (held b2) p /\ OrdMap.find (deleted a2) p = OrdMap.find (deleted b2) p) /\
  (forall g, defeated_copy a p g -> tidy b p -> below (seen b p) (Some (Deleted (to_ticks g))) ->
   OrdMap.find (held a2) p = OrdMap.find (held a) p /\ OrdMap.find (held b2) p = None).
Proof.
  intros Ha Hb Hfa Hfb. pose proof (exchanged_tidy now torrents a b p Ha Hb) as Ht.
  pose proof (fun g => exchanged_defeated now torrents a b p g Ha Hb Hfa) as Hd.
  pose proof (exchanged_knowledge now torrents a b p Ha Hb Hfa Hfb) as Hk.
  destruct (exchanged now torrents a b) as [a2 b2]. destruct Hk as ([W1 W2] & S1 & S2). cbn [fst snd] in *.
  split; [done|]. split; [|exact Hd]. intros Hya Hyb. destruct (Ht Hya Hyb) as [T1 T2].
  apply tidy_seen; [done..|congruence].
Qed.

(** C2: agreement is complete.  However a fleet's digests and creates were delayed,
    repeated, reordered or lost: once all its root hashes agree, every node knows of
    every path exactly the latest that any node knew at the start, nothing lost and
    nothing invented, unless SHA-256 collides on what two of the nodes hashed. *)
Theorem agreement_is_complete `{Hasher256} ns f :
  Forall wf ns -> rtc exchange (Fleet ns []) f ->
  (forall r1 r2, r1 ∈ nodes f -> r2 ∈ nodes f -> hash (held r1) (deleted r1) = hash (held r2) (deleted r2)) ->
  (exists r1 r2, r1 ∈ nodes f /\ r2 ∈ nodes f /\ roots_collide (held r1) (deleted r1) (held r2) (deleted r2)) \/
  forall r p, r ∈ nodes f -> seen r p = merge_all (map (fun r => seen r p) ns).
Proof.
  intros Hns Hr Hagree. destruct (nodes f) as [|r0 rest] eqn:En; [by right; intros r p ?%elem_of_nil|].
  destruct (fleet_knowledge ns f (Path "") Hns Hr) as [[Hwf _] _]. rewrite En in Hwf.
  assert ((exists r1 r2, r1 ∈ r0 :: rest /\ r2 ∈ r0 :: rest /\ roots_collide (held r1) (deleted r1) (held r2) (deleted r2)) \/
    forall r, r ∈ r0 :: rest -> r = r0) as [|Hsame]; [|by left|].
  { clear En Hr. rewrite Forall_forall in Hwf. induction rest as [|r1 rest IH].
    - right. intros r Hin. by apply list_elem_of_singleton in Hin.
    - assert (r0 ∈ r0 :: r1 :: rest) as I0 by by left.
      assert (r1 ∈ r0 :: r1 :: rest) as I1 by (right; by left).
      destruct IH as [(x & y & Hx & Hy & Hc)|IH]; [intros; apply Hagree; set_solver|intros; apply Hwf; set_solver|
        left; exists x, y; set_solver|].
      destruct (Hwf _ I0) as [? ? ? ?], (Hwf _ I1) as [? ? ? ?].
      destruct (hash_agrees (held r1) (deleted r1) (held r0) (deleted r0)) as [[E1 E2]|Hc]; auto;
        [|left; by exists r1, r0].
      right. intros r. rewrite !elem_of_cons. intros [-> | [-> | Hin]]; [done| |apply IH; by right].
      destruct r0, r1. simpl in *. by subst. }
  right. intros r p Hin. destruct (fleet_knowledge ns f p Hns Hr) as [_ <-]. rewrite En. symmetry.
  apply merge_all_const; [done|]. intros y (r' & <- & Hin')%list_elem_of_In%in_map_iff.
  apply list_elem_of_In in Hin'. by rewrite (Hsame r Hin), (Hsame r' Hin').
Qed.

(** ** The theorems at concrete inputs *)

Definition wfb (r : replica) : bool :=
  OrdMap.sortedb (held r) && OrdMap.sortedb (deleted r) && forallb (fun e => negb (has_char NUL (native e.1)) &&
    (int64_min <=? e.2) && (e.2 <=? int64_max)) (held r ++ deleted r).

Lemma wf_by_test r : wfb r = true -> wf r.
Proof.
  unfold wfb. rewrite forallb_app. intros H. bool_hyps.
  assert (forall m : list (path * Z), forallb (fun e => negb (has_char NUL (native e.1)) &&
    (int64_min <=? e.2) && (e.2 <=? int64_max)) m = true -> Forall wire_ok m) as Hw.
  { intros m Hm. rewrite forallb_forall in Hm. apply Forall_forall. intros e He.
    specialize (Hm e (proj1 (list_elem_of_In _ _) He)). bool_hyps. by split. }
  split; auto; by apply sorted_by_test.
Qed.

Lemma fresh_by_test now r : OrdMap.sorted (deleted r) ->
  forallb (fun e : path * Z => negb (outlived now e.2)) (deleted r) = true -> fresh now r.
Proof.
  intros Hs Ht p at_ (k & Hin & _)%OrdMap.find_Some. rewrite forallb_forall in Ht.
  specialize (Ht _ (proj1 (list_elem_of_In _ _) Hin)). by bool_hyps.
Qed.

(** Each has a file the other lacks, and a deletion of something older; the first kept a
    copy of "v" that it knows was deleted since. *)
Definition here : replica :=
  Rep [(Path "./v", 1); (Path "./x", 5); (Path "./z", 2)] [(Path "./v", file_to_ticks 2); (Path "./y", file_to_ticks 9)].
Definition there : replica := Rep [(Path "./w", 1); (Path "./y", 4); (Path "./z", 3)] [].

Lemma exchange_converges_witness :
  let '(a2, b2) := exchanged 10 native here there in
  (OrdMap.find (held a2) (Path "./y") = OrdMap.find (held b2) (Path "./y") /\
   OrdMap.find (deleted a2) (Path "./y") = OrdMap.find (deleted b2) (Path "./y")) /\
  OrdMap.find (held a2) (Path "./v") = Some 1 /\ OrdMap.find (held b2) (Path "./v") = None.
Proof.
  assert (fresh 10 here) as Hf1 by (by apply fresh_by_test; [apply sorted_by_test|]).
  assert (fresh 10 there) as Hf2 by (by apply fresh_by_test; [apply sorted_by_test|]).
  pose proof (exchange_converges 10 native here there (Path "./y") ltac:(by apply wf_by_test) ltac:(by apply wf_by_test) Hf1 Hf2) as Hy.
  pose proof (exchange_converges 10 native here there (Path "./v") ltac:(by apply wf_by_test) ltac:(by apply wf_by_test) Hf1 Hf2) as Hv.
  destruct (exchanged 10 native here there) as [a2 b2]. destruct Hy as (_ & Hy & _), Hv as (_ & _ & Hv).
  split; [apply Hy; [by left|by right]|].
  apply (Hv (file_to_ticks 2)); [by exists 1|by left|apply below_None].
Defined.

Example exchanged_files :
  exchanged 10 native here there =
  let records := [(Path "./v", file_to_ticks 2); (Path "./y", file_to_ticks 9)] in
  let both := [(Path "./w", 1); (Path "./x", 5); (Path "./z", 3)] in
  (Rep ((Path "./v", 1) :: both) records, Rep both records).
Proof. vm_compute. reflexivity. Qed.

(** A fleet in which the first node's file reaches the second, twice. *)
Definition two_nodes : list replica := [Rep [(Path "./x", 5)] []; Rep [] []].

Lemma agreement_is_complete_witness :
  exists f, rtc exchange (Fleet two_nodes []) f /\ nodes f = [Rep [(Path "./x", 5)] []; Rep [(Path "./x", 5)] []] /\
  ((exists r1 r2, r1 ∈ nodes f /\ r2 ∈ nodes f /\
      @roots_collide prefix_hasher (held r1) (deleted r1) (held r2) (deleted r2)) \/
   forall r p, r ∈ nodes f -> seen r p = merge_all (map (fun r => seen r p) two_nodes)).
Proof.
  set (m := announce "" 5 (Path "./x")).
  assert (rtc exchange (Fleet two_nodes [])
    (Fleet [Rep [(Path "./x", 5)] []; Rep [(Path "./x", 5)] []] [m])) as Hr.
  { eapply rtc_l; [apply (repairs_gap two_nodes [] 0 (Rep [(Path "./x", 5)] []) (Path "./x") 5 ""); [done|by left]|].
    eapply rtc_l; [apply (takes two_nodes [m] 1 (Rep [] []) m); [done|by left|done]|].
    eapply rtc_l; [|apply rtc_refl].
    apply (takes [Rep [(Path "./x", 5)] []; Rep [(Path "./x", 5)] []] [m] 1 (Rep [(Path "./x", 5)] []) m);
      [done|by left|done]. }
  eexists. split; [exact Hr|]. split; [done|].
  apply (@agreement_is_complete prefix_hasher two_nodes _).
  - repeat (constructor; [by apply wf_by_test|]). constructor.
  - exact Hr.
  - intros r1 r2 H1 H2. cbn [nodes] in *. rewrite !elem_of_cons, elem_of_nil in H1, H2.
    by destruct H1 as [-> | [-> | []]], H2 as [-> | [-> | []]].
Defined.
