(* ===== verification/Arrival.v ===== *)
(** * Arrival: from a message to the replica

    What a digest and a create do to a node, as merges of its replica.  A digest takes
    effect as it is read.  A create that is taken adds a torrent; its file is in the
    listing, under its time of origin, once libtorrent has written it and said that its
    cache is flushed; or at once, when the content was there already.  The paths in
    between, from the announced one to the save path and back to the listing's key, are
    followed by the algebra of the components. *)

From stdpp Require Import sets.
From S2P Require Import Prelude OrdMap FsPath Utils Files Reconcile Replica Protocol Source LocalChanges SyncLoop LoopInvariant Exchange.

Section arrival.
Context `{Torrents} `{!Session} `{Disk}.

Definition replica_of (n : node) : replica := Rep (n_former n) (graves (n_world n)).

Lemma digest_read_deletions v n sys_now steady_now n' :
  OrdMap.sorted (n_former n) ->
  read_digest v n sys_now steady_now = Some n' ->
  replica_of n' = read_message sys_now v (replica_of n).
Proof.
  intros Hs. unfold read_digest, adopt.
  destruct (foldl adopt_one _ _) as [a|] eqn:E; [|done]. intros [= <-].
  apply adopt_fold in E as (Ef & Em & _); [|apply sorted_adoptable, sorted_decode_tombstones|done].
  unfold replica_of, read_message, read_deletions. cbn in *. by rewrite Ef, Em.
Qed.

(** C4: reading a digest merges its deletions, at every path.  [told] is the record the
    digest carries of the path, unless it is past the time to live.  The node then knows the
    later of that and of what it knew.  When that is the deletion, its copy is gone from the
    listing and the deletion on record at its very time; when it is not, listing and
    record of the path are untouched. *)
Theorem digest_read_refines v n sys_now steady_now n' p :
  OrdMap.sorted (n_former n) -> OrdMap.sorted (graves (n_world n)) ->
  read_digest v n sys_now steady_now = Some n' ->
  let told := match OrdMap.find (decode_tombstones (part v 2)) p with
              | Some at_ => if outlived sys_now at_ then None else Some (Deleted at_)
              | None => None
              end in
  seen (replica_of n') p = merge (seen (replica_of n) p) told /\
  (forall at_, told = Some (Deleted at_) -> ~ below told (seen (replica_of n) p) ->
     OrdMap.find (n_former n') p = None /\ OrdMap.find (graves (n_world n')) p = Some at_) /\
  (below told (seen (replica_of n) p) ->
     OrdMap.find (n_former n') p = OrdMap.find (n_former n) p /\
     OrdMap.find (graves (n_world n')) p = OrdMap.find (graves (n_world n)) p).
Proof.
  intros Hf Hg Hread. apply digest_read_deletions in Hread; [|done]. unfold read_message in Hread.
  set (theirs := decode_tombstones (part v 2)) in *. intros told.
  assert (OrdMap.sorted theirs) as Ht by apply sorted_decode_tombstones. split.
  { rewrite Hread. by rewrite seen_read_deletions. }
  unfold read_deletions in Hread. cbn [replica_of held deleted] in Hread. injection Hread as Eh Ed.
  assert (OrdMap.find (n_former n') p = if is_Some_dec (OrdMap.find (adoptable theirs (n_former n) (graves (n_world n)) sys_now) p)
    then None else OrdMap.find (n_former n) p) as Eh'.
  { rewrite Eh, find_foldl_erase, contains_is_some by done. by destruct (OrdMap.find (adoptable _ _ _ _) p). }
  assert (OrdMap.find (graves (n_world n')) p = later (OrdMap.find (graves (n_world n)) p)
    (OrdMap.find (adoptable theirs (n_former n) (graves (n_world n)) sys_now) p)) as Ed'.
  { rewrite Ed, find_foldl_mark, foldl_record by (done || by apply sorted_adoptable). done. }
  rewrite Eh', Ed', find_adoptable by done. clear Eh' Ed' Eh Ed. unfold told, adopts. clear told.
  destruct (OrdMap.find theirs p) as [at_|].
  2: { split; [done|]. intros _. by destruct (OrdMap.find (graves (n_world n)) p). }
  destruct (outlived sys_now at_).
  { split; [done|]. intros _. destruct (OrdMap.find (graves (n_world n)) p) as [g|]; [by destruct (at_ <=? g)|done]. }
  unfold seen. cbn [replica_of held deleted].
  destruct (OrdMap.find (n_former n) p) as [w|], (OrdMap.find (graves (n_world n)) p) as [g|];
    cbn [present buried fmap option_fmap option_map merge].
  all: split; [intros a [= <-] Hb|intros Hb]; rewrite ?below_Some in Hb; by_ticks.
  all: repeat match goal with H : context [?x <? ?y] |- _ => destruct (Z.ltb_spec x y); simpl in H end.
  all: try (exfalso; lia); (split; [done|f_equal; lia]).
Qed.

(** libtorrent has written into the disk, and its flush is reported. *)
Definition flushed (d : disk) (h : handle) (at_ : file_time) (n : node) : node :=
  on_alert (Node (World (ses (n_world n)) d (graves (n_world n))) (n_former n) (n_inbound n)
    (n_repairs n) (n_peers n)) (CacheFlushed h at_).

(** The time the file has on the disk is replaced by the one it was announced under. *)
Lemma stamped `{!DiskLaws} inbound former d p p' t written_by wt :
  OrdMap.sorted (origins inbound) -> path_image p' = path_image p ->
  OrdMap.find (origins inbound) p = Some t ->
  last_write_time d p' = Some wt -> wt <= written_by ->
  (stamp_and_remember inbound former d p' written_by).1.2 = OrdMap.insert_or_assign former p' t.
Proof.
  intros Hs Hk Ho Hw Hle. unfold stamp_and_remember. rewrite Hw.
  replace (written_by <? wt) with false by (symmetry; by apply Z.ltb_ge).
  rewrite (OrdMap.find_key (origins inbound) p' p), Ho by done.
  rewrite (time_set d p' t p') by (by rewrite Hw). unfold same_place. by rewrite keq_native_refl.
Qed.

Lemma flushed_former `{!DiskLaws} d h at_ n st p p' t wt :
  OrdMap.sorted (origins (n_inbound n)) -> path_image p' = path_image p ->
  OrdMap.find (origins (n_inbound n)) p = Some t ->
  listed_as (ses (n_world n)) h = Some st -> held_path d st = Some p' ->
  last_write_time d p' = Some wt -> wt <= at_ ->
  replica_of (flushed d h at_ n) = Rep (OrdMap.insert_or_assign (n_former n) p' t) (graves (n_world n)).
Proof.
  intros Hs Hk Ho Hl Hp Hw Hle. unfold flushed, on_alert. cbn [n_world ses dsk n_inbound n_former]. rewrite Hl, Hp.
  pose proof (stamped (n_inbound n) (n_former n) d p p' t at_ wt Hs Hk Ho Hw Hle) as Hst.
  destruct (stamp_and_remember _ _ _ _ _) as [[inb fo] d2]. simpl in Hst. by subst.
Qed.

(** A file put into the listing under a path, whichever way it is spelled. *)
Lemma seen_arrived p p' t r q : OrdMap.sorted (held r) -> OrdMap.sorted (deleted r) -> path_image p' = path_image p ->
  match OrdMap.find (deleted r) p with Some g => beats g t = false | None => True end ->
  match OrdMap.find (held r) p with Some here => file_to_ticks here <= file_to_ticks t | None => True end ->
  seen (Rep (OrdMap.insert_or_assign (held r) p' t)
         (match OrdMap.find (deleted r) p with Some _ => OrdMap.erase (deleted r) p | None => deleted r end)) q =
  seen (take_file p t r) q.
Proof.
  intros Hh Hd Hk Hg Ht. unfold take_file.
  replace (match OrdMap.find (deleted r) p with Some g => beats g t | None => false end) with false
    by (by destruct (OrdMap.find (deleted r) p)).
  replace (match OrdMap.find (held r) p with Some here => file_to_ticks t <? file_to_ticks here | None => false end)
    with false by (destruct (OrdMap.find (held r) p); [symmetry; by apply Z.ltb_ge|done]).
  unfold seen. cbn [held deleted]. rewrite !OrdMap.find_insert, OrdMap.find_erase by done.
  replace (OrdMap.keq p' q) with (OrdMap.keq p q)
    by (apply eq_true_iff_eq; rewrite !OrdMap.keq_iff; cbn; by rewrite Hk).
  f_equal. destruct (OrdMap.find (deleted r) p) as [g|] eqn:E; [by rewrite OrdMap.find_erase|].
  destruct (OrdMap.keq p q) eqn:Eq; [|done]. apply OrdMap.keq_iff in Eq.
  by rewrite <- (OrdMap.find_key (deleted r) p q), E.
Qed.

Lemma wins_not_older known p t c here : wins known p t c (Some here) = true ->
  file_to_ticks here <= file_to_ticks t.
Proof.
  unfold wins. destruct (Z.eqb_spec (file_to_ticks t) (file_to_ticks here)); simpl; [lia|].
  intros ?%Z.ltb_lt. lia.
Qed.

Lemma not_wins_not_newer known p t c here : wins known p t c (Some here) = false ->
  file_to_ticks t <= file_to_ticks here.
Proof.
  unfold wins. destruct (Z.eqb_spec (file_to_ticks t) (file_to_ticks here)); simpl; [lia|].
  intros ?%Z.ltb_ge. lia.
Qed.

(** A create that is not taken, as the replica sees it: what defeats it was there. *)
Lemma seen_not_taken known p t c r q : OrdMap.sorted (held r) -> OrdMap.sorted (deleted r) ->
  match OrdMap.find (deleted r) p with Some g => beats g t = false | None => True end ->
  wins known p t c (OrdMap.find (held r) p) = false ->
  seen (Rep (held r)
         (match OrdMap.find (deleted r) p with Some _ => OrdMap.erase (deleted r) p | None => deleted r end)) q =
  seen (take_file p t r) q.
Proof.
  intros Hh Hd Hg Hw. rewrite seen_take_file by done. unfold seen. cbn [held deleted].
  destruct (OrdMap.find (held r) p) as [here|] eqn:Eh; [|done]. apply not_wins_not_newer in Hw.
  destruct (OrdMap.keq p q) eqn:Eq.
  - pose proof (proj1 (OrdMap.keq_iff p q) Eq) as Hk.
    rewrite <- (OrdMap.find_key (held r) p q), Eh by done. rewrite <- (OrdMap.find_key (deleted r) p q) by done.
    destruct (OrdMap.find (deleted r) p) as [g|] eqn:Eg.
    + rewrite OrdMap.find_erase, Eq by done. by_ticks.
    + rewrite <- (OrdMap.find_key (deleted r) p q), Eg by done. by_ticks.
  - rewrite (right_id_L None merge). f_equal. destruct (OrdMap.find (deleted r) p); [|done].
    by rewrite OrdMap.find_erase, Eq.
Qed.

(** The three things a create can come to: ignored, taken with the file here already,
    or taken and on its way. *)
Lemma create_received n b t p ti own sys_now steady_now :
  is_int64 t -> load_torrent_buffer b = Some ti ->
  let g := OrdMap.find (graves (n_world n)) p in
  let deleted' := match g with Some _ => OrdMap.erase (graves (n_world n)) p | None => graves (n_world n) end in
  let taken := wins (applied (n_repairs n)) p t (info_hashes ti) (last_write_time (dsk (n_world n)) p) in
  exists n', receive_one (inl (announce b t p)) own n sys_now steady_now = Some n' /\
  if match g with Some g => beats g t | None => false end then replica_of n' = replica_of n
  else if taken then
    exists held s, n_world n' = World s (if held : bool then (stamp_and_remember
        (Inbound (OrdMap.insert_or_assign (origins (n_inbound n)) p t) (written (n_inbound n)))
        (n_former n) (dsk (n_world n)) p t).2 else dsk (n_world n)) deleted' /\
      (n_inbound n', n_former n') =
        (let inbound := Inbound (OrdMap.insert_or_assign (origins (n_inbound n)) p t) (written (n_inbound n)) in
         if held then (stamp_and_remember inbound (n_former n) (dsk (n_world n)) p t).1 else (inbound, n_former n)) /\
      applied (n_repairs n') = OrdMap.insert_or_assign (applied (n_repairs n)) p (Applied t (info_hashes ti))
  else replica_of n' = Rep (n_former n) deleted' /\ n_inbound n' = n_inbound n /\ n_repairs n' = n_repairs n /\
    dsk (n_world n') = dsk (n_world n).
Proof.
  intros Ht Hl g deleted' taken. unfold receive_one.
  change (act (announce b t p) ?k ?w) with (act_create (announce b t p) k w).
  assert (Path (part (announce b t p) 3) = p) as Hp by (by destruct p).
  assert (to_file_time (from_ticks (part (announce b t p) 2)) = t) as Htt.
  { cbn. rewrite from_ticks_to_string by apply file_to_ticks_range. by apply to_file_time_to_ticks. }
  unfold act_create. rewrite Hp, Htt. change (part (announce b t p) 1) with b. rewrite Hl. fold g.
  destruct (match g with Some g => beats g t | None => false end) eqn:Eg.
  { eexists. split; reflexivity. }
  destruct (negb (wins (applied (n_repairs n)) p t (info_hashes ti) _)) eqn:Ew.
  all: replace (match g with Some _ => World _ _ _ | None => n_world n end)
    with (World (ses (n_world n)) (dsk (n_world n)) deleted') in *
    by (unfold deleted'; by destruct g; [|destruct (n_world n)]).
  all: cbn [dsk ses graves] in *; fold taken in Ew; bool_hyps; rewrite Ew.
  { eexists. split; [reflexivity|]. by repeat split. }
  destruct (remove_stale_torrents _ _ _ _) as [held s1]. destruct (add_torrent _ _ _) as [s2 h].
  destruct (add_nodes _ _) as [txt s3]. eexists. split; [reflexivity|].
  exists held, (force_dht_announce s3 h). unfold on_removed, on_created. cbn.
  destruct held; [|done]. destruct (stamp_and_remember _ _ _ _ _) as [[inb fo] d] eqn:E. done.
Qed.

(** Of a create that was taken: once libtorrent has written the file and says that its
    cache is flushed, the replica is the merge, at every path. *)
Definition waits_for (p : path) (t : file_time) (n n' : node) : Prop :=
  OrdMap.find (origins (n_inbound n')) p = Some t /\
  forall d h at_ st p' wt,
    listed_as (ses (n_world n')) h = Some st -> held_path d st = Some p' -> path_image p' = path_image p ->
    last_write_time d p' = Some wt -> wt <= at_ ->
    forall q, seen (replica_of (flushed d h at_ n')) q = seen (take_file p t (replica_of n)) q.

Lemma taken_waits `{!DiskLaws} n n' p t :
  OrdMap.sorted (n_former n) -> OrdMap.sorted (graves (n_world n)) -> OrdMap.sorted (origins (n_inbound n)) ->
  match OrdMap.find (graves (n_world n)) p with Some g => beats g t = false | None => True end ->
  match OrdMap.find (n_former n) p with Some here => file_to_ticks here <= file_to_ticks t | None => True end ->
  (n_inbound n', n_former n') = (Inbound (OrdMap.insert_or_assign (origins (n_inbound n)) p t)
    (written (n_inbound n)), n_former n) ->
  (exists s d, n_world n' = World s d (match OrdMap.find (graves (n_world n)) p with
    Some _ => OrdMap.erase (graves (n_world n)) p | None => graves (n_world n) end)) ->
  waits_for p t n n'.
Proof.
  intros Hh Hd Ho Hg Hle Hi (s & d & Hw). destruct n' as [w' f' i' r' ps'].
  cbn [n_world n_inbound n_former] in *. injection Hi as -> ->.
  assert (OrdMap.find (OrdMap.insert_or_assign (origins (n_inbound n)) p t) p = Some t) as Hf
    by (by rewrite OrdMap.find_insert, keq_native_refl).
  split; [done|]. intros d2 h at_ st p' wt Hli Hp Hk Hwt Hle' q.
  rewrite (flushed_former d2 h at_ _ st p p' t wt); cbn [n_world n_inbound n_former origins]; try done.
  - rewrite Hw. cbn [graves]. by apply (seen_arrived p p' t (replica_of n) q).
  - cbn [n_world n_inbound n_former origins]. auto with syncfs.
Qed.

(** Times that the wall clock can represent are ordered alike in ticks. *)
Lemma clock_order a b : is_int64 (a + file_clock_epoch) -> is_int64 (b + file_clock_epoch) ->
  file_to_ticks a <= file_to_ticks b -> a <= b.
Proof.
  unfold file_to_ticks, to_ticks, to_sys. intros Ha Hb. rewrite !wrap64_small by done. lia.
Qed.

(** C3: a create is the merge of the file it announces.  When the listing has the time the
    file has on the disk, the create either changes the replica as the merge does, at
    once: it is defeated, or the content was here already; or it is taken and its
    origin remembered, and the replica is the merge as soon as libtorrent has written the
    file and says its cache is flushed. *)
Theorem create_refines `{!DiskLaws} n b t p ti own sys_now steady_now :
  is_int64 t -> load_torrent_buffer b = Some ti ->
  OrdMap.sorted (n_former n) -> OrdMap.sorted (graves (n_world n)) -> OrdMap.sorted (origins (n_inbound n)) ->
  OrdMap.find (n_former n) p = last_write_time (dsk (n_world n)) p ->
  (is_int64 (t + file_clock_epoch) /\ forall here, last_write_time (dsk (n_world n)) p = Some here ->
     is_int64 (here + file_clock_epoch)) ->
  exists n', receive_one (inl (announce b t p)) own n sys_now steady_now = Some n' /\
  ((forall q, seen (replica_of n') q = seen (take_file p t (replica_of n)) q) \/
   wins (applied (n_repairs n)) p t (info_hashes ti) (last_write_time (dsk (n_world n)) p) = true /\
   waits_for p t n n').
Proof.
  intros Ht Hl Hh Hd Ho Hcur Hclock. destruct (create_received n b t p ti own sys_now steady_now Ht Hl) as (n' & Hrun & Hn').
  exists n'. split; [done|].
  destruct (match OrdMap.find (graves (n_world n)) p with Some g => beats g t | None => false end) eqn:Eg.
  { left. intros q. rewrite Hn'. unfold take_file. cbn [replica_of held deleted]. by rewrite Eg. }
  assert (match OrdMap.find (graves (n_world n)) p with Some g => beats g t = false | None => True end) as Hg
    by (by destruct (OrdMap.find (graves (n_world n)) p)).
  destruct (wins _ _ _ _ _) eqn:Ew.
  2: { left. intros q. destruct Hn' as [-> _]. rewrite <- Hcur in Ew. by apply (seen_not_taken _ _ _ _ (replica_of n) q Hh Hd Hg Ew). }
  assert (match OrdMap.find (n_former n) p with Some here => file_to_ticks here <= file_to_ticks t | None => True end) as Hle.
  { rewrite Hcur. destruct (last_write_time _ _); [|done]. by eapply wins_not_older. }
  assert (forall n'', (n_inbound n'', n_former n'') = (Inbound (OrdMap.insert_or_assign (origins (n_inbound n)) p t)
      (written (n_inbound n)), n_former n) ->
    (exists s d, n_world n'' = World s d (match OrdMap.find (graves (n_world n)) p with
      Some _ => OrdMap.erase (graves (n_world n)) p | None => graves (n_world n) end)) ->
    waits_for p t n n'') as Hwaits by (intros; by eapply taken_waits).
  destruct Hn' as (held & s & Hw & Hi & _). destruct n' as [w' f' i' r' ps']. cbn [n_world n_inbound n_former] in *.
  destruct held.
  - destruct (last_write_time (dsk (n_world n)) p) as [before|] eqn:Eb.
    + left. intros q. destruct Hclock as [Htc Hbc]. specialize (Hbc before eq_refl).
      assert (file_to_ticks before <= file_to_ticks t) as Hb by (by rewrite Hcur in Hle).
      pose proof (stamped (Inbound (OrdMap.insert_or_assign (origins (n_inbound n)) p t) (written (n_inbound n)))
        (n_former n) (dsk (n_world n)) p p t t before) as Hst.
      destruct (stamp_and_remember _ _ _ _ _) as [[inb fo] d]. injection Hi as -> ->. cbn [fst snd origins] in Hst.
      rewrite Hst; [|auto with syncfs|done|by rewrite OrdMap.find_insert, keq_native_refl|done|by apply clock_order].
      rewrite Hw. by apply (seen_arrived p p t (replica_of n) q).
    + unfold stamp_and_remember in Hi, Hw. rewrite Eb in Hi, Hw. right. split; [done|]. apply Hwaits; [exact Hi|]. exists s, (dsk (n_world n)). exact Hw.
  - right. split; [done|]. apply Hwaits; [exact Hi|]. exists s, (dsk (n_world n)). exact Hw.
Qed.
End arrival.

(** ** Where a file lands *)

Section landing.
Context `{Torrents} `{!Session} `{!SessionLaws} `{Disk}.
Abbreviation plain := (Forall (fun w => plain_name w = true)).

Lemma strip_slashes_plain s t : has_char SLASH s = false -> s <> "" ->
  strip_slashes_rev (String.rev (t +:+ s)) = String.rev (t +:+ s).
Proof.
  intros Hs Hne. rewrite str_rev_app. destruct (String.rev s) as [|c r] eqn:E.
  - apply (f_equal String.rev) in E. by rewrite str_rev_involutive in E.
  - rewrite str_app_cons. cbn [strip_slashes_rev]. rewrite decide_False; [done|]. intros ->.
    apply (f_equal String.rev) in E. rewrite str_rev_involutive, str_rev_cons in E. subst s.
    rewrite has_char_app in Hs. cbn in Hs. by rewrite orb_true_r in Hs.
Qed.

Lemma strip_slashes_joined ws : ws <> [] -> Forall name_ok ws ->
  strip_slashes_rev (String.rev (joined ws)) = String.rev (joined ws).
Proof.
  intros Hne Hws. destruct (exists_last Hne) as (a & w & ->). apply Forall_app in Hws as [Ha Hw].
  inversion Hw as [|? ? [Hn Hc] _]; subst. destruct a as [|x a].
  - by apply (strip_slashes_plain w "").
  - rewrite joined_app by done.
    replace (joined (x :: a) +:+ String SLASH (joined [w])) with ((joined (x :: a) +:+ "/") +:+ w)
      by (by rewrite str_app_assoc).
    by apply strip_slashes_plain.
Qed.

Lemma save_path_joined dir tail : tail <> [] -> plain dir -> plain tail ->
  save_path_for (Path (joined ("." :: dir ++ tail))) (Path (joined tail)) =
  match dir with [] => "." | _ => joined dir end.
Proof.
  intros Hne Hd Ht. assert (plain (dir ++ tail)) as Hdt by (by apply Forall_app).
  assert (dir ++ tail <> []) as Hn by (by destruct dir, tail).
  unfold save_path_for. rewrite (normal_plain (dir ++ tail) true), (normal_plain tail false) by done. cbn [native].
  destruct dir as [|x dir].
  - cbn [app]. rewrite Nat.ltb_irrefl, Nat.sub_diag, str_take_0. unfold ends_with.
    pose proof (prefix_app (String.rev (joined tail)) "") as Hp. rewrite str_app_nil_r in Hp. by rewrite Hp.
  - rewrite joined_app by done. rewrite str_length_app. cbn [String.length].
    replace (_ <? _)%nat with false by (symmetry; apply Nat.ltb_ge; lia).
    unfold ends_with. rewrite str_rev_app, str_rev_cons, str_app_assoc, prefix_app. cbn [orb negb].
    replace (String.length (joined (x :: dir)) + S (String.length (joined tail)) - String.length (joined tail))%nat
      with (String.length (joined (x :: dir) +:+ "/")) by (rewrite str_length_app; simpl; lia).
    replace (joined (x :: dir) +:+ String SLASH (joined tail)) with ((joined (x :: dir) +:+ "/") +:+ joined tail)
      by (by rewrite str_app_assoc).
    rewrite str_take_length_app, str_rev_app. change (String.rev "/" +:+ ?s) with (String SLASH s).
    cbn [strip_slashes_rev]. rewrite decide_True by done.
    rewrite strip_slashes_joined, str_rev_involutive by (done || by apply plain_ok).
    pose proof (joined_nonempty (x :: dir) ltac:(done) (plain_ok _ Hd)) as Hj. apply String.eqb_neq in Hj. by rewrite Hj.
Qed.

Lemma drop_common_app a b : drop_common (a ++ b) a = (b, []).
Proof. induction a as [|x a IH]; simpl; [by destruct b|]. by rewrite String.eqb_refl. Qed.

Lemma relative_joined rs ds : rs <> [] -> plain rs -> plain ds ->
  lexically_relative (Path (String SLASH (joined (rs ++ ds)))) (Path (String SLASH (joined rs))) =
  match ds with [] => Path "." | _ => Path (joined ds) end.
Proof.
  intros Hne Hr Hd. pose proof (plain_ok rs Hr) as Hor. pose proof (plain_ok ds Hd) as Hod.
  unfold lexically_relative. cbn [has_root_directory native].
  rewrite !bool_decide_eq_true_2 by done. cbn [Bool.eqb negb].
  rewrite !components_rooted; [|done..|by destruct rs|by apply Forall_app].
  rewrite drop_common_app. destruct ds as [|d ds]; [done|]. cbn [ups foldl].
  inversion Hod as [|? ? [Hdn _] _]; subst. apply String.eqb_neq in Hdn. cbn. rewrite Hdn.
  exact (append_names [] (d :: ds) (Forall_nil_2 _) Hod).
Qed.

(** C6: a file lands where it was announced.  A torrent that still knows only the
    tail of its file's path is saved into a directory such that what libtorrent then
    reports of it, its absolute save path and the tail, reads back as the very key the
    path was announced under. *)
Theorem file_lands_where_announced rs dir tail d h ti :
  rs <> [] -> tail <> [] -> plain rs -> plain dir -> plain tail ->
  current_path d = Path (String SLASH (joined rs)) ->
  complete_path "." = String SLASH (joined rs) ->
  (forall s, has_root_directory (Path s) = false -> s <> "." ->
     complete_path s = String SLASH (joined rs) +:+ String SLASH s) ->
  file_path ti = joined tail ->
  held_path d (h, complete_path (save_path_for (Path (joined ("." :: dir ++ tail))) (Path (file_path ti))), Some ti)
    = Some (Path (joined ("." :: dir ++ tail))).
Proof.
  intros Hrn Htn Hr Hd Ht Hroot Hdot Hrel Hfile. rewrite Hfile, save_path_joined by done.
  pose proof (plain_ok rs Hr) as Hor. pose proof (plain_ok dir Hd) as Hod. pose proof (plain_ok tail Ht) as Hot.
  assert (complete_path (match dir with [] => "." | _ => joined dir end) = String SLASH (joined (rs ++ dir))) as ->.
  { destruct dir as [|x dir]; [by rewrite app_nil_r|].
    rewrite Hrel; [by rewrite joined_app by done|by apply rooted_joined|].
    intros He. apply (f_equal (split_on SLASH)) in He. rewrite split_on_joined in He by done.
    inversion Hd as [|? ? Hx _]; subst. apply plain_name_spec in Hx as (_ & Hx & _). injection He as He _. done. }
  unfold held_path, join. cbn [fst snd]. rewrite Hroot, Hfile, relative_joined by done.
  assert (dir ++ tail <> []) as Hn by (by destruct dir, tail).
  assert (plain (dir ++ tail)) as Hp by (by apply Forall_app).
  assert (Forall name_ok ["."]) as Hdok by (by constructor).
  assert (lexically_normal (path_append (match dir with [] => Path "." | _ => Path (joined dir) end) (Path (joined tail)))
    = Path (joined (dir ++ tail))) as ->.
  { destruct dir as [|x dir].
    - change (Path ".") with (Path (joined ["."])). rewrite append_joined by done. by apply (normal_plain tail true).
    - rewrite append_joined by done. by apply (normal_plain _ false). }
  change (Path ".") with (Path (joined ["."])). rewrite append_joined; [done..|]. by apply plain_ok.
Qed.
End landing.

(** ** The theorems at concrete inputs *)

Import LoopSim.

Lemma digest_read_refines_witness :
  exists n', read_digest sim_digest sim_node 10 10 = Some n' /\
    OrdMap.find (n_former n') (Path "./a") = None /\ OrdMap.find (graves (n_world n')) (Path "./a") = Some 9 /\
    OrdMap.find (graves (n_world n')) (Path "./c") = OrdMap.find (graves (n_world sim_node)) (Path "./c").
Proof.
  assert (OrdMap.sorted (n_former sim_node)) as H1 by (by apply sorted_by_test).
  assert (OrdMap.sorted (graves (n_world sim_node))) as H2 by (by apply sorted_by_test).
  eexists. split; [reflexivity|].
  destruct (digest_read_refines sim_digest sim_node 10 10 _ (Path "./a") H1 H2 eq_refl) as (_ & Ha & _).
  destruct (digest_read_refines sim_digest sim_node 10 10 _ (Path "./c") H1 H2 eq_refl) as (_ & _ & Hc).
  destruct (Ha 9) as [Hl Hr]; [vm_compute; reflexivity|vm_compute; discriminate|].
  split; [exact Hl|]. split; [exact Hr|]. apply Hc. vm_compute. reflexivity.
Defined.

Lemma create_refines_witness :
  let n := sim_node in
  let t := to_file_time 6 in
  exists n', receive_one (inl (announce "8 a" t (Path "./a"))) "tcp://h:1" n 9 9 = Some n' /\
  ((forall q, seen (replica_of n') q = seen (take_file (Path "./a") t (replica_of n)) q) \/
   wins (applied (n_repairs n)) (Path "./a") t (info_hashes (ProtocolSim.SimTorrent 8 "a"))
     (last_write_time (dsk (n_world n)) (Path "./a")) = true /\
   waits_for (Path "./a") t n n').
Proof.
  apply (@create_refines ProtocolSim.sim_torrents ProtocolSim.sim_sessions ProtocolSim.sim_disk
    ProtocolSim.sim_disk_laws sim_node "8 a" (to_file_time 6) (Path "./a") (ProtocolSim.SimTorrent 8 "a") "tcp://h:1" 9 9);
    [by split; vm_compute|reflexivity|by apply sorted_by_test|by apply sorted_by_test|by apply sorted_by_test
    |vm_compute; reflexivity|].
  split; [by split; vm_compute|]. intros here Hh. vm_compute in Hh. injection Hh as <-. by split; vm_compute.
Defined.

Lemma file_lands_where_announced_witness :
  held_path (([] : list (path * file_time)) : @disk ProtocolSim.sim_disk)
    (1%nat, @complete_path _ _ ProtocolSim.sim_session_laws
       (save_path_for (Path "./a/b/f") (Path "f")), Some (ProtocolSim.SimTorrent 8 "f"))
  = Some (Path "./a/b/f").
Proof.
  apply (@file_lands_where_announced ProtocolSim.sim_torrents ProtocolSim.sim_sessions
    ProtocolSim.sim_session_laws ProtocolSim.sim_disk ["sync"] ["a"; "b"] ["f"]); try done.
  - by constructor.
  - by repeat constructor.
  - by constructor.
  - intros s _ Hs. cbn. unfold ProtocolSim.sim_complete. apply String.eqb_neq in Hs. by rewrite Hs.
Defined.
