(* ===== verification/Copies.v ===== *)
(** * Which copy a node ends with

    A create that is taken is on its way until libtorrent has written the file and its
    flush is reported; only then does the file have the time it was announced under, which
    is what the next create is compared with (protocol.cpp, [wins]).  [meets] is a create
    and whatever of it is still to come.  Creates that are met one after the other leave
    the newest copy, whatever their order; a newer one that comes while an older is on its
    way is compared with the time libtorrent writes at, and ignored. *)

From stdpp Require Import sets.
From S2P Require Import Prelude OrdMap FsPath Utils Files Reconcile Replica Protocol Source LocalChanges SyncLoop LoopInvariant Exchange Arrival.

Section copies.
Context `{Torrents} `{!TorrentLaws} `{!Session} `{Disk} `{!DiskLaws}.
Context (p : path).

(** A copy whose time the wire and the wall clock can hold. *)
Definition timely_copy (c : copy) : Prop := is_int64 c.1 /\ is_int64 (c.1 + file_clock_epoch).

(** The four maps a create looks at are maps. *)
Record kept (n : node) : Prop := {
  kept_former : OrdMap.sorted (n_former n);
  kept_graves : OrdMap.sorted (graves (n_world n));
  kept_origins : OrdMap.sorted (origins (n_inbound n));
  kept_applied : OrdMap.sorted (applied (n_repairs n));
}.

(** Nothing of the path is on its way or deleted, and its copy is [c]: on the disk at the time it
    was announced under, and on record with its content. *)
Record settled (c : option copy) (n : node) : Prop := {
  settled_kept : kept n;
  settled_alive : OrdMap.find (graves (n_world n)) p = None;
  settled_quiet : OrdMap.find (origins (n_inbound n)) p = None;
  settled_here : last_write_time (dsk (n_world n)) p = fst <$> c;
  settled_known : forall t h, c = Some (t, h) -> timely_copy (t, h) /\
    OrdMap.find (applied (n_repairs n)) p = Some (Applied t h);
}.

(** Whatever a node does that is not about this path. *)
Record leaves (n n' : node) : Prop := {
  leaves_kept : kept n';
  leaves_graves : OrdMap.find (graves (n_world n')) p = OrdMap.find (graves (n_world n)) p;
  leaves_origins : OrdMap.find (origins (n_inbound n')) p = OrdMap.find (origins (n_inbound n)) p;
  leaves_applied : OrdMap.find (applied (n_repairs n')) p = OrdMap.find (applied (n_repairs n)) p;
}.

(** A create is read; when it leaves the path on its way, the file is written, at any
    moment no later than the flush that is then reported, and until then nothing else is
    read about the path. *)
Inductive meets (n : node) : copy -> node -> Prop :=
| meets_at_once b t ti own sys_now steady_now n' :
    load_torrent_buffer b = Some ti ->
    receive_one (inl (announce b t p)) own n sys_now steady_now = Some n' ->
    OrdMap.find (origins (n_inbound n')) p = None ->
    meets n (t, info_hashes ti) n'
| meets_in_time b t ti own sys_now steady_now n1 n2 d h at_ st wt :
    load_torrent_buffer b = Some ti ->
    receive_one (inl (announce b t p)) own n sys_now steady_now = Some n1 ->
    OrdMap.find (origins (n_inbound n1)) p = Some t -> leaves n1 n2 ->
    listed_as (ses (n_world n2)) h = Some st -> held_path d st = Some p ->
    last_write_time d p = Some wt -> wt <= at_ ->
    meets n (t, info_hashes ti) (flushed d h at_ n2).

(** Creates met one after the other, with anything in between that leaves the path alone. *)
Inductive meets_all : node -> list copy -> node -> Prop :=
| meets_none n : meets_all n [] n
| meets_next n c n1 l n2 : meets n c n1 -> meets_all n1 l n2 -> meets_all n (c :: l) n2
| meets_rest n n1 l n2 : leaves n n1 ->
    last_write_time (dsk (n_world n1)) p = last_write_time (dsk (n_world n)) p ->
    meets_all n1 l n2 -> meets_all n l n2.

(** *** The stamp *)

Lemma find_self {V} (m : list (path * V)) v : OrdMap.sorted m ->
  OrdMap.find (OrdMap.insert_or_assign m p v) p = Some v.
Proof. intros Hm. by rewrite OrdMap.find_insert, keq_native_refl. Qed.

Lemma stamp_settles inbound former d t written_by wt :
  OrdMap.sorted (origins inbound) -> OrdMap.find (origins inbound) p = Some t ->
  last_write_time d p = Some wt -> wt <= written_by ->
  let '(inbound', former', d') := stamp_and_remember inbound former d p written_by in
  origins inbound' = OrdMap.erase (origins inbound) p /\ last_write_time d' p = Some t /\
  former' = OrdMap.insert_or_assign former p t.
Proof.
  intros Hs Ho Hw Hle. unfold stamp_and_remember. rewrite Hw, Ho.
  replace (written_by <? wt) with false by (symmetry; by apply Z.ltb_ge).
  assert (last_write_time (set_time d p t) p = Some t) as Ht; [|by rewrite Ht].
  rewrite time_set by (by rewrite Hw). unfold same_place. by rewrite keq_native_refl.
Qed.

(** *** One create *)

Lemma wins_settled c n t h : settled c n ->
  wins (applied (n_repairs n)) p t h (last_write_time (dsk (n_world n)) p) =
  wins (known_of p c) p t h (fst <$> c).
Proof.
  intros Hn. rewrite (settled_here _ _ Hn). destruct c as [[t0 h0]|]; [|done].
  destruct (settled_known _ _ Hn t0 h0 eq_refl) as [_ Hk]. unfold wins. cbn [fmap option_fmap option_map fst known_of].
  rewrite Hk. unfold OrdMap.find. simpl. by rewrite keq_native_refl.
Qed.

Lemma erase_self {V} (m : list (path * V)) : OrdMap.sorted m -> OrdMap.find (OrdMap.erase m p) p = None.
Proof. intros Hm. by rewrite OrdMap.find_erase, keq_native_refl. Qed.

(** A create that is taken and stamped settles the path. *)
Lemma flushed_settles n t h d hd at_ st wt : kept n -> timely_copy (t, h) ->
  OrdMap.find (graves (n_world n)) p = None -> OrdMap.find (origins (n_inbound n)) p = Some t ->
  OrdMap.find (applied (n_repairs n)) p = Some (Applied t h) ->
  listed_as (ses (n_world n)) hd = Some st -> held_path d st = Some p ->
  last_write_time d p = Some wt -> wt <= at_ ->
  settled (Some (t, h)) (flushed d hd at_ n).
Proof.
  intros [Sf Sg So Sa] Ht Hg Ho Ha Hl Hp Hw Hle.
  unfold flushed, on_alert. cbn [n_world ses dsk]. rewrite Hl, Hp. cbn [n_inbound n_former graves n_repairs n_peers].
  pose proof (stamp_settles (n_inbound n) (n_former n) d t at_ wt So Ho Hw Hle) as Hst.
  destruct (stamp_and_remember _ _ _ _ _) as [[inb fo] d']. destruct Hst as (Ho' & Hd' & Hfo).
  constructor; [constructor|..]; cbn [n_former n_inbound n_world n_repairs graves dsk]; rewrite ?Hfo, ?Ho'; try done.
  - by apply OrdMap.sorted_insert.
  - by apply OrdMap.sorted_erase.
  - by apply erase_self.
  - by intros t' h' [= <- <-].
Qed.

Lemma leaves_settles c n n' : settled c n -> leaves n n' ->
  last_write_time (dsk (n_world n')) p = last_write_time (dsk (n_world n)) p -> settled c n'.
Proof.
  intros [Hk Hal Hq Hh Hkn] [Lk Lg Lo La] Ld. constructor; rewrite ?Lg, ?Lo, ?Ld; try done.
  intros t h Hc. rewrite La. by apply Hkn.
Qed.

(** What a taken create leaves on its way, once it has arrived. *)
Lemma in_time_settles c n t h n1 n2 d hd at_ st wt : settled c n -> timely_copy (t, h) ->
  n_former n1 = n_former n -> graves (n_world n1) = graves (n_world n) ->
  origins (n_inbound n1) = OrdMap.insert_or_assign (origins (n_inbound n)) p t ->
  applied (n_repairs n1) = OrdMap.insert_or_assign (applied (n_repairs n)) p (Applied t h) ->
  leaves n1 n2 -> listed_as (ses (n_world n2)) hd = Some st -> held_path d st = Some p ->
  last_write_time d p = Some wt -> wt <= at_ -> settled (Some (t, h)) (flushed d hd at_ n2).
Proof.
  intros [[Sf Sg So Sa] Hal _ _ _] Ht Hf Hg Ho Ha [Lk Lg Lo La] Hl Hp Hw Hle.
  apply (flushed_settles n2 t h d hd at_ st wt); try done.
  - by rewrite Lg, Hg.
  - rewrite Lo, Ho. by apply find_self.
  - rewrite La, Ha. by apply find_self.
Qed.

(** What a taken create leaves when the content was in place already: the file is stamped
    at once. *)
Lemma at_once_settles c n t h inb fo d t0 : settled c n -> timely_copy (t, h) ->
  last_write_time (dsk (n_world n)) p = Some t0 -> t0 <= t ->
  stamp_and_remember (Inbound (OrdMap.insert_or_assign (origins (n_inbound n)) p t) (written (n_inbound n)))
    (n_former n) (dsk (n_world n)) p t = (inb, fo, d) ->
  OrdMap.sorted (origins inb) /\ OrdMap.find (origins inb) p = None /\
  OrdMap.sorted fo /\ last_write_time d p = Some t.
Proof.
  intros [[Sf Sg So Sa] _ _ _ _] Ht Hw Hle E.
  assert (OrdMap.sorted (OrdMap.insert_or_assign (origins (n_inbound n)) p t)) as So' by (by apply OrdMap.sorted_insert).
  pose proof (stamp_settles (Inbound (OrdMap.insert_or_assign (origins (n_inbound n)) p t) (written (n_inbound n)))
    (n_former n) (dsk (n_world n)) t t t0 So' (find_self _ _ So) Hw Hle) as Hst.
  rewrite E in Hst. destruct Hst as (-> & Hd & ->). cbn [origins].
  split; [by apply OrdMap.sorted_erase|]. split; [by apply erase_self|]. split; [by apply OrdMap.sorted_insert|done].
Qed.

(** *** One create *)

Lemma meets_takes c n t h n' : settled c n -> timely_copy (t, h) -> meets n (t, h) n' ->
  settled (take_copy p c (t, h)) n'.
Proof.
  intros Hn Ht Hm. pose proof Hn as [[Sf Sg So Sa] Hal Hq Hh Hk].
  assert (exists b ti own sys_now steady_now n1, load_torrent_buffer b = Some ti /\ info_hashes ti = h /\
    receive_one (inl (announce b t p)) own n sys_now steady_now = Some n1 /\
    (n' = n1 /\ OrdMap.find (origins (n_inbound n1)) p = None \/
     OrdMap.find (origins (n_inbound n1)) p = Some t /\ exists n2 d hd at_ st wt, n' = flushed d hd at_ n2 /\
       leaves n1 n2 /\ listed_as (ses (n_world n2)) hd = Some st /\ held_path d st = Some p /\
       last_write_time d p = Some wt /\ wt <= at_)) as (b & ti & own & sn & sd & n1 & Hl & Hh' & Hr & Hend).
  { inversion Hm; subst; [by eauto 12|]. do 6 eexists. do 3 (split; [done|]). right. split; [done|]. by eauto 14. }
  clear Hm. destruct (create_received n b t p ti own sn sd (proj1 Ht) Hl) as (n1' & Hr' & Hn1).
  rewrite Hr in Hr'. injection Hr' as <-. rewrite Hal in Hn1. rewrite Hh', (wins_settled c n t h Hn) in Hn1.
  unfold take_copy. cbn [fst snd]. destruct (wins (known_of p c) p t h (fst <$> c)) eqn:Ew.
  2: { destruct Hn1 as (Hrep & Hin & Hre & Hd). injection Hrep as Hf Hg. rewrite Hin in Hend.
    destruct Hend as [[-> _]|[Ho _]]; [|congruence].
    constructor; [constructor|..]; rewrite ?Hf, ?Hg, ?Hin, ?Hre, ?Hd; done. }
  destruct Hn1 as (already & s & Hw & Hi & Ha).
  assert (forall n2 d hd at_ st wt, n_former n1 = n_former n ->
    origins (n_inbound n1) = OrdMap.insert_or_assign (origins (n_inbound n)) p t ->
    leaves n1 n2 -> listed_as (ses (n_world n2)) hd = Some st -> held_path d st = Some p ->
    last_write_time d p = Some wt -> wt <= at_ -> settled (Some (t, h)) (flushed d hd at_ n2)) as Hlater.
  { intros n2 d hd at_ st wt Hf Ho. apply (in_time_settles c n t h n1); try done. by rewrite Hw. }
  assert (origins (n_inbound n1) = OrdMap.insert_or_assign (origins (n_inbound n)) p t ->
    n_former n1 = n_former n -> settled (Some (t, h)) n') as Hwait.
  { intros Ho Hf. rewrite Ho, (find_self _ _ So) in Hend.
    destruct Hend as [[_ ?]|(_ & n2 & d & hd & at_ & st & wt & -> & ?)]; [done|]. destruct_and!. by eapply Hlater. }
  clear Hlater. destruct already; [|injection Hi as Hi Hf; apply Hwait; [by rewrite Hi|done]].
  cbv zeta in Hi. destruct (stamp_and_remember _ _ _ _ _) as [[inb fo] d] eqn:E. cbn [fst snd] in Hw, Hi. injection Hi as Hi Hf.
  destruct (last_write_time (dsk (n_world n)) p) as [t0|] eqn:Eh.
  2: { unfold stamp_and_remember in E. rewrite Eh in E. cbn in E. injection E as <- <- <-. apply Hwait; [by rewrite Hi|done]. }
  destruct c as [[t0' h0]|]; [|done]. cbn in Hh. injection Hh as <-. destruct (Hk t0 h0 eq_refl) as [[Ht0 Ht0'] _].
  destruct (at_once_settles (Some (t0, h0)) n t h inb fo d t0 Hn Ht Eh) as (So' & Hq' & Sf' & Hd'); [|exact E|].
  { apply clock_order; [done|by apply Ht|]. by apply (wins_not_older _ _ _ _ _ Ew). }
  rewrite <-Hi in So', Hq'. destruct Hend as [[-> _]|[Ho _]]; [|congruence].
  constructor; [constructor|..]; rewrite ?Hf, ?Hw, ?Ha; try done; [by apply OrdMap.sorted_insert|].
  intros t' h' [= <- <-]. split; [done|]. by apply find_self.
Qed.

(** The copy of a path is what the rule alone makes of the creates met. *)
Lemma meets_all_takes l c n n' : settled c n -> Forall timely_copy l -> meets_all n l n' ->
  settled (foldl (take_copy p) c l) n'.
Proof.
  intros Hn Hl Hm. revert c Hn Hl. induction Hm as [n|n [t h] n1 l n2 Hm _ IH|n n1 l n2 Hv Hd _ IH]; intros c Hn Hl; [done|..].
  - inversion Hl; subst. cbn [foldl]. apply IH; [by eapply meets_takes|done].
  - apply IH; [by eapply leaves_settles|done].
Qed.

(** Of the copies met, the one that loses to none. *)
Lemma meets_all_newest l n n' : settled None n -> Forall timely_copy l -> l <> [] -> meets_all n l n' ->
  exists c, settled (Some c) n' /\ c ∈ l /\ forall z, z ∈ l -> loses c z = false.
Proof.
  intros Hn Hl Hne Hm. destruct l as [|x l]; [done|]. pose proof (meets_all_takes _ _ _ _ Hn Hl Hm) as Hend.
  cbn [foldl] in Hend. change (take_copy p None x) with (Some x) in Hend.
  destruct (take_copies p l x) as (y & Hf & Hy & Hx & Hz). rewrite Hf in Hend. exists y. split; [done|].
  split; [destruct Hy as [->|]; [by left|by right]|]. by intros z [->|?]%elem_of_cons; auto.
Qed.

(** A create that comes while an older one is on its way is compared with the time
    libtorrent writes the older one's file at (protocol.cpp:127), which is about now: however
    much newer than the one on its way, it is ignored, and the older is the copy the
    flush settles. *)
Lemma create_on_its_way_stays n b t ti own sys_now steady_now t0 h0 w : kept n -> timely_copy (t0, h0) ->
  OrdMap.find (graves (n_world n)) p = None -> OrdMap.find (origins (n_inbound n)) p = Some t0 ->
  OrdMap.find (applied (n_repairs n)) p = Some (Applied t0 h0) ->
  load_torrent_buffer b = Some ti -> is_int64 t ->
  last_write_time (dsk (n_world n)) p = Some w -> file_to_ticks t < file_to_ticks w ->
  exists n', receive_one (inl (announce b t p)) own n sys_now steady_now = Some n' /\
    replica_of n' = replica_of n /\ n_inbound n' = n_inbound n /\ applied (n_repairs n') = applied (n_repairs n) /\
    forall n2 d hd at_ st wt, leaves n' n2 -> listed_as (ses (n_world n2)) hd = Some st ->
      held_path d st = Some p -> last_write_time d p = Some wt -> wt <= at_ ->
      settled (Some (t0, h0)) (flushed d hd at_ n2).
Proof.
  intros Hk Ht0 Hg Ho Ha Hl Ht Hw Hlt.
  destruct (create_received n b t p ti own sys_now steady_now Ht Hl) as (n' & Hr & Hn').
  rewrite Hg in Hn'. assert (wins (applied (n_repairs n)) p t (info_hashes ti) (last_write_time (dsk (n_world n)) p) = false) as Hwins.
  { rewrite Hw. unfold wins. replace (_ =? _) with false by (symmetry; apply Z.eqb_neq; lia). apply Z.ltb_ge. lia. }
  rewrite Hwins in Hn'. destruct Hn' as (Hrep & Hin & Hre & _).
  exists n'. split; [done|]. split; [done|]. split; [done|]. split; [by rewrite Hre|].
  intros n2 d hd at_ st wt [Lk Lg Lo La] Hli Hp Hwt Hle. injection Hrep as _ Hgr.
  apply (flushed_settles n2 t0 h0 d hd at_ st wt); try done; rewrite ?Lg, ?Lo, ?La, ?Hgr, ?Hin, ?Hre; done.
Qed.

(** C7: Two nodes that start without a path and meet the same creates of it, in any order
    and any number of times, end with the same copy: of the copies announced, the one that
    loses to none, the newer and on a tie the lower content.  Both have its file at the
    time it was announced under, stamped when its flush was reported, and its announcement
    on record.  A create is met when its file, if it was taken, is written and stamped
    before the next create of the path is read; anything that leaves the path alone may
    come between.  The times fit the wire and the clock. *)
Theorem copies_converge n1 n2 l1 l2 m1 m2 :
  settled None n1 -> settled None n2 -> Forall timely_copy l1 -> l1 <> [] ->
  (forall c, c ∈ l1 <-> c ∈ l2) -> meets_all n1 l1 m1 -> meets_all n2 l2 m2 ->
  exists t h, (t, h) ∈ l1 /\ (forall c, c ∈ l1 -> loses (t, h) c = false) /\
    forall m, m = m1 \/ m = m2 -> last_write_time (dsk (n_world m)) p = Some t /\
      OrdMap.find (applied (n_repairs m)) p = Some (Applied t h).
Proof.
  intros Hn1 Hn2 Hl1 Hne Hl Hm1 Hm2.
  assert (Forall timely_copy l2) as Hl2 by (rewrite Forall_forall in *; intros c Hc; by apply Hl1, Hl).
  assert (l2 <> []) as Hne2.
  { destruct l1 as [|x l1]; [done|]. intros ->. apply (not_elem_of_nil x), Hl. by left. }
  destruct (meets_all_newest _ _ _ Hn1 Hl1 Hne Hm1) as ([t h] & Hs1 & Hin1 & Hz1).
  destruct (meets_all_newest _ _ _ Hn2 Hl2 Hne2 Hm2) as (c & Hs2 & Hin2 & Hz2).
  rewrite Forall_forall in Hl1, Hl2.
  assert (c = (t, h)) as ->.
  { apply loses_total; [by apply (Hl2 _ Hin2)|by apply (Hl1 _ Hin1)|apply Hz2, Hl, Hin1|apply Hz1, Hl, Hin2]. }
  exists t, h. split; [done|]. split; [done|]. intros m [->| ->].
  - split; [by rewrite (settled_here _ _ Hs1)|by apply (settled_known _ _ Hs1)].
  - split; [by rewrite (settled_here _ _ Hs2)|by apply (settled_known _ _ Hs2)].
Qed.
End copies.

(** ** At concrete inputs *)

Module CopiesSim.
Import ProtocolSim.
#[local] Existing Instances ProtocolSim.sim_torrents ProtocolSim.sim_sessions ProtocolSim.sim_disk.

Definition here : path := Path "./a".

Definition empty_node : node :=
  Node (World (exist _ [] (NoDup_nil_2) : ProtocolSim.sim_session) [] []) [] (Inbound [] []) (Repairs [] [] []) [].

(** The create of content [h], and its file written a tick before the flush is reported. *)
Definition read (h : string) (t : Z) (n : node) : option node :=
  receive_one (inl (announce (h +:+ " a") (to_file_time t) here)) "tcp://h:1" n 9 9.

Definition got (n : option node) : node := from_option id empty_node n.

Lemma got_some (n : option node) : (if n is Some _ then true else false) = true -> n = Some (got n).
Proof. by destruct n. Qed.

Definition arrived (handle : nat) (n : node) : node :=
  flushed [(Path "a", to_file_time 99)] handle (to_file_time 100) n.

Definition older : copy := (to_file_time 5, 8).
Definition newer : copy := (to_file_time 6, 9).

Definition in_order (n : node) : bool :=
  OrdMap.sortedb (n_former n) && OrdMap.sortedb (graves (n_world n)) &&
  OrdMap.sortedb (origins (n_inbound n)) && OrdMap.sortedb (applied (n_repairs n)).

Lemma in_order_kept n : in_order n = true -> kept n.
Proof. unfold in_order. intros Ht. bool_hyps. constructor; by apply OrdMap.sortedb_sorted. Qed.

Lemma met n h k t : let n1 := got (read h t n) in
  (if read h t n is Some _ then true else false) = true -> sim_load (h +:+ " a") = Some (SimTorrent k "a") ->
  OrdMap.find (origins (n_inbound n1)) here = Some (to_file_time t) -> in_order n1 = true ->
  listed_as (ses (n_world n1)) 1%nat = Some (1%nat, "/sync", Some (SimTorrent k "a")) ->
  meets here n (to_file_time t, k) (arrived 1 n1).
Proof.
  intros n1 Hr%got_some Hl Ho Hk Hli.
  by eapply (meets_in_time here n (h +:+ " a") _ (SimTorrent k "a") _ _ _ n1 n1 [(Path "a", to_file_time 99)] 1%nat _ _ (to_file_time 99));
    [exact Hl|exact Hr|exact Ho|split; [by apply in_order_kept|done..]|exact Hli| | |].
Qed.

Lemma passed_over n h k t : let n1 := got (read h t n) in
  (if read h t n is Some _ then true else false) = true -> sim_load (h +:+ " a") = Some (SimTorrent k "a") ->
  OrdMap.find (origins (n_inbound n1)) here = None -> meets here n (to_file_time t, k) n1.
Proof. intros n1 Hr%got_some Hl Ho. by apply (meets_at_once here n _ _ (SimTorrent k "a") _ _ _ n1 Hl Hr). Qed.
End CopiesSim.

#[local] Existing Instances ProtocolSim.sim_torrents ProtocolSim.sim_sessions ProtocolSim.sim_disk.

(** One end meets the older copy and then the newer; the other the newer and then the older. *)
Lemma copies_converge_witness :
  exists m1 m2, let p := CopiesSim.here in let n := CopiesSim.empty_node in
    let l1 := [CopiesSim.older; CopiesSim.newer] in
    settled p None n /\ meets_all p n l1 m1 /\ meets_all p n [CopiesSim.newer; CopiesSim.older] m2 /\
    exists t h, (t, h) ∈ l1 /\ (forall c, c ∈ l1 -> loses (t, h) c = false) /\
      forall m, m = m1 \/ m = m2 -> last_write_time (dsk (n_world m)) p = Some t /\
        OrdMap.find (applied (n_repairs m)) p = Some (Applied t h).
Proof.
  assert (settled CopiesSim.here None CopiesSim.empty_node) as Hn.
  { constructor; [constructor; by apply OrdMap.sortedb_sorted|reflexivity..|by intros t h]. }
  eassert (meets_all CopiesSim.here CopiesSim.empty_node [CopiesSim.older; CopiesSim.newer] _) as Hm1.
  { eapply meets_next; [apply (CopiesSim.met _ "8" 8 5); vm_compute; reflexivity|].
    eapply meets_next; [apply (CopiesSim.met _ "9" 9 6); vm_compute; reflexivity|]. apply meets_none. }
  eassert (meets_all CopiesSim.here CopiesSim.empty_node [CopiesSim.newer; CopiesSim.older] _) as Hm2.
  { eapply meets_next; [apply (CopiesSim.met _ "9" 9 6); vm_compute; reflexivity|].
    eapply meets_next; [apply (CopiesSim.passed_over _ "8" 8 5); vm_compute; reflexivity|]. apply meets_none. }
  eexists _, _. split; [exact Hn|]. split; [exact Hm1|]. split; [exact Hm2|].
  apply (@copies_converge _ ProtocolSim.sim_torrent_laws _ _ ProtocolSim.sim_disk_laws CopiesSim.here
    _ _ [CopiesSim.older; CopiesSim.newer] [CopiesSim.newer; CopiesSim.older] _ _ Hn Hn); [|done| |exact Hm1|exact Hm2].
  - apply Forall_cons_2; [|apply Forall_cons_2; [|by apply Forall_nil_2]].
    all: split; split; vm_compute; discriminate.
  - intros c. rewrite !elem_of_cons. generalize CopiesSim.older CopiesSim.newer. intros x y. tauto.
Defined.
