(* ===== verification/PyFloat.v ===== *)
(** * Python's float: IEEE binary64, its conversions and its formats

    The measurement tools compute with floats, round them, print them and read
    them back.  Values are the standard library's [spec_float] at precision 53;
    every conversion goes through one exact integer rounding, so it can be
    evaluated and reasoned about. *)

From S2P Require Import Prelude.
From Stdlib Require Export SpecFloat.

Abbreviation float := spec_float.

Definition prec : Z := 53.
Definition emax : Z := 1024.

Definition fadd : float -> float -> float := SFadd prec emax.
Definition fsub : float -> float -> float := SFsub prec emax.
Definition fmul : float -> float -> float := SFmul prec emax.
Definition fdiv : float -> float -> float := SFdiv prec emax.
Definition flt : float -> float -> bool := SFltb.
Definition fle : float -> float -> bool := SFleb.
Definition feq : float -> float -> bool := SFeqb.

(** The float nearest to [m / d], ties to even. *)
Definition float_of_ratio (s : bool) (m d : positive) : float :=
  let '(q, e, l) := SFdiv_core_binary prec emax (Zpos m) 0 (Zpos d) 0 in
  binary_round_aux prec emax s q e l.

Definition float_of_Z_ratio (n : Z) (d : positive) : float :=
  match n with
  | Z0 => S754_zero false
  | Zpos m => float_of_ratio false m d
  | Zneg m => float_of_ratio true m d
  end.

Definition float_of_Z (n : Z) : float := float_of_Z_ratio n 1.

Definition fzero : float := S754_zero false.

(** [if x:] is false on zero alone. *)
Definition truthy (x : float) : bool := negb (feq x fzero).

(** ** Exact decimal rounding *)

(** [num / den] to the nearest integer, ties to even. *)
Definition round_half_even (num : Z) (den : Z) : Z :=
  let q := num / den in
  let r := num mod den in
  match Z.compare (2 * r) den with
  | Lt => q
  | Gt => q + 1
  | Eq => if Z.even q then q else q + 1
  end.

(** A finite float is [num / den] exactly. *)
Definition ratio_of (m : positive) (e : Z) : Z * Z :=
  if 0 <=? e then (Zpos m * 2 ^ e, 1) else (Zpos m, 2 ^ (- e)).

(** The magnitude of a finite float in units of [10^-places]. *)
Definition scaled (m : positive) (e : Z) (places : nat) : Z :=
  let '(num, den) := ratio_of m e in
  round_half_even (num * 10 ^ Z.of_nat places) den.

Fixpoint zeros (n : nat) : string :=
  match n with O => "" | S n' => String "0" (zeros n') end.

Fixpoint spaces (n : nat) : string :=
  match n with O => "" | S n' => String " " (spaces n') end.

(** Digits padded on the left to [width]. *)
Definition zero_pad (width : nat) (s : string) : string :=
  zeros (width - String.length s) +:+ s.

Fixpoint str_drop (n : nat) (s : string) : string :=
  match n, s with
  | S n', String _ s' => str_drop n' s'
  | _, _ => s
  end.

(** The decimal point put [places] digits from the right. *)
Definition with_point (places : nat) (n : Z) : string :=
  let digits := zero_pad (S places) (Z_to_string n) in
  let whole := (String.length digits - places)%nat in
  match places with
  | O => digits
  | _ => str_take whole digits +:+ "." +:+ str_drop whole digits
  end.

(** [f"{x:.{places}f}"]. *)
Definition format_f (places : nat) (x : float) : string :=
  match x with
  | S754_nan => "nan"
  | S754_infinity s => if s then "-inf" else "inf"
  | S754_zero s => (if s then "-" else "") +:+ with_point places 0
  | S754_finite s m e => (if s then "-" else "") +:+ with_point places (scaled m e places)
  end.

Definition pow10 (places : nat) : positive := Z.to_pos (10 ^ Z.of_nat places).

(** [round(x, places)]: the decimal rounding read back as a float. *)
Definition round_to (places : nat) (x : float) : float :=
  match x with
  | S754_finite s m e =>
      match scaled m e places with
      | Zpos n => float_of_ratio s n (pow10 places)
      | _ => S754_zero s
      end
  | _ => x
  end.

(** ** The general format and the shortest representation *)

(** The decimal exponent of a positive ratio: [10^k <= num/den < 10^(k+1)]. *)
Fixpoint exponent_up (fuel : nat) (k : Z) (num den : Z) : Z :=
  match fuel with
  | O => k
  | S fuel' => if 10 * den <=? num then exponent_up fuel' (k + 1) num (10 * den) else k
  end.

Fixpoint exponent_down (fuel : nat) (k : Z) (num den : Z) : Z :=
  match fuel with
  | O => k
  | S fuel' => if num <? den then exponent_down fuel' (k - 1) (10 * num) den else k
  end.

(** A binary64 exponent is below 309 in either direction, subnormals included
    below 325. *)
Definition decimal_exponent (num den : Z) : Z :=
  if den <=? num then exponent_up 320 0 num den else exponent_down 330 0 num den.

(** [num/den] in units of [10^k], rounded. *)
Definition in_units (num den k : Z) : Z :=
  if 0 <=? k then round_half_even num (den * 10 ^ k)
  else round_half_even (num * 10 ^ (- k)) den.

Fixpoint strip_zeros_rev (s : string) : string :=
  match s with String "0" s' => strip_zeros_rev s' | _ => s end.

Definition strip_trailing_zeros (s : string) : string :=
  String.rev (strip_zeros_rev (String.rev s)).

(** An exponent is written with its sign and at least two digits. *)
Definition exponent_text (k : Z) : string :=
  "e" +:+ (if k <? 0 then "-" else "+") +:+ zero_pad 2 (Z_to_string (Z.abs k)).

(** A point after [whole] digits, nothing after it meaning no point. *)
Definition point_after (whole : nat) (digits : string) : string :=
  let after := str_drop whole digits in
  str_take whole digits +:+ (if String.eqb after "" then "" else "." +:+ after).

(** Significant digits [digits] with the first at [10^k], in the layout of
    Python's general format: exponent form below [-4] and from [limit] up. *)
Definition layout (limit : Z) (digits : string) (k : Z) : string :=
  if (k <? -4) || (limit <=? k) then point_after 1 digits +:+ exponent_text k
  else if k <? 0 then "0." +:+ zeros (Z.to_nat (- k - 1)) +:+ digits
  else point_after (S (Z.to_nat k))
         (digits +:+ zeros (S (Z.to_nat k) - String.length digits)).

(** [f"{x:g}"]: six significant digits, trailing zeros dropped. *)
Definition format_g (x : float) : string :=
  match x with
  | S754_nan => "nan"
  | S754_infinity s => if s then "-inf" else "inf"
  | S754_zero s => if s then "-0" else "0"
  | S754_finite s m e =>
      let '(num, den) := ratio_of m e in
      let k := decimal_exponent num den in
      let n := in_units num den (k - 5) in
      (* 999999.5 rounds up into one digit more *)
      let '(n, k) := if n =? 10 ^ 6 then (10 ^ 5, k + 1) else (n, k) in
      (if s then "-" else "") +:+ layout 6 (strip_trailing_zeros (Z_to_string n)) k
  end.

(** ** Reading and writing *)

(** The float nearest to [n * 10^k]. *)
Definition float_of_decimal (n k : Z) : float :=
  if 0 <=? k then float_of_Z_ratio (n * 10 ^ k) 1
  else float_of_Z_ratio n (Z.to_pos (10 ^ (- k))).

(** The two candidates of [p] significant digits around [num/den], nearest
    first, with the unit they are counted in. *)
Definition candidates (p : nat) (num den k : Z) : list (Z * Z) :=
  let unit := k - Z.of_nat p + 1 in
  let '(n, d) := if 0 <=? unit then (num, den * 10 ^ unit) else (num * 10 ^ (- unit), den) in
  let lo := n / d in
  if 2 * (n mod d) <=? d then [(lo, unit); (lo + 1, unit)] else [(lo + 1, unit); (lo, unit)].

(** The first number of digits that reads back as [x]; seventeen always do. *)
Fixpoint shortest (ps : list nat) (x : float) (num den k : Z) : Z * Z :=
  match ps with
  | [] => (in_units num den (k - 16), k - 16)
  | p :: ps' =>
      match List.find (fun c => feq (float_of_decimal c.1 c.2) x) (candidates p num den k) with
      | Some c => c
      | None => shortest ps' x num den k
      end
  end.

(** [repr(x)]: the shortest digits that read back as [x], a point always shown
    unless there is an exponent. *)
Definition float_repr (x : float) : string :=
  match x with
  | S754_nan => "nan"
  | S754_infinity s => if s then "-inf" else "inf"
  | S754_zero s => if s then "-0.0" else "0.0"
  | S754_finite s m e =>
      let '(num, den) := ratio_of m e in
      let k := decimal_exponent num den in
      let '(n, unit) := shortest (seq 1 17) (S754_finite false m e) num den k in
      let digits := Z_to_string n in
      let k' := unit + Z.of_nat (String.length digits) - 1 in
      let body := layout 16 (strip_trailing_zeros digits) k' in
      (if s then "-" else "") +:+ body
      +:+ (if has_char "."%char body || has_char "e"%char body then "" else ".0")
  end.

(** [float(s)] on the decimal grammar: a sign, digits with at most one point, an
    exponent. [None] is the ValueError.  The spellings of infinity and the
    digit-group underscores are left out: the tables only hold what [csv] wrote
    from finite floats. *)
Fixpoint digits_of (s : string) (acc : Z) (count : nat) : Z * nat * string :=
  match s with
  | String c s' =>
      match digit_val c with
      | Some d => digits_of s' (10 * acc + d) (S count)
      | None => (acc, count, s)
      end
  | EmptyString => (acc, count, EmptyString)
  end.

Definition exponent_of (s : string) : option Z :=
  match s with
  | EmptyString => Some 0
  | String c s' =>
      if bool_decide (c = "e"%char) || bool_decide (c = "E"%char) then
        match s' with
        | String "+" d => parse_nonempty_digits d
        | String "-" d => option_map Z.opp (parse_nonempty_digits d)
        | d => parse_nonempty_digits d
        end
      else None
  end.

Definition unsigned_float (s : string) : option float :=
  let '(whole, n1, rest1) := digits_of s 0 0 in
  let '(all, n2, rest2) :=
    match rest1 with
    | String "." rest => let '(a, n, r) := digits_of rest whole 0 in (a, n, r)
    | _ => (whole, 0%nat, rest1)
    end in
  if (n1 + n2 =? 0)%nat then None
  else match exponent_of rest2 with
       | Some k => Some (float_of_decimal all (k - Z.of_nat n2))
       | None => None
       end.

Definition float_of_string (s : string) : option float :=
  match s with
  | String "-" s' => option_map SFopp (unsigned_float s')
  | String "+" s' => unsigned_float s'
  | _ => unsigned_float s
  end.

(** ** Examples *)

Definition dec (n : Z) (places : nat) : float := float_of_Z_ratio n (pow10 places).

Example format_third : format_f 3 (fdiv (float_of_Z 1) (float_of_Z 3)) = "0.333".
Proof. vm_compute. reflexivity. Qed.

(** 2.675 is below the tie in binary. *)
Example format_below_tie : format_f 2 (dec 2675 3) = "2.67".
Proof. vm_compute. reflexivity. Qed.

Example format_tie_even : (format_f 0 (dec 5 1), format_f 0 (dec 15 1), format_f 0 (dec 25 1)) = ("0", "2", "2").
Proof. vm_compute. reflexivity. Qed.

Example format_negative_zero : format_f 2 (dec (-1) 3) = "-0.00".
Proof. vm_compute. reflexivity. Qed.

Example round_4 : round_to 4 (dec 123456789 8) = dec 12346 4.
Proof. vm_compute. reflexivity. Qed.

Example add_tenths : fadd (dec 1 1) (dec 2 1) <> dec 3 1.
Proof. vm_compute. discriminate. Qed.

Example g_whole : map format_g [float_of_Z 100; dec 15 1; float_of_Z 1000000; dec 1 5; float_of_Z 999999]
  = ["100"; "1.5"; "1e+06"; "1e-05"; "999999"].
Proof. vm_compute. reflexivity. Qed.

Example repr_some :
  map float_repr [dec 1 1; float_of_Z 5; dec 12346 4; dec 1 5; fadd (dec 1 1) (dec 2 1); float_of_Z (10 ^ 16)]
  = ["0.1"; "5.0"; "1.2346"; "1e-05"; "0.30000000000000004"; "1e+16"].
Proof. vm_compute. reflexivity. Qed.

Example read_some :
  map float_of_string ["0.1"; "-1.5e3"; "1700000000.25"; ""; "."; "1.2.3"]
  = [Some (dec 1 1); Some (float_of_Z (-1500)); Some (dec 170000000025 2); None; None; None].
Proof. vm_compute. reflexivity. Qed.

(** ** Lemmas *)

(** The rounding is to a nearest integer. *)
Lemma round_half_even_nearest num den : 0 < den ->
  2 * Z.abs (den * round_half_even num den - num) <= den.
Proof.
  intros Hd. unfold round_half_even.
  pose proof (Z.div_mod num den ltac:(lia)) as Hdm.
  pose proof (Z.mod_pos_bound num den Hd) as Hr.
  destruct (Z.compare_spec (2 * (num mod den)) den); [destruct (Z.even _)|..]; lia.
Qed.

Lemma round_half_even_le num den b : 0 < den -> num <= b * den -> round_half_even num den <= b.
Proof.
  intros Hd Hb. pose proof (round_half_even_nearest num den Hd). nia.
Qed.

Lemma round_half_even_ge num den b : 0 < den -> b * den <= num -> b <= round_half_even num den.
Proof.
  intros Hd Hb. pose proof (round_half_even_nearest num den Hd). nia.
Qed.

Lemma round_half_even_exact n den : 0 < den -> round_half_even (n * den) den = n.
Proof.
  intros Hd. unfold round_half_even. rewrite Z.div_mul, Z_mod_mult by lia.
  by destruct (Z.compare_spec (2 * 0) den); [lia| |lia].
Qed.

(** Rounding preserves order. *)
Lemma round_half_even_mono n1 n2 den : 0 < den -> n1 <= n2 ->
  round_half_even n1 den <= round_half_even n2 den.
Proof.
  intros Hd Hn. destruct (Z.le_gt_cases (n1 / den + 1) (n2 / den)) as [Hq|Hq].
  - transitivity (n1 / den + 1); [|transitivity (n2 / den); [done|]].
    + apply round_half_even_le; [done|]. pose proof (Z.div_mod n1 den ltac:(lia)).
      pose proof (Z.mod_pos_bound n1 den Hd). nia.
    + apply round_half_even_ge; [done|]. pose proof (Z.div_mod n2 den ltac:(lia)).
      pose proof (Z.mod_pos_bound n2 den Hd). nia.
  - assert (n1 / den = n2 / den) as Heq by (pose proof (Z.div_le_mono n1 n2 den Hd Hn); lia).
    pose proof (Z.div_mod n1 den ltac:(lia)). pose proof (Z.div_mod n2 den ltac:(lia)).
    unfold round_half_even. rewrite Heq in *.
    destruct (Z.compare_spec (2 * (n1 mod den)) den), (Z.compare_spec (2 * (n2 mod den)) den);
      try destruct (Z.even _); lia.
Qed.

(** ** The order

    On numbers the comparison is the lexicographic order of a sign class, an
    exponent and a mantissa, so it is a total preorder; not-a-number compares
    with nothing. *)

Definition is_number (x : float) : bool := match x with S754_nan => false | _ => true end.

Definition order_key (x : float) : Z * Z * Z :=
  match x with
  | S754_nan => (0, 0, 0)
  | S754_infinity true => (-2, 0, 0)
  | S754_finite true m e => (-1, - e, Zneg m)
  | S754_zero _ => (0, 0, 0)
  | S754_finite false m e => (1, e, Zpos m)
  | S754_infinity false => (2, 0, 0)
  end.

Definition key_lt (a b : Z * Z * Z) : Prop :=
  let '(a1, a2, a3) := a in
  let '(b1, b2, b3) := b in
  a1 < b1 \/ (a1 = b1 /\ (a2 < b2 \/ (a2 = b2 /\ a3 < b3))).

Lemma flt_key x y : is_number x = true -> is_number y = true ->
  flt x y = true <-> key_lt (order_key x) (order_key y).
Proof.
  unfold flt, SFltb, SFcompare, key_lt.
  destruct x as [|sx| |sx mx ex], y as [|sy| |sy my ey]; try done; intros _ _;
    try destruct sx; try destruct sy; simpl; try (split; [done|lia]); try (split; [lia|done]).
  all: try (destruct (Z.compare_spec ex ey); simpl;
    try (split; [done|lia]); try (split; [lia|done])).
  all: change (Pos.compare_cont Eq mx my) with (Pos.compare mx my);
    destruct (Pos.compare_spec mx my); simpl; split; (done || lia).
Qed.

Lemma fle_key x y : is_number x = true -> is_number y = true ->
  fle x y = true <-> ~ key_lt (order_key y) (order_key x).
Proof.
  unfold fle, SFleb, SFcompare, key_lt.
  destruct x as [|sx| |sx mx ex], y as [|sy| |sy my ey]; try done; intros _ _;
    try destruct sx; try destruct sy; simpl; try (split; [done|lia]); try (split; [lia|done]).
  all: try (destruct (Z.compare_spec ex ey); simpl;
    try (split; [done|lia]); try (split; [lia|done])).
  all: change (Pos.compare_cont Eq mx my) with (Pos.compare mx my);
    destruct (Pos.compare_spec mx my); simpl; split; (done || lia).
Qed.

Lemma flt_key_false x y : is_number x = true -> is_number y = true ->
  flt x y = false <-> ~ key_lt (order_key x) (order_key y).
Proof. intros Hx Hy. rewrite <- flt_key by done. by destruct (flt x y). Qed.

Lemma flt_irrefl x : flt x x = false.
Proof.
  destruct (is_number x) eqn:Hx; [|by destruct x].
  apply flt_key_false; [done..|]. unfold key_lt. destruct (order_key x) as [[]]. lia.
Qed.

Lemma flt_asym x y : flt x y = true -> flt y x = false.
Proof.
  destruct (is_number x) eqn:Hx; [|by destruct x]. destruct (is_number y) eqn:Hy; [|by destruct y].
  rewrite flt_key, flt_key_false by done. unfold key_lt.
  destruct (order_key x) as [[]], (order_key y) as [[]]. lia.
Qed.

(** No number is below one that is not below a third, unless it is below that. *)
Lemma flt_step x y z : is_number x = true -> is_number y = true -> is_number z = true ->
  flt y x = false -> flt z y = false -> flt z x = false.
Proof.
  intros Hx Hy Hz. rewrite !flt_key_false by done. unfold key_lt.
  destruct (order_key x) as [[]], (order_key y) as [[]], (order_key z) as [[]]. lia.
Qed.

Lemma fle_flt x y : is_number x = true -> is_number y = true -> fle x y = negb (flt y x).
Proof.
  intros Hx Hy. pose proof (fle_key x y Hx Hy) as H1. pose proof (flt_key y x Hy Hx) as H2.
  destruct (fle x y), (flt y x); naive_solver.
Qed.
