(* ===== verification/Daemon.v ===== *)
(** * The daemon: syncfs.cpp around its loop

    [iteration] (SyncLoop) takes the listing and the message of a turn as inputs; here the
    loop owns its monitor and lists the tree when the monitor wakes it, and owns its sink
    and reads it at the end of the turn.  Around that: the state the
    loop starts in, the settings of the session, the table it logs every two seconds,
    and [main], which touches the sockets in a fixed order or refuses to start.  ZMQ may
    throw at any operation: whether it does is a class. *)

From stdpp Require Import sets.
From S2P Require Import Prelude OrdMap FsPath Utils Files Monitor Discovery Reconcile Protocol Source Sink LocalChanges SyncLoop LoopInvariant PyFloat.

(** ** print_session_statistics *)

Section statistics.
Context `{Torrents}.

(** What the table shows of [lt::torrent_status]; [None] is an expired [torrent_file]. *)
Record torrent_status := TorrentStatus {
  torrent_file : option torrent; progress : float; total_done : Z; num_seeds : Z; num_peers : Z;
  st_state : state_t;
}.

Definition status_path (ti : option torrent) : string :=
  match ti with Some ti => file_path ti | None => "<gone>" end.

Definition tabs : string := String TAB (String TAB "").

Definition statistics_header : string :=
  "Name" +:+ tabs +:+ "Progr" +:+ tabs +:+ "Total" +:+ tabs +:+ "Seeds" +:+ String TAB "Peers" +:+ String TAB "State".

Definition statistics_row (t : torrent_status) : string :=
  status_path (torrent_file t) +:+ tabs +:+ format_f 2 (progress t) +:+ tabs +:+ Z_to_string (total_done t) +:+ tabs
  +:+ Z_to_string (num_seeds t) +:+ String TAB (Z_to_string (num_peers t) +:+ String TAB (to_string (st_state t))).

Definition print_session_statistics (torrents : list torrent_status) : string :=
  foldl (fun msg t => msg +:+ String NEWLINE (statistics_row t)) (String NEWLINE statistics_header) torrents.
End statistics.

(** ** The settings of the session *)

Inductive setting := SetString (name value : string) | SetBool (name : string) (b : bool) | SetInt (name : string) (z : Z).

Definition libtorrent_port_offset : Z := 2000.

Definition libtorrent_listen_port (local_port : Z) : Z := wrap_u16 (local_port + libtorrent_port_offset).

Definition session_settings (alert_mask local_port : Z) : list setting :=
  [SetString "listen_interfaces" ("0.0.0.0:" +:+ Z_to_string (libtorrent_listen_port local_port));
   SetBool "allow_multiple_connections_per_ip" true;
   SetInt "active_downloads" (-1); SetInt "active_seeds" (-1); SetInt "active_limit" (-1);
   SetInt "connections_limit" (-1); SetInt "min_reconnect_time" 1;
   SetString "dht_bootstrap_nodes" ""; SetInt "alert_mask" alert_mask].

Section daemon.
Context `{Torrents} `{!Session} `{Disk} `{!Announcer} `{Hasher256} `{Generator} `{Kernel} `{Receiving}.

(** ** A turn with its own monitor and sink *)

(** [i_walk] is what [files::list] meets once the events are discarded, [i_arrived] the
    messages that come in during the turn; [i_turn] is the rest of what it reads. *)
Record input := Input { i_turn : turn; i_walk : list walk_step; i_arrived : list wire }.

Definition seen_by (woken : option (list walk_step)) (d : delivery) (t : turn) : turn :=
  Turn (t_now t) (t_statuses t) (t_alerts t) woken (t_noticed t) (t_moments t) (t_expiry t)
    d (t_sys t) (t_steady t).

(** What the loop owns. *)
Definition loop_owned : Type := kernel * monitor * zmq_socket * loop_state.

(** [if (file_monitor.wait()) { ... discard() ... list() ... }]: what the turn lists,
    or the exception of the poll. *)
Definition file_event (fuel : nat) (k : kernel) (m : monitor) (walk : list walk_step)
    : kernel * monitor * option (option (list walk_step)) :=
  match wait fuel k m with
  | (k, m, Woken true) => let '(k, m, _) := discard k m in (k, m, Some (Some walk))
  | (k, m, Woken false) => (k, m, Some None)
  | (k, m, WaitThrew) | (k, m, OutOfFuel) => (k, m, None)
  end.

(** The turn's statistics and alerts come before [wait] and are part of it even when
    the poll throws; nothing is sent by them.  What the sink reads does not depend on the
    rest of the turn. *)
Definition watched_turn (server : source) (fuel : nat) (i : input) (st : loop_owned) : step loop_owned :=
  let '(k, m, s, l) := st in
  match file_event fuel k m (i_walk i) with
  | (k, m, None) => ([], None)
  | (k, m, Some woken) =>
      let '(s, d) := listen (arrive s (i_arrived i)) max_parts in
      step_bind (iteration server (seen_by woken d (i_turn i)) l) (fun l => ([], Some (k, m, s, l)))
  end.

(** Turns until one finds [stop_requested] set. *)
Fixpoint turns (server : source) (fuel : nat) (inputs : list input) (st : loop_owned) : step loop_owned :=
  match inputs with
  | [] => ([], Some st)
  | i :: inputs' => step_bind (watched_turn server fuel i st) (turns server fuel inputs')
  end.

(** ** sync_loop *)

(** What the process finds when the loop starts; [None] is the exception of the
    session's constructor. *)
Record surroundings := Surroundings {
  s_walk : list walk_step; s_disk : disk; s_kernel : kernel; s_listener : zmq_socket; s_partner : generator;
  s_stats_now : steady_time; s_change_now : steady_time; s_state_now : steady_time;
  s_alert_mask : Z; s_session : list setting -> option session; s_listen_port : session -> Z;
  s_inputs : list input;
}.

Definition initial_state (s : surroundings) (ses : session) (former : file_map) : loop_state :=
  LoopState (Node (World ses (s_disk s) []) former (Inbound [] []) (Repairs [] [] []) []) (s_partner s)
    (s_stats_now s) (s_change_now s) (s_state_now s) true.

Definition sync_loop (fuel : nat) (s : surroundings) (local_addr : string) (local_port : Z) : step unit :=
  let former := list_tree (s_walk s) in
  match s_session s (session_settings (s_alert_mask s) local_port) with
  | None => ([], None)
  | Some ses =>
      let server := Source (local_addr, s_listen_port s ses) (own_endpoint local_addr local_port) in
      match new_monitor (s_kernel s) with
      | None => ([], None)
      | Some (k, m) =>
          step_bind (turns server fuel (s_inputs s) (k, m, s_listener s, initial_state s ses former)) (fun _ => ([], Some tt))
      end
  end.

(** The wall clock instant of an alert: libtorrent's age of it, taken off the time now. *)
Definition alert_time (lt_now timestamp : Z) (sys_now : sys_time) : file_time :=
  to_file_time (sys_now - (lt_now - timestamp)).

(** ** main *)

Inductive socket := Listener | Client.
Inductive signal := SIGTERM | SIGINT.

Inductive complaint :=
| Usage | BadPeers (e : discovery_error) | NoPeers (peers_file : string) | Unusable (e : listen_error)
| ZmqError (num : Z) (what : string) | StdError (what : string) | LoopThrew.

(** What the process does to the world, in order. *)
Inductive effect :=
| Says (c : complaint)
| Handles (s : signal)
| Subscribes (filter : string)
| HighWater (s : socket) (mark : Z)
| Connects (s : socket) (endpoint : string)
| Binds (s : socket) (endpoint : string)
| Publishes (sent : list wire).

(** Whether ZMQ throws at an operation, after what was done before it: [e.num()] and
    [e.what()]. *)
Class Sockets := refuses : list effect -> effect -> option (Z * string).

Context `{!Sockets}.

(** A run so far, and how it goes on: [inr] is an exception on its way to main's handlers. *)
Definition prog (A : Type) : Type := list effect -> list effect * (A + complaint).

Definition pret {A} (a : A) : prog A := fun done => (done, inl a).
Definition throws {A} (c : complaint) : prog A := fun done => (done, inr c).
Definition pbind {A B} (m : prog A) (f : A -> prog B) : prog B := fun done =>
  match m done with (done, inl a) => f a done | (done, inr c) => (done, inr c) end.
Definition performs (e : effect) : prog unit := fun done => (done ++ [e], inl tt).
Definition zmq (e : effect) : prog unit := fun done =>
  match refuses done e with
  | Some (num, what) => (done, inr (ZmqError num what))
  | None => (done ++ [e], inl tt)
  end.

Fixpoint in_order {A} (f : A -> prog unit) (l : list A) : prog unit :=
  match l with [] => pret tt | a :: l' => pbind (f a) (fun _ => in_order f l') end.

Definition announcement_backlog : Z := 100000.

Inductive exit_code := ExitSuccess | ExitFailure.

(** A complaint and [EXIT_FAILURE]. *)
Definition refuse (c : complaint) : prog exit_code := pbind (performs (Says c)) (fun _ => pret ExitFailure).

(** The sockets, in the order the code sets them up. *)
Definition set_up_sockets (peers : list string) (arg : string) : prog unit :=
  let my_address := my_address arg in
  pbind (in_order (fun f => zmq (Subscribes f)) (subscribe my_address)) (fun _ =>
  pbind (zmq (HighWater Listener announcement_backlog)) (fun _ =>
  pbind (in_order (fun peer => zmq (Connects Listener peer)) peers) (fun _ =>
  pbind (zmq (Connects Listener my_address)) (fun _ =>
  pbind (zmq (HighWater Client announcement_backlog)) (fun _ =>
  zmq (Binds Client my_address)))))).

Definition start_loop (fuel : nat) (s : surroundings) (arg : string) : prog exit_code :=
  match parse_host_port arg with
  | inr (InvalidArgument what) | inr (OutOfRange what) => throws (StdError what)
  | inl (host, port) =>
      let '(sent, ended) := sync_loop fuel s host (wrap_u16 port) in
      pbind (performs (Publishes sent)) (fun _ =>
      match ended with Some _ => pret ExitSuccess | None => throws LoopThrew end)
  end.

Definition checked_main (fuel : nat) (s : surroundings) (open_file : string -> opened) (args : list string)
    : prog exit_code :=
  match args with
  | _ :: peers_file :: arg :: _ =>
      pbind (performs (Handles SIGTERM)) (fun _ =>
      pbind (performs (Handles SIGINT)) (fun _ =>
      match parse (open_file peers_file) with
      | None => throws LoopThrew
      | Some (inr e) => refuse (BadPeers e)
      | Some (inl []) => refuse (NoPeers peers_file)
      | Some (inl peers) =>
          match check_listen_address arg with
          | inr e => refuse (Unusable e)
          | inl tt => pbind (set_up_sockets peers arg) (fun _ => start_loop fuel s arg)
          end
      end))
  | _ => refuse Usage
  end.

(** The function try block: what escapes is logged and is a failure. *)
Definition main (fuel : nat) (s : surroundings) (open_file : string -> opened) (args : list string)
    : list effect * exit_code :=
  match checked_main fuel s open_file args [] with
  | (done, inl code) => (done, code)
  | (done, inr c) => (done ++ [Says c], ExitFailure)
  end.
End daemon.

(** ** Lemmas: a plan carried out, or cut short *)

Section starting.
Context `{Torrents} `{!Session} `{Disk} `{!Announcer} `{Hasher256} `{Generator} `{Kernel} `{Receiving} `{!Sockets}.

(** The effects of [m] are [l], or a beginning of it and an exception. *)
Definition carries_out (m : prog unit) (l : list effect) : Prop := forall done,
  m done = (done ++ l, inl tt) \/ exists k c, m done = (done ++ take k l, inr c).

Lemma zmq_carries_out e : carries_out (zmq e) [e].
Proof.
  intros done. unfold zmq. destruct (refuses done e) as [[num what]|]; [|by left].
  right. exists 0%nat, (ZmqError num what). by rewrite app_nil_r.
Qed.

Lemma bind_carries_out m1 m2 l1 l2 : carries_out m1 l1 -> carries_out m2 l2 ->
  carries_out (pbind m1 (fun _ => m2)) (l1 ++ l2).
Proof.
  intros Hm1 Hm2 done. unfold pbind. destruct (Hm1 done) as [-> | (k & c & ->)].
  - destruct (Hm2 (done ++ l1)) as [-> | (k & c & ->)]; [left; by rewrite app_assoc|].
    right. exists (length l1 + k)%nat, c. by rewrite take_app_add, app_assoc.
  - right. exists (k `min` length l1)%nat, c. by rewrite take_app_le, <- take_take, firstn_all by lia.
Qed.

Lemma in_order_carries_out {A} (f : A -> effect) l : carries_out (in_order (fun a => zmq (f a)) l) (map f l).
Proof.
  induction l as [|a l IH]; [by left; rewrite app_nil_r|].
  apply (bind_carries_out _ _ [f a]); [apply zmq_carries_out|exact IH].
Qed.

(** What the sockets are set up with, from the subscriptions to the bind. *)
Definition plan (peers : list string) (arg : string) : list effect :=
  map Subscribes (subscribe (my_address arg)) ++ [HighWater Listener announcement_backlog]
  ++ map (Connects Listener) peers ++ [Connects Listener (my_address arg)]
  ++ [HighWater Client announcement_backlog] ++ [Binds Client (my_address arg)].

Definition touches_socket (e : effect) : bool :=
  match e with Subscribes _ | HighWater _ _ | Connects _ _ | Binds _ _ => true | _ => false end.

Lemma set_up_carries_out peers arg : carries_out (set_up_sockets peers arg) (plan peers arg).
Proof.
  unfold set_up_sockets, plan.
  repeat (apply bind_carries_out; [apply in_order_carries_out || apply zmq_carries_out|]). apply zmq_carries_out.
Qed.

Lemma start_loop_runs fuel s arg done :
  (exists c, start_loop fuel s arg done = (done, inr c)) \/
  exists host port sent ended, parse_host_port arg = inl (host, port) /\
    sync_loop fuel s host (wrap_u16 port) = (sent, ended) /\
    start_loop fuel s arg done =
      (done ++ [Publishes sent], match ended with Some _ => inl ExitSuccess | None => inr LoopThrew end).
Proof.
  unfold start_loop. destruct (parse_host_port arg) as [[host port]|[w|w]]; [right|left; by eexists..].
  destruct (sync_loop _ _ _ _) as [sent ended] eqn:E. exists host, port, sent, ended.
  split; [done|]. split; [done|]. by destruct ended.
Qed.

Definition signals : list effect := [Handles SIGTERM; Handles SIGINT].

(** The arguments the process can run on. *)
Definition usable (open_file : string -> opened) (args : list string) (peers : list string) (arg : string) : Prop :=
  exists program peers_file rest, args = program :: peers_file :: arg :: rest /\
    parse (open_file peers_file) = Some (inl peers) /\ peers <> [] /\ check_listen_address arg = inl tt.

(** What a run comes to. *)
Inductive ran (fuel : nat) (s : surroundings) (open_file : string -> opened) (args : list string)
    : list effect * exit_code -> Prop :=
| ran_refused done c :
    (forall peers arg, ~ usable open_file args peers arg) -> done = [] \/ done = signals ->
    ran fuel s open_file args (done ++ [Says c], ExitFailure)
| ran_cut_short peers arg k c :
    usable open_file args peers arg ->
    ran fuel s open_file args (signals ++ take k (plan peers arg) ++ [Says c], ExitFailure)
| ran_to_the_end peers arg host port sent ended :
    usable open_file args peers arg -> parse_host_port arg = inl (host, port) ->
    sync_loop fuel s host (wrap_u16 port) = (sent, ended) ->
    ran fuel s open_file args (signals ++ plan peers arg ++ Publishes sent ::
      match ended with Some _ => [] | None => [Says LoopThrew] end,
      match ended with Some _ => ExitSuccess | None => ExitFailure end).

Lemma main_ran fuel s open_file args : ran fuel s open_file args (main fuel s open_file args).
Proof.
  unfold main, checked_main.
  destruct args as [|program [|peers_file [|arg rest]]];
    try (apply (ran_refused _ _ _ _ [] Usage); [intros ? ? (? & ? & ? & ? & _); congruence|by left]).
  change (pbind (performs (Handles SIGTERM)) _ []) with
    (match parse (open_file peers_file) with
      | None => throws LoopThrew
      | Some (inr e) => refuse (BadPeers e)
      | Some (inl []) => refuse (NoPeers peers_file)
      | Some (inl peers) =>
          match check_listen_address arg with
          | inr e => refuse (Unusable e)
          | inl tt => pbind (set_up_sockets peers arg) (fun _ => start_loop fuel s arg)
          end
      end signals).
  destruct (parse_total (open_file peers_file)) as [r Hr]. rewrite Hr.
  destruct r as [[|peer peers]|e];
    try (apply (ran_refused _ _ _ _ signals); [intros ? ? (? & ? & ? & ? & ? & ? & _); simplify_eq; congruence|by right]).
  destruct (check_listen_address arg) as [[]|e] eqn:Ec;
    [|apply (ran_refused _ _ _ _ signals); [intros ? ? (? & ? & ? & ? & ? & ? & ?); simplify_eq; congruence|by right]].
  assert (usable open_file (program :: peers_file :: arg :: rest) (peer :: peers) arg) as Hu
    by (by exists program, peers_file, rest).
  unfold pbind. destruct (set_up_carries_out (peer :: peers) arg signals) as [-> | (k & c & ->)].
  2: { rewrite <- app_assoc. by apply ran_cut_short. }
  destruct (start_loop_runs fuel s arg (signals ++ plan (peer :: peers) arg))
    as [[c ->]|(host & port & sent & ended & Hp & Hl & ->)].
  - rewrite <- app_assoc. rewrite <- (firstn_all (plan _ _)) at 1. by apply ran_cut_short.
  - pose proof (ran_to_the_end fuel s open_file _ _ arg host port sent ended Hu Hp Hl) as Hran.
    destruct ended; rewrite <- !app_assoc in *; exact Hran.
Qed.

(** Before a socket connects or binds, its high water mark is set, and before the
    listener connects every subscription is made. *)
Definition ready_for (arg : string) (e : effect) (before : list effect) : Prop :=
  match e with
  | Connects Listener _ =>
      HighWater Listener announcement_backlog ∈ before /\
      Forall (fun f => Subscribes f ∈ before) (subscribe (my_address arg))
  | Connects s _ | Binds s _ => HighWater s announcement_backlog ∈ before
  | _ => True
  end.

Fixpoint in_good_order (arg : string) (before l : list effect) : Prop :=
  match l with [] => True | e :: l' => ready_for arg e before /\ in_good_order arg (before ++ [e]) l' end.

Lemma good_order_at arg before a e b : in_good_order arg before (a ++ e :: b) -> ready_for arg e (before ++ a).
Proof.
  revert before. induction a as [|x a IH]; intros before; simpl.
  - intros [He _]. by rewrite app_nil_r.
  - intros [_ Ha]. apply IH in Ha. by rewrite <- app_assoc in Ha.
Qed.

Lemma good_order_app arg before l1 l2 :
  in_good_order arg before (l1 ++ l2) <-> in_good_order arg before l1 /\ in_good_order arg (before ++ l1) l2.
Proof.
  revert before. induction l1 as [|x l1 IH]; intros before; simpl; [rewrite app_nil_r; naive_solver|].
  rewrite IH, <- app_assoc. naive_solver.
Qed.

Lemma good_order_free arg before l : Forall (fun e => forall before, ready_for arg e before) l ->
  in_good_order arg before l.
Proof. intros Hl. revert before. induction Hl as [|e l He Hl IH]; intros before; [done|]. by split. Qed.

Lemma good_order_connects arg before peers :
  HighWater Listener announcement_backlog ∈ before ->
  Forall (fun f => Subscribes f ∈ before) (subscribe (my_address arg)) ->
  in_good_order arg before (map (Connects Listener) peers).
Proof.
  revert before. induction peers as [|p peers IH]; intros before Hw Hs; [done|]. split; [done|]. apply IH.
  - apply elem_of_app. by left.
  - eapply Forall_impl; [exact Hs|]. intros f Hf. apply elem_of_app. by left.
Qed.

Lemma plan_in_good_order arg peers : in_good_order arg signals (plan peers arg).
Proof.
  set (b := signals ++ map Subscribes (subscribe (my_address arg))).
  assert (forall l, Forall (fun f => Subscribes f ∈ b ++ l) (subscribe (my_address arg))) as Hb.
  { intros l. apply Forall_forall. intros f Hf. apply elem_of_app. left. apply elem_of_app. right.
    apply list_elem_of_fmap. by exists f. }
  unfold plan. rewrite !good_order_app. fold b. split; [|split; [by split|split; [|split; [|split; [by split|]]]]].
  - apply good_order_free, Forall_forall. intros e (f & -> & _)%list_elem_of_fmap. done.
  - apply good_order_connects; [set_solver|apply Hb].
  - split; [|done]. rewrite <- !app_assoc. split; [set_solver|apply Hb].
  - split; [|done]. cbn [ready_for]. set_solver.
Qed.

Lemma good_order_take arg before k l : in_good_order arg before l -> in_good_order arg before (take k l).
Proof. intros Hl. rewrite <- (take_drop k l) in Hl. by apply good_order_app in Hl as [Hl _]. Qed.

Lemma usable_unique open_file args peers arg peers' arg' :
  usable open_file args peers arg -> usable open_file args peers' arg' -> peers' = peers /\ arg' = arg.
Proof. intros (? & ? & ? & -> & Hp & _) (? & ? & ? & ? & Hp' & _). by simplify_eq. Qed.

Lemma filter_plan peers arg l : (forall e, e ∈ l -> touches_socket e = false) ->
  forall k, List.filter touches_socket (signals ++ take k (plan peers arg) ++ l) = take k (plan peers arg).
Proof.
  intros Hl k. rewrite !List.filter_app.
  assert (List.filter touches_socket l = []) as ->.
  { induction l as [|e l IH]; [done|]. simpl. rewrite Hl by by left. apply IH. intros e' He. apply Hl. by right. }
  rewrite app_nil_r. cbn [signals List.filter touches_socket app].
  assert (Forall (fun e => touches_socket e = true) (take k (plan peers arg))) as Hp.
  { apply Forall_take. unfold plan. rewrite !Forall_app, !Forall_fmap. repeat split; by repeat constructor || apply Forall_true. }
  induction Hp as [|e p He _ IH]; [done|]. simpl. rewrite He. by f_equal.
Qed.

Lemma run_in_good_order peers arg k l : (forall e before, e ∈ l -> ready_for arg e before) ->
  forall before e after, signals ++ take k (plan peers arg) ++ l = before ++ e :: after -> ready_for arg e before.
Proof.
  intros Hl before e after Heq. apply (good_order_at arg [] before e after). rewrite <- Heq, !good_order_app.
  split; [by repeat split|]. split; [apply good_order_take, plan_in_good_order|].
  apply good_order_free, Forall_forall. intros x Hx ?. by apply Hl.
Qed.

Lemma ends_otherwise p l c sent : signals ++ p ++ [Publishes sent] = l ++ [Says c] -> False.
Proof. rewrite app_assoc. by intros [_ ?]%app_inj_tail. Qed.

(** C12: the process either refuses to run, saying why and touching no socket, or sets
    its sockets up for the peers it read and the address it checked; when ZMQ throws, what
    was done is a beginning of that.  It exits with success only after a loop that was
    stopped, and never fails without saying why.  No socket connects or binds before its
    high water mark is set, nor the listener before all its subscriptions are made: an
    announcement that comes at once is neither dropped by the default mark nor filtered. *)
Theorem main_starts_in_order fuel s open_file args done code :
  main fuel s open_file args = (done, code) ->
  ((exists peers arg, usable open_file args peers arg) \/
   code = ExitFailure /\ forall e, e ∈ done -> touches_socket e = false) /\
  (code = ExitFailure <-> exists c before, done = before ++ [Says c]) /\
  (forall peers arg, usable open_file args peers arg ->
     (exists k, List.filter touches_socket done = take k (plan peers arg)) /\
     (code = ExitSuccess <-> exists host port sent, parse_host_port arg = inl (host, port) /\
        sync_loop fuel s host (wrap_u16 port) = (sent, Some tt) /\
        done = signals ++ plan peers arg ++ [Publishes sent]) /\
     forall before e after, done = before ++ e :: after -> ready_for arg e before).
Proof.
  intros Hmain. pose proof (main_ran fuel s open_file args) as Hran. rewrite Hmain in Hran. clear Hmain.
  assert (forall l : list effect, l = [] \/ l = signals -> forall c e, e ∈ l ++ [Says c] -> touches_socket e = false) as Hs
    by (intros ? [-> | ->] c e; set_solver).
  remember (done, code) as r eqn:Hr.
  destruct Hran as [d c Hno Hd|peers arg k c Hu|peers arg host port sent ended Hu Hp Hl]; apply pair_eq in Hr as [<- <-].
  - split; [right; eauto|]. split; [split; [eauto|done]|]. intros peers arg Hu. by destruct (Hno peers arg).
  - split; [left; eauto|]. split; [split; [intros _; exists c, (signals ++ take k (plan peers arg)); by rewrite <- app_assoc|done]|]. intros peers' arg' Hu'.
    destruct (usable_unique _ _ _ _ _ _ Hu Hu') as [-> ->]. split; [|split].
    + exists k. apply filter_plan. set_solver.
    + split; [done|]. intros (? & ? & ? & _ & _ & Heq).
      symmetry in Heq. destruct (ends_otherwise (plan peers arg) (signals ++ take k (plan peers arg)) c _ Heq).
    + apply run_in_good_order. intros e before. set_solver.
  - assert (forall e, e ∈ Publishes sent :: match ended with Some _ => [] | None => [Says LoopThrew] end ->
      touches_socket e = false /\ forall before, ready_for arg e before) as Hrest by (destruct ended; set_solver).
    rewrite <- (firstn_all (plan peers arg)). split; [left; eauto|]. split.
    { destruct ended; [|split; [|done]; intros _; exists LoopThrew, (signals ++ plan peers arg ++ [Publishes sent]);
        rewrite firstn_all, <- !app_assoc; reflexivity].
      split; [done|]. intros (c & before & Heq). rewrite firstn_all in Heq. by destruct (ends_otherwise _ _ _ _ Heq). }
    intros peers' arg' Hu'. destruct (usable_unique _ _ _ _ _ _ Hu Hu') as [-> ->]. split; [|split].
    + exists (length (plan peers arg)). apply filter_plan. naive_solver.
    + rewrite firstn_all. destruct ended as [[]|]; [split; [intros _; by exists host, port, sent|done]|].
      split; [done|]. intros (? & ? & sent' & _ & _ & Heq). symmetry in Heq.
      exfalso.
      apply (ends_otherwise (plan peers arg) (signals ++ plan peers arg ++ [Publishes sent]) LoopThrew sent').
      rewrite Heq. by rewrite <- !app_assoc.
    + apply run_in_good_order. naive_solver.
Qed.
End starting.

(** ** Lemmas: a turn and its monitor *)

Section watching.
Context `{Torrents} `{!Session} `{Disk} `{!Announcer} `{Hasher256} `{Generator} `{Kernel} `{Receiving}.

Lemma discard_batch k m : batch (discard k m).1.2 = [].
Proof.
  unfold discard. destruct (next_event k m) as [[k1 m1] r].
  pose proof (resync_batch k1 (Monitor (watches m1) [])) as Hb. by destruct (resync_watches k1 _) as [k2 m2].
Qed.

(** Whether an event that can have changed the listing is there. *)
Definition wakes (k : kernel) (m : monitor) : bool :=
  match Monitor.pending k m with Some (_, mq) => existsb drives_sync (batch mq) | None => false end.

Definition enough (fuel : nat) (k : kernel) (m : monitor) : Prop :=
  (0 < fuel)%nat /\ forall kq mq, Monitor.pending k m = Some (kq, mq) -> (length (batch mq) < fuel)%nat.

Lemma no_driver_left l : existsb drives_sync l = false -> from_first_driver l = [].
Proof. induction l as [|e l IH]; [done|]. simpl. by destruct (drives_sync e). Qed.

Lemma file_event_spec fuel k m walk k' m' woken : enough fuel k m ->
  file_event fuel k m walk = (k', m', Some woken) ->
  woken = (if wakes k m then Some walk else None) /\ batch m' = [].
Proof.
  intros [H0' Hf] He. pose proof (wait_wakes_exactly fuel k m H0' Hf) as Hw. unfold file_event in He. unfold wakes.
  destruct (Monitor.pending k m) as [[kq mq]|] eqn:Ep.
  - rewrite Hw in He. destruct (existsb drives_sync (batch mq)) eqn:Ed.
    + pose proof (discard_batch kq (Monitor (watches mq) (from_first_driver (batch mq)))) as Hb.
      destruct (discard kq _) as [[k2 m2] r]. by injection He as <- <- <-.
    + injection He as <- <- <-. split; [done|]. by apply no_driver_left.
  - destruct Hw as (k1 & r & Hw & Hr). rewrite Hw in He. destruct Hr as [-> | ->]; [|done].
    injection He as <- <- <-. split; [done|]. unfold Monitor.pending in Ep. by destruct (batch m).
Qed.

(** The part of a turn after the listing leaves the listing as it is, a message apart. *)
Lemma step_bind_Some {A B} (r : step A) (f : A -> step B) sent b : step_bind r f = (sent, Some b) ->
  exists s1 a s2, r = (s1, Some a) /\ f a = (s2, Some b) /\ sent = s1 ++ s2.
Proof.
  unfold step_bind. destruct r as [s1 [a|]]; [|done]. cbn [fst snd]. intros Heq.
  destruct (f a) as [s2 r2] eqn:Ef. injection Heq as <- ->. by exists s1, a, s2.
Qed.

Lemma on_round_keeps server t l sent l' : on_round server t l = (sent, Some l') ->
  n_former (l_node l') = n_former (l_node l) /\ l_last_change l' = l_last_change l.
Proof.
  unfold on_round. destruct (state_due _); [|by intros [= <- <-]].
  destruct (pick _ _ _) as [asked g]. by intros [= <- <-].
Qed.

Lemma on_repairs_keeps server t l sent l' : on_repairs server t l = (sent, Some l') ->
  n_former (l_node l') = n_former (l_node l) /\ l_last_change l' = l_last_change l.
Proof.
  unfold on_repairs. destruct (publish_repairs _ _ _ _ _) as [e r]. unfold emitted.
  destruct e.2; [|done]. by intros [= <- <-].
Qed.

Lemma on_alerts_keeps_change t l : l_last_change (on_alerts t (statistics t l)) = l_last_change l.
Proof. unfold on_alerts, statistics. destruct (t_alerts t), (interval <=? _); done. Qed.

(** A turn is its listing, then what it publishes, which leaves the listing alone, then the
    message it reads. *)
Lemma iteration_split server t l sent l' : iteration server t l = (sent, Some l') ->
  exists sent1 l1 l2, on_file_event server t (on_alerts t (statistics t l)) = (sent1, Some l1) /\
    n_former (l_node l2) = n_former (l_node l1) /\ l_last_change l2 = l_last_change l1 /\
    on_message server t l2 = ([], Some l').
Proof.
  intros (s1 & l1 & r1 & E1 & (s2 & l2 & r2 & E2 & (s3 & l3 & r3 & E3 & E4 & _)%step_bind_Some & _)%step_bind_Some & _)%step_bind_Some.
  exists s1, l1, l3. split; [done|]. apply on_repairs_keeps in E3 as [-> ->]. apply on_round_keeps in E2 as [-> ->].
  split; [done|]. split; [done|]. unfold on_message in *. destruct (t_message t); by inversion E4.
Qed.

(** C11: the listing follows the tree, on every turn the loop goes on from.  The turn
    leaves the monitor with no event.  The message it reads, if any, is handled last, in
    a state whose listing is, when one of the events that were there can have changed the
    listing, what the tree holds once they are consumed, with quiet counted from this
    turn; and otherwise the listing the libtorrent alerts left, with quiet going on.
    What came between, the round and the repairs, changed neither. *)
Theorem listing_follows_the_tree server fuel i k m s l sent k' m' s' l' :
  enough fuel k m -> watched_turn server fuel i (k, m, s, l) = (sent, Some (k', m', s', l')) ->
  let t := i_turn i in
  let read := (listen (arrive s (i_arrived i)) max_parts).2 in
  batch m' = [] /\ exists before,
    (if wakes k m then n_former (l_node before) = list_tree (i_walk i) /\ l_last_change before = t_now t
     else n_former (l_node before) = n_former (l_node (on_alerts t (statistics t l))) /\
       l_last_change before = l_last_change l) /\
    on_message server (seen_by (if wakes k m then Some (i_walk i) else None) read t) before = ([], Some l').
Proof.
  intros Hf Hw t read. unfold watched_turn in Hw. destruct (file_event fuel k m (i_walk i)) as [[k1 m1] [woken|]] eqn:Ee; [|done].
  unfold read. destruct (listen _ _) as [s0 d]. cbn [snd].
  apply step_bind_Some in Hw as (s1 & l1 & s2 & Hit & Heq & ->). injection Heq as <- <- <- <- <-.
  apply file_event_spec in Ee as [-> Hb]; [|done]. split; [done|].
  apply iteration_split in Hit as (sent1 & l2 & before & Hon & Hl & Hc & Hm). exists before.
  split; [|exact Hm]. rewrite Hl, Hc. clear Hm Hl Hc. unfold on_file_event in Hon. destruct (wakes k m).
  - cbn [seen_by t_walk] in Hon. destruct (local_changes _ _ _ _ _) as [df tomb].
    destruct (forget_spent_marks _ _ _ _) as [wr sp]. unfold emitted in Hon. destruct (send _ _ _ _ _).2; [|done].
    by injection Hon as <- <-.
  - cbn [seen_by t_walk] in Hon. injection Hon as <- <-. split; [done|]. apply on_alerts_keeps_change.
Qed.

(** ** The whole run *)

Definition stands (own : string) (r : option loop_owned) : Prop :=
  match r with Some (_, _, _, l) => node_ok own (l_node l) | None => True end.

Lemma watched_turn_ok server fuel i k m s l sent r : node_ok (endpoint server) (l_node l) ->
  watched_turn server fuel i (k, m, s, l) = (sent, r) ->
  Forall (sent_ok (endpoint server)) sent /\ stands (endpoint server) r.
Proof.
  intros Hok Hw. unfold watched_turn in Hw. destruct (file_event _ _ _ _) as [[k1 m1] [woken|]].
  2: { injection Hw as <- <-. by split. }
  destruct (listen _ _) as [s0 d]. destruct (loop_invariant server (seen_by woken d (i_turn i)) l Hok) as [Hs Hn].
  unfold step_bind in Hw. destruct (iteration _ _ _) as [s1 [l1|]]; cbn [fst snd] in *; injection Hw as <- <-.
  - rewrite app_nil_r. split; [done|]. by apply Hn.
  - by split.
Qed.

Lemma turns_ok server fuel inputs k m s l sent r : node_ok (endpoint server) (l_node l) ->
  turns server fuel inputs (k, m, s, l) = (sent, r) ->
  Forall (sent_ok (endpoint server)) sent /\ stands (endpoint server) r.
Proof.
  revert k m s l sent. induction inputs as [|i inputs IH]; intros k m s l sent Hok Hr; cbn [turns] in Hr.
  { injection Hr as <- <-. by split; [constructor|]. }
  destruct (watched_turn server fuel i (k, m, s, l)) as [s1 [[[[k1 m1] s0] l1]|]] eqn:Ew;
    apply watched_turn_ok in Ew as [Hs1 Hn]; try done; unfold step_bind in Hr; cbn [fst snd] in Hr.
  - destruct (turns server fuel inputs (k1, m1, s0, l1)) as [s2 r2] eqn:Et. injection Hr as <- <-.
    destruct (IH k1 m1 s0 l1 s2 Hn Et) as [Hs2 Hn2]. split; [by apply Forall_app|done].
  - injection Hr as <- <-. by split.
Qed.

Lemma initial_state_ok own s ses : node_ok own (l_node (initial_state s ses (list_tree (s_walk s)))).
Proof. repeat split; (apply sorted_list_tree || constructor || done). Qed.

(** C8: however long the process runs and whatever its turns bring, everything its loop
    publishes is a message its peers can read, a digest never addressed at itself; and
    wherever the loop is stopped, every map of the node is in order and the node is not
    among its own peers. *)
Theorem every_run_is_sound fuel s local_addr local_port :
  let own := own_endpoint local_addr local_port in
  Forall (sent_ok own) (sync_loop fuel s local_addr local_port).1 /\
  forall addr ses k m inputs k' m' listener l',
    (turns (Source addr own) fuel inputs (k, m, s_listener s, initial_state s ses (list_tree (s_walk s)))).2
      = Some (k', m', listener, l') ->
    node_ok own (l_node l').
Proof.
  intros own. split.
  - unfold sync_loop. destruct (s_session _ _) as [ses|]; [|constructor].
    destruct (new_monitor _) as [[k m]|]; [|constructor].
    destruct (turns _ _ _ _) as [sent r] eqn:Et. apply turns_ok in Et as [Hs _]; [|apply initial_state_ok].
    unfold step_bind. destruct r; cbn [fst snd]; rewrite ?app_nil_r; exact Hs.
  - intros addr ses k m inputs k' m' listener l' Ht. destruct (turns _ _ _ _) as [sent r] eqn:Et. cbn [snd] in Ht. subst r.
    by apply turns_ok in Et as [_ Hn]; [|apply initial_state_ok].
Qed.
End watching.

(** ** A process to run *)

Module DaemonSim.
Import LoopSim MonitorSim.
#[export] Existing Instances LoopSim.sim_announcer LoopSim.sim_generator prefix_hasher MonitorSim.toy_kernel
  ProtocolSim.sim_torrents ProtocolSim.sim_sessions ProtocolSim.sim_disk SinkSim.sim_receiving.

(** ZMQ throws at a bind when [taken] says the address is in use. *)
#[export] Instance sim_sockets : Sockets :=
  fun _ e => match e with Binds _ "tcp://taken:1" => Some (98, "Address already in use") | _ => None end.

Definition sim_turn (now : steady_time) : turn :=
  Turn now [seeding] None None 9 (fun _ => 9) 9 Idle 9 now.

(** The tree: one file. *)
Definition tree : list walk_step :=
  [Visit {| de_path := Path "./d/f"; de_time := Some 7; de_regular := Some true; de_symlink := Some false |}].

Definition sim_surroundings : surroundings :=
  Surroundings [] ([] : list (path * file_time)) (MonitorSim.disk : kernel) ([] : list wire) tt 0 0 0 0
    (fun _ => Some Protocol.sim_ses) (fun _ => 7555) [Input (sim_turn 5) tree []].

Definition peers_file (name : string) : opened :=
  if String.eqb name "peers" then text ("tcp://b:1" +:+ String NEWLINE "tcp://c:2") else NotOpen.

Example starts_and_publishes :
  main 3 sim_surroundings peers_file ["syncfs"; "peers"; "a:5555"] =
  ([Handles SIGTERM; Handles SIGINT; Subscribes "create"; Subscribes "remove"; Subscribes "state";
    Subscribes (address "digest" "tcp://a:5555"); HighWater Listener 100000; Connects Listener "tcp://b:1";
    Connects Listener "tcp://c:2"; Connects Listener "tcp://a:5555"; HighWater Client 100000;
    Binds Client "tcp://a:5555"; Publishes [["create"; "8 ./d/f"; Z_to_string (file_to_ticks 7); "./d/f"]]], ExitSuccess).
Proof. vm_compute. reflexivity. Qed.

Example refuses_no_peers : main 3 sim_surroundings peers_file ["syncfs"; "none"; "a:5555"] =
  ([Handles SIGTERM; Handles SIGINT; Says (BadPeers CannotRead)], ExitFailure).
Proof. vm_compute. reflexivity. Qed.
End DaemonSim.
Import DaemonSim.

Lemma main_starts_in_order_witness :
  let done := (main 3 sim_surroundings peers_file ["syncfs"; "peers"; "taken:1"]).1 in
  done = signals ++ take 9 (plan ["tcp://b:1"; "tcp://c:2"] "taken:1")
    ++ [Says (ZmqError 98 "Address already in use")] /\
  exists k, List.filter touches_socket done = take k (plan ["tcp://b:1"; "tcp://c:2"] "taken:1").
Proof.
  cbv zeta. split; [vm_compute; reflexivity|].
  destruct (main_starts_in_order 3 sim_surroundings peers_file ["syncfs"; "peers"; "taken:1"]
    (main 3 sim_surroundings peers_file ["syncfs"; "peers"; "taken:1"]).1
    (main 3 sim_surroundings peers_file ["syncfs"; "peers"; "taken:1"]).2) as (_ & _ & Hu).
  - apply surjective_pairing.
  - apply Hu. exists "syncfs", "peers", []. split; [reflexivity|]. split; [vm_compute; reflexivity|].
    split; [discriminate|vm_compute; reflexivity].
Defined.

(** A turn on which a file was written and a peer says where it stands. *)
Definition woken_input : input := Input (sim_turn 5) tree [["state"; "x"; "tcp://b:1"]].

Definition woken_turn : step loop_owned :=
  watched_turn (Source ("a", 1) "tcp://a:1") 3 woken_input
    (MonitorSim.disk : kernel, MonitorSim.fresh, ([] : list wire), initial_state sim_surroundings Protocol.sim_ses []).

Lemma listing_follows_the_tree_witness :
  match woken_turn with
  | (_, Some (_, m', _, l')) => batch m' = [] /\ exists before,
      (n_former (l_node before) = list_tree tree /\ l_last_change before = 5) /\
      on_message (Source ("a", 1) "tcp://a:1")
        (seen_by (Some tree) (Received (inl ["state"; "x"; "tcp://b:1"])) (sim_turn 5)) before = ([], Some l')
  | _ => False
  end.
Proof.
  assert (match woken_turn.2 with Some _ => true | None => false end = true) as Hok by (vm_compute; reflexivity).
  destruct woken_turn as [sent [[[[k' m'] s'] l']|]] eqn:E; [clear Hok|discriminate Hok].
  apply (@listing_follows_the_tree _ _ _ _ _ _ MonitorSim.toy_kernel SinkSim.sim_receiving (Source ("a", 1) "tcp://a:1") 3 woken_input
    MonitorSim.disk MonitorSim.fresh [] (initial_state sim_surroundings Protocol.sim_ses []) sent k' m' s' l').
  - split; [lia|]. intros kq mq Hp. vm_compute in Hp. injection Hp as _ <-. simpl. lia.
  - exact E.
Defined.
