(* ===== verification/Inbox.v ===== *)
(** * The messages of a run

    What the loop makes of the messages its peers send: [turns] (Daemon) is the loop over
    the deliveries of its sink, and those are the pieces of the queue (Sink), one a turn
    and in order. *)

From stdpp Require Import sets.
From S2P Require Import Prelude OrdMap FsPath Utils Files Monitor Reconcile Protocol Source Sink LocalChanges SyncLoop LoopInvariant Daemon.

Section inbox.
Context `{Torrents} `{!Session} `{Disk} `{!Announcer} `{Hasher256} `{Generator} `{Kernel} `{Receiving}.

(** *** The loop over given deliveries, one a turn *)

Definition reading_turn (server : source) (fuel : nat) (i : input) (d : delivery) (st : kernel * monitor * loop_state)
    : step (kernel * monitor * loop_state) :=
  let '(k, m, l) := st in
  match file_event fuel k m (i_walk i) with
  | (k, m, None) => ([], None)
  | (k, m, Some woken) =>
      step_bind (iteration server (seen_by woken d (i_turn i)) l) (fun l => ([], Some (k, m, l)))
  end.

Fixpoint turns_reading (server : source) (fuel : nat) (inputs : list input) (ds : list delivery)
    (st : kernel * monitor * loop_state) : step (kernel * monitor * loop_state) :=
  match inputs, ds with
  | [], [] => ([], Some st)
  | i :: inputs', d :: ds' => step_bind (reading_turn server fuel i d st) (turns_reading server fuel inputs' ds')
  | _, _ => ([], None)
  end.

Lemma max_parts_positive : (0 < max_parts)%nat.
Proof. unfold max_parts. lia. Qed.

Abbreviation pieces_of := (in_pieces max_parts max_parts_positive).

(** Every message of [q] fits. *)
Lemma whole_pieces q : Forall (fun m : wire => (length m <= max_parts)%nat) q -> pieces_of q = map inl q.
Proof.
  induction 1 as [|m q Hm _ IH]; [done|]. cbn [in_pieces flat_map map]. rewrite pieces_fits by done.
  unfold in_pieces in IH. by rewrite IH.
Qed.

Lemma in_pieces_app q1 q2 : pieces_of (q1 ++ q2) = pieces_of q1 ++ pieces_of q2.
Proof. apply flat_map_app. Qed.

Lemma read_at_most_one d : (length (read_by d) <= 1)%nat.
Proof. destruct d; simpl; lia. Qed.

Lemma watched_turn_reads server fuel i k m s l sent k' m' s' l' :
  watched_turn server fuel i (k, m, s, l) = (sent, Some (k', m', s', l')) ->
  exists d, listen (arrive s (i_arrived i)) max_parts = (s', d) /\ d <> Threw /\
    reading_turn server fuel i d (k, m, l) = (sent, Some (k', m', l')).
Proof.
  unfold watched_turn, reading_turn. destruct (file_event _ _ _ _) as [[k1 m1] [woken|]]; [|done].
  destruct (listen _ _) as [s0 d]. intros (s1 & l1 & r1 & Hit & Heq & ->)%step_bind_Some.
  injection Heq as <- <- <- <- <-. exists d. split; [done|]. split.
  - intros ->. unfold iteration in Hit.
    apply step_bind_Some in Hit as (? & ? & ? & _ & Hit & _). apply step_bind_Some in Hit as (? & ? & ? & _ & Hit & _).
    apply step_bind_Some in Hit as (? & ? & ? & _ & Hit & _). discriminate Hit.
  - rewrite Hit. unfold step_bind. cbn [fst snd]. done.
Qed.

Context `{!ReceivingLaws}.

Lemma turns_read server fuel inputs k m s l sent k' m' s' l' :
  turns server fuel inputs (k, m, s, l) = (sent, Some (k', m', s', l')) ->
  exists ds, turns_reading server fuel inputs ds (k, m, l) = (sent, Some (k', m', l')) /\
    flat_map read_by ds ++ pieces_of (queue s') = pieces_of (queue s ++ flat_map i_arrived inputs) /\
    ((forall s, exists n, (wait_all s).2 = Polled n) ->
     (Nat.min (length inputs) (length (pieces_of (queue s))) <= length (flat_map read_by ds))%nat).
Proof.
  revert k m s l sent. induction inputs as [|i inputs IH]; intros k m s l sent Ht; cbn [turns] in Ht.
  { injection Ht as <- <- <- <- <-. exists []. by rewrite app_nil_r. }
  apply step_bind_Some in Ht as (sent1 & [[[k1 m1] s1] l1] & sent2 & Hturn & Hrest & ->).
  apply watched_turn_reads in Hturn as (d & Hl & Hd & Hturn).
  destruct (IH _ _ _ _ _ Hrest) as (ds & Hds & Hq & Hn). exists (d :: ds). cbn [turns_reading flat_map].
  pose proof (listen_takes_a_piece max_parts max_parts_positive _ _ _ Hl Hd) as Hpiece.
  rewrite queue_arrive, in_pieces_app in Hpiece. split; [|split].
  - rewrite Hturn. unfold step_bind. cbn [fst snd]. by rewrite Hds.
  - rewrite <- app_assoc, Hq, !in_pieces_app, (app_assoc (read_by d)), Hpiece. by rewrite app_assoc.
  - intros Hpoll. specialize (Hn Hpoll). apply (f_equal length) in Hpiece. rewrite !length_app in *.
    destruct (decide (queue (arrive s (i_arrived i)) = [])) as [He|Hne].
    + rewrite queue_arrive in He. apply app_eq_nil in He as [-> _]. cbn. lia.
    + destruct (listen_reads max_parts _ _ _ Hl Hne (Hpoll _)) as [r ->]. cbn [read_by length] in *. lia.
Qed.

(** C10: messages are handled in the order they came, each once.  What a run acts on is
    one delivery a turn, and these and the queue it leaves are the queue it found and
    what came in, cut into pieces: a message within [max_parts] is one piece, whole.  Of
    a longer one [max_parts] parts are refused, and the rest is handled as a message of
    its own.  As long as the polls do not fail, what waits is handled within as many
    turns as it has pieces. *)
Theorem messages_are_handled_in_order server fuel inputs k m s l sent k' m' s' l' :
  turns server fuel inputs (k, m, s, l) = (sent, Some (k', m', s', l')) ->
  let came := queue s ++ flat_map i_arrived inputs in
  exists ds, turns_reading server fuel inputs ds (k, m, l) = (sent, Some (k', m', l')) /\
    flat_map read_by ds ++ pieces_of (queue s') = pieces_of came /\
    (Forall (fun m => (length m <= max_parts)%nat) came -> pieces_of came = map inl came) /\
    ((forall s, exists n, (wait_all s).2 = Polled n) -> (length (pieces_of (queue s)) <= length inputs)%nat ->
     pieces_of (queue s) `prefix_of` flat_map read_by ds).
Proof.
  intros Ht. apply turns_read in Ht as (ds & Hds & Hq & Hn). exists ds. split; [done|]. split; [done|].
  split; [apply whole_pieces|]. intros Hpoll Hlen. specialize (Hn Hpoll). rewrite Nat.min_r in Hn by done.
  rewrite in_pieces_app in Hq. apply app_eq_inv in Hq as [(r & Hr & _)|(r & Hr & Hr')].
  - by exists r.
  - rewrite Hr in Hn. rewrite length_app in Hn. destruct r as [|x r]; [|cbn in Hn; lia].
    rewrite app_nil_r in Hr. by rewrite Hr.
Qed.
End inbox.

(** ** A message too long *)

Import DaemonSim.

Definition sim_inputs : list input := [Input (sim_turn 5) [] []; Input (sim_turn 6) [] []; Input (sim_turn 7) [] []].

(** A deletion behind a root hash: seven parts. *)
Definition sim_long : wire := ["state"; "h"; "tcp://k:2"; ""; "remove"; "./c"; "9"].

Definition sim_came : list wire := [sim_long; ["state"; "h"; "tcp://k:2"]].

Definition sim_started : loop_owned :=
  (MonitorSim.disk : kernel, MonitorSim.fresh, sim_came : zmq_socket,
   LoopState (Node (World Protocol.sim_ses [(Path "c", 4)] []) [] (Inbound [] []) (Repairs [] [] []) []) tt 0 0 0 true).

(** The disk and the tombstones a run ends with. *)
Definition left_by (r : step loop_owned) : option (list (path * file_time) * tombstone_map) :=
  match r.2 with
  | Some (_, _, _, l) => Some (dsk (n_world (l_node l)) : list (path * file_time), graves (n_world (l_node l)))
  | None => None
  end.

Definition sim_pieces : list (wire + string) :=
  [inr "Did not receive the expected number of messages"; inl ["remove"; "./c"; "9"]; inl ["state"; "h"; "tcp://k:2"]].

Lemma sim_came_pieces : in_pieces max_parts max_parts_positive sim_came = sim_pieces.
Proof.
  unfold in_pieces, sim_came. cbn [flat_map]. rewrite pieces_exceeds by (cbv; lia).
  rewrite !pieces_fits by (cbv; lia). reflexivity.
Qed.

Lemma messages_are_handled_in_order_witness :
  let run := turns (Source ("a", 1) "tcp://a:1") 3 sim_inputs sim_started in
  left_by run = Some ([], [(Path "./c", 9)]) /\
  exists ds, flat_map read_by ds = sim_pieces /\ sim_pieces `prefix_of` flat_map read_by ds.
Proof.
  cbv zeta. split; [vm_compute; reflexivity|].
  assert (match (turns (Source ("a", 1) "tcp://a:1") 3 sim_inputs sim_started).2 with
          | Some (_, _, q, _) => match (q : list wire) with [] => true | _ => false end
          | None => false end = true) as Hok by (vm_compute; reflexivity).
  destruct (turns _ 3 sim_inputs sim_started) as [sent [[[[k m] q] l]|]] eqn:E; cbn [snd] in Hok; [|discriminate Hok].
  destruct q as [|? ?]; [clear Hok|discriminate Hok]. pose proof sim_came_pieces as Hp.
  destruct (@messages_are_handled_in_order _ _ _ _ _ _ MonitorSim.toy_kernel SinkSim.sim_receiving SinkSim.sim_receiving_laws
    (Source ("a", 1) "tcp://a:1") 3 sim_inputs _ _ sim_came _ sent k m [] l E) as (ds & _ & Hq & _ & Hall).
  cbn [queue SinkSim.sim_receiving_laws sim_inputs flat_map i_arrived app] in Hq. rewrite !app_nil_r in Hq.
  exists ds. rewrite <- Hp. split; [exact Hq|]. apply Hall.
  - intros s. by eexists.
  - cbn [queue SinkSim.sim_receiving_laws]. by rewrite Hp.
Defined.
