(* ===== verification/PyBase.v ===== *)
(** * What the Python tools are written in

    Dictionaries in insertion order, exceptions and effects ([io], with
    [try ... finally] and a fuelled [while]), the text formats, and the order on
    floats that [max], [min] and [sorted] use. *)

From S2P Require Import Prelude OrdMap.
From S2P Require Export PyFloat.

(** ** dict: an association list in insertion order *)

Module Dict.

Section dict.
Context {K V : Type} `{EqDecision K}.

Fixpoint get (d : list (K * V)) (k : K) : option V :=
  match d with
  | [] => None
  | (k', v) :: d' => if decide (k' = k) then Some v else get d' k
  end.

(** [d[k] = v]: a key already there keeps its place. *)
Fixpoint set (d : list (K * V)) (k : K) (v : V) : list (K * V) :=
  match d with
  | [] => [(k, v)]
  | (k', v') :: d' => if decide (k' = k) then (k', v) :: d' else (k', v') :: set d' k v
  end.

(** [del d[k]]. *)
Definition del (d : list (K * V)) (k : K) : list (K * V) :=
  List.filter (fun e => negb (bool_decide (e.1 = k))) d.

Definition keys (d : list (K * V)) : list K := map fst d.
Definition values (d : list (K * V)) : list V := map snd d.

(** [d.setdefault(k, v)] followed by an update of what it answers. *)
Definition setdefault_update (d : list (K * V)) (k : K) (v : V) (f : V -> V) : list (K * V) :=
  set d k (f (match get d k with Some v' => v' | None => v end)).

(** The invariant: a key is there once. *)
Definition wf (d : list (K * V)) : Prop := NoDup (keys d).

Lemma get_set d k v k' : get (set d k v) k' = if decide (k = k') then Some v else get d k'.
Proof.
  induction d as [|[k0 v0] d IH]; simpl; [done|].
  destruct (decide (k0 = k)) as [->|]; simpl; [by case_decide|].
  rewrite IH. repeat case_decide; congruence.
Qed.

Lemma get_set_eq d k v : get (set d k v) k = Some v.
Proof. rewrite get_set. by rewrite decide_True. Qed.

Lemma get_set_ne d k k' v : k <> k' -> get (set d k v) k' = get d k'.
Proof. intros. rewrite get_set. by rewrite decide_False. Qed.

Lemma get_Some d k v : get d k = Some v -> (k, v) ∈ d.
Proof.
  induction d as [|[k0 v0] d IH]; simpl; [done|]. case_decide.
  - intros [= ->]. subst. by left.
  - intros ?%IH. by right.
Qed.

Lemma get_None d k : get d k = None <-> k ∉ keys d.
Proof.
  induction d as [|[k0 v0] d IH]; simpl; [split; [intros _; apply not_elem_of_nil|done]|].
  rewrite elem_of_cons. destruct (decide (k0 = k)) as [->|Hk].
  - split; [done|]. tauto.
  - rewrite IH. split; [|tauto]. intros Hd [->|]; tauto.
Qed.

Lemma elem_of_keys d k : k ∈ keys d <-> exists v, get d k = Some v.
Proof.
  destruct (get d k) as [v|] eqn:E.
  - split; [by eauto|]. intros _. apply get_Some in E.
    by apply list_elem_of_In, (in_map fst), list_elem_of_In in E.
  - apply get_None in E. split; [done|]. by intros [? ?].
Qed.

Lemma get_elem d k v : wf d -> (k, v) ∈ d -> get d k = Some v.
Proof.
  unfold wf. induction d as [|[k0 v0] d IH]; intros Hn Hin; [by apply elem_of_nil in Hin|].
  inversion Hn as [|? ? Hk Hn']; subst. simpl. apply elem_of_cons in Hin as [[= <- <-]|Hin].
  - by rewrite decide_True.
  - rewrite decide_False; [by apply IH|]. intros ->. apply Hk.
    by apply list_elem_of_In, (in_map fst), list_elem_of_In in Hin.
Qed.

Lemma keys_set_in d k v : k ∈ keys d -> keys (set d k v) = keys d.
Proof.
  induction d as [|[k0 v0] d IH]; simpl; [by intros ?%not_elem_of_nil|].
  destruct (decide (k0 = k)) as [->|]; [done|]. intros [->|Hk]%elem_of_cons; [done|].
  simpl. by rewrite IH.
Qed.

Lemma keys_set_new d k v : k ∉ keys d -> keys (set d k v) = keys d ++ [k].
Proof.
  induction d as [|[k0 v0] d IH]; simpl; [done|].
  rewrite not_elem_of_cons. intros [Hk Hd].
  rewrite decide_False by done. simpl. by rewrite IH.
Qed.

Lemma elem_of_keys_set d k v k' : k' ∈ keys (set d k v) <-> k' = k \/ k' ∈ keys d.
Proof.
  destruct (decide (k ∈ keys d)) as [Hin|Hin].
  - rewrite keys_set_in by done. split; [by right|]. by intros [->|].
  - rewrite keys_set_new, elem_of_app, list_elem_of_singleton by done. tauto.
Qed.

Lemma wf_set d k v : wf d -> wf (set d k v).
Proof.
  unfold wf. intros Hw. destruct (decide (k ∈ keys d)) as [Hin|Hin].
  - by rewrite keys_set_in.
  - rewrite keys_set_new by done. apply NoDup_app. split; [done|].
    split; [|apply NoDup_singleton]. intros x Hx ->%list_elem_of_singleton. done.
Qed.

Lemma keys_del d k : keys (del d k) = List.filter (fun k' => negb (bool_decide (k' = k))) (keys d).
Proof.
  induction d as [|[k0 v0] d IH]; simpl; [done|].
  destruct (bool_decide (k0 = k)); simpl; [done|]. by rewrite IH.
Qed.

Lemma elem_of_keys_del d k k' : k' ∈ keys (del d k) <-> k' <> k /\ k' ∈ keys d.
Proof.
  rewrite keys_del, !list_elem_of_In, filter_In, negb_true_iff, bool_decide_eq_false. naive_solver.
Qed.

Lemma get_del d k k' : get (del d k) k' = if decide (k = k') then None else get d k'.
Proof.
  induction d as [|[k0 v0] d IH]; simpl; [by case_decide|].
  destruct (bool_decide (k0 = k)) eqn:E; simpl.
  - apply bool_decide_eq_true in E as ->. rewrite IH. by case_decide.
  - apply bool_decide_eq_false in E. rewrite IH. repeat case_decide; congruence.
Qed.

Lemma wf_nil : wf [].
Proof. constructor. Qed.

Lemma wf_del d k : wf d -> wf (del d k).
Proof.
  unfold wf. rewrite keys_del. generalize (keys d). clear. intros l.
  induction 1 as [|x l Hx Hl IH]; simpl; [constructor|].
  destruct (negb _); [|done]. constructor; [|done].
  rewrite list_elem_of_In, filter_In, <- list_elem_of_In. naive_solver.
Qed.

Lemma del_length d k : (length (del d k) <= length d)%nat.
Proof. apply List.filter_length_le. Qed.
End dict.

End Dict.

#[export] Hint Resolve Dict.wf_nil Dict.wf_set Dict.wf_del : syncfs.

(** ** Exceptions and effects *)

(** The subclasses of [OSError] the tools tell apart. *)
Inductive os_error := FileNotFound | NotADirectory | PermissionDenied | FileExists | OtherOS (errno : Z).

Inductive exn :=
| RuntimeError (message : string)
| SystemExit (message : string)
| CalledProcessError (args : list string)
| TimeoutExpired
| OSError (e : os_error)
| ValueError (what : string)
| TypeError
| KeyError (key : string)
| IndexError
| StatisticsError
| HTTPException (what : string).

(** What [except Exception] catches: [SystemExit] is not one. *)
Definition is_exception (e : exn) : bool :=
  match e with SystemExit _ => false | _ => true end.

(** [Stuck] is a fuelled loop that ran out, never a value the program returns. *)
Inductive outcome (A : Type) := Ok (a : A) | Exn (e : exn) | Stuck.
Arguments Ok {A} a.
Arguments Exn {A} e.
Arguments Stuck {A}.

Definition io (W A : Type) : Type := W -> outcome A * W.

Section io.
Context {W : Type}.

Definition ret {A} (a : A) : io W A := fun w => (Ok a, w).
Definition raise {A} (e : exn) : io W A := fun w => (Exn e, w).

Definition bind {A B} (m : io W A) (k : A -> io W B) : io W B := fun w =>
  match m w with
  | (Ok a, w') => k a w'
  | (Exn e, w') => (Exn e, w')
  | (Stuck, w') => (Stuck, w')
  end.

(** [try: body finally: fin]: [fin] runs whatever [body] did; its own exception
    replaces the one in flight. *)
Definition try_finally {A} (body : io W A) (fin : io W unit) : io W A := fun w =>
  match body w with
  | (Stuck, w') => (Stuck, w')
  | (r, w') =>
      match fin w' with
      | (Ok _, w'') => (r, w'')
      | (Exn e, w'') => (Exn e, w'')
      | (Stuck, w'') => (Stuck, w'')
      end
  end.

(** [try: body except ...: handler]. *)
Definition try_except {A} (body : io W A) (handler : exn -> option (io W A)) : io W A := fun w =>
  match body w with
  | (Exn e, w') => match handler e with Some h => h w' | None => (Exn e, w') end
  | r => r
  end.

Fixpoint for_each {A} (l : list A) (body : A -> io W unit) : io W unit :=
  match l with
  | [] => ret tt
  | a :: l' => bind (body a) (fun _ => for_each l' body)
  end.

(** A [for] loop that carries local variables. *)
Fixpoint for_fold {A S} (l : list A) (s : S) (body : A -> S -> io W S) : io W S :=
  match l with
  | [] => ret s
  | a :: l' => bind (body a s) (fun s' => for_fold l' s' body)
  end.

Fixpoint map_io {A B} (f : A -> io W B) (l : list A) : io W (list B) :=
  match l with
  | [] => ret []
  | a :: l' => bind (f a) (fun b => bind (map_io f l') (fun bs => ret (b :: bs)))
  end.

(** A [while] loop over local variables [S]. *)
Fixpoint while {S} (fuel : nat) (cond : S -> io W bool) (body : S -> io W S) (s : S) : io W S :=
  match fuel with
  | O => fun w => (Stuck, w)
  | S fuel' =>
      bind (cond s) (fun b =>
        if b : bool then bind (body s) (fun s' => while fuel' cond body s') else ret s)
  end.

Definition when (b : bool) (m : io W unit) : io W unit := if b then m else ret tt.
End io.

Notation "'let!' x ':=' m 'in' k" := (bind m (fun x => k))
  (at level 10, x pattern, m at level 100, k at level 200) : syncfs_scope.
Notation "m ;;; k" := (bind m (fun _ => k))
  (at level 199, right associativity) : syncfs_scope.

(** *** Reasoning about them

    [wp m Q w]: running [m] from [w] ends in an outcome and a state with [Q]. *)

Definition wp {W A} (m : io W A) (Q : outcome A -> W -> Prop) (w : W) : Prop :=
  Q (fst (m w)) (snd (m w)).

(** A postcondition on normal results only. *)
Definition on_ok {W A} (Q : A -> W -> Prop) (r : outcome A) (w : W) : Prop :=
  match r with Ok a => Q a w | _ => True end.

Section wp.
Context {W : Type}.

Lemma bind_ok {A B} (m : io W A) (k : A -> io W B) w a w' : m w = (Ok a, w') -> bind m k w = k a w'.
Proof. intros Hm. unfold bind. by rewrite Hm. Qed.

Lemma bind_ext {A B} (m : io W A) (k k' : A -> io W B) w :
  (forall a w, k a w = k' a w) -> bind m k w = bind m k' w.
Proof. intros Hk. unfold bind. by destruct (m w) as [[]]. Qed.

Lemma wp_bind {A B} (m : io W A) (k : A -> io W B) Q w :
  wp m (fun r w' => match r with
                    | Ok a => wp (k a) Q w'
                    | Exn e => Q (Exn e) w'
                    | Stuck => Q Stuck w'
                    end) w ->
  wp (bind m k) Q w.
Proof. unfold wp, bind. by destruct (m w) as [[a|e|] w']. Qed.

Lemma wp_mono {A} (m : io W A) (P Q : outcome A -> W -> Prop) w :
  wp m P w -> (forall r w', P r w' -> Q r w') -> wp m Q w.
Proof. unfold wp. eauto. Qed.

Lemma wp_ok_bind {A B} (m : io W A) (k : A -> io W B) (P : A -> W -> Prop) (Q : B -> W -> Prop) w :
  wp m (on_ok P) w -> (forall a w', P a w' -> wp (k a) (on_ok Q) w') ->
  wp (bind m k) (on_ok Q) w.
Proof.
  intros Hm Hk. apply wp_bind. eapply wp_mono; [done|]. intros [a|e|] w' H; simpl in *; eauto.
Qed.

Lemma wp_ok_trivial {A} (m : io W A) w : wp m (on_ok (fun _ _ => True)) w.
Proof. unfold wp. by destruct (fst (m w)). Qed.

(** A [for] loop keeps an invariant of what is left, what is carried and the state. *)
Lemma wp_for_fold {A S} (I : list A -> S -> W -> Prop) (body : A -> S -> io W S) l s w :
  I l s w ->
  (forall a l' s' w', I (a :: l') s' w' -> wp (body a s') (on_ok (I l')) w') ->
  wp (for_fold l s body) (on_ok (I [])) w.
Proof.
  intros Hs Hb. induction l as [|a l IH] in s, w, Hs |- *; simpl; [done|].
  eapply wp_ok_bind; [by apply Hb|]. intros s' w' H. by apply IH.
Qed.

(** A [while] loop keeps its invariant and stops on a false condition. *)
Lemma wp_while {S} (I : S -> W -> Prop) (P : S -> W -> Prop) fuel
    (cond : S -> io W bool) (body : S -> io W S) s w :
  I s w ->
  (forall s' w', I s' w' -> wp (cond s') (on_ok (fun (b : bool) w'' => if b then I s' w'' else P s' w'')) w') ->
  (forall s' w', I s' w' -> wp (body s') (on_ok I) w') ->
  wp (while fuel cond body s) (on_ok P) w.
Proof.
  intros Hs Hc Hb. induction fuel as [|fuel IH] in s, w, Hs |- *; simpl; [done|].
  eapply wp_ok_bind; [by apply Hc|]. intros [] w' H; [|done].
  eapply wp_ok_bind; [by apply Hb|]. intros s' w'' H'. by apply IH.
Qed.

(** The clean-up of [try ... finally] is the last thing that runs, unless the
    body never ended. *)
Lemma try_finally_last {A} (body : io W A) (fin : io W unit) w :
  fst (body w) <> Stuck ->
  snd (try_finally body fin w) = snd (fin (snd (body w))).
Proof.
  intros Hb. unfold try_finally. destruct (body w) as [[a|e|] w']; simpl in *; [..|done];
    by destruct (fin w') as [[]].
Qed.
End wp.

(** ** Text *)

Definition str_of_bool (b : bool) : string := if b then "True" else "False".

(** [f"{s:width}"] and [f"{s:>width}"]. *)
Definition pad_right (width : nat) (s : string) : string :=
  s +:+ spaces (width - String.length s).
Definition pad_left (width : nat) (s : string) : string :=
  spaces (width - String.length s) +:+ s.

(** [f"{n:0width}"] for a non-negative number. *)
Definition zero_padded (width : nat) (n : Z) : string := zero_pad width (Z_to_string n).

(** [f"{n:,}"]: groups of three digits from the right. *)
Fixpoint group3_rev (l : list ascii) : list ascii :=
  match l with
  | a :: b :: c :: ((_ :: _) as l') => a :: b :: c :: ","%char :: group3_rev l'
  | _ => l
  end.

Definition commas (n : Z) : string :=
  (if n <? 0 then "-" else "") +:+
  String.string_of_list_ascii (rev (group3_rev (rev (String.list_ascii_of_string (Z_to_string (Z.abs n)))))).

(** [s.replace(c, by)] for a single character. *)
Fixpoint replace_char (c : ascii) (by_ : string) (s : string) : string :=
  match s with
  | EmptyString => EmptyString
  | String a s' => (if decide (a = c) then by_ else String a EmptyString) +:+ replace_char c by_ s'
  end.

(** [s.partition(c)] on a single character. *)
Definition partition (c : ascii) (s : string) : string * bool * string :=
  match cut c s with
  | Some (before, after) => (before, true, after)
  | None => (s, false, "")
  end.

(** White space, in ASCII text. *)
Definition py_space (c : ascii) : bool :=
  let n := Ascii.nat_of_ascii c in
  ((9 <=? n) && (n <=? 13))%nat || ((28 <=? n) && (n <=? 32))%nat.

Fixpoint skip_blank (s : string) : string :=
  match s with
  | String a s' => if py_space a then skip_blank s' else s
  | EmptyString => EmptyString
  end.

Definition strip (s : string) : string := String.rev (skip_blank (String.rev (skip_blank s))).

(** [int(s)]: surrounding white space, a sign, digits. *)
Definition int_of_string (s : string) : option Z :=
  match strip s with
  | String "-" d => option_map Z.opp (parse_nonempty_digits d)
  | String "+" d => parse_nonempty_digits d
  | d => parse_nonempty_digits d
  end.

Example int_of_strings : map int_of_string ["42"; " -7 "; "+3"; ""; "1.5"; "x"]
  = [Some 42; Some (-7); Some 3; None; None; None].
Proof. reflexivity. Qed.

Example commas_some : map commas [0; 999; 1000; 1234567; -1234] = ["0"; "999"; "1,000"; "1,234,567"; "-1,234"].
Proof. reflexivity. Qed.

(** [sub in s]. *)
Fixpoint str_contains (sub s : string) : bool :=
  String.prefix sub s || match s with String _ s' => str_contains sub s' | EmptyString => false end.

(** What ends a line for [str.splitlines], besides a carriage return followed by
    a line feed, which counts once. *)
Definition is_line_boundary (c : ascii) : bool :=
  let n := Ascii.nat_of_ascii c in
  ((10 <=? n) && (n <=? 13))%nat || ((28 <=? n) && (n <=? 30))%nat.

(** [s.splitlines()]: a boundary at the end opens no further line. *)
Fixpoint splitlines_from (s : string) (line : string) (started after_return : bool) : list string :=
  match s with
  | EmptyString => if started then [line] else []
  | String c s' =>
      if after_return && bool_decide (c = NEWLINE) then splitlines_from s' line started false
      else if is_line_boundary c then line :: splitlines_from s' "" false (bool_decide (c = "013"%char))
      else splitlines_from s' (line +:+ String c "") true false
  end.

Definition splitlines (s : string) : list string := splitlines_from s "" false false.

(** [s.split()]: the words between runs of white space. *)
Fixpoint words_from (s : string) (word : string) : list string :=
  let flush := if String.eqb word "" then [] else [word] in
  match s with
  | EmptyString => flush
  | String c s' => if py_space c then flush ++ words_from s' "" else words_from s' (word +:+ String c "")
  end.

Definition words (s : string) : list string := words_from s "".

(** [f"{l}"] of a list of numbers. *)
Definition str_of_ints (l : list Z) : string := "[" +:+ str_join ", " (map Z_to_string l) +:+ "]".

Example text_some :
  (splitlines ("a" +:+ String "013" (String NEWLINE ("b" +:+ String NEWLINE (String NEWLINE "c")))),
   words "Max open files   1048576 files", str_contains "bc" "abcd", str_contains "x" "abc")
  = (["a"; "b"; ""; "c"], ["Max"; "open"; "files"; "1048576"; "files"], true, false).
Proof. reflexivity. Qed.

(** ** base64 *)

Definition base64_digit (n : Z) : ascii :=
  nth (Z.to_nat n) (String.list_ascii_of_string
    "ABCDEFGHIJKLMNOPQRSTUVWXYZabcdefghijklmnopqrstuvwxyz0123456789+/") "="%char.

Definition byte_of (c : ascii) : Z := Z.of_nat (Ascii.nat_of_ascii c).

(** [base64.b64encode]: three bytes are four digits, the last group padded. *)
Fixpoint b64encode_bytes (l : list ascii) : list ascii :=
  match l with
  | a :: b :: c :: l' =>
      let n := Z.lor (Z.shiftl (byte_of a) 16) (Z.lor (Z.shiftl (byte_of b) 8) (byte_of c)) in
      base64_digit (Z.shiftr n 18) :: base64_digit (Z.land (Z.shiftr n 12) 63)
      :: base64_digit (Z.land (Z.shiftr n 6) 63) :: base64_digit (Z.land n 63) :: b64encode_bytes l'
  | [a; b] =>
      let n := Z.lor (Z.shiftl (byte_of a) 16) (Z.shiftl (byte_of b) 8) in
      [base64_digit (Z.shiftr n 18); base64_digit (Z.land (Z.shiftr n 12) 63);
       base64_digit (Z.land (Z.shiftr n 6) 63); "="%char]
  | [a] =>
      let n := Z.shiftl (byte_of a) 16 in
      [base64_digit (Z.shiftr n 18); base64_digit (Z.land (Z.shiftr n 12) 63); "="%char; "="%char]
  | [] => []
  end.

Definition b64encode (s : string) : string :=
  String.string_of_list_ascii (b64encode_bytes (String.list_ascii_of_string s)).

Definition base64_value (c : ascii) : option Z :=
  let n := byte_of c in
  if (65 <=? n) && (n <=? 90) then Some (n - 65)
  else if (97 <=? n) && (n <=? 122) then Some (n - 71)
  else if (48 <=? n) && (n <=? 57) then Some (n + 4)
  else if n =? 43 then Some 62
  else if n =? 47 then Some 63
  else None.

Definition ascii_of (n : Z) : ascii := Ascii.ascii_of_nat (Z.to_nat n).

(** The bytes a group of two or three digits stands for. *)
Definition b64_group (q : list Z) : list ascii :=
  match q with
  | [x; y; z] =>
      let n := Z.lor (Z.shiftl x 18) (Z.lor (Z.shiftl y 12) (Z.shiftl z 6)) in
      [ascii_of (Z.shiftr n 16); ascii_of (Z.land (Z.shiftr n 8) 255)]
  | [x; y] => [ascii_of (Z.shiftr (Z.lor (Z.shiftl x 18) (Z.shiftl y 12)) 16)]
  | _ => []
  end.

(** [base64.b64decode] without validation: what is not a digit is skipped, enough
    pad characters after two or three digits end the text, and a group left open
    at its end is an error ([None]). [q] holds the digits of the group so far. *)
Fixpoint b64decode_from (l : list ascii) (q : list Z) (pads : nat) : option (list ascii) :=
  match l with
  | [] => match q with [] => Some [] | _ => None end
  | c :: l' =>
      match base64_value c with
      | Some v =>
          match q with
          | [x; y; z] =>
              let n := Z.lor (Z.shiftl x 18) (Z.lor (Z.shiftl y 12) (Z.lor (Z.shiftl z 6) v)) in
              option_map (fun r => ascii_of (Z.shiftr n 16) :: ascii_of (Z.land (Z.shiftr n 8) 255)
                                   :: ascii_of (Z.land n 255) :: r) (b64decode_from l' [] 0)
          | _ => b64decode_from l' (q ++ [v]) 0
          end
      | None =>
          if bool_decide (c = "="%char) && (2 <=? length q)%nat then
            if (4 <=? length q + S pads)%nat then Some (b64_group q)
            else b64decode_from l' q (S pads)
          else b64decode_from l' q pads
      end
  end.

Definition b64decode (s : string) : option string :=
  option_map String.string_of_list_ascii (b64decode_from (String.list_ascii_of_string s) [] 0).

Example b64_some :
  (map b64encode [""; "w"; "w:"; "w:p"; "w:secret"], map (fun s => b64decode (b64encode s)) [""; "w"; "w:"; "w:p"])
  = ([""; "dw=="; "dzo="; "dzpw"; "dzpzZWNyZXQ="], [Some ""; Some "w"; Some "w:"; Some "w:p"]).
Proof. vm_compute. reflexivity. Qed.
