(* ===== verification/PyFloatText.v ===== *)
(** * The text of a float reads back as a float

    [repr] of every finite float is a decimal text [float] accepts, and no white space
    in it: what [csv] writes for a measurement, the readers of the file convert.  The
    lemmas on digits, zeros and decimals are shared with the other text formats. *)

From stdpp Require Import sets.
From Stdlib Require Import DecimalString.
From S2P Require Import Prelude PyFloat PyBase.

(** ** Digits *)

Lemma take_drop n s : str_take n s +:+ str_drop n s = s.
Proof.
  revert s. induction n as [|n IH]; intros [|c s]; try done. simpl. rewrite ?str_app_cons. by rewrite IH.
Qed.

Lemma length_str_drop n s : String.length (str_drop n s) = (String.length s - n)%nat.
Proof. revert s. induction n as [|n IH]; intros [|c s]; try done. simpl. apply IH. Qed.

Lemma all_digits_no_char c s : all_chars is_digit s = true -> is_digit c = false -> has_char c s = false.
Proof. apply all_chars_has_char. Qed.

Lemma Z_to_string_digits z : 0 <= z -> all_chars is_digit (Z_to_string z) = true /\ Z_to_string z <> "".
Proof.
  intros Hz. unfold Z_to_string. destruct z as [|p|p]; [done| |lia].
  cbn [Z.to_int NilEmpty.string_of_int]. split; [apply string_of_uint_digits|apply string_of_uint_nonempty].
Qed.

Lemma parse_printed z : 0 <= z -> parse_nonempty_digits (Z_to_string z) = Some z.
Proof. destruct z as [|p|p]; [done| |lia]. intros _. apply parse_nonempty_to_uint. Qed.

Lemma zeros_digits n s : all_chars is_digit s = true -> all_chars is_digit (zeros n +:+ s) = true.
Proof. intros Hs. induction n as [|n IH]; [done|]. simpl. exact IH. Qed.

Lemma length_zeros n : String.length (zeros n) = n.
Proof. induction n as [|n IH]; [done|]. simpl. by rewrite IH. Qed.

Lemma all_chars_impl (p q : ascii -> bool) s : (forall c, p c = true -> q c = true) ->
  all_chars p s = true -> all_chars q s = true.
Proof.
  intros Hpq. induction s as [|c s IH]; [done|]. simpl. intros [Hc Hs]%andb_true_iff.
  by rewrite Hpq, IH.
Qed.

(** The characters a decimal number is written with. *)
Lemma number_chars (p : ascii -> bool) z : p "-"%char = true -> (forall c, is_digit c = true -> p c = true) ->
  all_chars p (Z_to_string z) = true.
Proof.
  intros Hm Hd. destruct (Z.neg_nonneg_cases z) as [Hz|Hz].
  - destruct z as [|q|q]; try lia. change (Z_to_string (Zneg q)) with (String "-" (Z_to_string (Zpos q))). cbn [all_chars].
    rewrite Hm. simpl. apply (all_chars_impl is_digit); [done|]. by apply Z_to_string_digits.
  - apply (all_chars_impl is_digit); [done|]. by apply Z_to_string_digits.
Qed.

Lemma digit_cases (p : ascii -> bool) :
  forallb p ["0"; "1"; "2"; "3"; "4"; "5"; "6"; "7"; "8"; "9"]%char = true -> forall c, is_digit c = true -> p c = true.
Proof.
  intros Hp c. destruct c as [[] [] [] [] [] [] [] []]; try discriminate; intros _; simpl in Hp; bool_hyps; done.
Qed.

Definition starts_with (p : ascii -> bool) (s : string) : bool := match s with String c _ => p c | EmptyString => false end.

(** ** The digits of the shortest form *)

(** Finite, with an exponent binary64 has. *)
Definition printable (x : float) : bool :=
  match x with S754_zero _ => true | S754_finite _ _ e => -1074 <=? e | _ => false end.

Lemma exponent_up_below fuel k num den : 0 <= k -> 0 < den ->
  let k' := exponent_up fuel k num den in
  k <= k' /\ (den <= num -> den * 10 ^ (k' - k) <= num).
Proof.
  revert k den. induction fuel as [|fuel IH]; intros k den Hk Hd k'; unfold k'; cbn [exponent_up].
  { split; [lia|]. rewrite Z.sub_diag. simpl. lia. }
  destruct (Z.leb_spec (10 * den) num) as [Hle|Hgt]; [|split; [lia|]; rewrite Z.sub_diag; simpl; lia].
  destruct (IH (k + 1) (10 * den) ltac:(lia) ltac:(lia)) as [H1 H2]. split; [lia|]. intros _. specialize (H2 Hle).
  replace (exponent_up fuel (k + 1) num (10 * den) - k) with (1 + (exponent_up fuel (k + 1) num (10 * den) - (k + 1))) by lia.
  rewrite Z.pow_add_r by lia. lia.
Qed.

Lemma exponent_down_below fuel k num den : k <= 0 ->
  let k' := exponent_down fuel k num den in
  k' <= k /\ (den <= num * 10 ^ (k - k') \/ k' = k - Z.of_nat fuel).
Proof.
  revert k num. induction fuel as [|fuel IH]; intros k num Hk k'; unfold k'; cbn [exponent_down].
  { split; [lia|]. right. lia. }
  destruct (Z.ltb_spec num den) as [Hlt|Hge]; [|split; [lia|]; left; rewrite Z.sub_diag; simpl; lia].
  destruct (IH (k - 1) (10 * num) ltac:(lia)) as [H1 H2]. split; [lia|].
  set (e := exponent_down fuel (k - 1) (10 * num) den) in *. destruct H2 as [H2|H2]; [left|right; lia].
  replace (k - e) with (1 + (k - 1 - e)) by lia. rewrite Z.pow_add_r by lia. lia.
Qed.

Lemma in_units_positive num den k : 0 < den -> 0 < num ->
  (0 <= k -> den * 10 ^ k <= num) -> (k < 0 -> den <= num * 10 ^ (- k)) -> 1 <= in_units num den k.
Proof.
  intros Hd Hn Hp Hm. unfold in_units. destruct (Z.leb_spec 0 k).
  - assert (0 < 10 ^ k) by (apply Z.pow_pos_nonneg; lia). apply round_half_even_ge; [nia|]. rewrite Z.mul_1_l. auto.
  - apply round_half_even_ge; [done|]. rewrite Z.mul_1_l. auto.
Qed.

Lemma ratio_positive m e : let '(num, den) := ratio_of m e in 0 < num /\ 0 < den.
Proof.
  unfold ratio_of. destruct (Z.leb_spec 0 e).
  - assert (0 < 2 ^ e) by (apply Z.pow_pos_nonneg; lia). split; lia.
  - assert (0 < 2 ^ (- e)) by (apply Z.pow_pos_nonneg; lia). split; lia.
Qed.

(** Seventeen digits of a finite float are never none. *)
Lemma seventeen_digits m e : -1074 <= e ->
  let '(num, den) := ratio_of m e in 1 <= in_units num den (decimal_exponent num den - 16).
Proof.
  intros He. pose proof (ratio_positive m e) as Hpos. destruct (ratio_of m e) as [num den] eqn:Er.
  destruct Hpos as [Hn Hd]. unfold decimal_exponent. destruct (Z.leb_spec den num) as [Hle|Hlt].
  - destruct (exponent_up_below 320 0 num den ltac:(lia) Hd) as [H1 H2]. specialize (H2 Hle).
    set (k := exponent_up 320 0 num den) in *. rewrite Z.sub_0_r in H2. apply in_units_positive; [done..| |].
    + intros Hk. transitivity (den * 10 ^ k); [|done]. apply Z.mul_le_mono_nonneg_l; [lia|]. apply Z.pow_le_mono_r; lia.
    + intros Hk. assert (0 < 10 ^ (- (k - 16))) by (apply Z.pow_pos_nonneg; lia). nia.
  - destruct (exponent_down_below 330 0 num den ltac:(lia)) as [H1 H2].
    set (k := exponent_down 330 0 num den) in *. apply in_units_positive; [done..|lia|]. intros _.
    destruct H2 as [H2|H2].
    + etrans; [exact H2|]. apply Z.mul_le_mono_nonneg_l; [lia|]. apply Z.pow_le_mono_r; lia.
    + assert (den <= 2 ^ 1074).
      { unfold ratio_of in Er. destruct (Z.leb_spec 0 e); injection Er as _ <-; [done|]. apply Z.pow_le_mono_r; lia. }
      assert (2 ^ 1074 <= 10 ^ (- (k - 16))).
      { etrans; [|apply (Z.pow_le_mono_r 10 346); [lia|]]; [by vm_compute|]. rewrite H2. simpl. lia. }
      nia.
Qed.

Lemma find_some_test {A} (p : A -> bool) l x : List.find p l = Some x -> x ∈ l /\ p x = true.
Proof. intros Hf. apply find_some in Hf as [Hin Hp]. by rewrite list_elem_of_In. Qed.

Lemma candidates_nonneg p num den k c : 0 < num -> 0 < den -> c ∈ candidates p num den k -> 0 <= c.1.
Proof.
  intros Hn Hd. unfold candidates. set (u := k - Z.of_nat p + 1).
  assert (forall n d, 0 <= n -> 0 < d -> c ∈ (if 2 * (n mod d) <=? d then [(n / d, u); (n / d + 1, u)]
    else [(n / d + 1, u); (n / d, u)]) -> 0 <= c.1) as Hc.
  { intros n d Hn0 Hd0 Hin. assert (0 <= n / d) by (apply Z.div_pos; lia).
    destruct (_ <=? _); rewrite !elem_of_cons, elem_of_nil in Hin; destruct Hin as [-> | [-> | []]]; cbn [fst]; lia. }
  destruct (Z.leb_spec 0 u).
  - apply Hc; [lia|]. assert (0 < 10 ^ u) by (apply Z.pow_pos_nonneg; lia). nia.
  - apply Hc; [|done]. assert (0 < 10 ^ (- u)) by (apply Z.pow_pos_nonneg; lia). nia.
Qed.

(** The digits of the shortest form are those of a positive number. *)
Lemma shortest_positive ps m e num den k : 0 < num -> 0 < den -> 1 <= in_units num den (k - 16) ->
  1 <= (shortest ps (S754_finite false m e) num den k).1.
Proof.
  intros Hn Hd H17. induction ps as [|p ps IH]; [done|]. cbn [shortest].
  destruct (List.find _ _) as [c|] eqn:Ef; [|exact IH]. apply find_some_test in Ef as [Hin Hc].
  pose proof (candidates_nonneg p num den k c Hn Hd Hin). destruct (decide (c.1 = 0)) as [Hz|]; [|lia].
  exfalso. unfold float_of_decimal in Hc. rewrite Hz in Hc. by destruct (0 <=? c.2).
Qed.

(** ** Stripping zeros *)

Lemma strip_zeros_suffix s : exists z, s = z +:+ strip_zeros_rev s /\ all_chars (fun c => bool_decide (c = "0"%char)) z = true.
Proof.
  induction s as [|c s (z & Hz & Hc)]; [by exists ""|].
  destruct (decide (c = "0"%char)) as [->|Hne].
  - exists (String "0" z). cbn [strip_zeros_rev]. rewrite str_app_cons, <- Hz. by split.
  - exists "". split; [|done]. by destruct c as [[] [] [] [] [] [] [] []].
Qed.

Lemma all_chars_rev p s : all_chars p (String.rev s) = all_chars p s.
Proof.
  induction s as [|c s IH]; [done|]. rewrite str_rev_cons, all_chars_app, IH. cbn [all_chars]. by rewrite andb_true_r, andb_comm.
Qed.

Lemma parse_zeros z acc : all_chars (fun c => bool_decide (c = "0"%char)) z = true -> parse_digits acc z = Some (acc * 10 ^ Z.of_nat (String.length z)).
Proof.
  revert acc. induction z as [|c z IH]; intros acc Hz; [simpl; f_equal; lia|].
  simpl in Hz. apply andb_true_iff in Hz as [Hc%bool_decide_eq_true Hz]. subst c. cbn [parse_digits].
  change (digit_val "0") with (Some 0). cbv beta iota. rewrite IH by done. f_equal. cbn [String.length].
  rewrite Nat2Z.inj_succ, Z.pow_succ_r by lia. lia.
Qed.

Lemma stripped_digits n : 1 <= n -> all_chars is_digit (strip_trailing_zeros (Z_to_string n)) = true /\
  strip_trailing_zeros (Z_to_string n) <> "".
Proof.
  intros Hn. destruct (Z_to_string_digits n ltac:(lia)) as [Hd Hne]. unfold strip_trailing_zeros.
  destruct (strip_zeros_suffix (String.rev (Z_to_string n))) as (z & Hz & Hzeros). split.
  - rewrite all_chars_rev. rewrite <- all_chars_rev, Hz, all_chars_app in Hd. by apply andb_true_iff in Hd as [_ Hd].
  - intros He. apply (f_equal String.rev) in He. rewrite str_rev_involutive in He.
    rewrite He, str_app_nil_r in Hz. apply (f_equal String.rev) in Hz. rewrite str_rev_involutive in Hz.
    pose proof (parse_printed n ltac:(lia)) as Hp. rewrite Hz in Hp, Hne.
    assert (parse_digits 0 (String.rev z) = Some n) as Hp' by (by destruct (String.rev z)).
    rewrite parse_zeros in Hp' by (by rewrite all_chars_rev). injection Hp' as Hp'. lia.
Qed.

(** ** Reading decimals *)

Lemma digits_of_run s rest acc n : all_chars is_digit s = true ->
  match rest with String c _ => is_digit c = false | EmptyString => True end ->
  exists v, digits_of (s +:+ rest) acc n = (v, (n + String.length s)%nat, rest).
Proof.
  intros Hs Hr. revert acc n. induction s as [|c s IH]; intros acc n.
  - exists acc. rewrite str_app_nil_l. cbn [String.length]. rewrite Nat.add_0_r. destruct rest as [|c rest]; [done|].
    unfold is_digit in Hr. apply bool_decide_eq_false in Hr. cbn [digits_of].
    destruct (digit_val c) as [d|]; [by destruct Hr; eexists|done].
  - simpl in Hs. apply andb_true_iff in Hs as [Hc Hs]. unfold is_digit in Hc. apply bool_decide_eq_true in Hc as [d Hd].
    rewrite str_app_cons. cbn [digits_of]. rewrite Hd. destruct (IH Hs (10 * acc + d) (S n)) as [v ->].
    exists v. cbn [String.length]. by rewrite Nat.add_succ_r.
Qed.

(** What the exponent of a text can be. *)
Definition reads_exponent (t : string) : Prop := is_Some (exponent_of t).

Lemma reads_exponent_text k : reads_exponent (exponent_text k).
Proof.
  unfold reads_exponent, exponent_text, zero_pad.
  set (d := zeros (2 - String.length (Z_to_string (Z.abs k))) +:+ Z_to_string (Z.abs k)).
  assert (all_chars is_digit d = true /\ d <> "") as [Hd Hne].
  { destruct (Z_to_string_digits (Z.abs k) ltac:(lia)) as [Hd Hne]. split; [by apply zeros_digits|].
    unfold d. by destruct (zeros _). }
  assert (is_Some (parse_nonempty_digits d)) as [v Hv].
  { destruct d as [|c d]; [done|]. unfold parse_nonempty_digits. revert Hd. generalize (String c d). clear. intros s.
    generalize 0. induction s as [|c s IH]; intros acc Hs; [by eexists|]. simpl in Hs. apply andb_true_iff in Hs as [Hc Hs].
    unfold is_digit in Hc. apply bool_decide_eq_true in Hc as [x Hx]. cbn [parse_digits]. rewrite Hx. by apply IH. }
  destruct (k <? 0); [change (is_Some (option_map Z.opp (parse_nonempty_digits d)))|change (is_Some (parse_nonempty_digits d))];
    rewrite Hv; by eexists.
Qed.

(** Digits, a point and digits after it, an exponent: what [float] accepts. *)
Lemma unsigned_point a b t : all_chars is_digit a = true -> a <> "" -> all_chars is_digit b = true ->
  match t with String c _ => is_digit c = false | EmptyString => True end -> reads_exponent t ->
  is_Some (unsigned_float (a +:+ String "." (b +:+ t))).
Proof.
  intros Ha Hne Hb Ht [k Hk]. unfold unsigned_float.
  destruct (digits_of_run a (String "." (b +:+ t)) 0 0 Ha eq_refl) as [v ->].
  destruct (digits_of_run b t v 0 Hb Ht) as [w ->].
  replace (0 + String.length a + (0 + String.length b) =? 0)%nat with false.
  - rewrite Hk. by eexists.
  - symmetry. apply Nat.eqb_neq. destruct a; [done|]. simpl. lia.
Qed.

Lemma unsigned_whole a t : all_chars is_digit a = true -> a <> "" ->
  match t with String c _ => is_digit c = false /\ c <> "."%char | EmptyString => True end -> reads_exponent t ->
  is_Some (unsigned_float (a +:+ t)).
Proof.
  intros Ha Hne Ht [k Hk]. unfold unsigned_float.
  destruct (digits_of_run a t 0 0 Ha) as [v ->]; [by destruct t; [|destruct Ht]|].
  assert (match t with String "." rest => let '(x, n, r) := digits_of rest v 0 in (x, n, r) | _ => (v, 0%nat, t) end
    = (v, 0%nat, t)) as ->.
  { destruct t as [|c t]; [done|]. destruct Ht as [_ Hc]. by destruct c as [[] [] [] [] [] [] [] []]. }
  replace (0 + String.length a + 0 =? 0)%nat with false.
  - rewrite Hk. by eexists.
  - symmetry. apply Nat.eqb_neq. destruct a; [done|]. simpl. lia.
Qed.

Definition no_space (c : ascii) : bool := negb (py_space c).

(** A text [float] accepts, without white space. *)
Definition reads (s : string) : Prop :=
  is_Some (unsigned_float s) /\ starts_with is_digit s = true /\ all_chars no_space s = true.

Lemma starts_with_app p s t : starts_with p s = true -> starts_with p (s +:+ t) = true.
Proof. by destruct s. Qed.

Lemma digits_start s : all_chars is_digit s = true -> s <> "" -> starts_with is_digit s = true.
Proof. destruct s as [|c s]; [done|]. simpl. by intros [-> _]%andb_true_iff. Qed.

Lemma digits_no_space s : all_chars is_digit s = true -> all_chars no_space s = true.
Proof. apply all_chars_impl, digit_cases. reflexivity. Qed.

Lemma exponent_no_space k : all_chars no_space (exponent_text k) = true.
Proof.
  unfold exponent_text. assert (all_chars no_space (zero_pad 2 (Z_to_string (Z.abs k))) = true) as Hd.
  { apply digits_no_space, zeros_digits, Z_to_string_digits. lia. }
  revert Hd. generalize (zero_pad 2 (Z_to_string (Z.abs k))). intros d Hd.
  rewrite !all_chars_app, Hd. by destruct (k <? 0).
Qed.

Lemma reads_point a b t : all_chars is_digit a = true -> a <> "" -> all_chars is_digit b = true ->
  match t with String c _ => is_digit c = false | EmptyString => True end -> reads_exponent t ->
  all_chars no_space t = true -> reads (a +:+ String "." (b +:+ t)).
Proof.
  intros Ha Hne Hb Ht He Hs. split; [by apply unsigned_point|]. split; [by apply starts_with_app, digits_start|].
  rewrite all_chars_app. cbn [all_chars]. rewrite all_chars_app.
  by rewrite (digits_no_space _ Ha), (digits_no_space _ Hb), Hs.
Qed.

Lemma reads_whole a t : all_chars is_digit a = true -> a <> "" ->
  match t with String c _ => is_digit c = false /\ c <> "."%char | EmptyString => True end -> reads_exponent t ->
  all_chars no_space t = true -> reads (a +:+ t).
Proof.
  intros Ha Hne Ht He Hs. split; [by apply unsigned_whole|]. split; [by apply starts_with_app, digits_start|].
  rewrite all_chars_app. by rewrite (digits_no_space _ Ha), Hs.
Qed.

Definition completed (body : string) : string :=
  body +:+ (if has_char "."%char body || has_char "e"%char body then "" else ".0").

Lemma reads_nil : reads_exponent "".
Proof. by eexists. Qed.

Lemma take_digits n d : all_chars is_digit d = true ->
  all_chars is_digit (str_take n d) = true /\ all_chars is_digit (str_drop n d) = true.
Proof. intros Hd. rewrite <- (take_drop n d), all_chars_app in Hd. by apply andb_true_iff in Hd. Qed.

Lemma take_nonempty n d : d <> "" -> str_take (S n) d <> "".
Proof. by destruct d. Qed.

Lemma layout_reads limit d k : all_chars is_digit d = true -> d <> "" -> reads (completed (layout limit d k)).
Proof.
  intros Hd Hne. unfold layout. destruct (_ || _).
  - unfold completed. replace (has_char "." (point_after 1 d +:+ exponent_text k) || has_char "e" (point_after 1 d +:+ exponent_text k)) with true
      by (symmetry; rewrite orb_true_iff; right; rewrite has_char_app; unfold exponent_text; cbn; by rewrite orb_true_r).
    rewrite str_app_nil_r. unfold point_after. destruct (take_digits 1 d Hd) as [Ht Hr].
    pose proof (take_nonempty 0 d Hne) as Htn.
    destruct (String.eqb_spec (str_drop 1 d) "") as [He|He].
    + rewrite str_app_nil_r. apply reads_whole; [done..| |apply reads_exponent_text|apply exponent_no_space]. by split.
    + rewrite str_app_assoc. apply reads_point; [done..| |apply reads_exponent_text|apply exponent_no_space]. done.
  - destruct (k <? 0).
    + unfold completed. replace (has_char _ _ || has_char _ _) with true by reflexivity. rewrite !str_app_nil_r.
      change ("0." +:+ zeros (Z.to_nat (- k - 1)) +:+ d) with ("0" +:+ String "." (zeros (Z.to_nat (- k - 1)) +:+ d)).
      rewrite <- (str_app_nil_r (zeros _ +:+ d)). apply reads_point; try done; [by apply zeros_digits|apply reads_nil].
    + set (x := d +:+ zeros (S (Z.to_nat k) - String.length d)).
      assert (all_chars is_digit x = true) as Hx.
      { unfold x. rewrite all_chars_app, Hd. rewrite <- (str_app_nil_r (zeros _)). by apply zeros_digits. }
      assert (x <> "") as Hxn by (unfold x; by destruct d).
      destruct (take_digits (S (Z.to_nat k)) x Hx) as [Ht Hr]. pose proof (take_nonempty (Z.to_nat k) x Hxn) as Htn.
      unfold point_after. destruct (String.eqb_spec (str_drop (S (Z.to_nat k)) x) "") as [He|He].
      * rewrite str_app_nil_r. unfold completed. rewrite !(all_digits_no_char _ _ Ht) by done. cbn [orb].
        by apply (reads_point _ "0" ""); try done; apply reads_nil.
      * unfold completed. rewrite has_char_app. rewrite (eq_refl : has_char "."%char ("." +:+ str_drop (S (Z.to_nat k)) x) = true).
        rewrite orb_true_r. cbn [orb]. rewrite str_app_nil_r.
        pose proof (reads_point _ _ "" Ht Htn Hr I reads_nil eq_refl) as Hp. by rewrite str_app_nil_r in Hp.
Qed.

Lemma skip_blank_id s : starts_with no_space s = true -> skip_blank s = s.
Proof. destruct s as [|c s]; [done|]. cbn [starts_with skip_blank]. unfold no_space. by destruct (py_space c). Qed.

Lemma starts_no_space s : all_chars no_space s = true -> s <> "" -> starts_with no_space s = true.
Proof. destruct s as [|c s]; [done|]. simpl. by intros [-> _]%andb_true_iff. Qed.

Lemma strip_id s : all_chars no_space s = true -> strip s = s.
Proof.
  intros Hs. destruct (decide (s = "")) as [->|Hne]; [done|]. unfold strip.
  rewrite (skip_blank_id s) by (by apply starts_no_space). rewrite skip_blank_id, str_rev_involutive; [done|].
  apply starts_no_space; [by rewrite all_chars_rev|]. intros He. apply Hne. apply (f_equal String.rev) in He.
  by rewrite str_rev_involutive in He.
Qed.

Lemma signed_reads (sg : bool) s : reads s ->
  is_Some (float_of_string (strip ((if sg then "-" else "") +:+ s))) /\ (if sg then "-" else "") +:+ s <> "".
Proof.
  intros ([v Hv] & Hd & Hs). assert (s <> "") as Hne by (by destruct s).
  assert (all_chars no_space ((if sg then "-" else "") +:+ s) = true) as Hall
    by (rewrite all_chars_app, Hs; by destruct sg).
  rewrite strip_id by done. destruct sg.
  - split; [|done]. change (is_Some (option_map SFopp (unsigned_float s))). rewrite Hv. by eexists.
  - rewrite str_app_nil_l. split; [|done]. destruct s as [|c s]; [done|]. cbn [starts_with] in Hd.
    assert (float_of_string (String c s) = unsigned_float (String c s)) as -> by (by destruct c as [[] [] [] [] [] [] [] []]).
    rewrite Hv. by eexists.
Qed.

(** [repr] of a finite float: a text without white space that [float] accepts. *)
Lemma float_repr_reads x : printable x = true ->
  is_Some (float_of_string (strip (float_repr x))) /\ float_repr x <> "".
Proof.
  destruct x as [sg|sg| |sg m e]; try done; [destruct sg; (split; [by eexists; vm_compute|done])|].
  cbn [printable]. intros He%Z.leb_le. unfold float_repr.
  pose proof (ratio_positive m e) as Hpos. pose proof (seventeen_digits m e He) as H17.
  destruct (ratio_of m e) as [num den]. destruct Hpos as [Hn Hd].
  pose proof (shortest_positive (seq 1 17) m e num den (decimal_exponent num den) Hn Hd H17) as Hs.
  destruct (shortest _ _ _ _ _) as [n u]. cbn [fst] in Hs. apply signed_reads.
  destruct (stripped_digits n Hs) as [Hsd Hsne]. by apply layout_reads.
Qed.
