(* ===== verification/PyData.v ===== *)
(** * Data the Python tools compute with and store

    [max], [min], [sorted] and [statistics.median]; the values a dictionary
    literal mixes; [json.dumps] and [json.loads]; the [csv] dialect the results
    are kept in, reader and writer, with their round trip. *)

From stdpp Require Import sets.
From S2P Require Import Prelude OrdMap.
From S2P Require Export PyBase.

#[local] Set Warnings "-register-all".

(** ** Orders *)

Section orders.
Context {A : Type} (lt : A -> A -> bool).

(** [max] keeps the first of equal items, and so does [min]. *)
Definition py_max (l : list A) : option A :=
  match l with
  | [] => None
  | a :: l' => Some (fold_left (fun best x => if lt best x then x else best) l' a)
  end.

Definition py_min (l : list A) : option A :=
  match l with
  | [] => None
  | a :: l' => Some (fold_left (fun best x => if lt x best then x else best) l' a)
  end.

Fixpoint insort (x : A) (l : list A) : list A :=
  match l with
  | [] => [x]
  | y :: l' => if lt x y then x :: l else y :: insort x l'
  end.

(** [sorted]: a stable sort. *)
Definition py_sorted (l : list A) : list A := fold_left (fun acc x => insort x acc) l [].

Lemma insort_perm x l : Permutation (insort x l) (x :: l).
Proof.
  induction l as [|y l IH]; simpl; [done|]. destruct (lt x y); [done|].
  rewrite IH. constructor.
Qed.

Lemma py_sorted_perm l : Permutation (py_sorted l) l.
Proof.
  unfold py_sorted. rewrite <- (app_nil_r l) at 2. generalize ([] : list A) as acc.
  induction l as [|x l IH]; intros acc; simpl; [done|].
  rewrite IH, insort_perm. symmetry. apply Permutation_middle.
Qed.

Lemma py_sorted_length l : length (py_sorted l) = length l.
Proof. by rewrite py_sorted_perm. Qed.

Lemma elem_of_py_sorted x l : x ∈ py_sorted l <-> x ∈ l.
Proof. by rewrite py_sorted_perm. Qed.

Lemma py_max_elem l x : py_max l = Some x -> x ∈ l.
Proof.
  destruct l as [|a l]; [done|]. intros [= <-]. revert a.
  induction l as [|b l IH]; intros a; simpl; [by left|].
  specialize (IH (if lt a b then b else a)). apply elem_of_cons in IH as [->|IH].
  - destruct (lt a b); set_solver.
  - set_solver.
Qed.

Lemma py_min_elem l x : py_min l = Some x -> x ∈ l.
Proof.
  destruct l as [|a l]; [done|]. intros [= <-]. revert a.
  induction l as [|b l IH]; intros a; simpl; [by left|].
  specialize (IH (if lt b a then b else a)). apply elem_of_cons in IH as [->|IH].
  - destruct (lt b a); set_solver.
  - set_solver.
Qed.

(** Where [lt] is a strict weak order, the maximum is not below any item. *)
Lemma py_max_above (P : A -> Prop) l x :
  (forall x, lt x x = false) -> (forall x y, lt x y = true -> lt y x = false) ->
  (forall x y z, P x -> P y -> P z -> lt y x = false -> lt z y = false -> lt z x = false) ->
  Forall P l -> py_max l = Some x -> forall y, y ∈ l -> lt x y = false.
Proof.
  intros Hirr Hasym Hstep HP. destruct l as [|a l]; [done|]. intros [= <-].
  inversion HP as [|? ? Ha Hl]; subst.
  assert (forall a, P a -> let m := fold_left (fun best x => if lt best x then x else best) l a in
    P m /\ lt m a = false /\ forall y, y ∈ l -> lt m y = false) as H.
  { clear a Ha HP. induction Hl as [|b l Hb Hl IH]; intros a Ha; simpl.
    - split; [done|]. split; [apply Hirr|]. intros y Hy. by apply elem_of_nil in Hy.
    - set (c := if lt a b then b else a).
      assert (P c /\ lt c a = false /\ lt c b = false) as (Hc & Hca & Hcb).
      { unfold c. destruct (lt a b) eqn:E; auto. }
      destruct (IH c Hc) as (H1 & H2 & H3). split; [done|].
      split; [exact (Hstep _ _ _ Ha Hc H1 Hca H2)|].
      intros y [->|Hy]%elem_of_cons; [exact (Hstep _ _ _ Hb Hc H1 Hcb H2)|auto]. }
  destruct (H a Ha) as (_ & H1 & H2). intros y [->|Hy]%elem_of_cons; auto.
Qed.
End orders.

(** The maximum of numbers is at least each of them. *)
Lemma max_of_numbers l x : Forall (fun y => is_number y = true) l -> py_max flt l = Some x ->
  x ∈ l /\ forall y, y ∈ l -> flt x y = false.
Proof.
  intros Hl Hx. split; [by eapply py_max_elem|].
  eapply py_max_above; [apply flt_irrefl|apply flt_asym| |done|done].
  intros a b c Ha Hb Hc. by apply (flt_step a b c).
Qed.

(** [sorted] by a key compared with a total order. *)
Definition sorted_by {A C} (cmp : C -> C -> comparison) (key : A -> C) : list A -> list A :=
  py_sorted (fun x y => match cmp (key x) (key y) with Lt => true | _ => false end).

Definition sort_Z : list Z -> list Z := sorted_by Z.compare id.
Definition sort_strings : list string -> list string := sorted_by String.compare id.
Definition sort_floats : list float -> list float := py_sorted flt.

(** A set built from a list: each item once, in order of first appearance. *)
Definition dedup {A} `{EqDecision A} (l : list A) : list A :=
  fold_left (fun acc x => if bool_decide (x ∈ acc) then acc else acc ++ [x]) l [].

Lemma dedup_spec {A} `{EqDecision A} (l : list A) :
  NoDup (dedup l) /\ forall x, x ∈ dedup l <-> x ∈ l.
Proof.
  unfold dedup. enough (forall acc, NoDup acc ->
    NoDup (fold_left (fun acc x => if bool_decide (x ∈ acc) then acc else acc ++ [x]) l acc) /\
    forall x, x ∈ fold_left (fun acc x => if bool_decide (x ∈ acc) then acc else acc ++ [x]) l acc <-> x ∈ acc \/ x ∈ l) as H.
  { destruct (H [] (NoDup_nil_2)) as [H1 H2]. split; [done|]. intros x. rewrite H2. set_solver. }
  induction l as [|y l IH]; intros acc Hacc; simpl; [set_solver|].
  case_bool_decide as Hy.
  - destruct (IH acc Hacc) as [H1 H2]. split; [done|]. intros x. rewrite H2. set_solver.
  - destruct (IH (acc ++ [y])) as [H1 H2].
    { apply NoDup_app. split; [done|]. split; [|apply NoDup_singleton]. set_solver. }
    split; [done|]. intros x. rewrite H2. set_solver.
Qed.

(** ** statistics.median *)

Definition median (values : list float) : option float :=
  let data := sort_floats values in
  let n := length data in
  match n with
  | O => None
  | _ =>
      if Nat.odd n then data !! (n / 2)%nat
      else match data !! (n / 2 - 1)%nat, data !! (n / 2)%nat with
           | Some a, Some b => Some (fdiv (fadd a b) (float_of_Z 2))
           | _, _ => None
           end
  end.

Lemma median_Some values : values <> [] -> is_Some (median values).
Proof.
  intros Hv. unfold median, sort_floats. rewrite py_sorted_length.
  destruct (length values) as [|n] eqn:E; [by destruct values|].
  rewrite <- E. assert (0 < length values)%nat as Hpos by lia. clear E n.
  assert (forall i, (i < length values)%nat -> is_Some (py_sorted flt values !! i)) as Hl.
  { intros i Hi. apply lookup_lt_is_Some. by rewrite py_sorted_length. }
  pose proof (Nat.div_lt (length values) 2 ltac:(lia) ltac:(lia)).
  destruct (Nat.odd _); [by apply Hl|].
  destruct (Hl (length values / 2 - 1)%nat) as [a ->]; [lia|].
  destruct (Hl (length values / 2)%nat) as [b ->]; [done|]. by eexists.
Qed.

(** ** Values of mixed type *)

Inductive value :=
| VNone
| VBool (b : bool)
| VInt (z : Z)
| VFloat (x : float)
| VStr (s : string)
| VList (l : list value)
| VDict (d : list (string * value)).

(** A record such as [{"node": name, "arrived_at": ...}]. *)
Abbreviation record := (list (string * value)).

(** [d[k]]. *)
Definition item {W V} (d : list (string * V)) (k : string) : io W V :=
  match Dict.get d k with Some v => ret v | None => raise (KeyError k) end.

Definition is_none (v : value) : bool := match v with VNone => true | _ => false end.

Definition as_float (v : value) : option float := match v with VFloat x => Some x | _ => None end.
Definition as_str (v : value) : option string := match v with VStr s => Some s | _ => None end.

(** ** json *)

Definition QUOTE : ascii := "034"%char.
Definition BACKSLASH : ascii := "092"%char.

Definition hex_digit (n : nat) : ascii :=
  nth n (String.list_ascii_of_string "0123456789abcdef") "0"%char.

Definition json_char (c : ascii) : string :=
  if decide (c = QUOTE) then String BACKSLASH (String QUOTE "")
  else if decide (c = BACKSLASH) then String BACKSLASH (String BACKSLASH "")
  else if decide (c = NEWLINE) then String BACKSLASH "n"
  else if decide (c = "013"%char) then String BACKSLASH "r"
  else if decide (c = "009"%char) then String BACKSLASH "t"
  else if decide (c = "012"%char) then String BACKSLASH "f"
  else if decide (c = "008"%char) then String BACKSLASH "b"
  else
    let n := Ascii.nat_of_ascii c in
    if (n <? 32)%nat then
      String BACKSLASH ("u00" +:+ String (hex_digit (n / 16)) (String (hex_digit (n mod 16)) ""))
    else String c "".

Fixpoint json_chars (s : string) : string :=
  match s with EmptyString => "" | String c s' => json_char c +:+ json_chars s' end.

Definition json_str (s : string) : string :=
  String QUOTE (json_chars s) +:+ String QUOTE "".

(** [json.dumps(v)] on ASCII text. *)
Fixpoint json_dumps (v : value) : string :=
  match v with
  | VNone => "null"
  | VBool b => if b then "true" else "false"
  | VInt z => Z_to_string z
  | VFloat x =>
      match x with
      | S754_nan => "NaN"
      | S754_infinity s => if s then "-Infinity" else "Infinity"
      | _ => float_repr x
      end
  | VStr s => json_str s
  | VList l =>
      "[" +:+ str_join ", " ((fix go (l : list value) : list string :=
        match l with [] => [] | x :: l' => json_dumps x :: go l' end) l) +:+ "]"
  | VDict d =>
      "{" +:+ str_join ", " ((fix go (d : list (string * value)) : list string :=
        match d with
        | [] => []
        | (k, x) :: d' => (json_str k +:+ ": " +:+ json_dumps x) :: go d'
        end) d) +:+ "}"
  end.

(** [json.dumps(v, indent=2)]: one entry a line, but for what is empty. *)
Definition json_line (level : nat) : string := String NEWLINE (spaces (2 * level)).

Fixpoint json_indented (level : nat) (v : value) : string :=
  match v with
  | VList ((_ :: _) as l) =>
      "[" +:+ json_line (S level) +:+ str_join ("," +:+ json_line (S level))
        ((fix go (l : list value) : list string :=
          match l with [] => [] | x :: l' => json_indented (S level) x :: go l' end) l)
      +:+ json_line level +:+ "]"
  | VDict ((_ :: _) as d) =>
      "{" +:+ json_line (S level) +:+ str_join ("," +:+ json_line (S level))
        ((fix go (d : list (string * value)) : list string :=
          match d with
          | [] => []
          | (k, x) :: d' => (json_str k +:+ ": " +:+ json_indented (S level) x) :: go d'
          end) d)
      +:+ json_line level +:+ "}"
  | _ => json_dumps v
  end.

Example json_arrivals :
  json_dumps (VDict [("sfs1", VFloat (dec 12 1)); ("sfs2", VNone)])
  = String.concat (String QUOTE "") ["{"; "sfs1"; ": 1.2, "; "sfs2"; ": null}"].
Proof. vm_compute. reflexivity. Qed.

(** *** Reading it back *)

Definition is_json_blank (c : ascii) : bool :=
  bool_decide (c = " "%char) || bool_decide (c = NEWLINE) || bool_decide (c = "009"%char)
  || bool_decide (c = "013"%char).

Fixpoint skip_ws (s : string) : string :=
  match s with
  | String c s' => if is_json_blank c then skip_ws s' else s
  | EmptyString => EmptyString
  end.

Definition hex_val (c : ascii) : option nat :=
  let n := Ascii.nat_of_ascii c in
  if ((48 <=? n) && (n <=? 57))%nat then Some (n - 48)%nat
  else if ((97 <=? n) && (n <=? 102))%nat then Some (n - 87)%nat
  else if ((65 <=? n) && (n <=? 70))%nat then Some (n - 55)%nat
  else None.

Definition unescape (c : ascii) : option ascii :=
  if decide (c = QUOTE) then Some QUOTE
  else if decide (c = BACKSLASH) then Some BACKSLASH
  else if decide (c = SLASH) then Some SLASH
  else if decide (c = "n"%char) then Some NEWLINE
  else if decide (c = "r"%char) then Some "013"%char
  else if decide (c = "t"%char) then Some "009"%char
  else if decide (c = "f"%char) then Some "012"%char
  else if decide (c = "b"%char) then Some "008"%char
  else None.

(** After the opening quote. A [\u] escape is read below 128, where a code point
    is one byte. *)
Fixpoint json_read_str (s : string) : option (string * string) :=
  match s with
  | EmptyString => None
  | String c s' =>
      if decide (c = QUOTE) then Some ("", s')
      else if decide (c = BACKSLASH) then
        match s' with
        | String "u" (String a (String b (String x (String y s'')))) =>
            match hex_val a, hex_val b, hex_val x, hex_val y, json_read_str s'' with
            | Some 0%nat, Some 0%nat, Some hi, Some lo, Some (t, rest) =>
                if (hi <? 8)%nat then Some (String (Ascii.ascii_of_nat (16 * hi + lo)) t, rest) else None
            | _, _, _, _, _ => None
            end
        | String e s'' =>
            match unescape e, json_read_str s'' with
            | Some c', Some (t, rest) => Some (String c' t, rest)
            | _, _ => None
            end
        | EmptyString => None
        end
      else if (Ascii.nat_of_ascii c <? 32)%nat then None
      else match json_read_str s' with Some (t, rest) => Some (String c t, rest) | None => None end
  end.

(** The longest prefix of number characters. *)
Definition is_number_char (c : ascii) : bool :=
  is_digit c || existsb (Ascii.eqb c) ["-"; "+"; "."; "e"; "E"]%char.

Fixpoint span_number (s : string) : string * string :=
  match s with
  | String c s' =>
      if is_number_char c then let '(n, rest) := span_number s' in (String c n, rest)
      else ("", s)
  | EmptyString => ("", "")
  end.

Definition json_number (n : string) : option value :=
  if has_char "."%char n || has_char "e"%char n || has_char "E"%char n
  then option_map VFloat (float_of_string n)
  else match n with
       | String "-" d => option_map (fun z => VInt (- z)) (parse_nonempty_digits d)
       | _ => option_map VInt (parse_nonempty_digits n)
       end.

(** One value and what follows it. Every call below it is on a shorter text, so
    the length of the text is fuel enough. *)
Fixpoint json_value (fuel : nat) (s : string) : option (value * string) :=
  match fuel with
  | O => None
  | S fuel' =>
      let items := fix items (n : nat) (s : string) : option (list value * string) :=
        match n with
        | O => None
        | S n' =>
            match json_value fuel' s with
            | None => None
            | Some (v, r) =>
                match skip_ws r with
                | String "," r' =>
                    match items n' (skip_ws r') with
                    | Some (vs, r'') => Some (v :: vs, r'')
                    | None => None
                    end
                | String "]" r' => Some ([v], r')
                | _ => None
                end
            end
        end in
      let members := fix members (n : nat) (s : string) : option (list (string * value) * string) :=
        match n, s with
        | S n', String c s' =>
            if decide (c = QUOTE) then
              match json_read_str s' with
              | None => None
              | Some (k, r) =>
                  match skip_ws r with
                  | String ":" r =>
                      match json_value fuel' (skip_ws r) with
                      | None => None
                      | Some (v, r) =>
                          match skip_ws r with
                          | String "," r' =>
                              match members n' (skip_ws r') with
                              | Some (kvs, r'') => Some ((k, v) :: kvs, r'')
                              | None => None
                              end
                          | String "}" r' => Some ([(k, v)], r')
                          | _ => None
                          end
                      end
                  | _ => None
                  end
              end
            else None
        | _, _ => None
        end in
      match s with
      | String "n" (String "u" (String "l" (String "l" r))) => Some (VNone, r)
      | String "t" (String "r" (String "u" (String "e" r))) => Some (VBool true, r)
      | String "f" (String "a" (String "l" (String "s" (String "e" r)))) => Some (VBool false, r)
      | String "[" r =>
          match skip_ws r with
          | String "]" r' => Some (VList [], r')
          | r => match items fuel' r with Some (vs, r') => Some (VList vs, r') | None => None end
          end
      | String "{" r =>
          match skip_ws r with
          | String "}" r' => Some (VDict [], r')
          | r =>
              match members fuel' r with
              (* a key given twice keeps its place and takes the last value *)
              | Some (kvs, r') =>
                  Some (VDict (fold_left (fun d kv => Dict.set d kv.1 kv.2) kvs []), r')
              | None => None
              end
          end
      | String c r =>
          if decide (c = QUOTE) then
            match json_read_str r with Some (t, r') => Some (VStr t, r') | None => None end
          else
            let '(n, r') := span_number s in
            match json_number n with Some v => Some (v, r') | None => None end
      | EmptyString => None
      end
  end.

(** [json.loads(s)]; [None] is the ValueError. *)
Definition json_loads (s : string) : option value :=
  match json_value (S (String.length s)) (skip_ws s) with
  | Some (v, r) => if String.eqb (skip_ws r) "" then Some v else None
  | None => None
  end.

Example json_round_trip :
  let v := VDict [("sfs1", VFloat (dec 1234 4)); ("sfs2", VNone); ("a" +:+ String QUOTE "", VFloat (dec 5 0));
                  ("l", VList [VInt (-3); VBool true; VStr "x"])] in
  json_loads (json_dumps v) = Some v.
Proof. vm_compute. reflexivity. Qed.

(** ** csv *)

(** The default dialect: commas, quotes where needed, doubled quotes inside,
    lines ended by a carriage return and a line feed. *)
Definition COMMA : ascii := ","%char.
Definition RETURN : ascii := "013"%char.

Definition is_eol (c : ascii) : bool := bool_decide (c = NEWLINE) || bool_decide (c = RETURN).

Definition needs_quotes (c : ascii) : bool :=
  bool_decide (c = COMMA) || bool_decide (c = QUOTE) || is_eol c.

Fixpoint double_quotes (s : string) : string :=
  match s with
  | EmptyString => ""
  | String c s' =>
      if decide (c = QUOTE) then String QUOTE (String QUOTE (double_quotes s'))
      else String c (double_quotes s')
  end.

Definition csv_field (alone : bool) (s : string) : string :=
  if negb (all_chars (fun c => negb (needs_quotes c)) s) || (alone && String.eqb s "")
  then String QUOTE (double_quotes s) +:+ String QUOTE "" else s.

(** [writer.writerow(row)]. *)
Definition csv_row (row : list string) : string :=
  str_join "," (map (csv_field (length row =? 1)%nat) row)
  +:+ String RETURN (String NEWLINE "").

(** *** The reader's state machine *)

Inductive csv_state := StartRecord | AfterReturn | StartField | InField | InQuoted | QuoteInQuoted.

(** The state, the field and the row being read. *)
Definition csv_cursor : Type := csv_state * string * list string.

Definition end_of_row (c : ascii) (row : list string) : option (list string) * csv_cursor :=
  (Some row, (if bool_decide (c = RETURN) then AfterReturn else StartRecord, "", [])).

Definition csv_start_field (c : ascii) (field : string) (row : list string)
    : option (list string) * csv_cursor :=
  if is_eol c then end_of_row c (row ++ [field])
  else if bool_decide (c = QUOTE) then (None, (InQuoted, field, row))
  else if bool_decide (c = COMMA) then (None, (StartField, "", row ++ [field]))
  else (None, (InField, field +:+ String c "", row)).

Definition csv_start_record (c : ascii) : option (list string) * csv_cursor :=
  if is_eol c then end_of_row c [] else csv_start_field c "" [].

Definition csv_step (c : ascii) (cursor : csv_cursor) : option (list string) * csv_cursor :=
  let '(st, field, row) := cursor in
  match st with
  | StartRecord => csv_start_record c
  | AfterReturn => if bool_decide (c = NEWLINE) then (None, (StartRecord, "", [])) else csv_start_record c
  | StartField => csv_start_field c field row
  | InField =>
      if is_eol c then end_of_row c (row ++ [field])
      else if bool_decide (c = COMMA) then (None, (StartField, "", row ++ [field]))
      else (None, (InField, field +:+ String c "", row))
  | InQuoted =>
      if bool_decide (c = QUOTE) then (None, (QuoteInQuoted, field, row))
      else (None, (InQuoted, field +:+ String c "", row))
  | QuoteInQuoted =>
      if bool_decide (c = QUOTE) then (None, (InQuoted, field +:+ String c "", row))
      else if bool_decide (c = COMMA) then (None, (StartField, "", row ++ [field]))
      else if is_eol c then end_of_row c (row ++ [field])
      else (None, (InField, field +:+ String c "", row))
  end.

Fixpoint csv_rows (s : string) (cursor : csv_cursor) : list (list string) :=
  match s with
  | EmptyString =>
      match cursor with
      | (StartRecord, _, _) | (AfterReturn, _, _) => []
      | (_, field, row) => [row ++ [field]]
      end
  | String c s' =>
      match csv_step c cursor with
      | (Some row, cursor') => row :: csv_rows s' cursor'
      | (None, cursor') => csv_rows s' cursor'
      end
  end.

(** [csv.reader] over a file opened with [newline=""]. *)
Definition csv_reader (text : string) : list (list string) := csv_rows text (StartRecord, "", []).

(** A row of [csv.DictReader]: a field the line is too short for is [None]. What
    a line has too much goes under a key no string equals, and nothing reads it. *)
Abbreviation csv_record := (list (string * option string)).

Fixpoint zip_row (names row : list string) : csv_record :=
  match names, row with
  | [], _ => []
  | n :: names', [] => (n, None) :: zip_row names' []
  | n :: names', f :: row' => (n, Some f) :: zip_row names' row'
  end.

(** The first row names the fields; empty rows are skipped. *)
Definition dict_reader (text : string) : list csv_record :=
  match csv_reader text with
  | [] => []
  | names :: rows =>
      map (fun row => fold_left (fun d kv => Dict.set d kv.1 kv.2) (zip_row names row) [])
        (List.filter (fun row => match row with [] => false | _ => true end) rows)
  end.

(** *** What is written is read back *)

Lemma needs_quotes_false c : needs_quotes c = false ->
  c <> COMMA /\ c <> QUOTE /\ is_eol c = false.
Proof.
  unfold needs_quotes. intros Hc. bool_hyps. repeat match goal with
  | H : bool_decide _ = false |- _ => apply bool_decide_eq_false in H end. done.
Qed.

Lemma csv_rows_plain s t f row :
  all_chars (fun c => negb (needs_quotes c)) s = true ->
  csv_rows (s +:+ t) (InField, f, row) = csv_rows t (InField, f +:+ s, row).
Proof.
  revert f. induction s as [|c s IH]; intros f Hs; simpl in Hs; [by rewrite str_app_nil_r|].
  bool_hyps. destruct (needs_quotes_false c) as (Hc & _ & He); [done|].
  rewrite str_app_cons. cbn [csv_rows csv_step]. rewrite He, bool_decide_eq_false_2 by done.
  rewrite IH by done. by rewrite str_app_assoc.
Qed.

Lemma csv_rows_quoted s t f row :
  csv_rows (double_quotes s +:+ t) (InQuoted, f, row) = csv_rows t (InQuoted, f +:+ s, row).
Proof.
  revert f. induction s as [|c s IH]; intros f; [by rewrite str_app_nil_r|].
  cbn [double_quotes]. destruct (decide (c = QUOTE)) as [->|Hc]; rewrite ?str_app_cons; cbn [csv_rows csv_step].
  - rewrite !bool_decide_eq_true_2 by done. cbn [csv_step].
    rewrite !bool_decide_eq_true_2 by done. rewrite IH. by rewrite str_app_assoc.
  - rewrite bool_decide_eq_false_2 by done. rewrite IH. by rewrite str_app_assoc.
Qed.

(** What ends a field: a comma, or the end of the row. *)
Definition ends_field (t : string) (field : string) (row : list string) (rest : list (list string)) : Prop :=
  (exists t', t = String COMMA t' /\ rest = csv_rows t' (StartField, "", row ++ [field])) \/
  (exists t', t = String RETURN (String NEWLINE t') /\
              rest = (row ++ [field]) :: csv_rows t' (StartRecord, "", [])).

Lemma csv_rows_field alone s t row rest :
  ends_field t s row rest ->
  csv_rows (csv_field alone s +:+ t) (StartField, "", row) = rest.
Proof.
  intros Ht. unfold csv_field.
  destruct (all_chars (fun c => negb (needs_quotes c)) s) eqn:Hs; cbn [negb orb].
  - destruct (alone && String.eqb s "") eqn:Ha.
    + apply andb_true_iff in Ha as [_ ->%String.eqb_eq].
      destruct Ht as [(t' & -> & ->)|(t' & -> & ->)]; reflexivity.
    + destruct s as [|c s].
      * destruct Ht as [(t' & -> & ->)|(t' & -> & ->)]; reflexivity.
      * simpl in Hs. bool_hyps. destruct (needs_quotes_false c) as (Hc & Hq & He); [done|].
        rewrite str_app_cons. cbn [csv_rows csv_step]. unfold csv_start_field.
        rewrite He, !bool_decide_eq_false_2 by done.
        rewrite csv_rows_plain by done.
        destruct Ht as [(t' & -> & ->)|(t' & -> & ->)]; reflexivity.
  - rewrite !str_app_cons. cbn [csv_rows csv_step]. change (csv_start_field QUOTE "" row)
      with (@None (list string), (InQuoted, "", row)).
    cbv beta iota. rewrite str_app_assoc. rewrite csv_rows_quoted.
    destruct Ht as [(t' & -> & ->)|(t' & -> & ->)]; reflexivity.
Qed.

Lemma csv_rows_fields alone fields t row :
  fields <> [] ->
  csv_rows (str_join "," (map (csv_field alone) fields) +:+ String RETURN (String NEWLINE t))
    (StartField, "", row)
  = (row ++ fields) :: csv_rows t (StartRecord, "", []).
Proof.
  revert row. induction fields as [|s fields IH]; intros row Hf; [done|].
  destruct fields as [|s' fields].
  - simpl. apply csv_rows_field. right. by eexists.
  - change (str_join "," (map (csv_field alone) (s :: s' :: fields)))
      with (csv_field alone s +:+ ("," +:+ str_join "," (map (csv_field alone) (s' :: fields)))).
    rewrite str_app_assoc. apply csv_rows_field. left. eexists. split; [reflexivity|].
    rewrite IH by done. by rewrite <- app_assoc.
Qed.

(** The first character of a written row never ends a line, so beginning a record
    and beginning a field agree on it. *)
Lemma csv_start s : match s with String c _ => is_eol c = false | EmptyString => False end ->
  csv_rows s (StartRecord, "", []) = csv_rows s (StartField, "", []).
Proof.
  destruct s as [|c s]; [done|]. intros Hc. cbn [csv_rows csv_step].
  unfold csv_start_record. by rewrite Hc.
Qed.

Lemma csv_row_head row t : row <> [] ->
  match csv_row row +:+ t with String c _ => is_eol c = false | EmptyString => False end.
Proof.
  intros Hr. unfold csv_row. destruct row as [|s row]; [done|].
  unfold csv_field at 1. simpl map.
  destruct (negb _ || _) eqn:Hq.
  - destruct row; reflexivity.
  - apply orb_false_iff in Hq as [Hs Ha]. apply negb_false_iff in Hs.
    destruct s as [|c s].
    + destruct row as [|s' row]; [done|]. reflexivity.
    + simpl in Hs. bool_hyps. destruct (needs_quotes_false c) as (_ & _ & He); [done|].
      destruct row; exact He.
Qed.

Lemma csv_reader_app row t : row <> [] ->
  csv_reader (csv_row row +:+ t) = row :: csv_reader t.
Proof.
  intros Hr. unfold csv_reader. rewrite csv_start by (by apply csv_row_head).
  unfold csv_row. rewrite str_app_assoc.
  by rewrite (csv_rows_fields _ row t []).
Qed.

Lemma csv_reader_rows rows : Forall (fun row => row <> []) rows ->
  csv_reader (str_concat (map csv_row rows)) = rows.
Proof.
  induction 1 as [|row rows Hr _ IH]; [done|].
  simpl. by rewrite csv_reader_app, IH.
Qed.
