(* ===== verification/PyHost.v ===== *)
(** * The host the tools run on

    What the tools ask of the operating system and of the programs they start:
    clocks, the file system, processes, threads, sockets and output.  None of it
    is under src/, so it is a class the tools are written against; what a proof
    relies on is a class of laws ([Clock]).  PySim.v has a small host to evaluate the tools on. *)

From stdpp Require Import sets.
From S2P Require Import Prelude.
From S2P Require Export PyData.

Record stat_result := Stat { st_mode : Z; st_size : Z; st_blocks : Z }.

(** [stat.S_ISREG]: the file type bits are those of a regular file. *)
Definition S_ISREG (mode : Z) : bool := Z.land mode 61440 =? 32768.

Record completed := Completed { returncode : Z; stdout : string; stderr : string }.

(** [open] modes the tools use. *)
Inductive open_mode := ReadBinary | WriteBinary | WriteText | AppendText.

Class Host (W : Type) := {
  (* time, os *)
  time_time : io W float;
  time_monotonic : io W float;
  time_sleep : float -> io W unit;
  getloadavg : io W float;
  getuid : io W Z;
  urandom : Z -> io W string;
  (* pathlib, os, shutil *)
  path_stat : string -> io W stat_result;
  path_lstat : string -> io W stat_result;
  path_exists : string -> io W bool;
  path_is_file : string -> io W bool;
  path_islink : string -> io W bool;
  listdir : string -> io W (list string);
  (** [os.scandir]: a name, and whether it leads to a directory. *)
  scandir : string -> io W (list (string * bool));
  read_text : string -> io W string;
  write_text : string -> string -> io W unit;
  (** [path.mkdir(parents=True, exist_ok=...)]. *)
  mkdir : string -> bool -> io W unit;
  unlink : string -> io W unit;
  rmtree : string -> io W unit;
  copyfile : string -> string -> io W unit;
  (* open files *)
  fd : Type;
  file_open : string -> open_mode -> io W fd;
  file_read : fd -> io W string;
  file_write : fd -> string -> io W unit;
  file_fsync : fd -> io W unit;
  file_close : fd -> io W unit;
  (* subprocess *)
  subprocess_run : list string -> io W completed;
  (* threading: the shared list a thread reports its exception in *)
  cell : Type;
  cell_new : io W cell;
  cell_append : cell -> exn -> io W unit;
  cell_get : cell -> io W (list exn);
  thread : Type;
  thread_start : io W unit -> io W thread;
  thread_join : thread -> io W unit;
  (* http.client *)
  conn : Type;
  http_connection : string -> Z -> io W conn;
  http_request : conn -> string -> string -> list (string * string) -> option fd -> io W Z;
  http_close : conn -> io W unit;
  (* output *)
  print : string -> io W unit;
  (* hashlib.sha256(...).hexdigest() *)
  sha256_hex : string -> string;
}.

Section stdlib.
Context {W : Type} `{Host W}.

(** [with open(path, mode) as f: body]. *)
Definition with_open {A} (path : string) (mode : open_mode) (body : fd -> io W A) : io W A :=
  let! f := file_open path mode in
  try_finally (body f) (file_close f).

(** [path.mkdir(parents=True, exist_ok=True)]. *)
Definition mkdir_parents (path : string) : io W unit := mkdir path true.

(** [path.unlink(missing_ok=True)]. *)
Definition unlink_missing_ok (path : string) : io W unit :=
  try_except (unlink path) (fun e =>
    match e with OSError FileNotFound => Some (ret tt) | _ => None end).

(** [shutil.rmtree(path, ignore_errors=True)]. *)
Definition rmtree_ignore_errors (path : string) : io W unit :=
  try_except (rmtree path) (fun e => match e with OSError _ => Some (ret tt) | _ => None end).

(** [subprocess.run(args, check=True, ...)]. *)
Definition subprocess_check (args : list string) : io W completed :=
  let! r := subprocess_run args in
  if returncode r =? 0 then ret r else raise (CalledProcessError args).

(** [a / b] on paths: an absolute [b] replaces [a]. *)
Definition join_path (a b : string) : string :=
  match b with
  | String "/" _ => b
  | _ =>
      if String.eqb a "" then b
      else if String.prefix "/" (String.rev a) then a +:+ b else a +:+ "/" +:+ b
  end.

(** [path.name]: what follows the last slash. *)
Definition path_name (p : string) : string :=
  match rcut SLASH p with Some (_, name) => name | None => p end.

(** [os.walk(path)], top down, without following links, as a loop over the
    directories still to visit; [visit] is the body of the [for] over it. *)
Definition os_walk {S} (fuel : nat) (top : string) (s : S)
    (visit : string -> list string -> S -> io W S) : io W S :=
  let! st := while fuel
    (fun st : list string * S => ret (negb (bool_decide (st.1 = []))))
    (fun st =>
      match st.1 with
      | [] => ret st
      | dir :: stack =>
          let! entries := try_except (bind (scandir dir) (fun l => ret (Some l)))
            (fun e => match e with OSError _ => Some (ret None) | _ => None end) in
          match entries with
          | None => ret (stack, st.2)
          | Some entries =>
              let dirs := map fst (List.filter (fun e => e.2) entries) in
              let names := map fst (List.filter (fun e => negb e.2) entries) in
              let! s' := visit dir names st.2 in
              let! below := for_fold dirs [] (fun d acc =>
                let! link := path_islink (join_path dir d) in
                ret (if link : bool then acc else acc ++ [join_path dir d])) in
              ret (below ++ stack, s')
          end
      end) ([top], s) in
  ret st.2.
End stdlib.

(** ** What a proof may rely on: the clock *)

(** What is documented of [time.time()], [time.sleep()] and the files, and what is asked
    of the host's administrator.

    [ticks] is how far the wall clock has run, in nanoseconds, set-backs left out: it
    never decreases, and a clock set forward only makes it jump.  [time.time()] reads the
    wall clock, which is behind [ticks] by what it has been set back; that it was set back
    by no more than [set_back] in all, over the whole run, is the assumption.

    [time.sleep(d)] raises for a [d] that is negative, not a number or too large, and
    otherwise lasts at least [d], rounded up to a nanosecond. *)
Class Clock (W : Type) `{Host W} := {
  ticks : W -> Z;
  reading : Z -> float;
  set_back : Z;
  time_reads : forall w, ticks w <= ticks (snd (time_time w)) /\
    exists t, fst (time_time w) = Ok (reading t) /\ ticks w - set_back <= t;
  sleep_returns : forall d w, fst (time_sleep d w) <> Stuck /\ ticks w <= ticks (snd (time_sleep d w));
  sleep_lasts : forall d w, fst (time_sleep d w) = Ok tt -> truthy d = true ->
    ticks w < ticks (snd (time_sleep d w));
  stat_returns : forall p w, fst (path_stat p w) <> Stuck /\ ticks w <= ticks (snd (path_stat p w));
  open_returns : forall p m w, fst (file_open p m w) <> Stuck;
  file_calls_return : forall f t w,
    fst (file_read f w) <> Stuck /\ fst (file_write f t w) <> Stuck /\ fst (file_close f w) <> Stuck;
  deadline_passes : forall e, feq e e = true -> e <> S754_infinity false ->
    exists n, forall t, n <= t -> flt (reading t) e = false;
}.

Section ends.
Context {W : Type}.

(** An action that ends. *)
Definition ends {A} (m : io W A) : Prop := forall w, fst (m w) <> Stuck.

Lemma ends_ret {A} (a : A) : ends (ret a).
Proof. intros w. done. Qed.

Lemma ends_raise {A} e : ends (raise (A:=A) e).
Proof. intros w. done. Qed.

Lemma ends_bind {A B} (m : io W A) (k : A -> io W B) :
  ends m -> (forall a, ends (k a)) -> ends (bind m k).
Proof.
  intros Hm Hk w. specialize (Hm w). unfold bind.
  destruct (m w) as [[a|e|] w']; simpl in *; [apply Hk|done|done].
Qed.

Lemma ends_for_fold {A S} (l : list A) (s : S) (body : A -> S -> io W S) :
  (forall a s, ends (body a s)) -> ends (for_fold l s body).
Proof.
  intros Hb. induction l as [|a l IH] in s |- *; simpl; [apply ends_ret|].
  apply ends_bind; [done|]. intros s'. apply IH.
Qed.

Lemma ends_for_each {A} (l : list A) (body : A -> io W unit) :
  (forall a, ends (body a)) -> ends (for_each l body).
Proof.
  intros Hb. induction l as [|a l IH]; simpl; [apply ends_ret|]. by apply ends_bind.
Qed.

Lemma ends_try_finally {A} (m : io W A) (fin : io W unit) :
  ends m -> ends fin -> ends (try_finally m fin).
Proof.
  intros Hm Hf w. unfold try_finally. specialize (Hm w).
  destruct (m w) as [[a|e|] w']; simpl in *; [..|done];
    specialize (Hf w'); by destruct (fin w') as [[]].
Qed.
End ends.

Section timely.
Context {W : Type} `{Clock W}.

(** An action that ends, and does not turn the clock back. *)
Definition timely {A} (m : io W A) : Prop :=
  forall w, fst (m w) <> Stuck /\ ticks w <= ticks (snd (m w)).

Lemma timely_ret {A} (a : A) : timely (ret a).
Proof. intros w. split; [done|]. simpl. lia. Qed.

Lemma timely_raise {A} (e : exn) : timely (raise (A:=A) e).
Proof. intros w. split; [done|]. simpl. lia. Qed.

Lemma timely_bind {A B} (m : io W A) (k : A -> io W B) :
  timely m -> (forall a, timely (k a)) -> timely (bind m k).
Proof.
  intros Hm Hk w. destruct (Hm w) as [H1 H2]. unfold bind.
  destruct (m w) as [[a|e|] w']; simpl in *; [|by split|done].
  destruct (Hk a w') as [H3 H4]. split; [done|lia].
Qed.

Lemma timely_try_except {A} (m : io W A) (h : exn -> option (io W A)) :
  timely m -> (forall e m', h e = Some m' -> timely m') -> timely (try_except m h).
Proof.
  intros Hm Hh w. destruct (Hm w) as [H1 H2]. unfold try_except.
  destruct (m w) as [[a|e|] w']; simpl in *; [by split| |done].
  destruct (h e) as [m'|] eqn:E; [|by split].
  destruct (Hh _ _ E w') as [H3 H4]. split; [done|lia].
Qed.

Lemma timely_for_fold {A S} (l : list A) (s : S) (body : A -> S -> io W S) :
  (forall a s, timely (body a s)) -> timely (for_fold l s body).
Proof.
  intros Hb. induction l as [|a l IH] in s |- *; simpl; [apply timely_ret|].
  apply timely_bind; [done|]. intros s'. apply IH.
Qed.

Lemma timely_time : timely time_time.
Proof. intros w. by destruct (time_reads w) as (Ht & t & -> & _). Qed.

Lemma timely_sleep d : timely (time_sleep d).
Proof. intros w. apply sleep_returns. Qed.

Lemma timely_stat p : timely (path_stat p).
Proof. intros w. apply stat_returns. Qed.

Lemma timely_ends {A} (m : io W A) : timely m -> ends m.
Proof. intros Hm w. apply Hm. Qed.

Lemma ends_with_open {A} p m (body : fd -> io W A) :
  (forall f, ends (body f)) -> ends (with_open p m body).
Proof.
  intros Hb w. unfold with_open, bind, try_finally. pose proof (open_returns p m w) as Ho.
  destruct (file_open p m w) as [[f|e|] w1]; [|done|done].
  specialize (Hb f w1). destruct (body f w1) as [r w2]. simpl in Hb.
  destruct (file_calls_return f "" w2) as (_ & _ & Hc).
  destruct r as [a|e|]; [..|done]; by destruct (file_close f w2) as [[]].
Qed.

(** A polling loop: it stops when nothing is pending or the deadline has passed, and
    otherwise sleeps, an interval that is not zero, so some number of iterations is
    enough; an interval [time.sleep] refuses ends it with the exception. *)
Lemma while_deadline {S} (body : S -> io W S) (pending : S -> bool) (e : float) (interval : float)
    (poll : S -> io W S) :
  feq e e = true -> e <> S754_infinity false -> truthy interval = true ->
  (forall s, timely (poll s)) ->
  (forall s, body s = bind (poll s) (fun s' =>
     bind (when (pending s') (time_sleep interval)) (fun _ => ret s'))) ->
  forall s w, exists n, forall fuel, (n <= fuel)%nat ->
    fst (while fuel
      (fun s => if pending s then bind time_time (fun now => ret (flt now e)) else ret false)
      body s w) <> Stuck.
Proof.
  intros He Hi Hv Hp Hb s w. destruct (deadline_passes e He Hi) as [n Hn].
  assert (forall k s w, n + set_back - ticks w < Z.of_nat k -> forall fuel, (k + 1 <= fuel)%nat ->
    fst (while fuel
      (fun s => if pending s then bind time_time (fun now => ret (flt now e)) else ret false)
      body s w) <> Stuck) as Hk.
  { clear s w. induction k as [|k IH]; intros s w Hw fuel Hf.
    - destruct fuel as [|fuel]; [lia|]. cbn [while]. unfold bind, ret.
      destruct (pending s); [|done].
      destruct (time_reads w) as (_ & t & Ht & Hle). destruct (time_time w) as [r w']. simpl in *.
      subst r. rewrite Hn by lia. done.
    - destruct fuel as [|fuel]; [lia|]. cbn [while]. unfold bind at 1.
      destruct (pending s) eqn:Hs; [|done]. unfold bind at 1.
      destruct (time_reads w) as (Hmon & t & Ht & _). destruct (time_time w) as [r w']. simpl in *.
      subst r. unfold ret at 1. destruct (flt (reading t) e); [|done].
      rewrite Hb. unfold bind at 1 2. destruct (Hp s w') as [Hp1 Hp2].
      destruct (poll s w') as [[s'|ex|] w'']; simpl in *; [|done|done].
      unfold bind, when. destruct (pending s') eqn:Hs'.
      + destruct (sleep_returns interval w'') as [Hr _]. pose proof (sleep_lasts interval w'') as Hl.
        destruct (time_sleep interval w'') as [[[]|ex|] w3]; simpl in *; [|done|done].
        specialize (Hl eq_refl Hv). apply IH; lia.
      + unfold ret. destruct fuel as [|fuel]; [lia|]. cbn [while]. unfold bind. by rewrite Hs'. }
  exists (Z.to_nat (n + set_back - ticks w + 1) + 1)%nat. intros fuel Hf. eapply Hk; [|exact Hf]. lia.
Qed.
End timely.

(** ** Waiting for a set of things to become ready

    Both cluster scripts poll the nodes still pending until none is or a deadline
    passes; [check] is one of their passes over one node. *)

Section waiting.
Context {W : Type} `{Host W}.

Definition wait_pending (fuel : nat) (check_all : list Z -> io W (list Z)) (interval end_ : float)
    (pending : list Z) : io W (list Z) :=
  while fuel
    (fun pending => if negb (bool_decide (pending = [])) then let! now := time_time in ret (flt now end_)
                    else ret false)
    (fun pending => let! pending := check_all pending in
                    when (negb (bool_decide (pending = []))) (time_sleep interval) ;;; ret pending)
    pending.

(** [pending.discard(i)]. *)
Definition discard (i : Z) (pending : list Z) : list Z := List.filter (fun j => negb (j =? i)) pending.

Lemma elem_of_discard i j pending : j ∈ discard i pending <-> j ∈ pending /\ j <> i.
Proof. unfold discard. by rewrite !list_elem_of_In, filter_In, negb_true_iff, Z.eqb_neq. Qed.

(** Every one is pending or ready. *)
Definition awaited (ids : list Z) (ready : Z -> Prop) (pending : list Z) : Prop :=
  forall i, i ∈ ids -> i ∈ pending \/ ready i.

(** A node stays pending unless the check drops it, and it drops only its own node
    and only when that is ready. *)
Definition check_sound (check : Z -> list Z -> io W (list Z)) (ready : Z -> Prop) : Prop :=
  forall i pending w pending' w', check i pending w = (Ok pending', w') ->
    pending' = pending \/ (pending' = discard i pending /\ ready i).

Lemma wait_pending_awaited fuel check ready interval end_ ids w :
  check_sound check ready ->
  wp (wait_pending fuel (fun pending => for_fold (sort_Z pending) pending check) interval end_ (dedup ids))
    (on_ok (fun pending _ => awaited ids ready pending)) w.
Proof.
  intros Hc. unfold wait_pending. apply (wp_while (fun pending _ => awaited ids ready pending)).
  - intros i Hi. left. by apply dedup_spec.
  - intros pending w' Hp. destruct (negb _); [|done].
    eapply wp_ok_bind; [apply wp_ok_trivial|]. intros now w'' _. unfold wp. simpl. by destruct (flt now end_).
  - intros pending w' Hp. eapply wp_ok_bind; [apply (wp_for_fold (fun _ pending _ => awaited ids ready pending))|].
    + done.
    + intros i l pending' w'' Hp'. unfold wp.
      destruct (check i pending' w'') as [[p|e|] w3] eqn:E; [|done..]. simpl.
      destruct (Hc _ _ _ _ _ E) as [->|[-> Hr]]; [done|]. intros j Hj.
      destruct (Hp' j Hj) as [Hin|]; [|by right]. destruct (decide (j = i)) as [->|]; [by right|].
      left. by apply elem_of_discard.
    + intros pending' w'' Hp'. eapply wp_ok_bind; [apply wp_ok_trivial|]. by intros [] w3 _.
Qed.
End waiting.
