(* ===== verification/PySim.v ===== *)
(** * A small host to evaluate the tools on

    A clock in milliseconds, a disk whose files appear and vanish at given times,
    the commands that were run and the lines that were printed.  Threads run to
    completion when they start, which is one of the interleavings a real one
    allows.  The witnesses of the tools' theorems run here. *)

From stdpp Require Import sets.
From S2P Require Import Prelude PyHost.

(** What a file holds from a time on: blocks allocated and bytes, or nothing. *)
Record disk_event := Event { at_ms : Z; on_path : string; held : option (Z * string) }.

Record sim := Sim {
  clock_ms : Z;
  disk : list disk_event;
  commands : list (list string);
  answer : list string -> completed;
  lines : list string;
  cells : list (list exn);
}.

Definition quiet (args : list string) : completed := Completed 0 "" "".

Definition start : sim := Sim 0 [] [] quiet [] [].

(** The latest event on the path that has happened. *)
Definition on_disk (s : sim) (p : string) : option (Z * string) :=
  fold_left (fun acc e =>
    if bool_decide (on_path e = p) && (at_ms e <=? clock_ms s) then held e else acc) (disk s) None.

Definition blocks_of (data : string) : Z := (Z.of_nat (String.length data) + 511) / 512.

Definition put (p : string) (v : option (Z * string)) (s : sim) : sim :=
  Sim (clock_ms s) (disk s ++ [Event (clock_ms s) p v]) (commands s) (answer s) (lines s) (cells s).

Definition advance (d : Z) (s : sim) : sim :=
  Sim (clock_ms s + Z.max 1 d) (disk s) (commands s) (answer s) (lines s) (cells s).

Definition ran (args : list string) (s : sim) : sim :=
  Sim (clock_ms s) (disk s) (commands s ++ [args]) (answer s) (lines s) (cells s).

Definition printed (l : string) (s : sim) : sim :=
  Sim (clock_ms s) (disk s) (commands s) (answer s) (lines s ++ [l]) (cells s).

Definition with_cells (c : list (list exn)) (s : sim) : sim :=
  Sim (clock_ms s) (disk s) (commands s) (answer s) (lines s) c.

(** Seconds as a float; past any date the clock is off the scale. *)
Definition sim_reading (t : Z) : float :=
  if t <? 2 ^ 60 then float_of_Z_ratio t 1000 else S754_infinity false.

Definition ms_of (d : float) : Z :=
  match d with S754_finite false m e => scaled m e 3 | _ => 0 end.

Definition sim_file {A} (p : string) (f : Z * string -> A) : io sim A := fun s =>
  match on_disk s p with
  | Some v => (Ok (f v), s)
  | None => (Exn (OSError FileNotFound), s)
  end.

(** The entries directly below a directory: of every file there is, the first
    component after the directory's path. *)
Definition below (dir p : string) : option (string * bool) :=
  let d := dir +:+ "/" in
  if String.prefix d p then
    let rest := str_drop (String.length d) p in
    Some (match cut SLASH rest with Some (n, _) => (n, true) | None => (rest, false) end)
  else None.

Definition entries_below (s : sim) (dir : string) : list (string * bool) :=
  dedup (omap (fun e => match on_disk s (on_path e) with Some _ => below dir (on_path e) | None => None end) (disk s)).

#[export] Instance sim_host : Host sim := {|
  time_time s := (Ok (sim_reading (clock_ms s)), s);
  time_monotonic s := (Ok (sim_reading (clock_ms s)), s);
  time_sleep d s :=
    if fle fzero d then (Ok tt, if truthy d then advance (ms_of d) s else s)
    else (Exn (ValueError "sleep length must be non-negative"), s);
  getloadavg s := (Ok fzero, s);
  getuid s := (Ok 1000, s);
  urandom n s := (Ok (spaces (Z.to_nat n)), s);
  path_stat p := sim_file p (fun v => Stat 33188 (Z.of_nat (String.length v.2)) v.1);
  path_lstat p := sim_file p (fun v => Stat 33188 (Z.of_nat (String.length v.2)) v.1);
  path_exists p s :=
    (Ok (bool_decide (is_Some (on_disk s p)) || negb (bool_decide (entries_below s p = []))), s);
  path_is_file p s := (Ok (bool_decide (is_Some (on_disk s p))), s);
  path_islink _ s := (Ok false, s);
  listdir p s := (Ok (map fst (entries_below s p)), s);
  scandir p s := (Ok (entries_below s p), s);
  read_text p := sim_file p snd;
  write_text p t s := (Ok tt, put p (Some (blocks_of t, t)) s);
  mkdir _ _ s := (Ok tt, s);
  unlink p s :=
    match on_disk s p with
    | Some _ => (Ok tt, put p None s)
    | None => (Exn (OSError FileNotFound), s)
    end;
  rmtree _ s := (Ok tt, s);
  copyfile a b s :=
    match on_disk s a with
    | Some v => (Ok tt, put b (Some v) s)
    | None => (Exn (OSError FileNotFound), s)
    end;
  fd := string;
  file_open p m s :=
    match m with
    | WriteBinary | WriteText => (Ok p, put p (Some (0, "")) s)
    | AppendText => (Ok p, match on_disk s p with Some _ => s | None => put p (Some (0, "")) s end)
    | ReadBinary =>
        match on_disk s p with Some _ => (Ok p, s) | None => (Exn (OSError FileNotFound), s) end
    end;
  file_read p := sim_file p snd;
  file_write p t s :=
    let old := match on_disk s p with Some (_, o) => o | None => "" end in
    (Ok tt, put p (Some (blocks_of (old +:+ t), old +:+ t)) s);
  file_fsync _ s := (Ok tt, s);
  file_close _ s := (Ok tt, s);
  subprocess_run args s := (Ok (answer s args), ran args s);
  cell := nat;
  cell_new s := (Ok (length (cells s)), with_cells (cells s ++ [[]]) s);
  cell_append c e s := (Ok tt, with_cells (alter (fun l => l ++ [e]) c (cells s)) s);
  cell_get c s := (Ok (match cells s !! c with Some l => l | None => [] end), s);
  thread := unit;
  thread_start m s :=
    match m s with (Stuck, s') => (Stuck, s') | (_, s') => (Ok tt, s') end;
  thread_join _ s := (Ok tt, s);
  conn := string * Z;
  http_connection h p s := (Ok (h, p), s);
  http_request c verb url _ _ s := (Ok 200, ran ["http"; verb; url] s);
  http_close _ s := (Ok tt, s);
  print l s := (Ok tt, printed l s);
  sha256_hex data := "sha256:" +:+ data;
|}.

#[export] Instance sim_clock : Clock sim.
Proof.
  refine {| ticks := clock_ms; reading := sim_reading; set_back := 0 |}.
  - intros w. simpl. split; [lia|]. exists (clock_ms w). split; [done|lia].
  - intros d w. simpl. destruct (fle fzero d), (truthy d); simpl; split; (done || lia).
  - intros d w. simpl. destruct (fle fzero d); [|done]. intros _ ->. simpl. lia.
  - intros p w. simpl. unfold sim_file. destruct (on_disk w p); simpl; split; (done || lia).
  - intros p m w. simpl. destruct m; try done. by destruct (on_disk w p).
  - intros f t w. simpl. unfold sim_file. by destruct (on_disk w f).
  - intros e _ _. exists (2 ^ 60). intros t Ht. unfold sim_reading.
    replace (t <? 2 ^ 60) with false by (symmetry; apply Z.ltb_ge; lia).
    by destruct e as [| [] | |].
Defined.
