(* ===== verification/SyncfsCluster.v ===== *)
(** * syncfs_cluster.py: an N-node mesh of the daemon

    Names, the peers file each node is given, how a node is started and how the
    mesh is waited for.  The peers file is read by the daemon: what [start_node] writes
    is what [Discovery.parse] reads back, and the listen address is one
    [check_listen_address] accepts ([mesh_is_runnable], which Mesh.v builds on). *)

From stdpp Require Import sets.
From S2P Require Import Prelude Utils Discovery PyHost PySim.

Module SyncfsCluster.

Definition IMAGE : string := "localhost/syncfs".
Definition DEBUG_IMAGE : string := "localhost/syncfs-env".
Definition DEBUG_BINARY : string := "/syncfs/.build/unixlike-clang-debug/src/syncfs".
Definition NETWORK : string := "syncfsnet".
Definition SUBNET : string := "10.10.20.0/24".
Definition ZMQ_PORT : Z := 5555.
Definition FIRST_NODE_ID : Z := 1.
Definition NOFILE : Z := 1048576.
Definition SUBSCRIBE_GRACE : float := float_of_Z 5.

Definition node_ids (count : Z) : list Z :=
  map (fun i => FIRST_NODE_ID + Z.of_nat i) (seq 0 (Z.to_nat count)).

Definition node_name (node_id : Z) : string := "sfs" +:+ Z_to_string node_id.

Definition container (root : string) (node_id : Z) : string :=
  "syncfs-" +:+ path_name root +:+ "-" +:+ node_name node_id.

(** The text of a node's peers file: one address per line, every peer but it. *)
Definition peer_endpoint (node_id : Z) : string :=
  "tcp://" +:+ node_name node_id +:+ ":" +:+ Z_to_string ZMQ_PORT.

Definition peers_text (ids : list Z) (node_id : Z) : string :=
  str_concat (map (fun other => peer_endpoint other +:+ String NEWLINE "")
    (List.filter (fun other => negb (other =? node_id)) ids)).

Definition listen_address (node_id : Z) : string :=
  node_name node_id +:+ ":" +:+ Z_to_string ZMQ_PORT.

Section cluster.
Context {W : Type} `{Host W}.

Definition run (args : list string) : io W completed := subprocess_check args.

Definition ensure_network : io W unit :=
  let! r := subprocess_run ["podman"; "network"; "exists"; NETWORK] in
  if returncode r =? 0 then ret tt
  else run ["podman"; "network"; "create"; "--subnet"; SUBNET; NETWORK] ;;; ret tt.

(** The argument list of [podman run]. *)
Definition node_args (root : string) (node_id uid : Z) (data peers : string) (debug : bool)
    (source : option string) : list string :=
  ["podman"; "run"; "-d";
   "--name"; container root node_id;
   "--hostname"; node_name node_id;
   "--network"; NETWORK +:+ ":alias=" +:+ node_name node_id;
   "--ulimit"; "nofile=" +:+ Z_to_string NOFILE +:+ ":" +:+ Z_to_string NOFILE;
   "--userns"; "keep-id:uid=" +:+ Z_to_string uid;
   "-v"; data +:+ ":/data:rw,Z";
   "-v"; peers +:+ ":/peers:ro,Z"]
  ++ (if debug then
        ["-v"; match source with Some s => s | None => "None" end +:+ ":/syncfs:ro,Z";
         "--user"; Z_to_string uid;
         "--workdir"; "/data";
         "--entrypoint"; DEBUG_BINARY;
         DEBUG_IMAGE]
      else [IMAGE])
  ++ ["/peers"; listen_address node_id].

Definition start_node (root : string) (node_id : Z) (ids : list Z) (debug : bool)
    (source : option string) : io W unit :=
  let node_root := join_path root (node_name node_id) in
  let data := join_path node_root "data" in
  mkdir_parents data ;;;
  let peers := join_path node_root "peers" in
  write_text peers (peers_text ids node_id) ;;;
  subprocess_run ["podman"; "rm"; "-f"; container root node_id] ;;;
  let! uid := getuid in
  run (node_args root node_id uid data peers debug source) ;;; ret tt.

(** One node of the readiness loop: an exited container is reported at once, and
    a node whose log says so is no longer pending. *)
Definition check_node (root : string) (node_id : Z) (pending : list Z) : io W (list Z) :=
  let name := container root node_id in
  let! inspect := subprocess_run ["podman"; "inspect"; "--format"; "{{.State.Status}}"; name] in
  if String.eqb (strip (stdout inspect)) "exited" then
    let! logs := subprocess_run ["podman"; "logs"; "--tail"; "20"; name] in
    raise (RuntimeError (name +:+ " exited during startup:" +:+ String NEWLINE ""
                         +:+ stdout logs +:+ stderr logs))
  else
    let! logs := subprocess_run ["podman"; "logs"; name] in
    ret (if str_contains "Started libtorrent session" (stdout logs +:+ stderr logs)
         then discard node_id pending else pending).

Definition wait_ready (fuel : nat) (root : string) (ids : list Z) (deadline : float) : io W unit :=
  let! now := time_time in
  let end_ := fadd now deadline in
  let! pending := wait_pending fuel
    (fun pending => for_fold (sort_Z pending) pending (check_node root)) (dec 5 1) end_ (dedup ids) in
  if negb (bool_decide (pending = []))
  then raise (RuntimeError ("nodes not ready within " +:+ float_repr deadline +:+ "s: "
                            +:+ str_of_ints (sort_Z pending)))
  else time_sleep SUBSCRIBE_GRACE.

(** The fourth word of the line of /proc/<pid>/limits, where there is one. *)
Definition nofile_limit (text : string) : option Z :=
  match List.find (String.prefix "Max open files") (splitlines text) with
  | Some line => match words line !! 3%nat with Some w => int_of_string w | None => None end
  | None => None
  end.

Definition observed_nofile (root : string) (node_id : Z) : io W (option Z) :=
  let! inspect := subprocess_run
    ["podman"; "inspect"; "--format"; "{{.State.Pid}}"; container root node_id] in
  let pid := strip (stdout inspect) in
  try_except
    (let! text := read_text ("/proc/" +:+ pid +:+ "/limits") in ret (nofile_limit text))
    (fun e => match e with OSError _ | ValueError _ | IndexError => Some (ret None) | _ => None end).

Definition value_of (v : option Z) : value := match v with Some z => VInt z | None => VNone end.

Definition node_entry (root : string) (node_id : Z) : string * value :=
  (node_name node_id,
   VDict [("container", VStr (container root node_id));
          ("data_dir", VStr (join_path (join_path root (node_name node_id)) "data"))]).

Definition cluster_info (root : string) (count first : Z) (nofile : option Z) : record :=
  [("system", VStr "syncfs"); ("nodes", VInt count); ("nofile", value_of nofile);
   ("node", VDict (map (node_entry root) (node_ids count)));
   ("writer", VStr (node_name first))].

Definition up (fuel : nat) (root : string) (count : Z) (deadline : float) (debug : bool)
    (source : option string) : io W record :=
  if count <? 2 then
    raise (SystemExit "a syncfs mesh needs at least 2 nodes: an empty peer list is fatal")
  else
    ensure_network ;;;
    mkdir_parents root ;;;
    let ids := node_ids count in
    for_each ids (fun node_id => start_node root node_id ids debug source) ;;;
    wait_ready fuel root ids deadline ;;;
    match ids with
    | first :: _ =>
        let! nofile := observed_nofile root first in
        ret (cluster_info root count first nofile)
    | [] => raise IndexError
    end.

Definition down (root : string) (count : Z) : io W unit :=
  for_each (node_ids count) (fun node_id =>
    subprocess_run ["podman"; "rm"; "-f"; container root node_id] ;;; ret tt).

(** What argparse makes of the command line. *)
Inductive cluster_args :=
| UpArgs (nodes : Z) (root : string) (deadline : float) (debug : bool) (source : string)
| DownArgs (nodes : Z) (root : string).

Definition main (fuel : nat) (args : cluster_args) : io W Z :=
  match args with
  | UpArgs nodes root deadline debug source =>
      let! info := up fuel root nodes deadline debug (Some source) in
      print (json_indented 0 (VDict info))
  | DownArgs nodes root => down root nodes
  end ;;;
  ret 0.
End cluster.

(** ** Examples *)

Example limits_line :
  nofile_limit ("Limit  Soft Hard" +:+ String NEWLINE "Max open files            1048576              1048576              files")
  = Some 1048576.
Proof. vm_compute. reflexivity. Qed.

Example peers_of_two : peers_text [1; 2; 3] 2
  = "tcp://sfs1:5555" +:+ String NEWLINE ("tcp://sfs3:5555" +:+ String NEWLINE "").
Proof. reflexivity. Qed.

(** ** Lemmas *)

Lemma node_ids_spec count i : i ∈ node_ids count <-> 1 <= i <= count.
Proof.
  unfold node_ids, FIRST_NODE_ID. rewrite list_elem_of_fmap. split.
  - intros (k & -> & Hk%elem_of_seq). lia.
  - intros Hi. exists (Z.to_nat (i - 1)). split; [lia|]. apply elem_of_seq. lia.
Qed.

Lemma node_ids_NoDup count : NoDup (node_ids count).
Proof.
  unfold node_ids. apply NoDup_fmap_2; [|apply NoDup_seq]. intros i j Hij. lia.
Qed.

Lemma peer_endpoint_no_char c i :
  has_char c "tcp://sfs:5555" = false -> is_decimal_char c = false -> has_char c (peer_endpoint i) = false.
Proof.
  intros Hc Hd. unfold peer_endpoint, node_name. rewrite !has_char_app.
  rewrite (Z_to_string_no_char c i) by done.
  change (Z_to_string ZMQ_PORT) with "5555".
  change "tcp://sfs:5555" with ("tcp://" +:+ "sfs" +:+ ":" +:+ "5555") in Hc.
  rewrite !has_char_app in Hc. apply orb_false_iff in Hc as [-> Hc].
  apply orb_false_iff in Hc as [-> Hc]. by apply orb_false_iff in Hc as [-> ->].
Qed.

(** The daemon's line limit holds for every node number of up to 13 digits. *)
Lemma peer_endpoint_plain i : 1 <= i < 10 ^ 13 -> plain_line (peer_endpoint i).
Proof.
  intros Hi. split; [by apply peer_endpoint_no_char|]. split; [by apply peer_endpoint_no_char|].
  unfold peer_endpoint, node_name. rewrite !str_length_app.
  pose proof (Z_to_string_length i 13 ltac:(simpl; lia) ltac:(lia)) as Hl.
  change (String.length (Z_to_string ZMQ_PORT)) with 4%nat. unfold max_line_len. simpl. lia.
Qed.

Lemma peers_text_unlines ids i :
  peers_text ids i = unlines (map peer_endpoint (List.filter (fun o => negb (o =? i)) ids)).
Proof. unfold peers_text, unlines. by rewrite map_map. Qed.

Lemma endpoints_non_blank l : List.filter non_blank (map peer_endpoint l) = map peer_endpoint l.
Proof. induction l as [|i l IH]; [done|]. simpl. by rewrite IH. Qed.

Lemma strip_back_bracket_free s : has_char "]"%char s = false -> strip_back_bracket s = s.
Proof.
  induction s as [|c s IH]; [done|]. intros [Hc Hs]%has_char_cons_false. simpl. rewrite IH by done.
  destruct c as [[] [] [] [] [] [] [] []]; try done.
Qed.

Lemma host_of_listen_address i : host_of (listen_address i) = node_name i.
Proof.
  unfold host_of, listen_address. change (":" +:+ Z_to_string ZMQ_PORT) with (String COLON "5555").
  rewrite rcut_app by done. apply strip_back_bracket_free.
  unfold node_name. rewrite has_char_app. by rewrite Z_to_string_no_char.
Qed.

Lemma check_listen_address_node i : check_listen_address (listen_address i) = inl tt.
Proof.
  unfold check_listen_address. rewrite host_of_listen_address. unfold port_of, listen_address.
  change (":" +:+ Z_to_string ZMQ_PORT) with (String COLON "5555"). by rewrite rcut_app.
Qed.

(** The daemon of a node has said it is up. *)
Definition reported_ready {W} `{Host W} (root : string) (i : Z) : Prop :=
  exists w logs w', subprocess_run ["podman"; "logs"; container root i] w = (Ok logs, w') /\
    str_contains "Started libtorrent session" (stdout logs +:+ stderr logs) = true.

Lemma check_node_sound {W} `{Host W} root : check_sound (check_node root) (reported_ready root).
Proof.
  intros i pending w pending' w'. unfold check_node, bind, ret, raise.
  destruct (subprocess_run _ w) as [[inspect|e|] w1]; [|done..].
  destruct (String.eqb _ _).
  - by destruct (subprocess_run _ w1) as [[l|e|] w2].
  - destruct (subprocess_run _ w1) as [[logs|e|] w2] eqn:E; [|done..].
    destruct (str_contains _ _) eqn:Es; intros [= <- <-]; [right|by left].
    split; [done|]. by exists w1, logs, w2.
Qed.

(** ** Properties *)

(** For up to ten trillion nodes, the peers file of every node reads back, by the daemon's
    own parser, as the endpoint of each of the other nodes, in order, which is
    never the empty list the daemon refuses; and the address the node is told to listen on
    passes the daemon's check. *)
Lemma mesh_is_runnable count node_id :
  2 <= count < 10 ^ 13 -> node_id ∈ node_ids count ->
  let endpoints := map peer_endpoint (List.filter (fun o => negb (o =? node_id)) (node_ids count)) in
  parse (Open (peers_text (node_ids count) node_id) false) = Some (inl endpoints) /\
  endpoints <> [] /\ check_listen_address (listen_address node_id) = inl tt.
Proof.
  intros Hc Hi endpoints. unfold endpoints. clear endpoints.
  set (others := List.filter (fun o => negb (o =? node_id)) (node_ids count)).
  assert (forall o, o ∈ others <-> o ∈ node_ids count /\ o <> node_id) as Ho.
  { intros o. unfold others. rewrite !list_elem_of_In, filter_In, negb_true_iff, Z.eqb_neq. done. }
  split; [|split; [|apply check_listen_address_node]].
  - rewrite peers_text_unlines, parse_unlines; [by rewrite endpoints_non_blank|].
    apply Forall_forall. intros e He. apply list_elem_of_fmap in He as (o & -> & Ho').
    apply peer_endpoint_plain. apply Ho in Ho' as [Ho' _]. apply node_ids_spec in Ho'. lia.
  - assert (exists o, o ∈ others) as [o Hin].
    { exists (if node_id =? 1 then 2 else 1). apply Ho. rewrite node_ids_spec.
      destruct (Z.eqb_spec node_id 1); lia. }
    destruct others; [by apply elem_of_nil in Hin|done].
Qed.

(** When [wait_ready] comes back, every node has reported that its
    session started, whatever the order they came up in; otherwise it raises. *)
Lemma wait_ready_means_ready {W} `{Host W} fuel root ids deadline w w' :
  wait_ready fuel root ids deadline w = (Ok tt, w') ->
  forall i, i ∈ ids -> reported_ready root i.
Proof.
  unfold wait_ready. unfold bind at 1. destruct (time_time w) as [[now|e|] w1]; [|done..].
  pose proof (wait_pending_awaited fuel (check_node root) (reported_ready root) (dec 5 1)
    (fadd now deadline) ids w1 (check_node_sound root)) as Hp.
  unfold wp in Hp. unfold bind.
  destruct (wait_pending _ _ _ _ _ w1) as [[pending|e|] w2]; [|done..].
  destruct (bool_decide (pending = [])) eqn:E; [|done]. apply bool_decide_eq_true in E as ->.
  intros _ i Hi. destruct (Hp i Hi) as [Hin|]; [by apply elem_of_nil in Hin|done].
Qed.

Definition ready_host : sim :=
  Sim 0 [] [] (fun args => Completed 0 "Started libtorrent session" "") [] [].

End SyncfsCluster.
