(* ===== verification/Mesh.v ===== *)
(** * The mesh of the cluster script, run by the daemons

    syncfs_cluster.py writes a peers file for every node and starts the daemon on it
    under the node's address ([start_node]); syncfs.cpp reads the file and sets its sockets
    up ([main]).  Composed: every node comes up, is connected to every node once and
    bound where the others connect, and the digest asked of a node reaches that node. *)

From stdpp Require Import sets.
From S2P Require Import Prelude OrdMap FsPath Utils Files Monitor Discovery Reconcile Protocol Source Sink LocalChanges SyncLoop LoopInvariant PyFloat Daemon PyHost PySim SyncfsCluster.
Import SyncfsCluster.

(** ** When ZMQ refuses nothing *)

Section served.
Context `{Torrents} `{!Session} `{Disk} `{!Announcer} `{Hasher256} `{Generator} `{Kernel} `{Receiving} `{!Sockets}.

Definition performed (m : prog unit) (l : list effect) : Prop := forall done, m done = (done ++ l, inl tt).

Lemma performed_bind m1 m2 l1 l2 : performed m1 l1 -> performed m2 l2 ->
  performed (pbind m1 (fun _ => m2)) (l1 ++ l2).
Proof. intros Hm1 Hm2 done. unfold pbind. by rewrite Hm1, Hm2, app_assoc. Qed.

Context (Hserved : forall done e, refuses done e = None).

Lemma performed_zmq e : performed (zmq e) [e].
Proof using Hserved. intros done. unfold zmq. by rewrite Hserved. Qed.

Lemma performed_in_order {A} (f : A -> effect) l : performed (in_order (fun a => zmq (f a)) l) (map f l).
Proof using Hserved.
  induction l as [|a l IH]; [intros done; by rewrite app_nil_r|].
  apply (performed_bind _ _ [f a]); [apply performed_zmq|exact IH].
Qed.

Lemma set_up_performed peers arg : performed (set_up_sockets peers arg) (plan peers arg).
Proof using Hserved.
  unfold set_up_sockets, plan.
  repeat (apply performed_bind; [apply performed_in_order || apply performed_zmq|]). apply performed_zmq.
Qed.

(** A daemon whose arguments are usable runs its loop on them. *)
Lemma main_runs fuel s open_file program peers_file arg peers host port :
  parse (open_file peers_file) = Some (inl peers) -> peers <> [] -> check_listen_address arg = inl tt ->
  parse_host_port arg = inl (host, port) ->
  Daemon.main fuel s open_file [program; peers_file; arg] =
  let '(sent, ended) := sync_loop fuel s host (wrap_u16 port) in
  match ended with
  | Some _ => (signals ++ plan peers arg ++ [Publishes sent], ExitSuccess)
  | None => (signals ++ plan peers arg ++ [Publishes sent; Says LoopThrew], ExitFailure)
  end.
Proof using Hserved.
  intros Hp Hne Hc Hh. unfold Daemon.main, checked_main, pbind, performs. rewrite Hp.
  destruct peers as [|p peers]; [done|]. rewrite Hc, set_up_performed. unfold start_loop. rewrite Hh.
  destruct (sync_loop _ _ _ _) as [sent ended]. unfold pbind, performs.
  destruct ended; unfold pret, throws; by rewrite <- ?app_assoc.
Qed.
End served.

(** ** The addresses of a node *)

(** What podman runs in a node's container. *)
Definition daemon_args (i : Z) : list string := ["syncfs"; "/peers"; listen_address i].

Lemma node_args_end root i uid data peers debug source :
  exists before, node_args root i uid data peers debug source = before ++ tail (daemon_args i).
Proof. unfold node_args. rewrite !app_assoc. by eexists. Qed.

Lemma node_name_no_char c i : has_char c "sfs" = false -> is_decimal_char c = false -> has_char c (node_name i) = false.
Proof. intros Hc Hd. unfold node_name. by rewrite has_char_app, Hc, Z_to_string_no_char. Qed.

Lemma parse_host_port_node i : parse_host_port (listen_address i) = inl (node_name i, ZMQ_PORT).
Proof.
  unfold parse_host_port, listen_address. change (":" +:+ Z_to_string ZMQ_PORT) with (String COLON "5555").
  by rewrite split_on_app by by apply node_name_no_char.
Qed.

Lemma my_address_node i : my_address (listen_address i) = peer_endpoint i.
Proof. reflexivity. Qed.

Lemma own_endpoint_node i : own_endpoint (node_name i) ZMQ_PORT = peer_endpoint i.
Proof. reflexivity. Qed.

#[export] Instance peer_endpoint_inj : Inj (=) (=) peer_endpoint.
Proof.
  intros i j Hij. unfold peer_endpoint, node_name in Hij. rewrite !(str_app_assoc "sfs") in Hij. injection Hij as Hij.
  rewrite !str_app_nil_l in Hij. apply str_app_inj_tail in Hij. by apply (inj Z_to_string).
Qed.

(** What a daemon's listener is connected to, in order. *)
Definition connections (done : list effect) : list string :=
  omap (fun e => match e with Connects Listener p => Some p | _ => None end) done.

Lemma connections_app l1 l2 : connections (l1 ++ l2) = connections l1 ++ connections l2.
Proof. apply omap_app. Qed.

Lemma connections_of_plan peers arg : connections (plan peers arg) = peers ++ [my_address arg].
Proof.
  unfold plan. rewrite !connections_app. replace (connections (map (Connects Listener) peers)) with peers; [done|].
  induction peers as [|p peers IH]; [done|]. simpl. by rewrite <- IH.
Qed.

Lemma others_permutation (l : list Z) i : NoDup l -> i ∈ l ->
  Permutation (List.filter (fun o => negb (o =? i)) l ++ [i]) l.
Proof.
  intros Hl Hi. apply NoDup_Permutation; [|done|].
  - apply NoDup_app. split; [by apply NoDup_ListNoDup, List.NoDup_filter, NoDup_ListNoDup|].
    split; [|apply NoDup_singleton]. intros o Ho ->%list_elem_of_singleton.
    apply list_elem_of_In, filter_In in Ho as [_ Ho]. by rewrite Z.eqb_refl in Ho.
  - intros o. rewrite elem_of_app, list_elem_of_singleton, !list_elem_of_In, filter_In, <- !list_elem_of_In.
    destruct (Z.eqb_spec o i); naive_solver.
Qed.

Lemma digest_of_mesh i j held deleted :
  delivered (subscribe (my_address (listen_address i))) (digest (own_endpoint (node_name j) ZMQ_PORT) held deleted) = true
  <-> i = j.
Proof.
  rewrite my_address_node, own_endpoint_node.
  change (delivered (subscribe (peer_endpoint i)) (digest (peer_endpoint j) held deleted))
    with (String.prefix (address "digest" (peer_endpoint i)) (address "digest" (peer_endpoint j)) || false).
  rewrite orb_false_r, prefix_address_iff by (done || by apply peer_endpoint_no_char).
  split; [by intros [_ Hij%(inj peer_endpoint)]|by intros ->].
Qed.

(** ** The mesh *)

Section mesh.
Context `{Torrents} `{!Session} `{Disk} `{!Announcer} `{Hasher256} `{Generator} `{Kernel} `{Receiving} `{!Sockets}.

(** C9: the mesh of the script is a mesh of daemons.  What [start_node] has podman run
    comes up on the peers file it wrote, for up to ten trillion nodes and as long as ZMQ
    refuses nothing: the daemon's loop runs under the node's name and port, its listener
    is connected to the endpoint of every node once, its own included, each of which is
    what that node binds; and what is addressed at the endpoint a node signs with reaches
    that node and no other. *)
Theorem mesh_comes_up fuel s open_file count i root uid data peers_path debug source :
  2 <= count < 10 ^ 13 -> i ∈ node_ids count ->
  open_file "/peers" = Open (peers_text (node_ids count) i) false ->
  (forall done e, refuses done e = None) ->
  let '(sent, ended) := sync_loop fuel s (node_name i) ZMQ_PORT in
  let '(done, code) := Daemon.main fuel s open_file (daemon_args i) in
  (exists before, node_args root i uid data peers_path debug source = before ++ tail (daemon_args i)) /\
  (code = ExitSuccess <-> ended = Some tt) /\ Publishes sent ∈ done /\
  Permutation (connections done) (map peer_endpoint (node_ids count)) /\
  (forall e, Binds Client e ∈ done <-> e = peer_endpoint i) /\
  (forall j held deleted, delivered (subscribe (my_address (listen_address i)))
     (digest (own_endpoint (node_name j) ZMQ_PORT) held deleted) = true <-> i = j).
Proof.
  intros Hc Hi Hopen Hserved.
  set (others := map peer_endpoint (List.filter (fun o => negb (o =? i)) (node_ids count))).
  destruct (mesh_is_runnable count i Hc Hi) as (Hp & Hne & Hl). fold others in Hp, Hne. rewrite <- Hopen in Hp.
  unfold daemon_args. rewrite (main_runs Hserved fuel s open_file "syncfs" "/peers" _ others (node_name i) ZMQ_PORT)
    by (done || apply parse_host_port_node).
  change (wrap_u16 ZMQ_PORT) with ZMQ_PORT. destruct (sync_loop fuel s (node_name i) ZMQ_PORT) as [sent ended].
  assert (Permutation (connections (plan others (listen_address i))) (map peer_endpoint (node_ids count))) as Hperm.
  { rewrite connections_of_plan, my_address_node. unfold others.
    change [peer_endpoint i] with (map peer_endpoint [i]). rewrite <- map_app.
    apply Permutation_map, others_permutation; [apply node_ids_NoDup|done]. }
  assert (forall e, Binds Client e ∈ plan others (listen_address i) <-> e = peer_endpoint i) as Hbind.
  { intros e. unfold plan. rewrite my_address_node, !elem_of_app, !list_elem_of_fmap. set_solver. }
  destruct ended as [[]|]; (split; [apply node_args_end|]);
    (split; [done|]); (split; [set_solver|]); (split; [|split; [|intros; apply digest_of_mesh]]).
  1, 3: by rewrite !connections_app, app_nil_r.
  all: intros e; rewrite <- Hbind, !elem_of_app; set_solver.
Qed.
End mesh.

(** ** The second of three nodes *)

Import DaemonSim.

#[local] Instance all_served : Sockets := fun _ _ => None.

Lemma mesh_comes_up_witness :
  let open_file := fun name => if String.eqb name "/peers" then Open (peers_text (node_ids 3) 2) false else NotOpen in
  let '(done, code) := Daemon.main 3 sim_surroundings open_file (daemon_args 2) in
  code = ExitSuccess /\ connections done = ["tcp://sfs1:5555"; "tcp://sfs3:5555"; "tcp://sfs2:5555"] /\
  Permutation (connections done) (map peer_endpoint (node_ids 3)) /\
  (forall e, Binds Client e ∈ done <-> e = "tcp://sfs2:5555").
Proof.
  intros open_file.
  assert (match Daemon.main 3 sim_surroundings open_file (daemon_args 2) with (done, code) =>
    code = ExitSuccess /\ connections done = ["tcp://sfs1:5555"; "tcp://sfs3:5555"; "tcp://sfs2:5555"] end) as Hrun
    by (vm_compute; done).
  assert (2 ∈ node_ids 3) as Hi by (apply node_ids_spec; lia).
  pose proof (mesh_comes_up 3 sim_surroundings open_file 3 2 "/r" 1000 "/d" "/p" false None ltac:(lia) Hi
    eq_refl (fun _ _ => eq_refl)) as Hm.
  destruct (sync_loop 3 sim_surroundings (node_name 2) ZMQ_PORT) as [sent ended].
  destruct (Daemon.main 3 sim_surroundings open_file (daemon_args 2)) as [done code].
  destruct Hrun as [Hcode Hcon], Hm as (_ & _ & _ & Hp & Hb & _). by repeat split; [| |exact Hp|apply Hb..].
Defined.
