(* ===== verification/ExasolCluster.v ===== *)
(** * exasol_cluster.py: an N-node BucketFS

    The one configuration every node shares, the passwords read back from it, the
    ports and addresses of the nodes, and how the cluster is waited for. *)

From stdpp Require Import sets.
From S2P Require Import Prelude PyHost PySim.

Module ExasolCluster.

Definition IMAGE : string := "docker.io/exasol/docker-db:2026.1.1".
Definition NETWORK : string := "exanet".
Definition SUBNET : string := "10.10.10.0/24".
Definition FIRST_NODE_ID : Z := 11.
Definition BUCKETFS : string := "bfsdefault".
Definition BUCKET : string := "default".
Definition CONTAINER_HTTP_PORT : Z := 2580.
Definition FIRST_HOST_PORT : Z := 2600.

Definition node_ids (count : Z) : list Z :=
  map (fun i => FIRST_NODE_ID + Z.of_nat i) (seq 0 (Z.to_nat count)).

Definition node_ip (node_id : Z) : string := "10.10.10." +:+ Z_to_string node_id.

Definition host_port (node_id : Z) : Z := FIRST_HOST_PORT + (node_id - FIRST_NODE_ID).

Definition node_label (node_id : Z) : string := "n" +:+ Z_to_string node_id.

Definition container (root : string) (node_id : Z) : string :=
  "exa-" +:+ path_name root +:+ "-" +:+ node_label node_id.

Definition node_root (root : string) (node_id : Z) : string := join_path root (node_label node_id).

Definition bucket_dir (root : string) (node_id : Z) : string :=
  fold_left join_path ["data"; "bucketfs"; BUCKETFS; ".dest"; BUCKET] (node_root root node_id).

Definition own_dir (root : string) (node_id : Z) : string :=
  fold_left join_path ["data"; "bucketfs"; BUCKETFS; BUCKET] (node_root root node_id).

Definition bucket_url (node_id : Z) : string :=
  "http://localhost:" +:+ Z_to_string (host_port node_id) +:+ "/" +:+ BUCKET.

(** ** The configuration file *)

(** What is left of [s] after the literal [lit]. *)
Fixpoint after_literal (lit s : string) : option string :=
  match lit, s with
  | EmptyString, _ => Some s
  | String a lit', String b s' => if decide (a = b) then after_literal lit' s' else None
  | String _ _, EmptyString => None
  end.

(** The longest run that is not white space, and what follows. *)
Fixpoint span_word (s : string) : string * string :=
  match s with
  | String c s' => if py_space c then ("", s) else let '(w, r) := span_word s' in (String c w, r)
  | EmptyString => ("", "")
  end.

(** [\\s*$] with [re.M]: the white space reaches a line end or the end. *)
Fixpoint blank_to_eol (s : string) : bool :=
  match s with
  | EmptyString => true
  | String c s' => bool_decide (c = NEWLINE) || (py_space c && blank_to_eol s')
  end.

(** [^\\s*FIELD\\s*=\\s*(\\S+)\\s*$] at one position. *)
Definition match_setting (field s : string) : option string :=
  match after_literal field (skip_blank s) with
  | None => None
  | Some r =>
      match skip_blank r with
      | String "=" r =>
          let '(w, rest) := span_word (skip_blank r) in
          if negb (String.eqb w "") && blank_to_eol rest then Some w else None
      | _ => None
      end
  end.

(** [re.search] with [re.M]: the leftmost line start that matches. *)
Fixpoint search_setting (field s : string) (line_start : bool) : option string :=
  match (if line_start then match_setting field s else None) with
  | Some w => Some w
  | None =>
      match s with
      | EmptyString => None
      | String c s' => search_setting field s' (bool_decide (c = NEWLINE))
      end
  end.

Definition find_setting (text field : string) : option string := search_setting field text true.

Section cluster.
Context {W : Type} `{Host W}.

Definition run (args : list string) : io W completed := subprocess_check args.

Definition ensure_network : io W unit :=
  let! existing := subprocess_run ["podman"; "network"; "exists"; NETWORK] in
  if returncode existing =? 0 then ret tt
  else run ["podman"; "network"; "create"; "--subnet"; SUBNET; NETWORK] ;;; ret tt.

Definition write_template (root : string) (count sync_period : Z) : io W string :=
  let template := join_path root "_template" in
  let! exists_ := path_exists template in
  when exists_ (rmtree template) ;;;
  mkdir (join_path template "etc") false ;;;
  run ["podman"; "run"; "--rm"; "--privileged";
       "--network"; NETWORK; "--ip"; node_ip FIRST_NODE_ID;
       "-v"; template +:+ ":/exa:Z";
       IMAGE;
       "init-sc"; "--template";
       "--num-nodes"; Z_to_string count;
       "--node-id"; Z_to_string FIRST_NODE_ID;
       "--no-db"; "--no-odirect"] ;;;
  let exaconf := join_path (join_path template "etc") "EXAConf" in
  run ["podman"; "run"; "--rm"; "--privileged";
       "-v"; template +:+ ":/exa:Z";
       "--entrypoint"; "/opt/exasol/cos-8.66.7/bin/exaconf";
       IMAGE;
       "modify-bucketfs";
       "--name"; BUCKETFS;
       "--http-port"; Z_to_string CONTAINER_HTTP_PORT;
       "--sync-period"; Z_to_string sync_period;
       "/exa/etc/EXAConf"] ;;;
  ret exaconf.

(** The text is decoded as it stands: the passwords are ASCII. *)
Definition read_passwords (exaconf : string) : io W (list (string * string)) :=
  let! text := read_text exaconf in
  for_fold [("read", "ReadPasswd"); ("write", "WritePasswd")] [] (fun kf out =>
    let '(key, field) := kf in
    match find_setting text field with
    | None => raise (RuntimeError ("no " +:+ field +:+ " in " +:+ exaconf))
    | Some encoded =>
        match b64decode encoded with
        | Some passwd => ret (Dict.set out key passwd)
        | None => raise (ValueError "base64")
        end
    end).

Definition start_node (root : string) (node_id : Z) (exaconf : string) : io W unit :=
  let etc := join_path (node_root root node_id) "etc" in
  mkdir_parents etc ;;;
  copyfile exaconf (join_path etc "EXAConf") ;;;
  subprocess_run ["podman"; "rm"; "-f"; container root node_id] ;;;
  run ["podman"; "run"; "-d";
       "--name"; container root node_id;
       "--privileged";
       "--hostname"; node_label node_id;
       "--network"; NETWORK; "--ip"; node_ip node_id;
       "-v"; node_root root node_id +:+ ":/exa:Z";
       "-p"; Z_to_string (host_port node_id) +:+ ":" +:+ Z_to_string CONTAINER_HTTP_PORT;
       IMAGE;
       "init-sc";
       "--num-nodes"; "0";
       "--node-id"; Z_to_string node_id;
       "--no-db"; "--no-odirect"] ;;;
  ret tt.

(** What BucketFS answers when it is up, authorised or not. *)
Definition answers_http (status : string) : bool :=
  existsb (String.eqb status) ["200"; "401"; "403"; "404"].

Definition probe_args (node_id : Z) : list string :=
  ["curl"; "-s"; "-o"; "/dev/null"; "-w"; "%{http_code}"; "--max-time"; "3";
   "http://localhost:" +:+ Z_to_string (host_port node_id) +:+ "/" +:+ BUCKET +:+ "/"].

Definition check_node (root : string) (node_id : Z) (pending : list Z) : io W (list Z) :=
  let name := container root node_id in
  let! inspect := subprocess_run ["podman"; "inspect"; "--format"; "{{.State.Status}}"; name] in
  if String.eqb (strip (stdout inspect)) "exited" then
    let! logs := subprocess_run ["podman"; "logs"; "--tail"; "20"; name] in
    raise (RuntimeError (name +:+ " exited during startup:" +:+ String NEWLINE ""
                         +:+ stdout logs +:+ stderr logs))
  else
    let! probe := subprocess_run (probe_args node_id) in
    ret (if answers_http (strip (stdout probe)) then discard node_id pending else pending).

Definition wait_ready (fuel : nat) (root : string) (ids : list Z) (deadline : float) : io W unit :=
  let! now := time_time in
  let end_ := fadd now deadline in
  let! pending := wait_pending fuel
    (fun pending => for_fold (sort_Z pending) pending (check_node root)) (float_of_Z 2) end_ (dedup ids) in
  if negb (bool_decide (pending = []))
  then raise (RuntimeError ("nodes not ready within " +:+ float_repr deadline +:+ "s: "
                            +:+ str_of_ints (sort_Z pending)))
  else ret tt.

Definition node_entry (root : string) (node_id : Z) : string * value :=
  (node_label node_id,
   VDict [("container", VStr (container root node_id));
          ("url", VStr (bucket_url node_id));
          ("bucket_dir", VStr (bucket_dir root node_id));
          ("own_dir", VStr (own_dir root node_id))]).

Definition up (fuel : nat) (root : string) (count sync_period : Z) (deadline : float) : io W record :=
  ensure_network ;;;
  mkdir_parents root ;;;
  let! exaconf := write_template root count sync_period in
  let ids := node_ids count in
  for_each ids (fun node_id => start_node root node_id exaconf) ;;;
  wait_ready fuel root ids deadline ;;;
  let! passwords := read_passwords exaconf in
  let! read := item passwords "read" in
  let! write := item passwords "write" in
  ret [("system", VStr "bucketfs"); ("nodes", VInt count); ("sync_period_ms", VInt sync_period);
       ("read_passwd", VStr read); ("write_passwd", VStr write);
       ("node", VDict (map (node_entry root) ids))].

Definition down (root : string) (count : Z) : io W unit :=
  for_each (node_ids count) (fun node_id =>
    subprocess_run ["podman"; "rm"; "-f"; container root node_id] ;;; ret tt).

(** What argparse makes of the command line. *)
Inductive cluster_args :=
| UpArgs (nodes : Z) (root : string) (sync_period : Z) (deadline : float)
| DownArgs (nodes : Z) (root : string).

Definition main (fuel : nat) (args : cluster_args) : io W Z :=
  match args with
  | UpArgs nodes root sync_period deadline =>
      let! info := up fuel root nodes sync_period deadline in
      print (json_indented 0 (VDict info))
  | DownArgs nodes root => down root nodes
  end ;;;
  ret 0.
End cluster.

Example setting_found :
  find_setting ("[BucketFS]" +:+ String NEWLINE ("   ReadPasswd = cmVhZA==  " +:+ String NEWLINE
                "WritePasswd=d3JpdGU=" )) "WritePasswd" = Some "d3JpdGU=".
Proof. vm_compute. reflexivity. Qed.

Example setting_commented :
  find_setting ("# WritePasswd = x" +:+ String NEWLINE "WritePasswd = a b") "WritePasswd" = None.
Proof. vm_compute. reflexivity. Qed.

(** ** Properties *)

Definition answered {W} `{Host W} (i : Z) : Prop :=
  exists w probe w', subprocess_run (probe_args i) w = (Ok probe, w') /\
    answers_http (strip (stdout probe)) = true.

Lemma probe_sound {W} `{Host W} root : check_sound (check_node root) answered.
Proof.
  intros i pending w pending' w'. unfold check_node, bind, ret, raise.
  destruct (subprocess_run _ w) as [[inspect|e|] w1]; [|done..].
  destruct (String.eqb _ _).
  - by destruct (subprocess_run _ w1) as [[l|e|] w2].
  - destruct (subprocess_run _ w1) as [[probe|e|] w2] eqn:E; [|done..].
    destruct (answers_http _) eqn:Es; intros [= <- <-]; [right|by left].
    split; [done|]. by exists w1, probe, w2.
Qed.

(** The cluster is ready when every node has answered HTTP. *)
Lemma wait_ready_answered {W} `{Host W} fuel root ids deadline w w' :
  wait_ready fuel root ids deadline w = (Ok tt, w') -> forall i, i ∈ ids -> answered i.
Proof.
  unfold wait_ready. unfold bind at 1. destruct (time_time w) as [[now|e|] w1]; [|done..].
  pose proof (wait_pending_awaited fuel (check_node root) answered (float_of_Z 2)
    (fadd now deadline) ids w1 (probe_sound root)) as Hp.
  unfold wp in Hp. unfold bind.
  destruct (wait_pending _ _ _ _ _ w1) as [[pending|e|] w2]; [|done..].
  destruct (bool_decide (pending = [])) eqn:E; [|done]. apply bool_decide_eq_true in E as ->.
  intros _ i Hi. destruct (Hp i Hi) as [Hin|]; [by apply elem_of_nil in Hin|done].
Qed.

End ExasolCluster.
