(* ===== verification/RunMatrix.v ===== *)
(** * run_matrix.py: driving the comparison and checkpointing every cell

    A cell makes a payload, starts the write on a thread, polls every node and is
    summarised into one row; a row is appended to a csv file, and a run that was
    interrupted asks that file which cells are done.  The theorems: a resumed
    experiment measures the cells without a row, a payload has the size asked for, what a summary says, and
    that a cluster brought up is brought down however the run ends. *)

From stdpp Require Import sets.
From S2P Require Import Prelude OrdMap PyHost PySim Poller SyncfsCluster ExasolCluster.

Definition KIB : Z := 1024.
Definition MIB : Z := 1024 * KIB.
Definition GIB : Z := 1024 * MIB.
Definition SIZES : list Z := [KIB; MIB; 100 * MIB; GIB; 4 * GIB].
Definition SMALL_FILE : Z := 4 * KIB.

Definition FIELDS : list string :=
  ["experiment"; "system"; "config"; "nodes"; "size_bytes"; "file_count";
   "repeat"; "t0"; "ingest_s"; "propagation_s"; "fanout_s"; "converged";
   "distinct_hashes"; "nofile"; "loadavg"; "arrivals"].

Definition interval_ms (size : Z) : Z := if size <=? MIB then 50 else 500.

Definition deadline_for (size nodes : Z) : float :=
  if GIB <=? size then float_of_Z 1800 else float_of_Z 900.

(** [f"{v}"] of a plain value, and the text [csv] writes for it. *)
Definition str_of (v : value) : string :=
  match v with
  | VNone => "None"
  | VBool b => str_of_bool b
  | VInt z => Z_to_string z
  | VFloat x => float_repr x
  | VStr s => s
  | VList _ | VDict _ => json_dumps v
  end.

Definition csv_text (v : value) : string := match v with VNone => "" | _ => str_of v end.

(** What the tools look up in an info dictionary. *)
Definition as_dict {W} (v : value) : io W record := match v with VDict d => ret d | _ => raise TypeError end.
Definition as_text {W} (v : value) : io W string := match v with VStr s => ret s | _ => raise TypeError end.

(** [info[k]] where a text is expected, and [info["node"]]. *)
Definition text_item {W} (d : record) (k : string) : io W string := let! v := item d k in as_text v.
Definition dict_item {W} (d : record) (k : string) : io W record := let! v := item d k in as_dict v.

(** [row.update(...)]. *)
Definition update (row more : record) : record := fold_left (fun r kv => Dict.set r kv.1 kv.2) more row.

(** [info.get(k)]. *)
Definition get_or_none (d : record) (k : string) : value :=
  match Dict.get d k with Some v => v | None => VNone end.

(** [url.split("/", 3)]. *)
Fixpoint split_max (n : nat) (c : ascii) (s : string) : list string :=
  match n with
  | O => [s]
  | S n' => match cut c s with Some (before, after) => before :: split_max n' c after | None => [s] end
  end.

(** A tuple of a row's fields; a field a short row lacks is [None]. *)
Abbreviation cell_key := (list (option string)).

Section matrix.
Context {W : Type} `{Host W}.
Context (fuel : nat).

Definition wait_for_idle (threshold deadline : float) : io W float :=
  let! now := time_time in
  let end_ := fadd now deadline in
  while fuel
    (fun _ : unit => let! load := getloadavg in
      if flt threshold load then let! now := time_time in ret (flt now end_) else ret false)
    (fun _ => time_sleep (float_of_Z 10)) tt ;;;
  getloadavg.

Definition idle : io W float := wait_for_idle (dec 15 1) (float_of_Z 120).

Definition make_payload (path : string) (size : Z) : io W unit :=
  with_open path WriteBinary (fun f =>
    while fuel (fun remaining => ret (negb (remaining =? 0)))
      (fun remaining =>
        let chunk := Z.min remaining (8 * MIB) in
        let! data := urandom chunk in
        file_write f data ;;;
        ret (remaining - chunk)) size ;;;
    ret tt).

(** *** class Bucket *)

Record bucket_client := BucketClient {
  bucket : string; auth : string; connection : conn;
}.

Definition Bucket (url write_passwd : string) : io W bucket_client :=
  match split_max 3 SLASH url with
  | [_; _; hostport; bucket] =>
      let '(host, _, port) := partition COLON hostport in
      match int_of_string port with
      | None => raise (ValueError port)
      | Some port =>
          let! c := http_connection host port in
          ret {| bucket := bucket; auth := "w:" +:+ write_passwd; connection := c |}
      end
  | _ => raise (ValueError url)
  end.

Definition authorization (b : bucket_client) : string * string :=
  ("Authorization", "Basic " +:+ b64encode (auth b)).

Definition bucket_put (b : bucket_client) (name path : string) (size : Z) : io W Z :=
  with_open path ReadBinary (fun body =>
    http_request (connection b) "PUT" ("/" +:+ bucket b +:+ "/" +:+ name)
      [("Content-Length", Z_to_string size); authorization b] (Some body)).

Definition bucket_delete (b : bucket_client) (name : string) : io W Z :=
  http_request (connection b) "DELETE" ("/" +:+ bucket b +:+ "/" +:+ name) [authorization b] None.

Definition bucket_close (b : bucket_client) : io W unit := http_close (connection b).

(** *** The cluster under measurement *)

Definition cluster_up (system : string) (nodes : Z) (root : string) (sync_period : Z) : io W record :=
  if String.eqb system "syncfs" then SyncfsCluster.up fuel root nodes (float_of_Z 600) false None
  else ExasolCluster.up fuel root nodes sync_period (float_of_Z 900).

Definition purge (root : string) : io W unit :=
  let! there := path_exists root in
  if negb there then ret tt
  else subprocess_run ["podman"; "unshare"; "rm"; "-rf"; root] ;;; rmtree_ignore_errors root.

Definition cluster_down (system : string) (nodes : Z) (root : string) : io W unit :=
  (if String.eqb system "syncfs" then SyncfsCluster.down root nodes else ExasolCluster.down root nodes) ;;;
  purge root.

Definition is_syncfs (info : record) : io W bool :=
  let! system := text_item info "system" in ret (String.eqb system "syncfs").

(** Every node's directory, under the key the system names it by. *)
Definition target_dirs (info : record) : io W (list (string * string)) :=
  let! syncfs := is_syncfs info in
  let key := if syncfs : bool then "data_dir" else "bucket_dir" in
  let! nodes := dict_item info "node" in
  map_io (fun nv => let! v := as_dict nv.2 in let! dir := text_item v key in ret (nv.1, dir)) nodes.

Definition target_paths (info : record) (name : string) : io W (list (string * string)) :=
  let! dirs := target_dirs info in
  ret (map (fun nd => (nd.1, join_path nd.2 name)) dirs).

(** [info.get("writer") or sorted(info["node"])[0]]. *)
Definition writer_of (info : record) : io W string :=
  match Dict.get info "writer" with
  | Some (VStr (String c w)) => ret (String c w)
  | _ =>
      let! nodes := dict_item info "node" in
      match sort_strings (Dict.keys nodes) with
      | w :: _ => ret w
      | [] => raise IndexError
      end
  end.

Definition node_item (info : record) (node key : string) : io W string :=
  let! nodes := dict_item info "node" in
  let! n := dict_item nodes node in
  text_item n key.

Definition open_bucket (info : record) (writer : string) : io W bucket_client :=
  let! url := node_item info writer "url" in
  let! passwd := text_item info "write_passwd" in
  Bucket url passwd.

(** *** One row *)

Definition elapsed_of (r : record) : option float :=
  match Dict.get r "elapsed" with Some (VFloat x) => Some x | _ => None end.

Definition opt_float (v : option float) : value := match v with Some x => VFloat x | None => VNone end.

Definition is_some {A} (o : option A) : bool := match o with Some _ => true | None => false end.

(** The part of [summarise] that computes, on the arrivals and the hashes. *)
Definition summary (arrivals : list (string * option float)) (hashes : list string) (writer : string) : record :=
  let converged := forallb (fun a => is_some a.2) arrivals && (length hashes =? 1)%nat in
  let ingest := match Dict.get arrivals writer with Some v => v | None => None end in
  let last := py_max flt (omap snd arrivals) in
  [("ingest_s", opt_float (option_map (round_to 4) ingest));
   ("propagation_s", opt_float (option_map (round_to 4) last));
   ("fanout_s", match last, ingest with
                | Some l, Some i => VFloat (round_to 4 (fsub l i))
                | _, _ => VNone
                end);
   ("converged", VBool converged);
   ("distinct_hashes", VInt (Z.of_nat (length hashes)));
   ("arrivals", VStr (json_dumps (VDict (map (fun a => (a.1, opt_float (option_map (round_to 4) a.2))) arrivals))))].

(** [r["sha256"]] must be there; a hash that is empty or missing does not count. *)
Definition summarise (records : list (string * record)) (writer : string) : io W record :=
  map_io (fun r => item r "sha256") (Dict.values records) ;;;
  ret (summary (map (fun nr => (nr.1, elapsed_of nr.2)) records) (hashes_of records) writer).

Definition name_for (size repeat : Z) : string :=
  "probe-" +:+ Z_to_string size +:+ "-" +:+ Z_to_string repeat +:+ ".bin".

Definition clear_cell (info : record) (name : string) : io W unit :=
  let! writer := writer_of info in
  let! syncfs := is_syncfs info in
  (if syncfs : bool then
     let! dir := node_item info writer "data_dir" in unlink_missing_ok (join_path dir name)
   else
     let! b := open_bucket info writer in
     try_finally (bucket_delete b name ;;; ret tt) (bucket_close b)) ;;;
  let! paths := target_paths info name in
  let! gone := watch_absent fuel paths (dec 2 1) (float_of_Z 180) in
  when (negb gone) (print ("  warning: " +:+ name +:+ " still present somewhere after 180 s")).

(** *** Writes on a thread

    The thread's exception is kept in a list it shares with the caller, which
    raises it after the join. *)

Definition caught (error : cell) (body : io W unit) : io W unit :=
  try_except body (fun e => if is_exception e then Some (cell_append error e) else None).

Definition spawn (body : cell -> io W unit) (after_join : io W unit) : io W (io W unit) :=
  let! error := cell_new in
  let! t := thread_start (body error) in
  ret (thread_join t ;;; after_join ;;;
       let! errors := cell_get error in
       match errors with e :: _ => raise e | [] => ret tt end).

Definition put_accepted (status : Z) : bool := existsb (Z.eqb status) [200; 201; 204].

Definition _spawn_copy (src dst : string) : io W (io W unit) :=
  spawn (fun error => caught error (copyfile src dst)) (ret tt).

Definition _spawn_put (b : bucket_client) (name payload : string) (size : Z) : io W (io W unit) :=
  spawn (fun error => caught error (
      let! status := bucket_put b name payload size in
      when (negb (put_accepted status))
        (cell_append error (RuntimeError ("PUT returned " +:+ Z_to_string status)))))
    (bucket_close b).

(** [f"f{i:05}.bin"]. *)
Definition unit_name (i : Z) : string := "f" +:+ zero_padded 5 i +:+ ".bin".

Definition range (n : Z) : list Z := map Z.of_nat (seq 0 (Z.to_nat n)).

Definition _spawn_tree_copy (unit_ target : string) (count : Z) : io W (io W unit) :=
  spawn (fun error => caught error (
      mkdir_parents target ;;;
      for_each (range count) (fun i => copyfile unit_ (join_path target (unit_name i)))))
    (ret tt).

(** The first PUT that is refused ends the thread: [true] is its [return]. *)
Definition _spawn_tree_put (b : bucket_client) (prefix unit_ : string) (count : Z) : io W (io W unit) :=
  spawn (fun error => caught error (
      let! _ := for_fold (range count) false (fun i returned =>
        if returned : bool then ret true
        else
          let! status := bucket_put b (prefix +:+ "/" +:+ unit_name i) unit_ SMALL_FILE in
          if put_accepted status then ret false
          else cell_append error (RuntimeError ("PUT " +:+ Z_to_string i +:+ " returned "
                                                +:+ Z_to_string status)) ;;; ret true) in
      ret tt))
    (bucket_close b).

Definition measured (info : record) (load : float) (row : record) : record :=
  update row [("loadavg", VFloat (round_to 2 load)); ("nofile", get_or_none info "nofile")].

Definition propagation_cell (info : record) (size repeat : Z) (staging : string) : io W record :=
  let name := name_for size repeat in
  let payload := join_path staging name in
  make_payload payload size ;;;
  let! nodes := target_paths info name in
  let! writer := writer_of info in
  let! load := idle in
  let! t0 := time_time in
  let! syncfs := is_syncfs info in
  let! started := (if syncfs : bool then
      let! dst := item nodes writer in _spawn_copy payload dst
    else
      let! b := open_bucket info writer in _spawn_put b name payload size) in
  let! node_count := item info "nodes" in
  let! records := watch fuel nodes false size 1
    (fdiv (float_of_Z (interval_ms size)) (float_of_Z 1000))
    (deadline_for size (match node_count with VInt n => n | _ => 0 end)) t0 "/dev/null" in
  started ;;;
  unlink_missing_ok payload ;;;
  let! row := summarise records writer in
  ret (measured info load row).

Definition tree_cell (info : record) (count repeat : Z) (staging : string) : io W record :=
  let prefix := "many-" +:+ Z_to_string count +:+ "-" +:+ Z_to_string repeat in
  let payload := join_path staging (prefix +:+ ".unit") in
  make_payload payload SMALL_FILE ;;;
  let total := SMALL_FILE * count in
  let! writer := writer_of info in
  let! dirs := target_dirs info in
  let subdirs := map (fun nd => (nd.1, join_path nd.2 prefix)) dirs in
  let! load := idle in
  let! t0 := time_time in
  let! syncfs := is_syncfs info in
  let! started := (if syncfs : bool then
      let! dst := item subdirs writer in _spawn_tree_copy payload dst count
    else
      let! b := open_bucket info writer in _spawn_tree_put b prefix payload count) in
  let! records := watch fuel subdirs true total count (dec 5 1) (float_of_Z 900) t0 "/dev/null" in
  started ;;;
  unlink_missing_ok payload ;;;
  let! row := summarise records writer in
  ret (measured info load row).

(** *** The results file *)

Definition row_text (row : record) : string :=
  csv_row (map (fun k => csv_text (get_or_none row k)) FIELDS).

(** [writer.writeheader()] and [writer.writerow(...)] on the open file. *)
Definition append (out : string) (row : record) : io W unit :=
  let! there := path_exists out in
  with_open out AppendText (fun f =>
    when (negb there) (file_write f (csv_row FIELDS)) ;;;
    file_write f (row_text row)).

Definition KEY_FIELDS : list string :=
  ["experiment"; "system"; "config"; "nodes"; "size_bytes"; "file_count"; "repeat"].

(** [(r["experiment"], ..., r["repeat"])]. *)
Fixpoint key_of_row (fields : list string) (r : csv_record) : option cell_key :=
  match fields with
  | [] => Some []
  | k :: fields' =>
      match Dict.get r k, key_of_row fields' r with
      | Some v, Some rest => Some (v :: rest)
      | _, _ => None
      end
  end.

(** The set as a list, in the order of the file. *)
Definition done_keys (text : string) : option (list cell_key) :=
  fold_right (fun r acc =>
    match key_of_row KEY_FIELDS r, acc with Some k, Some ks => Some (k :: ks) | _, _ => None end)
    (Some []) (dict_reader text).

Definition done_cells (out : string) : io W (list cell_key) :=
  let! there := path_exists out in
  if negb there then ret []
  else
    let! text := read_text out in
    match done_keys text with Some keys => ret keys | None => raise (KeyError "") end.

(** The tuple a cell is looked up by. *)
Definition cell_key_of (experiment system config : string) (nodes size count repeat : Z) : cell_key :=
  map Some [experiment; system; config; Z_to_string nodes; Z_to_string size; Z_to_string count;
            Z_to_string repeat].

Definition cell_id (experiment system config : string) (nodes size count repeat : Z) (t0 : float) : record :=
  [("experiment", VStr experiment); ("system", VStr system); ("config", VStr config);
   ("nodes", VInt nodes); ("size_bytes", VInt size); ("file_count", VInt count);
   ("repeat", VInt repeat); ("t0", VFloat t0)].

(** A plan entry: system, config, nodes, sync period. *)
Definition plan_entry : Type := string * string * Z * Z.

(** The cells of one entry that are not done: [xs] outside, repeats inside. *)
Definition wanted_cells (isdone : Z -> Z -> bool) (xs : list Z) (repeats : Z) : list (Z * Z) :=
  flat_map (fun x => omap (fun r => if isdone x r then None else Some (x, r)) (range repeats)) xs.

Definition key_done (done : list cell_key) (k : cell_key) : bool := bool_decide (k ∈ done).

Definition field_text (cell : record) (k : string) : io W string :=
  let! v := item cell k in ret (str_of v).

(** One cell of experiment A: measured, recorded, reported, cleared. *)
Definition cell_a (info : record) (out staging system config : string) (nodes size repeat : Z) : io W unit :=
  let! cell := propagation_cell info size repeat staging in
  let! now := time_time in
  let cell := update cell (cell_id "A" system config nodes size 1 repeat now) in
  append out cell ;;;
  let! ingest := field_text cell "ingest_s" in
  let! prop := field_text cell "propagation_s" in
  let! fanout := field_text cell "fanout_s" in
  let! converged := field_text cell "converged" in
  print ("A " +:+ pad_right 9 system +:+ " " +:+ pad_right 8 config +:+ " N=" +:+ pad_right 3 (Z_to_string nodes)
         +:+ " " +:+ pad_left 11 (Z_to_string size) +:+ " r" +:+ Z_to_string repeat
         +:+ " ingest=" +:+ ingest +:+ " prop=" +:+ prop +:+ " fanout=" +:+ fanout
         +:+ " converged=" +:+ converged) ;;;
  clear_cell info (name_for size repeat).

(** One entry of the plan: its cluster, and its cells that are wanted on it. *)
Definition entry_a (root out staging : string) (entry : plan_entry) (wanted : list (Z * Z)) : io W unit :=
  let '(system, config, nodes, sync_period) := entry in
  match wanted with
  | [] => ret tt
  | _ =>
      let cluster_root := join_path root (system +:+ "-" +:+ config +:+ "-" +:+ Z_to_string nodes) in
      let! info := cluster_up system nodes cluster_root sync_period in
      try_finally
        (for_each wanted (fun sr => cell_a info out staging system config nodes sr.1 sr.2))
        (cluster_down system nodes cluster_root)
  end.

Definition experiment_a (root out : string) (sizes : list Z) (repeats : Z) (plan : list plan_entry) : io W unit :=
  let! done := done_cells out in
  let staging := join_path root "staging" in
  mkdir_parents staging ;;;
  for_each plan (fun entry =>
    let '(system, config, nodes, _) := entry in
    entry_a root out staging entry (wanted_cells (fun size repeat =>
      key_done done (cell_key_of "A" system config nodes size 1 repeat)) sizes repeats)).

(** One cell of experiment B, after which the cluster is a fresh one. *)
Definition cell_b (out staging system config cluster_root : string) (nodes sync_period count repeat : Z)
    (info : record) : io W record :=
  let! cell := tree_cell info count repeat staging in
  let! now := time_time in
  let cell := update cell (cell_id "B" system config nodes SMALL_FILE count repeat now) in
  append out cell ;;;
  let! ingest := field_text cell "ingest_s" in
  let! prop := field_text cell "propagation_s" in
  let! converged := field_text cell "converged" in
  print ("B " +:+ pad_right 9 system +:+ " " +:+ pad_right 8 config +:+ " N=" +:+ pad_right 3 (Z_to_string nodes)
         +:+ " " +:+ pad_left 6 (Z_to_string count) +:+ " files r" +:+ Z_to_string repeat
         +:+ " ingest=" +:+ ingest +:+ " prop=" +:+ prop +:+ " converged=" +:+ converged) ;;;
  cluster_down system nodes cluster_root ;;;
  cluster_up system nodes cluster_root sync_period.

Definition entry_b (root out staging : string) (entry : plan_entry) (wanted : list (Z * Z)) : io W unit :=
  let '(system, config, nodes, sync_period) := entry in
  match wanted with
  | [] => ret tt
  | _ =>
      let cluster_root := join_path root ("B-" +:+ system +:+ "-" +:+ config +:+ "-" +:+ Z_to_string nodes) in
      let! info := cluster_up system nodes cluster_root sync_period in
      try_finally
        (for_fold wanted info (fun cr info =>
           cell_b out staging system config cluster_root nodes sync_period cr.1 cr.2 info) ;;; ret tt)
        (cluster_down system nodes cluster_root)
  end.

Definition experiment_b (root out : string) (repeats : Z) (plan : list plan_entry) (counts : list Z) : io W unit :=
  let! done := done_cells out in
  let staging := join_path root "staging" in
  mkdir_parents staging ;;;
  for_each plan (fun entry =>
    let '(system, config, nodes, _) := entry in
    entry_b root out staging entry (wanted_cells (fun count repeat =>
      key_done done (cell_key_of "B" system config nodes SMALL_FILE count repeat)) counts repeats)).

(** The copy and the flush that experiment C times. *)
Definition timed_copy (payload target : string) : io W (float * float) :=
  let! t0 := time_time in
  copyfile payload target ;;;
  let! f := file_open target ReadBinary in
  try_finally (file_fsync f) (file_close f) ;;;
  let! now := time_time in
  ret (t0, fsub now t0).

Definition cell_c (out staging plain : string) (size repeat : Z) : io W unit :=
  let payload := join_path staging ("plain-" +:+ Z_to_string size +:+ "-" +:+ Z_to_string repeat +:+ ".bin") in
  make_payload payload size ;;;
  let! load := idle in
  let target := join_path plain ("copy-" +:+ Z_to_string size +:+ "-" +:+ Z_to_string repeat +:+ ".bin") in
  let! timed := timed_copy payload target in
  let '(t0, elapsed) := timed in
  unlink_missing_ok payload ;;;
  unlink_missing_ok target ;;;
  append out (cell_id "C" "plainfile" "baseline" 0 size 1 repeat t0 ++
    [("ingest_s", VFloat (round_to 4 elapsed)); ("propagation_s", VFloat (round_to 4 elapsed));
     ("fanout_s", VFloat fzero); ("converged", VBool true); ("distinct_hashes", VInt 1);
     ("nofile", VNone); ("loadavg", VFloat (round_to 2 load)); ("arrivals", VStr "{}")]) ;;;
  print ("C plainfile  baseline N=0   " +:+ pad_left 11 (Z_to_string size) +:+ " r" +:+ Z_to_string repeat
         +:+ " write=" +:+ format_f 4 elapsed).

Definition experiment_c (root out : string) (sizes : list Z) (repeats : Z) : io W unit :=
  let! done := done_cells out in
  let staging := join_path root "staging" in
  mkdir_parents staging ;;;
  let plain := join_path root "plain" in
  mkdir_parents plain ;;;
  for_each sizes (fun size => for_each (range repeats) (fun repeat =>
    if key_done done (cell_key_of "C" "plainfile" "baseline" 0 size 1 repeat) then ret tt
    else cell_c out staging plain size repeat)).
End matrix.

(** ** The results file reads back *)

Definition results_text (rows : list record) : string :=
  csv_row FIELDS +:+ str_concat (map row_text rows).

(** The key a row is to be found by: the text of its seven coordinates, in the order the
    experiments look them up. *)
Definition row_key (row : record) : cell_key :=
  let text k := Some (csv_text (get_or_none row k)) in
  [text "experiment"; text "system"; text "config"; text "nodes"; text "size_bytes"; text "file_count"; text "repeat"].

Lemma filter_true {A} (p : A -> bool) l : (forall x, x ∈ l -> p x = true) -> List.filter p l = l.
Proof.
  induction l as [|x l IH]; intros Hp; [done|]. simpl.
  rewrite (Hp x) by (by left). rewrite IH; [done|]. intros y Hy. apply Hp. by right.
Qed.

Lemma dict_reader_results rows :
  dict_reader (results_text rows) =
  map (fun row => fold_left (fun d kv => Dict.set d kv.1 kv.2)
         (zip_row FIELDS (map (fun k => csv_text (get_or_none row k)) FIELDS)) []) rows.
Proof.
  unfold dict_reader, results_text. rewrite csv_reader_app by done.
  unfold row_text. rewrite <- (map_map (fun row => map (fun k => csv_text (get_or_none row k)) FIELDS) csv_row).
  rewrite csv_reader_rows.
  - rewrite filter_true, map_map; [done|]. intros r Hr.
    by apply list_elem_of_fmap in Hr as (row & -> & _).
  - apply Forall_forall. intros r Hr. by apply list_elem_of_fmap in Hr as (row & -> & _).
Qed.

Lemma key_of_texts (f : string -> string) :
  key_of_row KEY_FIELDS (fold_left (fun d kv => Dict.set d kv.1 kv.2) (zip_row FIELDS (map f FIELDS)) [])
  = Some (map (fun k => Some (f k))
      ["experiment"; "system"; "config"; "nodes"; "size_bytes"; "file_count"; "repeat"]).
Proof. vm_compute. reflexivity. Qed.

Lemma key_of_written_row row :
  key_of_row KEY_FIELDS (fold_left (fun d kv => Dict.set d kv.1 kv.2)
    (zip_row FIELDS (map (fun k => csv_text (get_or_none row k)) FIELDS)) []) = Some (row_key row).
Proof. apply (key_of_texts (fun k => csv_text (get_or_none row k))). Qed.

Lemma done_keys_results rows : done_keys (results_text rows) = Some (map row_key rows).
Proof.
  unfold done_keys. rewrite dict_reader_results.
  induction rows as [|row rows IH]; [done|]. cbn [map fold_right].
  rewrite IH, key_of_written_row. done.
Qed.

Lemma elem_of_range n i : i ∈ range n <-> 0 <= i < n.
Proof.
  unfold range. rewrite list_elem_of_fmap. split.
  - intros (k & -> & Hk%elem_of_seq). lia.
  - intros Hi. exists (Z.to_nat i). split; [lia|]. apply elem_of_seq. lia.
Qed.

(** Looking a field up after an update. *)
Lemma get_update row more k : Dict.wf more ->
  Dict.get (update row more) k =
  match Dict.get more k with Some v => Some v | None => Dict.get row k end.
Proof.
  unfold update. revert row. induction more as [|[k' v'] more IH]; intros row Hw; [done|].
  unfold Dict.wf in Hw. simpl in Hw. inversion Hw as [|? ? Hk' Hw']; subst. simpl.
  rewrite IH by done. destruct (decide (k' = k)) as [->|Hne].
  - apply Dict.get_None in Hk'. rewrite Hk', Dict.get_set_eq. done.
  - by rewrite Dict.get_set_ne.
Qed.

(** *** The cells of the rows *)

(** Experiment, system, config, nodes, size, file count, repeat. *)
Definition coordinates : Type := string * string * string * Z * Z * Z * Z.

Definition key_of (c : coordinates) : cell_key :=
  let '(experiment, system, config, nodes, size, count, repeat) := c in
  cell_key_of experiment system config nodes size count repeat.

(** The row appended for a cell: what was measured, updated with the cell's coordinates
    (experiments A and B), or the coordinates and then what was measured (C). *)
Definition written_for (c : coordinates) (row : record) : Prop :=
  let '(experiment, system, config, nodes, size, count, repeat) := c in
  exists measures t0, let cell := cell_id experiment system config nodes size count repeat t0 in
    row = update measures cell \/ row = cell ++ measures.

(** What a run is to measure: of [xs] by repeats, in that order, the cells without a row. *)
Definition missing (recorded : list coordinates) (cell : Z -> Z -> coordinates) (xs : list Z) (repeats : Z)
    : list (Z * Z) :=
  List.filter (fun xr => negb (bool_decide (cell xr.1 xr.2 ∈ recorded))) (list_prod xs (range repeats)).

#[export] Instance key_of_inj : Inj (=) (=) key_of.
Proof.
  intros [[[[[[e s] c] n] z] k] r] [[[[[[e' s'] c'] n'] z'] k'] r'].
  intros [= -> -> -> Hn%(inj Z_to_string) Hz%(inj Z_to_string) Hc%(inj Z_to_string) Hr%(inj Z_to_string)].
  by subst.
Qed.

Lemma row_key_written c row : written_for c row -> row_key row = key_of c.
Proof.
  destruct c as [[[[[[e s] c] n] z] k] r]. intros (measures & t0 & [-> | ->]); unfold row_key, get_or_none.
  - rewrite !get_update by (apply (bool_decide_unpack _); vm_compute; done). reflexivity.
  - reflexivity.
Qed.

Lemma row_keys_written (recorded : list (coordinates * record)) :
  Forall (fun e => written_for e.1 e.2) recorded -> map row_key (map snd recorded) = map key_of (map fst recorded).
Proof.
  induction 1 as [|[c row] recorded Hc _ IH]; [done|]. simpl. rewrite IH. f_equal. by apply row_key_written.
Qed.

Lemma key_done_iff (cells : list coordinates) c : key_done (map key_of cells) (key_of c) = bool_decide (c ∈ cells).
Proof.
  apply bool_decide_ext. split; [|apply list_elem_of_fmap_2]. intros (c' & Heq & Hin)%list_elem_of_fmap.
  by apply (inj key_of) in Heq as ->.
Qed.

Lemma filter_list_prod {A B} (p : A * B -> bool) xs ys :
  List.filter p (list_prod xs ys) =
  flat_map (fun x => omap (fun y => if p (x, y) then Some (x, y) else None) ys) xs.
Proof.
  induction xs as [|x xs IH]; [done|]. simpl. rewrite List.filter_app, IH. f_equal. clear IH.
  induction ys as [|y ys IHy]; [done|]. simpl. by destruct (p (x, y)); rewrite IHy.
Qed.

Lemma wanted_missing recorded cell xs repeats (key : Z -> Z -> cell_key) :
  (forall x r, key x r = key_of (cell x r)) ->
  wanted_cells (fun x r => key_done (map key_of recorded) (key x r)) xs repeats = missing recorded cell xs repeats.
Proof.
  intros Hk. unfold wanted_cells, missing. rewrite filter_list_prod. apply flat_map_ext. intros x.
  induction (range repeats) as [|r l IH]; [done|]. simpl. rewrite Hk, key_done_iff.
  destruct (bool_decide _); simpl; [|f_equal]; exact IH.
Qed.

Section resuming.
Context {W : Type} `{Host W}.

(** A results file that is there is read into the keys of the cells it has rows for. *)
Lemma done_cells_recorded (recorded : list (coordinates * record)) out w w1 w2 :
  Forall (fun e => written_for e.1 e.2) recorded ->
  path_exists out w = (Ok true, w1) -> read_text out w1 = (Ok (results_text (map snd recorded)), w2) ->
  done_cells out w = (Ok (map key_of (map fst recorded)), w2).
Proof.
  intros Hr He Ht. unfold done_cells, bind. rewrite He. simpl. rewrite Ht, done_keys_results.
  by rewrite row_keys_written.
Qed.

Lemma for_each_ext {A} (l : list A) (f g : A -> io W unit) :
  (forall a w, f a w = g a w) -> forall w, for_each l f w = for_each l g w.
Proof.
  intros Hfg. induction l as [|a l IH]; intros w; [done|]. cbn [for_each]. unfold bind. rewrite Hfg.
  by destruct (g a w) as [[]].
Qed.

Lemma for_each_app {A} (l1 l2 : list A) (f : A -> io W unit) w :
  for_each (l1 ++ l2) f w = (for_each l1 f ;;; for_each l2 f) w.
Proof.
  revert w. induction l1 as [|a l1 IH]; intros w; [done|]. simpl. unfold bind.
  destruct (f a w) as [[]]; [|done..]. by rewrite IH.
Qed.

(** Two nested loops with a [continue] are one over the pairs that are kept. *)
Lemma for_each_kept {A B} (xs : list A) (ys : list B) (skip : A -> B -> bool) (f : A -> B -> io W unit) w :
  for_each xs (fun x => for_each ys (fun y => if skip x y then ret tt else f x y)) w =
  for_each (List.filter (fun xy => negb (skip xy.1 xy.2)) (list_prod xs ys)) (fun xy => f xy.1 xy.2) w.
Proof.
  revert w. induction xs as [|x xs IH]; intros w; [done|]. simpl. rewrite List.filter_app, for_each_app.
  unfold bind at 1 2. replace (for_each (List.filter _ (map _ ys)) (fun xy => f xy.1 xy.2) w)
    with (for_each ys (fun y => if skip x y then ret tt else f x y) w); [by destruct (for_each ys _ w) as [[]]|].
  clear IH. revert w. induction ys as [|y ys IHy]; intros w; [done|]. simpl.
  destruct (skip x y); simpl; [apply IHy|]. unfold bind. by destruct (f x y w) as [[]].
Qed.

(** C31: a matrix survives an interruption.  On a results file with any rows of any cells,
    however quoting and embedded json made them look, each experiment does just what
    measuring the cells that have no row would do, and nothing else: A and B, entry by
    entry of the plan, by sizes or counts and then repeats in order, and an entry with
    no cell left does not even start its cluster; C by sizes and then repeats. *)
Theorem resume_measures_what_is_missing fuel (recorded : list (coordinates * record)) root out sizes counts repeats plan w w1 w2 :
  Forall (fun e => written_for e.1 e.2) recorded ->
  path_exists out w = (Ok true, w1) -> read_text out w1 = (Ok (results_text (map snd recorded)), w2) ->
  let todo := missing (map fst recorded) in
  let staging := join_path root "staging" in
  let plain := join_path root "plain" in
  experiment_a fuel root out sizes repeats plan w =
    (mkdir_parents staging ;;; for_each plan (fun entry => let '(system, config, nodes, _) := entry in
       entry_a fuel root out staging entry
         (todo (fun size repeat => ("A", system, config, nodes, size, 1, repeat)) sizes repeats))) w2 /\
  experiment_b fuel root out repeats plan counts w =
    (mkdir_parents staging ;;; for_each plan (fun entry => let '(system, config, nodes, _) := entry in
       entry_b fuel root out staging entry
         (todo (fun count repeat => ("B", system, config, nodes, SMALL_FILE, count, repeat)) counts repeats))) w2 /\
  experiment_c fuel root out sizes repeats w =
    (mkdir_parents staging ;;; mkdir_parents plain ;;;
       for_each (todo (fun size repeat => ("C", "plainfile", "baseline", 0, size, 1, repeat)) sizes repeats)
         (fun sr => cell_c fuel out staging plain sr.1 sr.2)) w2.
Proof.
  intros Hr He Ht todo staging plain. pose proof (done_cells_recorded _ _ _ _ _ Hr He Ht) as Hd.
  split; [|split].
  - unfold experiment_a. rewrite (bind_ok _ _ _ _ _ Hd). apply bind_ext. intros _ w3.
    apply for_each_ext. intros [[[system config] nodes] sync] w4. unfold todo. by rewrite <- wanted_missing with (key :=
      fun size repeat => cell_key_of "A" system config nodes size 1 repeat).
  - unfold experiment_b. rewrite (bind_ok _ _ _ _ _ Hd). apply bind_ext. intros _ w3.
    apply for_each_ext. intros [[[system config] nodes] sync] w4. unfold todo. by rewrite <- wanted_missing with (key :=
      fun count repeat => cell_key_of "B" system config nodes SMALL_FILE count repeat).
  - unfold experiment_c. rewrite (bind_ok _ _ _ _ _ Hd). do 2 (apply bind_ext; intros _ ?). rewrite for_each_kept.
    unfold todo, missing. f_equal. apply List.filter_ext. intros [x r]. cbn [fst snd].
    f_equal. apply (key_done_iff _ ("C", "plainfile", "baseline", 0, x, 1, r)).
Qed.
End resuming.

Definition some_row : record :=
  update [("arrivals", VStr (json_dumps (VDict [("sfs1", VFloat (dec 1 1)); ("sfs2", VNone)])))]
    (cell_id "A" "syncfs" "default" 4 1024 1 0 (dec 15 1)).

(** What [append] leaves on the disk of a host is that text. *)
Example append_twice :
  match (append "out.csv" some_row ;;; append "out.csv" some_row ;;; read_text "out.csv") start with
  | (Ok text, _) => String.eqb text (results_text [some_row; some_row])
  | _ => false
  end = true.
Proof. vm_compute. reflexivity. Qed.

(** Of two repeats, the first is recorded, and so is a plain write. *)
Definition resumed_rows : list (coordinates * record) :=
  [(("A", "syncfs", "default", 4, 1024, 1, 0), some_row);
   (("C", "plainfile", "baseline", 0, 1024, 1, 1),
    cell_id "C" "plainfile" "baseline" 0 1024 1 1 (dec 2 0) ++ [("ingest_s", VFloat (dec 1 1))])].

Definition resumed_host : sim := snd (write_text "out.csv" (results_text (map snd resumed_rows)) start).

Lemma resume_measures_what_is_missing_witness :
  experiment_a 9 "root" "out.csv" [1024] 2 [("syncfs", "default", 4, 0)] resumed_host =
    (mkdir_parents "root/staging" ;;;
     for_each [("syncfs", "default", 4, 0)] (fun entry => let '(system, config, nodes, _) := entry in
       entry_a 9 "root" "out.csv" "root/staging" entry
         (missing (map fst resumed_rows) (fun size repeat => ("A", system, config, nodes, size, 1, repeat)) [1024] 2)))
      resumed_host /\
  missing (map fst resumed_rows) (fun size repeat => ("A", "syncfs", "default", 4, size, 1, repeat)) [1024] 2 = [(1024, 1)] /\
  experiment_c 9 "root" "out.csv" [1024] 2 resumed_host =
    (mkdir_parents "root/staging" ;;; mkdir_parents "root/plain" ;;;
     for_each [(1024, 0)] (fun sr => cell_c 9 "out.csv" "root/staging" "root/plain" sr.1 sr.2)) resumed_host.
Proof.
  destruct (resume_measures_what_is_missing 9 resumed_rows "root" "out.csv" [1024] [10] 2
    [("syncfs", "default", 4, 0)] resumed_host resumed_host resumed_host) as (Ha & _ & Hc).
  - apply Forall_cons_2; [|apply Forall_cons_2; [|by apply Forall_nil_2]]; eexists _, _; [left|right]; reflexivity.
  - vm_compute. reflexivity.
  - vm_compute. reflexivity.
  - split; [exact Ha|]. split; [vm_compute; reflexivity|]. exact Hc.
Defined.

(** ** A summary *)

Lemma omap_snd_elem (arrivals : list (string * option float)) x :
  x ∈ omap snd arrivals <-> exists n, (n, Some x) ∈ arrivals.
Proof.
  rewrite list_elem_of_omap. split.
  - intros ([n v] & Hin & Hv). simpl in Hv. subst. by exists n.
  - intros [n Hn]. by exists (n, Some x).
Qed.

(** An arrival no node's is after. *)
Definition latest (arrivals : list (string * option float)) (last : float) : Prop :=
  (exists n, (n, Some last) ∈ arrivals) /\ forall n x, (n, Some x) ∈ arrivals -> flt last x = false.

Lemma py_max_latest arrivals :
  Forall (fun a => match a.2 with Some x => is_number x = true | None => True end) arrivals ->
  match py_max flt (omap snd arrivals) with
  | Some last => latest arrivals last
  | None => forall n v, (n, v) ∈ arrivals -> v = None
  end.
Proof.
  intros Hnum. assert (Forall (fun y => is_number y = true) (omap snd arrivals)) as Hn.
  { apply Forall_forall. intros x [n Hx]%omap_snd_elem. rewrite Forall_forall in Hnum. by apply (Hnum (n, Some x)). }
  destruct (py_max flt (omap snd arrivals)) as [last|] eqn:E.
  - destruct (max_of_numbers _ _ Hn E) as [Hin%omap_snd_elem Habove]. split; [done|].
    intros n x Hx. apply Habove, omap_snd_elem. by exists n.
  - intros n [x|] Hin; [|done]. assert (x ∈ omap snd arrivals) as Hx by (apply omap_snd_elem; by eexists).
    destruct (omap snd arrivals); [by apply elem_of_nil in Hx|done].
Qed.

Lemma all_arrived (arrivals : list (string * option float)) :
  forallb (fun a => is_some a.2) arrivals = true <-> forall n v, (n, v) ∈ arrivals -> is_Some v.
Proof.
  rewrite forallb_forall. split.
  - intros Hall n v Hin. specialize (Hall (n, v) (proj1 (list_elem_of_In _ _) Hin)).
    simpl in Hall. destruct v; [by eexists|done].
  - intros Hall [n v] Hin%list_elem_of_In. simpl. by destruct (Hall n v Hin) as [x ->].
Qed.

(** C33: what a row says of a cell.  It converged exactly when every node arrived and all
    that arrived hashed alike, and it counts the hashes.  When the writer has its own
    arrival, the ingest time is that, rounded, the propagation time an arrival no
    node's is after, rounded, and the fan-out the time from the writer's to it, rounded
    once.  When it has not, ingest and fan-out are missing, and the propagation
    time is that of the other nodes, or missing when none arrived.  The arrivals
    are numbers. *)
Theorem summary_spec (arrivals : list (string * option float)) hashes writer :
  Forall (fun a => match a.2 with Some x => is_number x = true | None => True end) arrivals ->
  let row := summary arrivals hashes writer in
  (exists converged, Dict.get row "converged" = Some (VBool converged) /\
     (converged = true <-> (forall n v, (n, v) ∈ arrivals -> is_Some v) /\ length hashes = 1%nat)) /\
  Dict.get row "distinct_hashes" = Some (VInt (Z.of_nat (length hashes))) /\
  match Dict.get arrivals writer with
  | Some (Some own) =>
      Dict.get row "ingest_s" = Some (VFloat (round_to 4 own)) /\
      exists last, latest arrivals last /\ Dict.get row "propagation_s" = Some (VFloat (round_to 4 last)) /\
        Dict.get row "fanout_s" = Some (VFloat (round_to 4 (fsub last own)))
  | _ =>
      Dict.get row "ingest_s" = Some VNone /\ Dict.get row "fanout_s" = Some VNone /\
      ((forall n v, (n, v) ∈ arrivals -> v = None) /\ Dict.get row "propagation_s" = Some VNone \/
       exists last, latest arrivals last /\ Dict.get row "propagation_s" = Some (VFloat (round_to 4 last)))
  end.
Proof.
  intros Hnum row. pose proof (py_max_latest _ Hnum) as Hlast. split; [|split; [done|]].
  - exists (forallb (fun a => is_some a.2) arrivals && (length hashes =? 1)%nat). split; [done|].
    by rewrite andb_true_iff, all_arrived, Nat.eqb_eq.
  - assert (Dict.get row "propagation_s" = Some (opt_float (option_map (round_to 4) (py_max flt (omap snd arrivals))))) as -> by done.
    assert (Dict.get row "ingest_s" = Some (opt_float (option_map (round_to 4)
      match Dict.get arrivals writer with Some v => v | None => None end))) as -> by done.
    assert (Dict.get row "fanout_s" = Some (match py_max flt (omap snd arrivals),
      match Dict.get arrivals writer with Some v => v | None => None end with
      | Some l, Some i => VFloat (round_to 4 (fsub l i)) | _, _ => VNone end)) as -> by done.
    destruct (py_max flt (omap snd arrivals)) as [last|], (Dict.get arrivals writer) as [[own|]|] eqn:Eo; try done.
    + split; [done|]. by exists last.
    + split; [done|]. split; [done|]. right. by exists last.
    + split; [done|]. split; [done|]. right. by exists last.
    + by specialize (Hlast _ _ (Dict.get_Some _ _ _ Eo)).
    + split; [done|]. split; [done|]. by left.
    + split; [done|]. split; [done|]. by left.
Qed.

Lemma summary_spec_witness :
  let arrivals := [("sfs1", Some (dec 1 1)); ("sfs2", Some (dec 25 2)); ("sfs3", None)] in
  let row := summary arrivals ["h"] "sfs1" in
  Dict.get row "ingest_s" = Some (VFloat (round_to 4 (dec 1 1))) /\
  exists last, latest arrivals last /\ Dict.get row "propagation_s" = Some (VFloat (round_to 4 last)) /\
    Dict.get row "fanout_s" = Some (VFloat (round_to 4 (fsub last (dec 1 1)))).
Proof.
  intros arrivals row. destruct (summary_spec arrivals ["h"] "sfs1") as (_ & _ & Hown); [|exact Hown].
  repeat constructor.
Defined.

(** ** The payload *)

(** The chunks a size is written in: whole ones of 8 MiB and what is left. *)
Definition chunks (size : Z) : list Z :=
  let whole := repeat (8 * MIB) (Z.to_nat (size / (8 * MIB))) in
  let rest := size mod (8 * MIB) in
  if rest =? 0 then whole else whole ++ [rest].

Lemma chunks_step size : 0 < size ->
  chunks size = Z.min size (8 * MIB) :: chunks (size - Z.min size (8 * MIB)).
Proof.
  intros Hs. unfold chunks. assert (0 < 8 * MIB) as Hc by done. generalize dependent (8 * MIB). intros c Hc.
  destruct (Z.le_gt_cases c size) as [Hle|Hgt].
  - rewrite Z.min_r by done.
    replace (size / c) with ((size - c) / c + 1)
      by (rewrite <- (Z.div_add _ 1) by lia; f_equal; lia).
    replace (size mod c) with ((size - c) mod c)
      by (rewrite <- (Z_mod_plus_full (size - c) 1 c); f_equal; lia).
    assert (0 <= (size - c) / c) by (apply Z.div_pos; lia).
    rewrite Z2Nat.inj_add, Nat.add_1_r by lia. simpl. by destruct (_ =? 0).
  - rewrite Z.min_l by lia. rewrite Z.sub_diag, Z.div_small, Z.mod_small by lia. simpl.
    destruct (Z.eqb_spec size 0); [lia|]. done.
Qed.

Lemma chunks_spec size : 0 <= size ->
  foldr Z.add 0 (chunks size) = size /\ Forall (fun c => 0 < c <= 8 * MIB) (chunks size).
Proof.
  intros Hs. assert (0 < 8 * MIB) as Hc by done. generalize Hs. revert size Hs.
  apply (Z_lt_induction (fun size => 0 <= size ->
    foldr Z.add 0 (chunks size) = size /\ Forall (fun c => 0 < c <= 8 * MIB) (chunks size))).
  intros size IH Hs.
  destruct (decide (size = 0)) as [->|Hne]; [by split; constructor|].
  rewrite chunks_step by lia. set (c := Z.min size (8 * MIB)).
  assert (0 < c <= 8 * MIB /\ c <= size) as [Hcr Hcs] by (unfold c; lia).
  destruct (IH (size - c) ltac:(lia) ltac:(lia)) as [H1 H2].
  split; [simpl; lia|by constructor].
Qed.

Section payload.
Context {W : Type} `{Host W}.

Definition write_chunk (f : fd) (c : Z) : io W unit := let! data := urandom c in file_write f data.

Lemma payload_loop f fuel size w : 0 <= size -> (length (chunks size) < fuel)%nat ->
  (while fuel (fun remaining => ret (negb (remaining =? 0)))
    (fun remaining =>
      let chunk := Z.min remaining (8 * MIB) in
      let! data := urandom chunk in
      file_write f data ;;;
      ret (remaining - chunk)) size ;;; ret tt) w
  = for_each (chunks size) (write_chunk f) w.
Proof.
  intros Hs Hf. revert size Hs Hf w. induction fuel as [|fuel IH]; intros size Hs Hf w; [lia|].
  cbn [while]. unfold bind at 2, ret at 1. destruct (Z.eqb_spec size 0) as [->|Hne]; [done|].
  rewrite chunks_step in * by lia. set (c := Z.min size (8 * MIB)) in *. cbn [for_each length] in *.
  cbn [negb]. unfold bind, write_chunk, bind, ret.
  destruct (urandom c w) as [[data|e|] w1]; [|done..].
  destruct (file_write f data w1) as [[[]|e|] w2]; [|done..].
  assert (0 <= size - c) by (unfold c; lia). assert (length (chunks (size - c)) < fuel)%nat by lia.
  specialize (IH (size - c) ltac:(done) ltac:(done) w2). unfold bind, ret in IH. exact IH.
Qed.

(** C39: the loop that makes a payload ends, for every size, within one round
    per 8 MiB, and is the writing of chunks that add up to exactly the size asked
    for, each at least one byte and at most 8 MiB, in one open file. *)
Theorem make_payload_writes path size fuel w :
  0 <= size -> Z.of_nat fuel > size / (8 * MIB) + 1 ->
  make_payload fuel path size w =
    with_open path WriteBinary (fun f => for_each (chunks size) (write_chunk f)) w /\
  foldr Z.add 0 (chunks size) = size /\ Forall (fun c => 0 < c <= 8 * MIB) (chunks size).
Proof.
  intros Hs Hf. split; [|by apply chunks_spec].
  assert (length (chunks size) < fuel)%nat as Hl.
  { unfold chunks. assert (0 <= size / (8 * MIB)) by (apply Z.div_pos; [lia|done]).
    destruct (_ =? 0); rewrite ?length_app, repeat_length; simpl; lia. }
  unfold make_payload, with_open, bind at 1.
  destruct (file_open path WriteBinary w) as [[f|e|] w1] eqn:E; unfold bind; rewrite ?E; [|done..].
  unfold try_finally. rewrite <- (payload_loop f fuel size w1 Hs Hl). done.
Qed.
End payload.

Lemma make_payload_writes_witness :
  snd (make_payload 5 "p" 3000 start) = snd (with_open "p" WriteBinary (fun f => for_each [3000] (write_chunk f)) start).
Proof.
  destruct (make_payload_writes (W:=sim) "p" 3000 5 start) as [-> _]; [lia|vm_compute; reflexivity|reflexivity].
Defined.

(** ** A cluster is brought down *)

Section bracket.
Context {W : Type} `{Host W}.

(** C32: once the cluster of experiment A is up, taking it down is the last
    thing done for it, however its cells end: after the last one or after an
    exception, which is passed on unless the clean-up itself raises. *)
Theorem experiment_a_cleans_up fuel root out sizes repeats system config nodes sync_period w keys w1 w2 info w3 :
  done_cells out w = (Ok keys, w1) ->
  mkdir_parents (join_path root "staging") w1 = (Ok tt, w2) ->
  let wanted := wanted_cells (fun size repeat =>
    key_done keys (cell_key_of "A" system config nodes size 1 repeat)) sizes repeats in
  let cluster_root := join_path root (system +:+ "-" +:+ config +:+ "-" +:+ Z_to_string nodes) in
  wanted <> [] ->
  cluster_up fuel system nodes cluster_root sync_period w2 = (Ok info, w3) ->
  let cells := for_each wanted (fun sr =>
    cell_a fuel info out (join_path root "staging") system config nodes sr.1 sr.2) w3 in
  fst cells <> Stuck ->
  let last := cluster_down system nodes cluster_root (snd cells) in
  snd (experiment_a fuel root out sizes repeats [(system, config, nodes, sync_period)] w) = snd last /\
  (fst last = Ok tt ->
   fst (experiment_a fuel root out sizes repeats [(system, config, nodes, sync_period)] w) = fst cells).
Proof.
  intros Hd Hm wanted cluster_root Hw Hu cells Hc last.
  assert (experiment_a fuel root out sizes repeats [(system, config, nodes, sync_period)] w =
    bind (try_finally (fun w => for_each wanted (fun sr =>
      cell_a fuel info out (join_path root "staging") system config nodes sr.1 sr.2) w)
      (cluster_down system nodes cluster_root)) (fun _ => ret tt) w3) as ->.
  { unfold experiment_a. rewrite (bind_ok _ _ _ _ _ Hd), (bind_ok _ _ _ _ _ Hm). cbn [for_each].
    unfold bind at 1. unfold entry_a. fold wanted. fold cluster_root. destruct wanted as [|c l]; [done|].
    rewrite (bind_ok _ _ _ _ _ Hu). reflexivity. }
  unfold bind, try_finally, ret. fold cells. destruct cells as [r w4]. simpl in *.
  subst last. destruct r as [[]|e|]; [..|done]; by destruct (cluster_down _ _ _ w4) as [[[]|e'|] w5].
Qed.
End bracket.

(** A host on which the daemons start, the second node holds the payload by the
    time it is watched, and loses it a second after the writer. *)
Definition matrix_host : sim :=
  let p := "root/syncfs-default-2/sfs2/data/probe-1024-0.bin" in
  Sim 0 [Event 0 p (Some (2, spaces 1024)); Event 6000 p None] []
    (answer SyncfsCluster.ready_host) [] [].

Definition matrix_run : outcome unit * sim :=
  experiment_a 10 "root" "out.csv" [1024] 1 [("syncfs", "default", 2, 0)] matrix_host.

Lemma experiment_a_cleans_up_witness :
  exists w1 w2 info w3,
    let cells := for_each [(1024, 0)] (fun sr =>
      cell_a 10 info "out.csv" "root/staging" "syncfs" "default" 2 sr.1 sr.2) w3 in
    done_cells "out.csv" matrix_host = (Ok [], w1) /\
    mkdir_parents "root/staging" w1 = (Ok tt, w2) /\
    cluster_up 10 "syncfs" 2 "root/syncfs-default-2" 0 w2 = (Ok info, w3) /\
    snd matrix_run = snd (cluster_down "syncfs" 2 "root/syncfs-default-2" (snd cells)).
Proof.
  destruct (cluster_up 10 "syncfs" 2 "root/syncfs-default-2" 0 matrix_host) as [[info|e|] w3] eqn:E.
  - exists matrix_host, matrix_host, info, w3. split; [reflexivity|]. split; [reflexivity|]. split; [exact E|].
    apply (experiment_a_cleans_up 10 "root" "out.csv" [1024] 1 "syncfs" "default" 2 0
             matrix_host [] matrix_host matrix_host info w3); try reflexivity; [|exact E|].
    + vm_compute. discriminate.
    + vm_compute in E. injection E as <- <-. vm_compute. discriminate.
  - exfalso. vm_compute in E. discriminate.
  - exfalso. vm_compute in E. discriminate.
Defined.

(** ** main *)

Record matrix_args := MatrixArgs {
  experiment : string; root : string; out : string; repeats : Z;
  sizes : option string; plan : option string; counts : string;
}.

Definition default_plan : list plan_entry :=
  map (fun n => ("syncfs", "default", n, 0)) [2; 4; 10; 20]
  ++ map (fun n => ("bucketfs", "default", n, 30000)) [2; 4]
  ++ map (fun n => ("bucketfs", "tuned", n, 1000)) [2; 4].

(** A plan file: a JSON list of [[system, config, nodes, sync_period_ms]]. *)
Definition read_plan (text : string) : option (list plan_entry) :=
  match json_loads text with
  | Some (VList entries) =>
      fold_right (fun e acc =>
        match e, acc with
        | VList [VStr system; VStr config; VInt nodes; VInt period], Some l =>
            Some ((system, config, nodes, period) :: l)
        | _, _ => None
        end) (Some []) entries
  | _ => None
  end.

(** [[int(s) for s in text.split(",")]]. *)
Definition ints_of (text : string) : option (list Z) :=
  fold_right (fun s acc => match int_of_string s, acc with Some z, Some l => Some (z :: l) | _, _ => None end)
    (Some []) (split_on COMMA text).

Definition or_value_error {W A} (v : option A) (what : string) : io W A :=
  match v with Some a => ret a | None => raise (ValueError what) end.

Definition main {W} `{Host W} (fuel : nat) (args : matrix_args) : io W Z :=
  let! the_plan := match plan args with
    | Some path => let! text := read_text path in or_value_error (read_plan text) "plan"
    | None => ret default_plan
    end in
  let! the_sizes := match sizes args with
    | Some text => if String.eqb text "" then ret SIZES else or_value_error (ints_of text) "sizes"
    | None => ret SIZES
    end in
  mkdir_parents (root args) ;;;
  (if String.eqb (experiment args) "A" then
     experiment_a fuel (root args) (out args) the_sizes (repeats args) the_plan
   else if String.eqb (experiment args) "B" then
     let! cs := or_value_error (ints_of (counts args)) "counts" in
     experiment_b fuel (root args) (out args) (repeats args) the_plan cs
   else experiment_c fuel (root args) (out args) the_sizes (repeats args)) ;;;
  ret 0.

Example plan_file :
  read_plan ("[[" +:+ json_str "syncfs" +:+ ", " +:+ json_str "default" +:+ ", 2, 0]]")
  = Some [("syncfs", "default", 2, 0)].
Proof. vm_compute. reflexivity. Qed.
