(* ===== verification/TexTables.v ===== *)
(** * tex_tables.py: the tables of the results chapter

    Rows of the results files in, lines of LaTeX out.  What a table prints is a
    list of lines, and every lookup or conversion that can fail is an exception,
    as in the code.  The theorems: the grouping loses and invents no row, every
    line of a table has the columns its header declares, the deadline a table
    states is the one the cell was given, and failed runs are all counted. *)

From stdpp Require Import sets.
From S2P Require Import Prelude OrdMap PyHost PySim Poller RunMatrix.

Module TexTables.

(** Printing to [out]: the lines so far are the state. *)
Abbreviation tex := (io (list string)).

Definition put_line (l : string) : tex unit := fun w => (Ok tt, w ++ [l]).

Definition put_lines (ls : list string) : tex unit := for_each ls put_line.

Definition SYSTEM_LABEL : list (string * string) :=
  [("syncfs", "syncfs"); ("bucketfs", "BucketFS"); ("plainfile", "plain file")].

Section rows.
Context {W : Type}.

(** [r[k]]: [None] where the line was too short for the field. *)
Definition field (r : csv_record) (k : string) : io W (option string) := item r k.

Definition text_field (r : csv_record) (k : string) : io W string :=
  let! v := field r k in match v with Some s => ret s | None => raise TypeError end.

(** [int(r[k])] and [float(r[k])]. *)
Definition int_field (r : csv_record) (k : string) : io W Z :=
  let! s := text_field r k in
  match int_of_string s with Some z => ret z | None => raise (ValueError s) end.

Definition float_text (s : string) : io W float :=
  match float_of_string (strip s) with Some x => ret x | None => raise (ValueError s) end.

(** [[f(r) for r in rows if keep(r)]] with a test that can fail. *)
Definition filter_io {A} (keep : A -> io W bool) (l : list A) : io W (list A) :=
  for_fold l [] (fun a acc => let! b := keep a in ret (if b : bool then acc ++ [a] else acc)).

(** [group_by]: rows under their key, keys and rows in order of appearance. *)
Definition group_by {K} `{EqDecision K} (rows : list csv_record) (key : csv_record -> io W K)
    : io W (list (K * list csv_record)) :=
  for_fold rows [] (fun row out =>
    let! k := key row in ret (Dict.setdefault_update out k [] (fun l => l ++ [row]))).

Definition load_texts (texts : list string) : list csv_record := flat_map dict_reader texts.

Definition human (size : Z) : string :=
  if GIB <=? size then format_g (float_of_Z_ratio size (Z.to_pos GIB)) +:+ "\,GiB"
  else if MIB <=? size then format_g (float_of_Z_ratio size (Z.to_pos MIB)) +:+ "\,MiB"
  else if KIB <=? size then format_g (float_of_Z_ratio size (Z.to_pos KIB)) +:+ "\,KiB"
  else Z_to_string size +:+ "\,B".

Definition arm (r : csv_record) : io W string :=
  let! system := text_field r "system" in item SYSTEM_LABEL system.

Definition MISSING : string := "\multicolumn{1}{c}{---}".

Definition GENERATED : string :=
  "% Generated by tools/measure/bucketfs/tex_tables.py -- do not edit by hand.".

Definition DROPPED_ARM : string * string := ("bucketfs", "tuned").

Definition in_dropped_arm (r : csv_record) : io W bool :=
  let! system := field r "system" in
  let! config := field r "config" in
  ret (bool_decide ((system, config) = (Some (fst DROPPED_ARM), Some (snd DROPPED_ARM)))).

Definition drop_arm (rows : list csv_record) : io W (list csv_record * list csv_record) :=
  let! kept := filter_io (fun r => let! d := in_dropped_arm r in ret (negb d)) rows in
  let! dropped := filter_io in_dropped_arm rows in
  ret (kept, dropped).

(** [if r[k]]: a field there and not empty. *)
Definition non_empty (r : csv_record) (k : string) : io W bool :=
  let! v := field r k in
  ret (match v with Some (String _ _) => true | _ => false end).

Definition cell_values (group : list csv_record) (metric : string) : io W (list float) :=
  let! rows := filter_io (fun r => non_empty r metric) group in
  map_io (fun r => let! s := text_field r metric in float_text s) rows.

Definition DAGGER_LEGEND : string :=
  " A $\dagger$ marks runs that did not converge inside the deadline, and the count beside it says how many of the repeats those were; a time next to one is the last arrival among the nodes that did receive the payload, not a convergence time.".

Definition deadline_for (experiment : string) (size : Z) : float :=
  if String.eqb experiment "A" && (GIB <=? size) then float_of_Z 1800 else float_of_Z 900.

Definition digits_for (value : float) : nat :=
  if fle (float_of_Z 100) value then 0
  else if fle (float_of_Z 10) value then 1
  else if fle (float_of_Z 1) value then 2
  else 3.

Definition or_raise {A} (e : exn) (v : option A) : io W A :=
  match v with Some a => ret a | None => raise e end.

Definition median_of_values (values : list float) : io W float := or_raise StatisticsError (median values).

Definition median_range (values : list float) (places : nat) (suffix : string) : io W string :=
  let! med := median_of_values values in
  let! low := or_raise (ValueError "min") (py_min flt values) in
  let! high := or_raise (ValueError "max") (py_max flt values) in
  let body := format_f places med +:+ suffix in
  ret (if flt (fsub high low) (dec 1 places) then body
       else "\begin{tabular}[t]{@{}r@{}}" +:+ body +:+ "\\"
            +:+ "{\tiny " +:+ format_f places low +:+ "--" +:+ format_f places high +:+ "}"
            +:+ "\end{tabular}").

(** Rows that did not converge. *)
Definition not_converged (r : csv_record) : io W bool :=
  let! v := field r "converged" in ret (negb (bool_decide (v = Some "True"))).

(** [any(test(r) for r in rows)]: it stops at the first. *)
Fixpoint any_io {A} (test : A -> io W bool) (l : list A) : io W bool :=
  match l with
  | [] => ret false
  | a :: l' => let! b := test a in if b : bool then ret true else any_io test l'
  end.

Definition count_bad (rows : list csv_record) : io W nat :=
  let! bad := filter_io not_converged rows in ret (length bad).

Definition dagger (bad : nat) : string := "\,$^{" +:+ Z_to_string (Z.of_nat bad) +:+ "\dagger}$".

Definition fmt (group : list csv_record) (metric : string) (digits : option nat) : io W string :=
  let! values := cell_values group metric in
  let! bad := count_bad group in
  match values with
  | [] =>
      match group with
      | [] => raise IndexError
      | first :: _ =>
          let! experiment := text_field first "experiment" in
          let! size := int_field first "size_bytes" in
          ret ("$>" +:+ format_f 0 (deadline_for experiment size) +:+ "$" +:+ dagger bad)
      end
  | _ =>
      let! places := match digits with
        | None => let! m := median_of_values values in ret (digits_for m)
        | Some d => ret d
        end in
      median_range values places (if (0 <? bad)%nat then dagger bad else "")
  end.
End rows.

(** *** The tables *)

Definition table_row (cells : list string) : string := str_join " & " cells +:+ " \\".

Fixpoint repeat_str (n : nat) (s : string) : string :=
  match n with O => "" | S n' => s +:+ repeat_str n' s end.

Definition column_header (n : Z) : string := "$N{=}" +:+ Z_to_string n +:+ "$".

(** One line of cells below the header: the arm on its first line only, the size,
    and one cell per node count. *)
Definition grid_row {K} `{EqDecision K} (cells : list (K * list csv_record)) (key : string -> Z -> Z -> K)
    (node_counts : list Z) (label : Z -> string) (metric a : string) (index : nat) (size : Z)
    : tex (list string) :=
  let! values := map_io (fun n =>
    match Dict.get cells (key a size n) with
    | None => ret MISSING
    | Some group => fmt group metric None
    end) node_counts in
  ret ((if (index =? 0)%nat then a else "") :: label size :: values).

Definition caption_lines (bad : bool) (short caption label : string) : list string :=
  ["\caption[" +:+ short +:+ "]{" +:+ caption +:+ (if bad then DAGGER_LEGEND else "") +:+ "}";
   "\label{" +:+ label +:+ "}"; "\end{table}"; ""].

(** [matrix_table] and [tree_table] print the same grid: they differ in the field
    the rows are told apart by, in its heading and in how it is written. *)
Definition grid_table (rows : list csv_record) (row_field heading : string) (label_of : Z -> string)
    (metric short caption label : string) : tex unit :=
  let! cells := group_by rows (fun r =>
    let! a := arm r in let! s := int_field r row_field in let! n := int_field r "nodes" in
    ret (a, s, n)) in
  let keys := Dict.keys cells in
  let arms := sort_strings (dedup (map (fun k => k.1.1) keys)) in
  let sizes := sort_Z (dedup (map (fun k => k.1.2) keys)) in
  let node_counts := sort_Z (dedup (map (fun k => k.2) keys)) in
  put_lines ["\begin{table}[H]"; "\centering"; "\footnotesize"; "\setlength{\tabcolsep}{4pt}";
             "\begin{tabular}{ll" +:+ repeat_str (length node_counts) "r" +:+ "}"; "\hline";
             table_row ("System" :: heading :: map column_header node_counts); "\hline"] ;;;
  for_each arms (fun a =>
    for_each (zip (seq 0 (length sizes)) sizes) (fun entry =>
      let! row := grid_row cells (fun a s n => (a, s, n)) node_counts label_of metric a entry.1 entry.2 in
      put_line (table_row row)) ;;;
    put_line "\hline") ;;;
  put_line "\end{tabular}" ;;;
  let! bad := any_io not_converged rows in
  put_lines (caption_lines bad short caption label).

Definition matrix_table (rows : list csv_record) (metric short caption label : string) : tex unit :=
  grid_table rows "size_bytes" "Size" human metric short caption label.

(** [f"{count:,}".replace(",", "\\,")]. *)
Definition thousands (count : Z) : string := replace_char COMMA "\," (commas count).

Definition tree_table (rows : list csv_record) (short caption label : string) : tex unit :=
  grid_table rows "file_count" "Files" thousands "propagation_s" short caption label.

Definition experiment_is (e : string) (r : csv_record) : tex bool :=
  let! v := field r "experiment" in ret (bool_decide (v = Some e)).

(** [test(r) and more(r)], the second only where the first holds. *)
Definition and_then (test more : csv_record -> tex bool) (r : csv_record) : tex bool :=
  let! b := test r in if b : bool then more r else ret false.

Definition nodes_are (n : Z) (r : csv_record) : tex bool :=
  let! v := int_field r "nodes" in ret (v =? n).

Definition size_is (n : Z) (r : csv_record) : tex bool :=
  let! v := int_field r "size_bytes" in ret (v =? n).

Definition system_is (s : string) (r : csv_record) : tex bool :=
  let! v := field r "system" in ret (bool_decide (v = Some s)).

Definition cell_or_missing (group : option (list csv_record)) (metric : string) : tex string :=
  match group with None => ret MISSING | Some g => fmt g metric None end.

Definition baseline_row (plain : list (Z * list csv_record)) (ingest : list (string * Z * list csv_record))
    (arms : list string) (size : Z) : tex (list string) :=
  let! first := cell_or_missing (Dict.get plain size) "ingest_s" in
  let! rest := map_io (fun a => cell_or_missing (Dict.get ingest (a, size)) "ingest_s") arms in
  ret (human size :: first :: rest).

Definition baseline_table (rows : list csv_record) : tex unit :=
  let! c_rows := filter_io (experiment_is "C") rows in
  let! plain := group_by c_rows (fun r => int_field r "size_bytes") in
  let! two := filter_io (and_then (experiment_is "A") (nodes_are 2)) rows in
  let! ingest := group_by two (fun r => let! a := arm r in let! s := int_field r "size_bytes" in ret (a, s)) in
  let arms := sort_strings (dedup (map fst (Dict.keys ingest))) in
  let sizes := sort_Z (dedup (Dict.keys plain ++ map snd (Dict.keys ingest))) in
  put_lines ["\begin{table}[H]"; "\centering"; "\footnotesize";
             "\begin{tabular}{l" +:+ repeat_str (length arms + 1) "r" +:+ "}"; "\hline";
             table_row ("Size" :: "plain file" :: arms); "\hline"] ;;;
  for_each sizes (fun size => let! row := baseline_row plain ingest arms size in put_line (table_row row)) ;;;
  put_lines ["\hline"; "\end{tabular}";
    "\caption[Writer-side ingest time against a plain file copy]{Writer-side ingest time in seconds, median with range: a plain copy on the same filesystem against what each system's writer waits for at $N=2$. A syncfs write returns once the bytes are on local disk; a BucketFS PUT returns once every node has them. The baseline column is the stricter measurement of the two: it waits for an explicit flush to the device, where the other columns are sampled by the same host-side probe as every other cell.}";
    "\label{tab:results-ingest-baseline}"; "\end{table}"; ""].

(** *** The scenarios *)

Definition cell_of (experiment system : string) (nodes size : Z) (r : csv_record) : tex bool :=
  and_then (experiment_is experiment) (and_then (system_is system)
    (and_then (nodes_are nodes) (size_is size))) r.

(** The median of a cell's metric, where the cell has values. *)
Definition median_of (rows : list csv_record) (system : string) (nodes size : Z)
    (metric experiment : string) : tex (option float) :=
  let! group := filter_io (cell_of experiment system nodes size) rows in
  let! values := cell_values group metric in
  match values with [] => ret None | _ => let! m := median_of_values values in ret (Some m) end.

Definition measured_sizes (rows : list csv_record) (nodes : Z) : tex (list Z) :=
  let! group := filter_io (and_then (experiment_is "A") (and_then (system_is "syncfs") (nodes_are nodes))) rows in
  let! sizes := map_io (fun r => int_field r "size_bytes") group in
  ret (sort_Z (dedup sizes)).

Definition nearest_to (target : Z) (l : list Z) : option Z :=
  py_min (fun x y => Z.abs (x - target) <? Z.abs (y - target)) l.

(** [f(x) if x else None]: nothing, and zero, give [None]. *)
Definition median_at (rows : list csv_record) (nodes : Z) (size : option Z) : tex (option float) :=
  match size with
  | Some s => if s =? 0 then ret None else median_of rows "syncfs" nodes s "propagation_s" "A"
  | None => ret None
  end.

Definition verdict (value : option float) (limit : Z) : string :=
  match value with
  | Some v => if fle v (float_of_Z limit) then "met" else "not met"
  | None => "---"
  end.

Definition scenario_small (rows : list csv_record) : tex (list string) :=
  let! at_ten := measured_sizes rows 10 in
  let small := nearest_to (10 * KIB) at_ten in
  let! value := median_at rows 10 small in
  ret ["\ref{req:synch_small_file}"; "$10$\,KiB across $10$ nodes in $\leq 5$\,s";
       match value, small with
       | Some v, Some s => format_f 2 v +:+ "\,s at " +:+ human s
       | _, _ => "---"
       end;
       verdict value 5].

Definition scenario_big (rows : list csv_record) : tex (list string) :=
  let! gib := median_of rows "syncfs" 10 GIB "propagation_s" "A" in
  ret ["\ref{req:synch_big_file}"; "$1$\,GiB across $10$ nodes in $\leq 120$\,s";
       match gib with Some g => format_f 2 g +:+ "\,s" | None => "---" end;
       verdict gib 120].

Definition truthy_opt (v : option float) : bool := match v with Some x => truthy x | None => false end.

Definition scenario_growth (rows : list csv_record) : tex (list string) :=
  let! at_ten := measured_sizes rows 10 in
  let! at_twenty := measured_sizes rows 20 in
  let both := List.filter (fun s => bool_decide (s ∈ at_twenty)) at_ten in
  let largest := py_max Z.ltb both in
  let! ten := median_at rows 10 largest in
  let! twenty := median_at rows 20 largest in
  let requirement := "$10 \rightarrow 20$ nodes costs less than $2\times$" in
  ret (match ten, twenty, largest with
       | Some t, Some tw, Some l =>
           if truthy t && truthy tw then
             ["\ref{req:no_linear_growth}"; requirement;
              "$\times" +:+ format_f 2 (fdiv tw t) +:+ "$ at " +:+ human l;
              if flt (fdiv tw t) (float_of_Z 2) then "met" else "not met"]
           else ["\ref{req:no_linear_growth}"; requirement; "---"; "---"]
       | _, _, _ => ["\ref{req:no_linear_growth}"; requirement; "---"; "---"]
       end).

Definition nat_text (n : nat) : string := Z_to_string (Z.of_nat n).

Definition scenario_bounded (rows : list csv_record) : tex (list string) :=
  let! single := filter_io (and_then (experiment_is "A") (system_is "syncfs")) rows in
  let! many := filter_io (and_then (experiment_is "B") (system_is "syncfs")) rows in
  let! bad_single := count_bad single in
  let! bad_many := count_bad many in
  ret ["\ref{req:files_are_synch_bounded}"; "bounded convergence time";
       nat_text bad_single +:+ " of " +:+ nat_text (length single) +:+ " single-file and "
       +:+ nat_text bad_many +:+ " of " +:+ nat_text (length many) +:+ " many-file syncfs runs";
       if ((bad_single =? 0) && (bad_many =? 0))%nat then "met" else "partly"].

Definition scenario_table (rows : list csv_record) : tex unit :=
  let! small := scenario_small rows in
  let! big := scenario_big rows in
  let! growth := scenario_growth rows in
  let! bounded := scenario_bounded rows in
  put_lines ["\begin{table}[H]"; "\centering"; "\footnotesize";
             "\begin{tabular}{lp{5.0cm}p{3.6cm}l}"; "\hline";
             table_row ["Scenario"; "Requirement"; "Measured"; "Verdict"]; "\hline"] ;;;
  put_lines (map table_row [small; big; growth; bounded]) ;;;
  put_lines ["\hline"; "\end{tabular}";
    "\caption[The requirements against the measured medians]{The requirements the matrix was run to answer, against syncfs's measured medians.}";
    "\label{tab:results-scenarios}"; "\end{table}"; ""].

(** *** The notes *)

(** [repr] of an ASCII string, and [f"{l}"] of a list of them. *)
Definition QUOTE1 : ascii := "'"%char.

Definition repr_char (quote c : ascii) : string :=
  if bool_decide (c = quote) || bool_decide (c = BACKSLASH) then String BACKSLASH (String c "")
  else if decide (c = NEWLINE) then "\n"
  else if decide (c = "013"%char) then "\r"
  else if decide (c = "009"%char) then "\t"
  else
    let n := Ascii.nat_of_ascii c in
    if ((n <? 32) || (n =? 127))%nat then
      "\x" +:+ String (hex_digit (n / 16)) (String (hex_digit (n mod 16)) "")
    else String c "".

Fixpoint repr_chars (quote : ascii) (s : string) : string :=
  match s with EmptyString => "" | String c s' => repr_char quote c +:+ repr_chars quote s' end.

Definition py_repr (s : string) : string :=
  let quote := if has_char QUOTE1 s && negb (has_char QUOTE s) then QUOTE else QUOTE1 in
  String quote (repr_chars quote s) +:+ String quote "".

Definition str_of_strings (l : list string) : string := "[" +:+ str_join ", " (map py_repr l) +:+ "]".

Definition SAMPLE_KEY : list string :=
  ["experiment"; "system"; "config"; "nodes"; "size_bytes"; "file_count"].

(** How many rows each cell has. *)
Definition tally {K} `{EqDecision K} (keys : list K) : list (K * nat) :=
  fold_left (fun d k => Dict.set d k (S (match Dict.get d k with Some n => n | None => 0%nat end))) keys [].

Definition min_or (d : float) (l : list float) : float := match py_min flt l with Some x => x | None => d end.
Definition max_or (d : float) (l : list float) : float := match py_max flt l with Some x => x | None => d end.

Definition environment_note (rows : list csv_record) (dropped : nat) : tex unit :=
  let! with_nofile := filter_io (fun r => non_empty r "nofile") rows in
  let! nofiles := map_io (fun r => text_field r "nofile") with_nofile in
  let nofile := dedup nofiles in
  let! loads := cell_values rows "loadavg" in
  let! keys := map_io (fun r => map_io (field r) SAMPLE_KEY) rows in
  let repeats := tally keys in
  put_line GENERATED ;;;
  put_line ("% cells: " +:+ nat_text (length repeats) +:+ ", samples: " +:+ nat_text (length rows)
            +:+ ", repeats per cell: "
            +:+ str_of_ints (sort_Z (dedup (map Z.of_nat (Dict.values repeats))))) ;;;
  when (negb (bool_decide (nofile = [])))
    (put_line ("% RLIMIT_NOFILE observed in the containers: " +:+ str_of_strings (sort_strings nofile))) ;;;
  match loads with
  | [] => ret tt
  | x :: _ => put_line ("% host load average at t0: min " +:+ format_f 2 (min_or x loads)
                        +:+ ", max " +:+ format_f 2 (max_or x loads))
  end ;;;
  when (0 <? dropped)%nat
    (let! label := item SYSTEM_LABEL (fst DROPPED_ARM) in
     put_line ("% " +:+ label +:+ " (" +:+ snd DROPPED_ARM +:+ ") rows measured and not tabulated: "
               +:+ nat_text dropped)) ;;;
  put_line "".

#[export] Instance float_eq_dec : EqDecision float.
Proof. solve_decision. Defined.

(** The runs of digits in a name, and the name without them. *)
Fixpoint digit_runs (s run : string) : list string :=
  let flush := if String.eqb run "" then [] else [run] in
  match s with
  | EmptyString => flush
  | String c s' => if is_digit c then digit_runs s' (run +:+ String c "") else flush ++ digit_runs s' ""
  end.

Fixpoint without_digits (s : string) : string :=
  match s with
  | EmptyString => ""
  | String c s' => if is_digit c then without_digits s' else String c (without_digits s')
  end.

Definition node_key (name : string) : string * Z :=
  (without_digits name,
   match last (digit_runs name "") with
   | Some digits => match parse_nonempty_digits digits with Some n => n | None => 0 end
   | None => 0
   end).

Definition node_key_compare : string * Z -> string * Z -> comparison := pair_compare String.compare Z.compare.

(** The names a recorded cell's arrivals give no time for. *)
Definition missing_nodes (arrivals : option string) : tex (list string) :=
  let text := match arrivals with Some (String c s) => String c s | _ => "{}" end in
  match json_loads text with
  | Some (VDict d) => ret (map fst (List.filter (fun kv => is_none kv.2) d))
  | Some _ => raise TypeError
  | None => raise (ValueError text)
  end.

(** Experiment, system, nodes, payload, deadline and detail. *)
Definition outcome_key : Type := string * string * Z * string * float * string.

Definition outcome_of (row : csv_record) : tex outcome_key :=
  let! arrivals := field row "arrivals" in
  let! missing := missing_nodes arrivals in
  let detail := match missing with
    | [] => "arrived, hashes disagreed"
    | _ => str_join ", " (sorted_by node_key_compare node_key missing)
    end in
  let! file_count := field row "file_count" in
  let! payload := (if bool_decide (file_count = Some "1")
                   then let! size := int_field row "size_bytes" in ret (human size)
                   else let! count := int_field row "file_count" in ret (thousands count +:+ " files")) in
  let! experiment := text_field row "experiment" in
  let! system := arm row in
  let! nodes := int_field row "nodes" in
  let! size := int_field row "size_bytes" in
  ret (experiment, system, nodes, payload, deadline_for experiment size, detail).

Definition outcome_compare : string * string * Z * string -> string * string * Z * string -> comparison :=
  pair_compare (pair_compare (pair_compare String.compare String.compare) Z.compare) String.compare.

Definition outcome_row (e : outcome_key * nat) : list string :=
  let '(experiment, system, nodes, payload, deadline, detail, runs) := (e.1, e.2) in
  [experiment; system; Z_to_string nodes; payload; format_f 0 deadline +:+ "\,s"; nat_text runs; detail].

Definition nonconvergence_note (rows : list csv_record) : tex unit :=
  let! bad := filter_io not_converged rows in
  match bad with
  | [] => ret tt
  | _ =>
      let! keys := map_io outcome_of bad in
      let entries := sorted_by outcome_compare (fun e : outcome_key * nat => e.1.1.1) (tally keys) in
      put_lines ["\begin{table}[H]"; "\centering"; "\footnotesize"; "\setlength{\tabcolsep}{4pt}";
                 "\begin{tabular}{llrlrrp{2.6cm}}"; "\hline";
                 table_row ["Experiment"; "System"; "$N$"; "Payload"; "Deadline"; "Runs";
                            "Nodes that never received it"]; "\hline"] ;;;
      put_lines (map (fun e => table_row (outcome_row e)) entries) ;;;
      put_lines ["\hline"; "\end{tabular}";
        "\caption[Cells that missed their deadline]{Cells that did not converge inside their deadline, with the number of repeats that failed the same way. A non-convergence is a result and is recorded, not retried away.}";
        "\label{tab:results-nonconvergence}"; "\end{table}"; ""]
  end.

(** *** The macros *)

Definition define (name : string) (value : option float) (digits : nat) : tex unit :=
  match value with
  | None => ret tt
  | Some v => put_line ("\newcommand{\" +:+ name +:+ "}{" +:+ format_f digits v +:+ "}")
  end.

Definition macro_of (rows : list csv_record) (name system : string) (nodes size : Z) : tex unit :=
  let! m := median_of rows system nodes size "propagation_s" "A" in define name m 2.

Definition scaling (rows : list csv_record) (name : string) (size : Z) : tex unit :=
  let! ten := median_of rows "syncfs" 10 size "propagation_s" "A" in
  let! twenty := median_of rows "syncfs" 20 size "propagation_s" "A" in
  match ten, twenty with
  | Some t, Some tw => if truthy t && truthy tw then define name (Some (fdiv tw t)) 2 else ret tt
  | _, _ => ret tt
  end.

Definition macros (rows : list csv_record) : tex unit :=
  for_each [("Two", 2); ("Four", 4); ("Ten", 10); ("Twenty", 20)] (fun ln =>
    let '(label, nodes) := ln in
    macro_of rows ("syncfsGib" +:+ label) "syncfs" nodes GIB ;;;
    macro_of rows ("syncfsFourGib" +:+ label) "syncfs" nodes (4 * GIB) ;;;
    macro_of rows ("bucketfsGib" +:+ label) "bucketfs" nodes GIB ;;;
    macro_of rows ("bucketfsFourGib" +:+ label) "bucketfs" nodes (4 * GIB) ;;;
    macro_of rows ("syncfsHundredMib" +:+ label) "syncfs" nodes (100 * MIB) ;;;
    macro_of rows ("bucketfsHundredMib" +:+ label) "bucketfs" nodes (100 * MIB)) ;;;
  scaling rows "syncfsGibScaling" GIB ;;;
  scaling rows "syncfsFourGibScaling" (4 * GIB) ;;;
  let! plain := median_of rows "plainfile" 0 GIB "ingest_s" "C" in
  define "plainGib" plain 2 ;;;
  let! plain4 := median_of rows "plainfile" 0 (4 * GIB) "ingest_s" "C" in
  define "plainFourGib" plain4 2 ;;;
  let! s := median_of rows "syncfs" 2 GIB "ingest_s" "A" in
  define "syncfsGibIngest" s 3 ;;;
  let! b := median_of rows "bucketfs" 2 GIB "ingest_s" "A" in
  define "bucketfsGibIngest" b 3 ;;;
  put_line "".

(** *** main *)

(** Everything that goes below the macros. *)
Definition tables (rows : list csv_record) : tex unit :=
  let! a_rows := filter_io (experiment_is "A") rows in
  let! b_rows := filter_io (experiment_is "B") rows in
  when (negb (bool_decide (a_rows = []))) (
    matrix_table a_rows "propagation_s" "Propagation time by node count and file size"
      "Propagation time in seconds, median with range: from the first byte written to the last node holding the whole file. This is the user-visible number."
      "tab:results-propagation" ;;;
    matrix_table a_rows "fanout_s" "Fan-out time by node count and file size"
      "Fan-out time in seconds, median with range: from the writer holding the file to the last node holding it. Replication alone, and the only term that compares the two mechanisms directly."
      "tab:results-fanout") ;;;
  when (negb (bool_decide (b_rows = []))) (
    tree_table b_rows "Propagation time for many small files written at once"
      "Propagation time in seconds for $4$\,KiB files written at once, median with range: the UDF-load case."
      "tab:results-manyfiles") ;;;
  let! c := any_io (experiment_is "C") rows in
  when c (baseline_table rows) ;;;
  when (negb (bool_decide (a_rows = []))) (scenario_table rows) ;;;
  nonconvergence_note rows.

Section main.
Context {W : Type} `{Host W}.

(** Where lines go: an open file, or standard output. *)
Definition sink : Type := option fd.

Definition emit_line (out : sink) (l : string) : io W unit :=
  match out with Some f => file_write f (l +:+ String NEWLINE "") | None => print l end.

(** Running a table with its lines sent to [out]: those before an exception too. *)
Definition emit {A} (out : sink) (m : tex A) : io W A :=
  let '(r, ls) := m [] in
  for_each ls (emit_line out) ;;;
  match r with Ok a => ret a | Exn e => raise e | Stuck => fun w => (Stuck, w) end.

Definition lift {A} (m : tex A) : io W A :=
  match fst (m []) with Ok a => ret a | Exn e => raise e | Stuck => fun w => (Stuck, w) end.

Definition open_sink (path : option string) : io W sink :=
  match path with Some p => let! f := file_open p WriteText in ret (Some f) | None => ret None end.

Definition close_sink (s : sink) : io W unit := match s with Some f => file_close f | None => ret tt end.

(** [load(paths)]. *)
Definition load (paths : list string) : io W (list csv_record) :=
  for_fold paths [] (fun path rows => let! text := read_text path in ret (rows ++ dict_reader text)).

Definition main (csv : list string) (out_path macros_path : option string) : io W Z :=
  let! all_rows := load csv in
  match all_rows with
  | [] => ret 1
  | _ =>
      let! split := lift (drop_arm all_rows) in
      let '(rows, dropped_rows) := split in
      let! out := open_sink out_path in
      let! own_defs := open_sink macros_path in
      let defs := match own_defs with Some f => Some f | None => out end in
      try_finally (
        emit defs (environment_note rows (length dropped_rows) ;;; macros rows) ;;;
        match macros_path with
        | Some p => emit out (put_lines [GENERATED; "% Macros for the prose are in " +:+ path_name p +:+ "."; ""])
        | None => ret tt
        end ;;;
        emit out (tables rows))
        (close_sink own_defs ;;; close_sink out) ;;;
      ret 0
  end.
End main.

(** ** Reading rows *)

(** An action that looks at nothing but its arguments. *)
Definition reads {W A} (m : io W A) (r : outcome A) : Prop := forall w, m w = (r, w).

Section reads.
Context {W : Type}.

Lemma reads_ret {A} (a : A) : reads (W:=W) (ret a) (Ok a).
Proof. done. Qed.

Lemma reads_item {V} (d : list (string * V)) k :
  reads (W:=W) (item d k) (match Dict.get d k with Some v => Ok v | None => Exn (KeyError k) end).
Proof. intros w. unfold item. by destruct (Dict.get d k). Qed.

Lemma reads_bind {A B} (m : io W A) (k : A -> io W B) ra (rb : A -> outcome B) :
  reads m ra -> (forall a, reads (k a) (rb a)) ->
  reads (bind m k) (match ra with Ok a => rb a | Exn e => Exn e | Stuck => Stuck end).
Proof. intros Hm Hk w. unfold bind. rewrite Hm. destruct ra; [apply Hk|done..]. Qed.

(** The rows a test keeps, when it can be asked of all of them. *)
Lemma filter_io_reads {A} (keep : A -> io W bool) (r : A -> outcome bool) l w l' w' :
  (forall a, reads (keep a) (r a)) ->
  filter_io keep l w = (Ok l', w') ->
  w' = w /\ l' = List.filter (fun a => match r a with Ok b => b | _ => false end) l /\
  forall a, a ∈ l -> exists b, r a = Ok b.
Proof.
  intros Hr. unfold filter_io.
  enough (forall acc, for_fold l acc (fun a acc =>
      bind (keep a) (fun b : bool => ret (if b then acc ++ [a] else acc))) w = (Ok l', w') ->
    w' = w /\ l' = acc ++ List.filter (fun a => match r a with Ok b => b | _ => false end) l /\
    forall a, a ∈ l -> exists b, r a = Ok b) as H by apply H.
  induction l as [|a l IH]; intros acc; simpl.
  - intros [= <- <-]. rewrite app_nil_r. split; [done|]. split; [done|].
    intros a Ha. by apply elem_of_nil in Ha.
  - unfold bind at 1. unfold bind at 1. rewrite Hr. unfold ret at 1.
    destruct (r a) as [b|e|] eqn:Ea; [|done..]. intros H. apply IH in H as (-> & -> & Hall).
    split; [done|]. split.
    + destruct b; [by rewrite <- app_assoc|done].
    + intros x [->|Hx]%elem_of_cons; [by eexists|by apply Hall].
Qed.

Lemma map_io_length {A B} (f : A -> io W B) l w l' w' :
  map_io f l w = (Ok l', w') -> length l' = length l.
Proof.
  revert w l'. induction l as [|a l IH]; intros w l'; simpl; [by intros [= <- <-]|].
  unfold bind, ret. destruct (f a w) as [[b|e|] w1]; [|done..].
  destruct (map_io f l w1) as [[bs|e|] w2] eqn:E; [|done..]. intros [= <- <-].
  simpl. by rewrite (IH _ _ E).
Qed.
End reads.

Definition converged_outcome (r : csv_record) : outcome bool :=
  match Dict.get r "converged" with
  | Some v => Ok (negb (bool_decide (v = Some "True")))
  | None => Exn (KeyError "converged")
  end.

Lemma reads_not_converged {W} r : reads (W:=W) (not_converged r) (converged_outcome r).
Proof.
  intros w. unfold not_converged, field, converged_outcome, bind, item, ret.
  by destruct (Dict.get r "converged").
Qed.

Definition did_not_converge (r : csv_record) : bool :=
  match converged_outcome r with Ok b => b | _ => false end.

(** ** Counting *)

Definition total {K} (d : list (K * nat)) : nat := foldr Nat.add 0%nat (Dict.values d).

Lemma total_set {K} `{EqDecision K} (d : list (K * nat)) k :
  total (Dict.set d k (S (match Dict.get d k with Some n => n | None => 0%nat end))) = S (total d).
Proof.
  induction d as [|[k' n] d IH]; simpl; [done|].
  destruct (decide (k' = k)) as [->|]; simpl; [done|]. unfold total in *. simpl. rewrite IH. lia.
Qed.

(** A tally counts everything once. *)
Lemma tally_spec {K} `{EqDecision K} (keys : list K) :
  Dict.wf (tally keys) /\ total (tally keys) = length keys.
Proof.
  unfold tally. enough (forall d, Dict.wf d ->
    let d' := fold_left (fun d k => Dict.set d k (S (match Dict.get d k with Some n => n | None => 0%nat end))) keys d in
    Dict.wf d' /\ total d' = (total d + length keys)%nat) as H.
  { apply (H []). apply Dict.wf_nil. }
  induction keys as [|k keys IH]; intros d Hd; simpl; [split; [done|lia]|].
  destruct (IH (Dict.set d k (S (match Dict.get d k with Some n => n | None => 0%nat end)))) as [H1 H2].
  { by apply Dict.wf_set. }
  split; [done|]. simpl in H2. rewrite H2, total_set. lia.
Qed.

Lemma total_perm {K} (d1 d2 : list (K * nat)) : Permutation d1 d2 -> total d1 = total d2.
Proof. induction 1; unfold total in *; simpl in *; lia. Qed.

Lemma put_lines_spec ls w : put_lines ls w = (Ok tt, w ++ ls).
Proof.
  unfold put_lines. revert w. induction ls as [|l ls IH]; intros w; simpl; [by rewrite app_nil_r|].
  unfold bind, put_line. rewrite IH. by rewrite <- app_assoc.
Qed.

(** An action that prints nothing. *)
Definition silent {W A} (m : io W A) : Prop := forall w, snd (m w) = w.

Section silent.
Context {W : Type}.

Lemma silent_ret {A} (a : A) : silent (W:=W) (ret a).
Proof. done. Qed.

Lemma silent_raise {A} e : silent (W:=W) (raise (A:=A) e).
Proof. done. Qed.

Lemma silent_item {V} (d : list (string * V)) k : silent (W:=W) (item d k).
Proof. intros w. unfold item. by destruct (Dict.get d k). Qed.

Lemma silent_bind {A B} (m : io W A) (k : A -> io W B) :
  silent m -> (forall a, silent (k a)) -> silent (bind m k).
Proof.
  intros Hm Hk w. specialize (Hm w). unfold bind. destruct (m w) as [[a|e|] w1]; simpl in *; subst; [apply Hk|done..].
Qed.

Lemma silent_map_io {A B} (f : A -> io W B) l : (forall a, silent (f a)) -> silent (map_io f l).
Proof.
  intros Hf. induction l as [|a l IH]; simpl; [done|].
  apply silent_bind; [done|]. intros b. by apply silent_bind.
Qed.

Lemma silent_for_fold {A S} (l : list A) (s : S) (body : A -> S -> io W S) :
  (forall a s, silent (body a s)) -> silent (for_fold l s body).
Proof. intros Hb. induction l as [|a l IH] in s |- *; simpl; [done|]. by apply silent_bind. Qed.
End silent.

(** Opens an action down to the pieces known to be silent. *)
Ltac silent :=
  repeat first
    [ apply silent_ret | apply silent_raise | apply silent_item
    | apply silent_bind; [|intros ?] | apply silent_map_io; intros ? | apply silent_for_fold; intros ? ?
    | match goal with |- silent (match ?x with _ => _ end) => destruct x end
    | match goal with |- silent (let '(_, _) := ?x in _) => destruct x end ].

Lemma silent_int_field {W} r k : silent (W:=W) (int_field r k).
Proof. unfold int_field, text_field, field. silent. Qed.

Lemma silent_outcome_of row : silent (outcome_of row).
Proof.
  unfold outcome_of, missing_nodes, arm, text_field, field.
  silent; apply silent_int_field || silent.
Qed.

(** ** Properties *)

(** C34: the note on failed runs accounts for every one.  It prints nothing
    exactly when every row converged; otherwise its rows are distinct outcomes,
    seven columns each, whose counts add up to the number of rows that did not
    converge, so a failure is neither dropped nor counted twice. *)
Theorem nonconvergence_counts_every_failure rows w w' :
  nonconvergence_note rows w = (Ok tt, w') ->
  let bad := List.filter did_not_converge rows in
  (bad = [] /\ w' = w) \/
  (bad <> [] /\ exists entries header footer,
     w' = w ++ header ++ map (fun e => table_row (outcome_row e)) entries ++ footer /\
     total entries = length bad /\ NoDup (map fst entries) /\
     Forall (fun e => length (outcome_row e) = 7%nat) entries).
Proof.
  unfold nonconvergence_note. unfold bind at 1.
  destruct (filter_io not_converged rows w) as [[bad|e|] w1] eqn:E; [|done..].
  destruct (filter_io_reads _ converged_outcome _ _ _ _ reads_not_converged E) as (-> & -> & _).
  fold did_not_converge. change (fun a => match converged_outcome a with Ok b => b | _ => false end) with did_not_converge.
  destruct (List.filter did_not_converge rows) as [|b bad] eqn:Eb; [intros [= <-]; by left|].
  unfold bind at 1. destruct (map_io outcome_of (b :: bad) w) as [[keys|e|] w2] eqn:Em; [|done..].
  set (entries := sorted_by outcome_compare (fun e : outcome_key * nat => e.1.1.1) (tally keys)).
  unfold bind. rewrite !put_lines_spec. intros [= <-]. right. split; [done|].
  destruct (tally_spec keys) as [Hw Ht].
  assert (Permutation entries (tally keys)) as Hp by apply py_sorted_perm.
  pose proof (silent_map_io outcome_of (b :: bad) silent_outcome_of w) as Hs. rewrite Em in Hs. simpl in Hs. subst w2.
  rewrite <- !app_assoc. eexists entries, _, _. split; [reflexivity|].
  split; [rewrite (total_perm _ _ Hp), Ht; by eapply map_io_length|].
  split; [by rewrite Hp|]. apply Forall_forall. by intros [[[[[[]]]]]] _.
Qed.

Lemma filter_io_partition {W A} (keep : A -> io W bool) (r : A -> outcome bool) l w kept w1 dropped w2 :
  (forall a, reads (keep a) (r a)) ->
  filter_io (fun a => bind (keep a) (fun b => ret (negb b))) l w = (Ok kept, w1) ->
  filter_io keep l w1 = (Ok dropped, w2) ->
  Permutation (kept ++ dropped) l /\ (forall a, a ∈ kept -> r a = Ok false) /\ (forall a, a ∈ dropped -> r a = Ok true).
Proof.
  intros Hr Hk Hd.
  assert (forall a, reads (bind (keep a) (fun b => ret (negb b)))
    (match r a with Ok b => Ok (negb b) | Exn e => Exn e | Stuck => Stuck end)) as Hr'.
  { intros a w0. unfold bind. rewrite Hr. by destruct (r a). }
  destruct (filter_io_reads _ _ _ _ _ _ Hr' Hk) as (-> & -> & Hall).
  destruct (filter_io_reads _ _ _ _ _ _ Hr Hd) as (_ & -> & Hall').
  split; [|split].
  - clear Hk Hd Hall. induction l as [|a l IH]; [done|]. simpl.
    destruct (Hall' a) as [b Hb]; [by left|]. rewrite Hb.
    specialize (IH (fun x Hx => Hall' x (list_elem_of_further _ _ _ Hx))).
    destruct b; simpl; [|by rewrite IH]. rewrite <- Permutation_middle. by rewrite IH.
  - intros a Ha. apply list_elem_of_In, filter_In in Ha as [Ha Hb]. by destruct (r a) as [[]|e|].
  - intros a Ha. apply list_elem_of_In, filter_In in Ha as [Ha Hb]. by destruct (r a) as [[]|e|].
Qed.

(** The rows of one group, in order. *)
Definition group_rows {K} `{EqDecision K} (f : csv_record -> K) (rows : list csv_record) (k : K) : list csv_record :=
  List.filter (fun r => bool_decide (f r = k)) rows.

(** Grouping loses no row, invents none and keeps their order: the keys
    are distinct, and the group of each key is exactly the rows that have it. *)
Lemma group_by_spec {W K} `{EqDecision K} (rows : list csv_record) (key : csv_record -> io W K) (f : csv_record -> K) w :
  (forall r, r ∈ rows -> reads (key r) (Ok (f r))) ->
  exists out, group_by rows key w = (Ok out, w) /\ Dict.wf out /\
    forall k, Dict.get out k = match group_rows f rows k with [] => None | g => Some g end.
Proof.
  intros Hk. unfold group_by.
  enough (forall rows acc before, (forall r, r ∈ rows -> reads (key r) (Ok (f r))) -> Dict.wf acc ->
    (forall k, Dict.get acc k = match group_rows f before k with [] => None | g => Some g end) ->
    exists out, for_fold rows acc (fun row out => bind (key row) (fun k =>
        ret (Dict.setdefault_update out k [] (fun l => l ++ [row])))) w = (Ok out, w) /\ Dict.wf out /\
      forall k, Dict.get out k = match group_rows f (before ++ rows) k with [] => None | g => Some g end) as H.
  { apply (H rows [] [] Hk Dict.wf_nil). done. }
  clear rows Hk. induction rows as [|r rows IH]; intros acc before Hk Hw Ha; simpl.
  - exists acc. by rewrite app_nil_r.
  - unfold bind at 1, bind at 1. rewrite (Hk r) by (by left). unfold ret at 1.
    replace (before ++ r :: rows) with ((before ++ [r]) ++ rows) by (by rewrite <- app_assoc).
    apply IH; [intros r' Hr'; apply Hk; by right|by apply Dict.wf_set|].
    intros k. unfold Dict.setdefault_update. rewrite Dict.get_set, Ha.
    unfold group_rows. rewrite List.filter_app. simpl. fold (group_rows f before (f r)).
    destruct (decide (f r = k)) as [<-|Hne].
    + rewrite bool_decide_eq_true_2 by done. fold (group_rows f before (f r)).
      by destruct (group_rows f before (f r)).
    + rewrite bool_decide_eq_false_2, app_nil_r by done. apply Ha.
Qed.

Definition some_rows : list csv_record := dict_reader (results_text [some_row; some_row]).


(** The arm that is left out is left out and nothing else: what is kept and
    what is dropped make up the rows, no row kept is of the tuned BucketFS arm,
    and every row dropped is. *)
Lemma drop_arm_partitions {W} rows (w w' : W) kept dropped :
  drop_arm rows w = (Ok (kept, dropped), w') ->
  Permutation (kept ++ dropped) rows /\
  (forall r, r ∈ dropped <-> r ∈ rows /\ Dict.get r "system" = Some (Some "bucketfs") /\
     Dict.get r "config" = Some (Some "tuned")).
Proof.
  unfold drop_arm. unfold bind at 1.
  destruct (filter_io _ rows w) as [[k|e|] w1] eqn:Ek; [|done..].
  unfold bind at 1. destruct (filter_io in_dropped_arm rows w1) as [[d|e|] w2] eqn:Ed; [|done..].
  intros [= <- <- _].
  set (r := fun r => match Dict.get r "system" with
    | None => Exn (KeyError "system")
    | Some system => match Dict.get r "config" with
      | None => Exn (KeyError "config")
      | Some config => Ok (bool_decide ((system, config) = (Some (fst DROPPED_ARM), Some (snd DROPPED_ARM))))
      end
    end).
  assert (forall a : csv_record, reads (W:=W) (in_dropped_arm a) (r a)) as Hr.
  { intros a w0. unfold in_dropped_arm, field, item, bind, ret, raise, r.
    destruct (Dict.get a "system"); [|done]. by destruct (Dict.get a "config"). }
  destruct (filter_io_partition _ r _ _ _ _ _ _ Hr Ek Ed) as (Hp & Hk & Hd). split; [done|].
  intros a. split.
  - intros Ha. split; [rewrite <- Hp; apply elem_of_app; by right|].
    specialize (Hd a Ha). unfold r in Hd. destruct (Dict.get a "system"); [|done].
    destruct (Dict.get a "config"); [|done]. injection Hd as Hd. apply bool_decide_eq_true in Hd.
    by injection Hd as -> ->.
  - intros (Ha & Hs & Hc). rewrite <- Hp in Ha. apply elem_of_app in Ha as [Ha|]; [|done].
    specialize (Hk a Ha). unfold r in Hk. rewrite Hs, Hc in Hk. discriminate Hk.
Qed.

Definition tuned_row : record := update some_row (cell_id "A" "bucketfs" "tuned" 4 1024 1 0 fzero).


(** The deadline a cell of an experiment was watched with: the size of its files
    decides in A, and B has one for every count. *)
Definition watched_for (experiment : string) (size nodes : Z) : float :=
  if String.eqb experiment "A" then RunMatrix.deadline_for size nodes else float_of_Z 900.

(** Every table is rectangular. A line of a grid has the two columns and
    one per node count that its tabular declares, a line of the baseline table one
    column more than the arms and the size, each scenario four, whatever is
    missing, failed or not a number. *)
Lemma table_rows_have_their_columns :
  (forall cells node_counts label metric a index size w row w',
     grid_row cells (fun a s n => (a, s, n)) node_counts label metric a index size w = (Ok row, w') ->
     length row = String.length ("ll" +:+ repeat_str (length node_counts) "r")) /\
  (forall plain ingest arms size w row w',
     baseline_row plain ingest arms size w = (Ok row, w') ->
     length row = String.length ("l" +:+ repeat_str (length arms + 1) "r")) /\
  (forall rows w row w', scenario_small rows w = (Ok row, w') \/ scenario_big rows w = (Ok row, w') \/
     scenario_growth rows w = (Ok row, w') \/ scenario_bounded rows w = (Ok row, w') -> length row = 4%nat).
Proof.
  assert (forall n, String.length (repeat_str n "r") = n) as Hrep.
  { induction n as [|n IH]; [done|]. cbn [repeat_str]. by rewrite str_length_app, IH. }
  split; [|split].
  - intros cells node_counts label metric a index size w row w'. unfold grid_row, bind, ret.
    destruct (map_io _ node_counts w) as [[values|e|] w1] eqn:E; [|done..]. intros [= <- <-].
    rewrite str_length_app, Hrep. simpl. by rewrite (map_io_length _ _ _ _ _ E).
  - intros plain ingest arms size w row w'. unfold baseline_row. unfold bind at 1.
    destruct (cell_or_missing _ _ w) as [[first|e|] w1]; [|done..]. unfold bind, ret.
    destruct (map_io _ arms w1) as [[rest|e|] w2] eqn:E; [|done..]. intros [= <- <-].
    rewrite str_length_app, Hrep. simpl. rewrite (map_io_length _ _ _ _ _ E). lia.
  - intros rows w row w' [H|[H|[H|H]]]; revert H;
      [unfold scenario_small|unfold scenario_big|unfold scenario_growth|unfold scenario_bounded];
      unfold bind, ret; intros H;
      repeat match type of H with
      | match ?x with _ => _ end = _ => destruct x as [[?|?|] ?]; [|discriminate H..]
      end; injection H as <- <-; [done..| |done].
    repeat match goal with |- context [match ?x with _ => _ end] => destruct x; try done end.
Qed.

(** The deadline a table states for a cell that did not converge is
    the one run_matrix.py watched it with, in both experiments that have one, for
    every size and node count. *)
Lemma stated_deadline_is_the_watched_one size nodes :
  deadline_for "A" size = watched_for "A" size nodes /\
  deadline_for "B" SMALL_FILE = watched_for "B" SMALL_FILE nodes.
Proof. split; reflexivity. Qed.

(** Ten kilobytes-worth of evidence against: a cell of ten nodes in which no repeat
    converged, and one node got the payload in 50 ms. *)
Definition diverged_row : record :=
  update (summary [("sfs1", Some (dec 5 2)); ("sfs2", None)] ["h"] "sfs1")
    (cell_id "A" "syncfs" "default" 10 1024 1 0 fzero).

(** The scenario table takes the last arrival of a run that did not
    converge for its convergence time: a cell in which every run failed is
    reported as meeting its requirement. *)
Lemma verdict_counts_failed_runs :
  let rows := dict_reader (results_text [diverged_row; diverged_row; diverged_row]) in
  forallb did_not_converge rows = true /\
  match scenario_small rows [] with
  | (Ok row, _) => map Some (drop 2 row) = [Some "0.05\,s at 1\,KiB"; Some "met"]
  | _ => False
  end.
Proof. vm_compute. split; reflexivity. Qed.

Lemma nonconvergence_counts_every_failure_witness :
  let rows := dict_reader (results_text [diverged_row; some_row; diverged_row]) in
  match nonconvergence_note rows [] with
  | (Ok tt, w') => exists entries header footer,
      w' = header ++ map (fun e => table_row (outcome_row e)) entries ++ footer /\
      total entries = length (List.filter did_not_converge rows)
  | _ => False
  end.
Proof.
  intros rows. pose proof (nonconvergence_counts_every_failure rows []) as H.
  assert (match nonconvergence_note rows [] with (Ok tt, _) => true | _ => false end = true) as Hok
    by (vm_compute; reflexivity).
  destruct (nonconvergence_note rows []) as [[[]|e|] w']; [|discriminate Hok|discriminate Hok].
  destruct (H w' eq_refl) as [[Hbad _]|(_ & entries & header & footer & -> & Ht & _)].
  - exfalso. vm_compute in Hbad. discriminate.
  - exists entries, header, footer. exact (conj eq_refl Ht).
Defined.

End TexTables.
