(* ===== verification/Measure.v ===== *)
(** * The other measurement scripts

    summarise.py and measure_tail.py report on what the matrix and the mesh did;
    measure_peak.py reads the daemon's own statistics table, and measure_digest.py
    speaks its wire protocol: the frame it subscribes with is the one the daemon
    addresses. *)

From stdpp Require Import sets.
From Stdlib Require Import DecimalString.
From S2P Require Import Prelude Utils PyHost PySim Poller SyncfsCluster RunMatrix TexTables.

(** ** summarise.py *)

Module Summarise.

Definition human (size : Z) : string :=
  let GiB := Z.shiftl 1 30 in let MiB := Z.shiftl 1 20 in let KiB := Z.shiftl 1 10 in
  if GiB <=? size then format_g (float_of_Z_ratio size (Z.to_pos GiB)) +:+ " GiB"
  else if MiB <=? size then format_g (float_of_Z_ratio size (Z.to_pos MiB)) +:+ " MiB"
  else if KiB <=? size then format_g (float_of_Z_ratio size (Z.to_pos KiB)) +:+ " KiB"
  else Z_to_string size +:+ " B".

Definition cell : Type := string * string * Z * Z.

(** Cells are listed by system, config, size and node count. *)
Definition listing_order (k : cell) : string * string * Z * Z :=
  let '(system, config, nodes, size) := k in (system, config, size, nodes).

Definition cell_compare : cell -> cell -> comparison :=
  OrdMap.pair_compare (OrdMap.pair_compare (OrdMap.pair_compare String.compare String.compare) Z.compare) Z.compare.

Definition header : string :=
  str_join " " [pad_right 10 "system"; pad_right 8 "config"; pad_left 3 "N"; pad_left 9 "size";
                pad_left 9 "median"; pad_left 9 "min"; pad_left 9 "max"; pad_left 3 "n"; pad_left 4 "bad"].

Definition three (x : float) : string := pad_left 9 (format_f 3 x).

Definition cell_line {W} (metric : string) (k : cell) (group : list csv_record) : io W string :=
  let '(system, config, nodes, size) := k in
  let! values := TexTables.cell_values group metric in
  let! bad := TexTables.count_bad group in
  let left := [pad_right 10 system; pad_right 8 config; pad_left 3 (Z_to_string nodes); pad_left 9 (human size)] in
  let right := [pad_left 3 (TexTables.nat_text (length group)); pad_left 4 (TexTables.nat_text bad)] in
  match values with
  | [] => ret (str_join " " (left ++ [pad_left 9 "--"; pad_left 9 "--"; pad_left 9 "--"] ++ right))
  | _ =>
      let! med := TexTables.median_of_values values in
      let! low := TexTables.or_raise (ValueError "min") (py_min flt values) in
      let! high := TexTables.or_raise (ValueError "max") (py_max flt values) in
      ret (str_join " " (left ++ [three med; three low; three high] ++ right))
  end.

Definition main {W} `{Host W} (csv : list string) (metric : string) : io W Z :=
  let! rows := TexTables.load csv in
  let! cells := TexTables.group_by rows (fun row =>
    let! system := TexTables.text_field row "system" in
    let! config := TexTables.text_field row "config" in
    let! nodes := TexTables.int_field row "nodes" in
    let! size := TexTables.int_field row "size_bytes" in
    ret (system, config, nodes, size)) in
  print (metric +:+ ", seconds -- median (min-max), n, and non-converged count" +:+ String NEWLINE "") ;;;
  print header ;;;
  print (TexTables.repeat_str (String.length header) "-") ;;;
  for_each (sorted_by cell_compare (fun e => listing_order e.1) cells) (fun e =>
    let! line := cell_line metric e.1 e.2 in print line) ;;;
  ret 0.
End Summarise.

(** ** measure_tail.py *)

Module MeasureTail.

Definition V19_DEADLINE : float := float_of_Z 5.
Definition SIZE : Z := 1024.

Section tail.
Context {W : Type} `{Host W}.
Context (fuel : nat).

Definition under (dirs : list (string * string)) (name : string) : list (string * string) :=
  map (fun nd => (nd.1, join_path nd.2 name)) dirs.

(** The last of the elapsed times of the nodes that arrived. *)
Definition last_arrival (records : list (string * record)) : option float :=
  py_max flt (omap (fun nr : string * record =>
    match Dict.get nr.2 "arrived_at" with
    | Some (VFloat x) => if truthy x then elapsed_of nr.2 else None
    | _ => None
    end) records).

Definition in_time (last : option float) : bool :=
  match last with Some x => fle x V19_DEADLINE | None => false end.

Definition write_once (dirs : list (string * string)) (writer payload : string) (deletes : bool)
    (i : Z) (previous : option string) : io W (option float * string) :=
  match previous with
  | Some p =>
      if deletes then
        let! dir := item dirs writer in
        unlink_missing_ok (join_path dir p) ;;;
        watch_absent fuel (under dirs p) (dec 2 1) (float_of_Z 120) ;;; ret tt
      else ret tt
  | None => ret tt
  end ;;;
  let name := "w" +:+ zero_padded 3 i +:+ ".bin" in
  let! t0 := time_time in
  let! dir := item dirs writer in
  copyfile payload (join_path dir name) ;;;
  let! records := watch fuel (under dirs name) false SIZE 1 (dec 5 2) (float_of_Z 120) t0 "/dev/null" in
  let last := last_arrival records in
  print ("  write " +:+ pad_left 3 (Z_to_string i) +:+ ": "
         +:+ match last with None => "--" | Some x => pad_left 7 (format_f 3 x) +:+ " s" end
         +:+ (if in_time last then "" else "   <-- past V19")) ;;;
  ret (last, name).

Definition sweep (root : string) (nodes writes : Z) (deletes : bool) : io W (list (option float)) :=
  let! info := SyncfsCluster.up fuel root nodes (float_of_Z 600) false None in
  let! dirs := target_dirs info in
  let! writer := text_item info "writer" in
  let payload := join_path root "unit.bin" in
  let! data := urandom SIZE in
  write_text payload data ;;;
  try_finally
    (let! st := for_fold (range writes) ([], None) (fun i (st : list (option float) * option string) =>
       let! r := write_once dirs writer payload deletes i st.2 in
       ret (st.1 ++ [r.1], Some r.2)) in
     ret st.1)
    (SyncfsCluster.down root nodes ;;;
     subprocess_run ["podman"; "unshare"; "rm"; "-rf"; root] ;;; ret tt).

(** What [main] prints of one sweep: [sorted(l)[len(l) // 2]] of each side. *)
Definition middle (l : list float) : option float := sort_floats l !! (length l / 2)%nat.

Definition good_writes (values : list (option float)) : list float :=
  omap (fun v => match v with Some x => if fle x V19_DEADLINE then Some x else None | None => None end) values.

Definition slow_writes (values : list (option float)) : list (option float) :=
  List.filter (fun v => match v with Some x => flt V19_DEADLINE x | None => true end) values.

Definition report_sweep (values : list (option float)) : io W unit :=
  let good := good_writes values in
  let slow := slow_writes values in
  print ("  " +:+ TexTables.nat_text (length slow) +:+ "/" +:+ TexTables.nat_text (length values)
         +:+ " past V19's " +:+ float_repr V19_DEADLINE +:+ " s deadline") ;;;
  match middle good with
  | Some m => print ("  fast writes: median " +:+ format_f 3 m +:+ " s")
  | None => ret tt
  end ;;;
  match middle (omap id slow) with
  | Some m => print ("  slow writes: median " +:+ format_f 3 m +:+ " s")
  | None => ret tt
  end.

Definition main (root : string) (nodes : list Z) (writes : Z) (deletes : bool) : io W Z :=
  for_each nodes (fun n =>
    print (String NEWLINE (Z_to_string n +:+ " nodes, " +:+ Z_to_string writes +:+ " writes of "
           +:+ Z_to_string SIZE +:+ " B" +:+ (if deletes then ", deleting the previous file each time" else ""))) ;;;
    let! values := sweep root n writes deletes in
    report_sweep values) ;;;
  ret 0.
End tail.

(** Every write is either within the deadline or past it. *)
Lemma writes_are_sorted_out values : Forall (fun v => match v with Some x => is_number x = true | None => True end) values ->
  (length (good_writes values) + length (slow_writes values) = length values)%nat.
Proof.
  induction 1 as [|v values Hv _ IH]; [done|].
  change (slow_writes (v :: values)) with
    (if match v with Some x => flt V19_DEADLINE x | None => true end
     then v :: slow_writes values else slow_writes values).
  assert (good_writes (v :: values) = match v with
    | Some x => if fle x V19_DEADLINE then x :: good_writes values else good_writes values
    | None => good_writes values end) as ->.
  { unfold good_writes. destruct v as [x|]; [|done]. simpl. by destruct (fle x V19_DEADLINE). }
  destruct v as [x|]; simpl; [|lia].
  rewrite fle_flt by done. destruct (flt V19_DEADLINE x); simpl; lia.
Qed.
End MeasureTail.

(** ** measure_peak.py *)

(** The processes and temporary directories the last two scripts use. *)
Class Procs (W : Type) `{Host W} := {
  proc : Type;
  proc_pid : proc -> Z;
  popen : list string -> string -> option fd -> io W proc;
  proc_poll : proc -> io W (option Z);
  proc_terminate : proc -> io W unit;
  proc_wait : proc -> float -> io W unit;
  proc_kill : proc -> io W unit;
  mkdtemp : io W string;
  rm_dtemp : string -> io W unit;
  open_log : string -> io W fd;
  (** [f.flush(); f.seek(0); f.read()]. *)
  read_log : fd -> io W string;
  (** The soft limit of [resource.getrlimit(resource.RLIMIT_NOFILE)]. *)
  getrlimit_nofile : io W Z;
  (** [sys.stdout.flush()]. *)
  flush_stdout : io W unit;
}.

Section procs.
Context {W : Type} `{Procs W}.

Definition temporary_directory {A} (body : string -> io W A) : io W A :=
  let! d := mkdtemp in try_finally (body d) (rm_dtemp d).

(** [try: p.wait(timeout=20) except subprocess.TimeoutExpired: p.kill()]. *)
Definition wait_or_kill (p : proc) : io W unit :=
  try_except (proc_wait p (float_of_Z 20))
    (fun e => match e with TimeoutExpired => Some (proc_kill p) | _ => None end).

Definition int_item (r : record) (k : string) : io W Z :=
  let! v := item r k in match v with VInt z => ret z | _ => raise TypeError end.

(** [a / b] on integers. *)
Definition true_division (a b : Z) : io W float :=
  match b with
  | Z0 => raise (ValueError "division by zero")
  | Zpos d => ret (float_of_Z_ratio a d)
  | Zneg d => ret (float_of_Z_ratio (- a) d)
  end.

Definition number (width : nat) (z : Z) : string := pad_left width (Z_to_string z).

(** [all(test(a) for a in l)]: it stops at the first that fails. *)
Fixpoint all_io {A} (test : A -> io W bool) (l : list A) : io W bool :=
  match l with
  | [] => ret true
  | a :: l' => let! b := test a in if b : bool then all_io test l' else ret false
  end.
End procs.

Module MeasurePeak.

Definition BASE_PORT : Z := 6200.

(** *** Reading the statistics table *)

Definition ends_in_two_decimals (s : string) : bool :=
  match split_on "."%char s with
  | [whole; String a (String b EmptyString)] =>
      negb (String.eqb whole "") && all_chars is_digit whole && is_digit a && is_digit b
  | _ => false
  end.

Definition number_text (s : string) : bool := negb (String.eqb s "") && all_chars is_digit s.

(** [ROW.match(line)]: nine fields between tabs, the second, fourth and sixth
    empty; seeds and peers are the groups that are read. *)
Definition match_row (line : string) : option (Z * Z) :=
  match split_on TAB line with
  | [_; ""; progress; ""; done; ""; seeds; peers; state] =>
      if ends_in_two_decimals progress && number_text done && number_text seeds && number_text peers
         && negb (String.eqb state "") && all_chars (fun c => negb (py_space c)) state
      then match parse_nonempty_digits seeds, parse_nonempty_digits peers with
           | Some s, Some p => Some (s, p)
           | _, _ => None
           end
      else None
  | _ => None
  end.

(** [log.split(marker)]. *)
Fixpoint split_marker_from (fuel : nat) (marker s piece : string) : list string :=
  match fuel with
  | O => [piece]
  | S fuel' =>
      if String.prefix marker s
      then piece :: split_marker_from fuel' marker (str_drop (String.length marker) s) ""
      else match s with
           | EmptyString => [piece]
           | String c s' => split_marker_from fuel' marker s' (piece +:+ String c "")
           end
  end.

Definition split_marker (marker s : string) : list string :=
  split_marker_from (S (String.length s)) marker s "".

Definition HEADER : string := "Name" +:+ String TAB (String TAB "Progr").

(** The sums of one block: peers of its rows, and how many rows. *)
Definition block_counts (block : string) : Z * Z :=
  fold_left (fun acc line =>
    match match_row line with Some (_, p) => (acc.1 + p, acc.2 + 1) | None => acc end)
    (splitlines block) (0, 0).

Definition peak_peers (log : string) : Z * Z :=
  fold_left (fun best block =>
    let counts := block_counts block in (Z.max best.1 counts.1, Z.max best.2 counts.2))
    (split_marker HEADER log) (0, 0).

(** *** Running a mesh *)

Section run.
Context {W : Type} `{Procs W}.
Context (fuel : nat).

Definition fd_count (pid : Z) : io W Z :=
  try_except (let! names := listdir ("/proc/" +:+ Z_to_string pid +:+ "/fd") in ret (Z.of_nat (length names)))
    (fun e => match e with
              | OSError FileNotFound | OSError PermissionDenied => Some (ret (-1))
              | _ => None
              end).

Definition indexed {A} (l : list A) : list (Z * A) :=
  zip (map Z.of_nat (seq 0 (length l))) l.

Definition peers_text (index : Z) (addrs : list string) : string :=
  str_join (String NEWLINE "")
    (map (fun a : Z * string => "tcp://" +:+ a.2) (List.filter (fun a => negb (a.1 =? index)) (indexed addrs))).

Definition peers_file (directory : string) (index : Z) (addrs : list string) : io W string :=
  let path := join_path directory ("peers" +:+ zero_padded 2 index) in
  write_text path (peers_text index addrs) ;;; ret path.

(** The largest descriptor count seen so far, over every process. *)
Definition sample (procs : list proc) (peak : Z) : io W Z :=
  for_fold procs peak (fun p peak => let! n := fd_count (proc_pid p) in ret (Z.max peak n)).

Definition everywhere (dirs names : list string) : io W bool :=
  all_io (fun d => all_io (fun n => path_is_file (join_path d n)) names) dirs.

(** Sampling until everything has arrived and settled, or the budget is spent. *)
Definition sample_run (procs : list proc) (dirs names : list string) (deadline : float) : io W (Z * bool) :=
  while fuel
    (fun st : Z * bool => if st.2 then ret false else let! now := time_monotonic in ret (flt now deadline))
    (fun st =>
      let! peak := sample procs st.1 in
      let! all := everywhere dirs names in
      if all : bool then
        let! now := time_monotonic in
        let settle := fadd now (float_of_Z 4) in
        let! peak := while fuel
          (fun _ => let! now := time_monotonic in ret (flt now settle))
          (fun peak => let! peak := sample procs peak in time_sleep (dec 1 1) ;;; ret peak) peak in
        ret (peak, true)
      else time_sleep (dec 1 1) ;;; ret (peak, false))
    (0, false).

Definition measured_run (scratch : string) (dirs : list string) (logs : list fd) (addrs : list string)
    (nodes files size : Z) (budget : float) : io W record :=
  let! procs := map_io (fun e : Z * (string * fd) =>
    let '(i, (d, log)) := e in
    let! addr := match addrs !! Z.to_nat i with Some a => ret a | None => raise IndexError end in
    let! peers := peers_file scratch i addrs in
    popen ["syncfs"; peers; addr] d (Some log)) (indexed (zip dirs logs)) in
  time_sleep (float_of_Z 3) ;;;
  let! polls := map_io (fun e : Z * proc => let! c := proc_poll e.2 in ret (e.1, c)) (indexed procs) in
  let dead := map fst (List.filter (fun e : Z * option Z => is_some e.2) polls) in
  match dead with
  | _ :: _ => raise (RuntimeError ("nodes " +:+ str_of_ints dead +:+ " exited before the run began"))
  | [] =>
      let names := map (fun n => "f" +:+ zero_padded 4 n) (range files) in
      let blob := TexTables.repeat_str (Z.to_nat size) "x" in
      for_each names (fun name =>
        match dirs with d :: _ => write_text (join_path d name) blob | [] => raise IndexError end) ;;;
      let! now := time_monotonic in
      let! sampled := sample_run procs dirs names (fadd now budget) in
      for_each procs proc_terminate ;;;
      for_each procs wait_or_kill ;;;
      let! best := for_fold logs (0, 0) (fun f best =>
        let! text := read_log f in
        let counts := peak_peers text in
        ret (Z.max best.1 counts.1, Z.max best.2 counts.2)) in
      ret [("nodes", VInt nodes); ("files", VInt files); ("size", VInt size);
           ("converged", VBool sampled.2); ("peak_fd", VInt sampled.1);
           ("peak_peers", VInt best.1); ("peak_torrents", VInt best.2);
           ("product", VInt (files * (nodes - 1)))]
  end.

Definition run (nodes files size : Z) (budget : float) : io W record :=
  let addrs := map (fun n => "localhost:" +:+ Z_to_string (BASE_PORT + n)) (range nodes) in
  temporary_directory (fun scratch =>
    let! dirs := map_io (fun _ => mkdtemp) (range nodes) in
    let! logs := map_io (fun i => open_log (join_path scratch ("log" +:+ zero_padded 2 i))) (range nodes) in
    try_finally (measured_run scratch dirs logs addrs nodes files size budget)
      (for_each logs file_close ;;; for_each dirs rm_dtemp)).

Definition cases : list (Z * Z * Z * Z) :=
  [(2, 200, 256 * 1024, 240); (5, 200, 256 * 1024, 300); (5, 1000, 16 * 1024, 300); (10, 200, 64 * 1024, 300)].

Definition report_case (r : record) : io W unit :=
  let! product := int_item r "product" in
  let! peak := int_item r "peak_peers" in
  let! ratio := (if product =? 0 then ret fzero else true_division peak product) in
  let! nodes := int_item r "nodes" in
  let! files := int_item r "files" in
  let! size := int_item r "size" in
  let! torrents := int_item r "peak_torrents" in
  let! fds := int_item r "peak_fd" in
  let! converged := item r "converged" in
  print (number 5 nodes +:+ " " +:+ number 5 files +:+ " " +:+ number 5 (size / 1024) +:+ "K "
         +:+ number 8 product +:+ " " +:+ number 14 torrents +:+ " " +:+ number 11 peak +:+ " "
         +:+ number 8 fds +:+ " "
         +:+ pad_left 10 (match converged with VBool b => str_of_bool b | _ => "" end) +:+ " "
         +:+ pad_left 14 (format_f 3 ratio)).

Definition main : io W unit :=
  let! soft := getrlimit_nofile in
  print ("RLIMIT_NOFILE soft=" +:+ Z_to_string soft) ;;;
  print ("nodes files   size  product  peak_torrents  peak_peers  peak_fd  " +:+ "converged  peers/product") ;;;
  for_each cases (fun c =>
    let '(nodes, files, size, budget) := c in
    let! r := run nodes files size (float_of_Z budget) in
    report_case r ;;;
    flush_stdout).
End run.

End MeasurePeak.

(** ** measure_digest.py *)

(** The message queue library, which is not under src/. *)
Class Zmq (W : Type) := {
  zmq_context : Type;
  zmq_socket : Type;
  new_context : io W zmq_context;
  new_sub : zmq_context -> io W zmq_socket;
  new_pub : zmq_context -> io W zmq_socket;
  set_high_water_mark : zmq_socket -> Z -> io W unit;
  subscribe : zmq_socket -> string -> io W unit;
  zmq_connect : zmq_socket -> string -> io W unit;
  zmq_bind : zmq_socket -> string -> io W unit;
  send_multipart : zmq_socket -> list string -> io W unit;
  (** [sub.poll(timeout)]: whether something is there to read. *)
  zmq_poll : zmq_socket -> Z -> io W bool;
  recv_multipart : zmq_socket -> io W (list string);
  zmq_close : zmq_socket -> io W unit;
  zmq_term : zmq_context -> io W unit;
}.

Module MeasureDigest.

Definition NODE_ADDR : string := "localhost:6100".
Definition PROBE_ADDR : string := "localhost:6101".
Definition NODE_ENDPOINT : string := "tcp://" +:+ NODE_ADDR.
Definition PROBE_ENDPOINT : string := "tcp://" +:+ PROBE_ADDR.
Definition BOGUS_HASH : string := TexTables.repeat_str 32 (String NUL "").

Definition addressed (verb endpoint : string) : string :=
  verb +:+ String NUL "" +:+ endpoint +:+ String NUL "".

Section measure.
Context {W : Type} `{Procs W} `{!Zmq W}.
Context (fuel : nat).

(** [f"{n % 3}/f{n:04}" if depth_one else f"f{n:04}"]. *)
Definition file_name (depth_one : bool) (n : Z) : string :=
  (if depth_one then Z_to_string (n mod 3) +:+ "/" else "") +:+ "f" +:+ zero_padded 4 n.

Definition make_files (tree : string) (names : list string) : io W unit :=
  for_each names (fun name =>
    let path := join_path tree name in
    mkdir_parents (match rcut SLASH path with Some (parent, _) => parent | None => "." end) ;;;
    write_text path (TexTables.repeat_str 64 "x")).

Definition total_length (parts : list string) : Z :=
  fold_right Z.add 0 (map (fun p => Z.of_nat (String.length p)) parts).

Definition digest_report (files : Z) (depth_one : bool) (names parts : list string) : io W record :=
  match parts !! 1%nat with
  | None => raise IndexError
  | Some held =>
      ret [("files", VInt files); ("depth_one", VBool depth_one);
           ("parts", VList (map (fun p => VInt (Z.of_nat (String.length p))) parts));
           ("total", VInt (total_length parts));
           ("held_bytes", VInt (Z.of_nat (String.length held)));
           ("path_chars", VInt (fold_right Z.add 0 (map (fun n => Z.of_nat (String.length n) + 2) names)))]
  end.

(** Announcing a hash nobody has until a digest comes back. *)
Definition probe (pub sub : zmq_socket) (deadline : float) : io W (option (list string)) :=
  while fuel
    (fun found : option (list string) => match found with
      | Some _ => ret false
      | None => let! now := time_monotonic in ret (flt now deadline)
      end)
    (fun _ =>
      send_multipart pub ["state"; BOGUS_HASH; PROBE_ENDPOINT] ;;;
      let! there := zmq_poll sub 1000 in
      if there : bool then let! parts := recv_multipart sub in ret (Some parts) else ret None) None.

Definition measure (files : Z) (depth_one : bool) (budget : float) : io W (option record) :=
  temporary_directory (fun scratch => temporary_directory (fun tree =>
    let peers := join_path scratch "peers" in
    write_text peers PROBE_ENDPOINT ;;;
    let names := map (file_name depth_one) (range files) in
    make_files tree names ;;;
    let! ctx := new_context in
    let! sub := new_sub ctx in
    set_high_water_mark sub 100000 ;;;
    subscribe sub (addressed "digest" PROBE_ENDPOINT) ;;;
    zmq_connect sub NODE_ENDPOINT ;;;
    let! pub := new_pub ctx in
    set_high_water_mark pub 100000 ;;;
    zmq_bind pub ("tcp://" +:+ PROBE_ADDR) ;;;
    let! node := popen ["syncfs"; peers; NODE_ADDR] tree None in
    try_finally (
      time_sleep (float_of_Z 3) ;;;
      let! now := time_monotonic in
      let! parts := probe pub sub (fadd now budget) in
      match parts with
      | Some parts => let! r := digest_report files depth_one names parts in ret (Some r)
      | None => ret None
      end)
      (proc_terminate node ;;; wait_or_kill node ;;;
       zmq_close sub ;;; zmq_close pub ;;; zmq_term ctx))).

Definition cases : list (Z * bool) :=
  [(0, false); (10, false); (100, false); (1000, false); (100, true); (1000, true)].

(** [p[i]] of the sizes of the parts. *)
Definition part_size (p : list value) (i : nat) : io W Z :=
  match p !! i with Some (VInt z) => ret z | Some _ => raise TypeError | None => raise IndexError end.

Definition report_case (r : record) (files : Z) : io W unit :=
  let! parts := item r "parts" in
  let! p := match parts with VList l => ret l | _ => raise TypeError end in
  let! per := (if files =? 0 then ret fzero
    else let! held := int_item r "held_bytes" in true_division held files) in
  let! files' := int_item r "files" in
  let! depth := item r "depth_one" in
  let! p0 := part_size p 0 in
  let! p1 := part_size p 1 in
  let! p2 := part_size p 2 in
  let! total := int_item r "total" in
  print (number 5 files' +:+ " " +:+ pad_left 5 (match depth with VBool b => str_of_bool b | _ => "" end)
         +:+ "  " +:+ number 5 p0 +:+ " " +:+ number 11 p1 +:+ " " +:+ number 11 p2 +:+ "  "
         +:+ number 6 total +:+ "  " +:+ pad_left 10 (format_f 1 per)).

Definition main : io W unit :=
  print "files depth  part0  part1(held) part2(tomb)  total  bytes/path" ;;;
  for_each cases (fun c =>
    let '(files, depth_one) := c in
    let! r := measure files depth_one (float_of_Z 90) in
    match r with
    | None => print (number 5 files +:+ " " +:+ pad_left 5 (str_of_bool depth_one) +:+ "  no digest arrived")
    | Some r => report_case r files
    end ;;;
    flush_stdout).
End measure.

(** The script subscribes with the very frame the daemon addresses a
    digest with, so what it measures is what the daemon sends to it and to no other
    subscriber: the frame the daemon sends to an endpoint starts with the script's
    subscription exactly when the endpoint is the script's own. *)
Lemma probe_hears_its_own_digests target :
  has_char NUL target = false ->
  addressed "digest" PROBE_ENDPOINT = address "digest" PROBE_ENDPOINT /\
  (String.prefix (addressed "digest" PROBE_ENDPOINT) (address "digest" target) = true <-> target = PROBE_ENDPOINT).
Proof.
  intros Ht. split; [reflexivity|].
  change (addressed "digest" PROBE_ENDPOINT) with (address "digest" PROBE_ENDPOINT).
  rewrite prefix_address_iff by done. naive_solver.
Qed.

End MeasureDigest.
