(* ===== verification/PeakLog.v ===== *)
(** * The daemon's log and the script that reads it

    At debug level the daemon logs a table of its torrents every two seconds
    ([print_session_statistics]); measure_peak.py cuts the log at the tables' headers and
    takes the largest sums.  The theorem ties the two programs: whatever else is logged
    in between, the script's peaks are those of the tables. *)

From stdpp Require Import sets.
From Stdlib Require Import DecimalString.
From S2P Require Import Prelude OrdMap FsPath Utils Protocol LocalChanges SyncLoop LoopInvariant PyFloat PyFloatText Daemon PyHost Measure.
Import MeasurePeak.

(** ** One row *)

Section log.
Context `{Torrents}.

(** A share of at least nothing. *)
Definition positive_float (x : float) : bool :=
  match x with S754_zero false | S754_finite false _ _ => true | _ => false end.

(** A row the script can take apart: a path without tabs or line breaks, and what
    libtorrent reports. *)
Definition reportable (t : torrent_status) : Prop :=
  all_chars (fun c => negb (is_line_boundary c) && negb (bool_decide (c = TAB))) (status_path (torrent_file t)) = true /\
  positive_float (progress t) = true /\ 0 <= total_done t /\ 0 <= num_seeds t /\ 0 <= num_peers t.

Lemma decimals_of_digits s n : all_chars is_digit s = true -> String.length s = (S n + 2)%nat ->
  ends_in_two_decimals (str_take (S n) s +:+ "." +:+ str_drop (S n) s) = true.
Proof.
  intros Hs Hl. pose proof (take_drop (S n) s) as Htd. pose proof (length_str_drop (S n) s) as Hd.
  assert (str_take (S n) s <> "") as Hne by (destruct s; simpl in *; [lia|done]).
  rewrite <- Htd, all_chars_app in Hs. bool_hyps.
  unfold ends_in_two_decimals. change ("." +:+ str_drop (S n) s) with (String "."%char (str_drop (S n) s)).
  rewrite split_on_app by (by apply all_digits_no_char).
  rewrite split_on_free by (by apply all_digits_no_char).
  destruct (str_drop (S n) s) as [|a [|b [|? ?]]]; simpl in Hd; try lia.
  simpl in *. bool_hyps. rewrite (proj2 (String.eqb_neq _ _) Hne). simpl.
  repeat match goal with H : _ = true |- _ => rewrite H; clear H end. done.
Qed.

Lemma number_text_printed z : 0 <= z -> number_text (Z_to_string z) = true.
Proof.
  intros Hz. destruct (Z_to_string_digits z Hz) as [H1 H2]. unfold number_text.
  rewrite H1. by rewrite (proj2 (String.eqb_neq _ _) H2).
Qed.

Lemma with_point_decimals n : 0 <= n -> ends_in_two_decimals (with_point 2 n) = true /\
  has_char TAB (with_point 2 n) = false.
Proof.
  intros Hn. unfold with_point. set (d := zero_pad 3 (Z_to_string n)).
  assert (all_chars is_digit d = true) as Hd by (apply zeros_digits; by apply Z_to_string_digits).
  assert (exists k, String.length d = (S k + 2)%nat) as [k Hk].
  { exists (String.length d - 3)%nat. assert (3 <= String.length d)%nat; [|lia].
    unfold d, zero_pad. rewrite str_length_app, length_zeros. lia. }
  rewrite Hk. replace (S k + 2 - 2)%nat with (S k) by lia. split; [by apply decimals_of_digits|].
  rewrite !has_char_app. rewrite <- (take_drop (S k) d), all_chars_app in Hd. bool_hyps.
  rewrite (all_digits_no_char TAB (str_take _ _)) by done.
  by rewrite (all_digits_no_char TAB (str_drop _ _)).
Qed.

Lemma progress_number x : positive_float x = true -> exists n, 0 <= n /\ format_f 2 x = with_point 2 n.
Proof.
  unfold positive_float. destruct x as [sg|sg| |sg m e]; [destruct sg|..]; try discriminate; [by exists 0|].
  destruct sg; [discriminate|]. intros _. exists (scaled m e 2). split; [|done]. unfold scaled.
  destruct (ratio_of m e) as [num den] eqn:E. apply round_half_even_ge;
    unfold ratio_of in E; destruct (0 <=? e) eqn:He; injection E as <- <-; bool_hyps; try nia; lia.
Qed.

Lemma progress_text x : positive_float x = true ->
  ends_in_two_decimals (format_f 2 x) = true /\ has_char TAB (format_f 2 x) = false.
Proof. intros (n & Hn & ->)%progress_number. by apply with_point_decimals. Qed.


Definition word_char (c : ascii) : bool :=
  negb (py_space c) && negb (is_line_boundary c) && negb (bool_decide (c = TAB)).

Lemma state_text st : all_chars word_char (to_string st) = true /\ String.eqb (to_string st) "" = false.
Proof.
  destruct st as [| | | | | |code]; try (split; reflexivity). split; [|reflexivity].
  cbn [to_string]. rewrite !all_chars_app. rewrite (number_chars word_char); [reflexivity..|].
  apply digit_cases. reflexivity.
Qed.

(** The row the daemon prints for a torrent is the row the measurement reads: whatever
    the path, the share, the counts and the state, the seeds and the peers come back. *)
Lemma statistics_row_reads_back t :
  reportable t -> match_row (statistics_row t) = Some (num_seeds t, num_peers t).
Proof.
  intros (Hn & Hp & Ht & Hs & Hc). destruct (progress_text _ Hp) as [Hp1 Hp2].
  assert (has_char TAB (status_path (torrent_file t)) = false) as Hnt by exact (all_chars_has_char _ TAB _ Hn eq_refl).
  destruct (state_text (st_state t)) as [Hst Hse].
  assert (has_char TAB (to_string (st_state t)) = false) as Hst1 by exact (all_chars_has_char _ TAB _ Hst eq_refl).
  assert (all_chars (fun c => negb (py_space c)) (to_string (st_state t)) = true) as Hst2
    by (eapply all_chars_impl; [|exact Hst]; by intros c [[Hw _]%andb_true_iff _]%andb_true_iff).
  unfold match_row, statistics_row, tabs. rewrite ?str_app_cons, ?str_app_nil_l.
  assert (forall z, has_char TAB (Z_to_string z) = false) as Hz by (intros; by apply Z_to_string_no_char).
  rewrite split_on_app by done.
  assert (forall s, split_on TAB (String TAB s) = "" :: split_on TAB s) as Hempty by reflexivity.
  rewrite Hempty. rewrite split_on_app by done. rewrite Hempty. rewrite split_on_app by done.
  rewrite Hempty. rewrite split_on_app by done. rewrite split_on_app by done.
  rewrite split_on_free by done. rewrite Hp1, !number_text_printed, Hse, Hst2, !parse_printed by done. done.
Qed.

(** ** Cutting at the header *)

Lemma prefix_inv s t : String.prefix s t = true -> exists v, t = s +:+ v.
Proof.
  revert t. induction s as [|c s IH]; intros t Ht; [by exists t|]. destruct t as [|d t]; [done|].
  simpl in Ht. destruct (Ascii.ascii_dec c d) as [->|]; [|done]. apply IH in Ht as [v ->]. by exists v.
Qed.

(** Two texts equal up to a character the two beginnings do not hold. *)
Lemma cut_at c a b u r : a +:+ String c b = u +:+ r -> has_char c u = false -> exists e, a = u +:+ e.
Proof.
  revert a. induction u as [|x u IH]; intros a He Hu; [by exists a|].
  apply has_char_cons_false in Hu as [Hx Hu]. destruct a as [|y a]; [by injection He as <- _|].
  rewrite !str_app_cons in He. injection He as -> He. destruct (IH a He Hu) as [e ->]. by exists e.
Qed.

(** Nothing in [s] starts a header, whatever of [rest] follows it. *)
Fixpoint free (s rest : string) : bool :=
  match s with
  | EmptyString => true
  | String _ s' => negb (String.prefix HEADER (s +:+ rest)) && free s' rest
  end.

Lemma free_app s t rest : free (s +:+ t) rest = free s (t +:+ rest) && free t rest.
Proof.
  induction s as [|c s IH]; [done|]. rewrite str_app_cons. cbn [free]. rewrite IH.
  rewrite <- andb_assoc. do 3 f_equal. by rewrite <- str_app_cons, str_app_assoc.
Qed.

(** A line without tabs starts none. *)
Lemma free_line s rest : has_char TAB s = false -> free s (String NEWLINE rest) = true.
Proof.
  induction s as [|c s IH]; [done|]. intros Hs. cbn [free]. rewrite IH by (by apply has_char_cons_false in Hs as [_ Hs]).
  rewrite andb_true_r. apply negb_true_iff, not_true_iff_false. intros [v Hv]%prefix_inv.
  change (HEADER +:+ v) with ("Name" +:+ String TAB (String TAB "Progr" +:+ v)) in Hv.
  change (String NEWLINE rest) with ((String NEWLINE "") +:+ rest) in Hv. rewrite <- str_app_assoc in Hv.
  symmetry in Hv. apply cut_at in Hv as [e He].
  - apply (f_equal (has_char NEWLINE)) in He. rewrite !has_char_app in He. cbn in He.
    rewrite !orb_true_r in He. done.
  - rewrite has_char_app, Hs. reflexivity.
Qed.

(** Nor does a field of a row before a tab, when what follows is not the header's. *)
Lemma free_field s rest : has_char TAB s = false -> String.prefix (String TAB "Progr") rest = false ->
  free s (String TAB rest) = true.
Proof.
  intros Hs Hr. induction s as [|c s IH]; [done|]. apply has_char_cons_false in Hs as [Hc Hs].
  cbn [free]. rewrite IH by done. rewrite andb_true_r. apply negb_true_iff, not_true_iff_false. intros [v Hv]%prefix_inv.
  change (HEADER +:+ v) with ("Name" +:+ String TAB (String TAB "Progr" +:+ v)) in Hv.
  assert (split_on TAB (String c s +:+ String TAB rest) = split_on TAB ("Name" +:+ String TAB (String TAB "Progr" +:+ v)))
    as He by (f_equal; exact Hv).
  rewrite !split_on_app in He by (done || by apply has_char_cons_false). injection He as -> -> _.
  cbn in Hv. injection Hv as ->. by rewrite (prefix_app (String TAB "Progr") v) in Hr.
Qed.

(** A whole number of lines that start none, whatever follows. *)
Definition closed (s : string) : Prop := forall rest, free s rest = true.

Lemma closed_app s t : closed s -> closed t -> closed (s +:+ t).
Proof. intros Hs Ht rest. rewrite free_app. by rewrite Hs, Ht. Qed.

Lemma closed_line s : has_char TAB s = false -> closed (s +:+ String NEWLINE "").
Proof.
  intros Hs rest. rewrite free_app. change (String NEWLINE "" +:+ rest) with (String NEWLINE rest).
  by rewrite free_line.
Qed.

Lemma free_tab s rest : free (String TAB s) rest = free s rest.
Proof. reflexivity. Qed.

(** What follows a tab or two is not the rest of the header. *)
Lemma not_progr s rest : starts_with is_digit s = true ->
  String.prefix (String TAB "Progr") (String TAB (s +:+ rest)) = false.
Proof.
  destruct s as [|c s]; [done|]. cbn [starts_with]. intros Hc.
  apply not_true_iff_false. intros [v Hv]%prefix_inv. injection Hv as -> _. discriminate Hc.
Qed.

Lemma not_tab s rest : starts_with (fun c => negb (bool_decide (c = TAB))) s = true ->
  String.prefix (String TAB "Progr") (s +:+ rest) = false.
Proof.
  destruct s as [|c s]; [done|]. cbn [starts_with]. intros Hc.
  apply not_true_iff_false. intros [v Hv]%prefix_inv. injection Hv as -> _. discriminate Hc.
Qed.

Lemma number_starts z : 0 <= z -> starts_with is_digit (Z_to_string z) = true.
Proof.
  intros Hz. destruct (Z_to_string_digits z Hz) as [Hd Hne]. destruct (Z_to_string z) as [|c s]; [done|].
  simpl in *. by apply andb_true_iff in Hd as [-> _].
Qed.

Lemma decimals_start s : ends_in_two_decimals s = true -> starts_with is_digit s = true.
Proof.
  unfold ends_in_two_decimals. destruct s as [|c s]; [done|]. cbn [starts_with]. simpl.
  destruct (decide (c = "."%char)); [by destruct (split_on "."%char s) as [|[|? [|? [|? ?]]] [|? ?]]|].
  destruct (split_on "."%char s) as [|w [|[|a [|b [|? ?]]] [|? ?]]]; try done. simpl. intros Hs. by bool_hyps.
Qed.

Lemma not_tab_digit s : starts_with is_digit s = true -> starts_with (fun c => negb (bool_decide (c = TAB))) s = true.
Proof. destruct s as [|c s]; [done|]. cbn [starts_with]. revert c. apply digit_cases. reflexivity. Qed.

Lemma number_no_tab z : has_char TAB (Z_to_string z) = false.
Proof. by apply Z_to_string_no_char. Qed.

Lemma closed_row t : reportable t -> closed (statistics_row t +:+ String NEWLINE "").
Proof.
  intros (Hn & Hp & Ht & Hs & Hc) rest. destruct (progress_text _ Hp) as [Hp1 Hp2]. apply decimals_start in Hp1.
  destruct (state_text (st_state t)) as [Hst Hse].
  unfold statistics_row, tabs. rewrite ?str_app_assoc, ?str_app_cons, ?str_app_nil_l.
  repeat (rewrite ?str_app_assoc, ?str_app_cons; rewrite ?free_tab, free_app).
  rewrite !str_app_cons, ?str_app_assoc, ?str_app_cons, ?str_app_nil_l.
  assert (has_char TAB (status_path (torrent_file t)) = false) as Hnt by exact (all_chars_has_char _ TAB _ Hn eq_refl).
  assert (has_char TAB (to_string (st_state t)) = false) as Hst1 by exact (all_chars_has_char _ TAB _ Hst eq_refl).
  rewrite !free_field; auto using not_progr, not_tab, not_tab_digit, number_starts, number_no_tab.
  - by rewrite free_line.
  - apply not_tab. destruct (to_string (st_state t)) as [|c s]; [done|]. cbn [starts_with all_chars] in *.
    unfold word_char in Hst. by repeat apply andb_true_iff in Hst as [Hst ?].
Qed.

Lemma split_marker_fuel f1 f2 s piece : (String.length s < f1)%nat -> (String.length s < f2)%nat ->
  split_marker_from f1 HEADER s piece = split_marker_from f2 HEADER s piece.
Proof.
  revert f2 s piece. induction f1 as [|f1 IH]; intros [|f2] s piece Hf1 Hf2; try lia.
  cbn [split_marker_from]. destruct (String.prefix HEADER s) eqn:Ep.
  - apply prefix_inv in Ep as [v ->]. change (str_drop (String.length HEADER) (HEADER +:+ v)) with v.
    rewrite str_length_app in *. change (String.length HEADER) with 11%nat in *. f_equal. apply IH; lia.
  - destruct s as [|c s]; [done|]. simpl in Hf1, Hf2. apply IH; lia.
Qed.

(** Nothing is cut inside what starts no header, and then the header is. *)
Lemma split_closed_from s rest piece fuel : free s rest = true ->
  split_marker_from (String.length s + fuel) HEADER (s +:+ rest) piece =
  split_marker_from fuel HEADER rest (piece +:+ s).
Proof.
  revert piece. induction s as [|c s IH]; intros piece Hs; [by rewrite str_app_nil_r|].
  cbn [free] in Hs. apply andb_true_iff in Hs as [Hp%negb_true_iff Hs].
  cbn [String.length Nat.add split_marker_from]. rewrite Hp. rewrite str_app_cons. rewrite IH by done.
  f_equal. by rewrite str_app_assoc.
Qed.

Lemma split_marker_step n rest piece :
  split_marker_from (S n) HEADER (HEADER +:+ rest) piece = piece :: split_marker_from n HEADER rest "".
Proof. cbn [split_marker_from]. by rewrite prefix_app. Qed.

Lemma split_at_header s rest : closed s ->
  split_marker HEADER (s +:+ HEADER +:+ rest) = s :: split_marker HEADER rest.
Proof.
  intros Hs. unfold split_marker. rewrite !str_length_app. rewrite <- Nat.add_succ_r.
  rewrite split_closed_from by apply Hs. rewrite str_app_nil_l.
  rewrite split_marker_step. f_equal.
  apply split_marker_fuel; change (String.length HEADER) with 11%nat; lia.
Qed.

Lemma split_no_header s : closed s -> split_marker HEADER s = [s].
Proof.
  intros Hs. unfold split_marker. rewrite <- (str_app_nil_r s) at 2. rewrite <- Nat.add_1_r.
  rewrite split_closed_from by apply Hs. by rewrite str_app_nil_l.
Qed.

(** ** Counting the rows of a block *)

(** What a line adds. *)
Definition tally (line : string) : Z * Z := match match_row line with Some (_, p) => (p, 1) | None => (0, 0) end.

Definition add (a b : Z * Z) : Z * Z := (a.1 + b.1, a.2 + b.2).

Definition total (lines : list string) : Z * Z := foldr (fun l acc => add (tally l) acc) (0, 0) lines.

Lemma add_assoc a b c : add a (add b c) = add (add a b) c.
Proof. unfold add. cbn [fst snd]. f_equal; lia. Qed.

Lemma add_0_l a : add (0, 0) a = a.
Proof. by destruct a. Qed.

Lemma total_app l1 l2 : total (l1 ++ l2) = add (total l1) (total l2).
Proof. induction l1 as [|l l1 IH]; [by rewrite add_0_l|]. cbn [app total foldr]. fold (total (l1 ++ l2)). by rewrite IH, add_assoc. Qed.

Lemma block_counts_total block : block_counts block = total (splitlines block).
Proof.
  unfold block_counts. rewrite <- (add_0_l (total _)). generalize (0, 0). induction (splitlines block) as [|l ls IH]; intros acc.
  - destruct acc. unfold add. cbn. f_equal; lia.
  - cbn [fold_left total foldr]. fold (total ls). rewrite IH, add_assoc. f_equal. unfold add, tally.
    destruct (match_row l) as [[sd p]|]; cbn [fst snd]; [done|]. destruct acc. cbn. f_equal; lia.
Qed.

(** A line without tabs is no row. *)
Lemma tally_no_tab l : has_char TAB l = false -> tally l = (0, 0).
Proof. intros Hl. unfold tally, match_row. by rewrite split_on_free. Qed.

(** Whole lines that add [c], whatever follows. *)
Definition adds (s : string) (c : Z * Z) : Prop := forall rest,
  total (splitlines (s +:+ rest)) = add c (total (splitlines rest)).

Lemma adds_app s t c d : adds s c -> adds t d -> adds (s +:+ t) (add c d).
Proof. intros Hs Ht rest. by rewrite str_app_assoc, Hs, Ht, add_assoc. Qed.

Lemma adds_nil : adds "" (0, 0).
Proof. intros rest. by rewrite add_0_l. Qed.

Lemma adds_counts s c : adds s c -> block_counts s = c.
Proof.
  intros Hs. rewrite block_counts_total, <- (str_app_nil_r s), Hs. destruct c as [a b]. unfold add. cbn. f_equal; lia.
Qed.

Definition in_line (c : ascii) : bool := negb (is_line_boundary c).

Lemma splitlines_line s rest line st : all_chars in_line s = true ->
  splitlines_from (s +:+ String NEWLINE rest) line st false = (line +:+ s) :: splitlines rest.
Proof.
  revert line st. induction s as [|c s IH]; intros line st Hs; [by rewrite str_app_nil_r|].
  cbn [all_chars] in Hs. apply andb_true_iff in Hs as [Hc%negb_true_iff Hs].
  rewrite str_app_cons. cbn [splitlines_from]. rewrite Hc. cbn [andb]. rewrite IH by done.
  by rewrite str_app_assoc.
Qed.

Lemma adds_line s : all_chars in_line s = true -> adds (s +:+ String NEWLINE "") (tally s).
Proof.
  intros Hs rest. rewrite str_app_assoc. unfold splitlines at 1.
  change (String NEWLINE "" +:+ rest) with (String NEWLINE rest). by rewrite splitlines_line.
Qed.

Lemma with_point_chars (p : ascii -> bool) n : p "."%char = true -> (forall c, is_digit c = true -> p c = true) -> 0 <= n ->
  all_chars p (with_point 2 n) = true.
Proof.
  intros Hp Hd Hn. unfold with_point. set (d := zero_pad 3 (Z_to_string n)).
  assert (all_chars p d = true) as Hdd.
  { apply (all_chars_impl is_digit); [done|]. apply zeros_digits. by apply Z_to_string_digits. }
  rewrite <- (take_drop (String.length d - 2) d), all_chars_app in Hdd. apply andb_true_iff in Hdd as [Ht Hr].
  rewrite !all_chars_app, Ht, Hr. cbn [all_chars]. by rewrite Hp.
Qed.

Lemma adds_row t : reportable t -> adds (statistics_row t +:+ String NEWLINE "") (num_peers t, 1).
Proof.
  intros Ht. replace (num_peers t, 1) with (tally (statistics_row t))
    by (unfold tally; by rewrite statistics_row_reads_back).
  apply adds_line. destruct Ht as (Hn & Hp & Ht & Hs & Hc). destruct (state_text (st_state t)) as [Hst _].
  assert (forall c, is_digit c = true -> in_line c = true) as Hd by (apply digit_cases; reflexivity).
  unfold statistics_row, tabs. repeat (rewrite ?all_chars_app; cbn [all_chars]).
  rewrite (all_chars_impl _ in_line _ ltac:(by intros c [Hw _]%andb_true_iff) Hn).
  rewrite (all_chars_impl _ in_line _ ltac:(by intros c [[_ Hw]%andb_true_iff _]%andb_true_iff) Hst).
  apply progress_number in Hp as (n & Hn0 & ->). by rewrite with_point_chars, !(number_chars in_line).
Qed.

Lemma splitlines_noise s rest line st ar : has_char TAB s = false -> has_char TAB line = false ->
  (ar = true -> line = "" /\ st = false) ->
  exists ls, splitlines_from (s +:+ String NEWLINE rest) line st ar = ls ++ splitlines rest /\
    Forall (fun l => has_char TAB l = false) ls.
Proof.
  revert line st ar. induction s as [|c s IH]; intros line st ar Hs Hl Har.
  - cbn [String.append splitlines_from]. destruct ar.
    + destruct (Har eq_refl) as [-> ->]. by exists [].
    + exists [line]. split; [done|]. by constructor.
  - apply has_char_cons_false in Hs as [Hc Hs]. rewrite str_app_cons. cbn [splitlines_from].
    destruct (ar && bool_decide (c = NEWLINE)) eqn:E1.
    + apply andb_true_iff in E1 as [-> _]. destruct (Har eq_refl) as [-> ->]. by apply IH.
    + destruct (is_line_boundary c).
      * destruct (IH "" false (bool_decide (c = "013"%char)) Hs eq_refl (fun _ => conj eq_refl eq_refl)) as (ls & -> & Hls).
        exists (line :: ls). split; [done|]. by constructor.
      * apply IH; [done| |done]. rewrite has_char_app, Hl. cbn. by rewrite bool_decide_eq_false_2 by congruence.
Qed.

Lemma total_noise ls : Forall (fun l => has_char TAB l = false) ls -> total ls = (0, 0).
Proof. induction 1 as [|l ls Hl _ IH]; [done|]. cbn [total foldr]. fold (total ls). by rewrite IH, tally_no_tab. Qed.

Lemma adds_noise s : has_char TAB s = false -> adds (s +:+ String NEWLINE "") (0, 0).
Proof.
  intros Hs rest. rewrite str_app_assoc. change (String NEWLINE "" +:+ rest) with (String NEWLINE rest).
  destruct (splitlines_noise s rest "" false false Hs eq_refl ltac:(done)) as (ls & Heq & Hls).
  unfold splitlines at 1. rewrite Heq, total_app. by rewrite total_noise.
Qed.

(** ** A log *)

(** What is logged: something else, or the table of a moment, both behind spdlog's
    prefix. *)
Inductive logged := Other (text : string) | Statistics (prefix : string) (torrents : list torrent_status).

Definition newline : string := String NEWLINE "".

Definition logged_text (i : logged) : string :=
  match i with
  | Other text => text +:+ newline
  | Statistics prefix torrents => prefix +:+ print_session_statistics torrents +:+ newline
  end.

Definition log_text (items : list logged) : string := str_concat (map logged_text items).

(** Nothing but a table holds a tab, and its rows can be taken apart. *)
Definition readable (i : logged) : Prop :=
  match i with
  | Other text => has_char TAB text = false
  | Statistics prefix torrents => has_char TAB prefix = false /\ Forall reportable torrents
  end.

Definition sum_peers (torrents : list torrent_status) : Z := foldr (fun t n => num_peers t + n) 0 torrents.

Definition tables (items : list logged) : list (list torrent_status) :=
  omap (fun i => match i with Statistics _ torrents => Some torrents | Other _ => None end) items.

Definition largest (l : list Z) : Z := foldr Z.max 0 l.

(** What follows a header: the rest of its line, and the rows. *)
Definition header_rest : string := tabs +:+ "Total" +:+ tabs +:+ "Seeds" +:+ String TAB "Peers" +:+ String TAB "State".

Definition table_body (torrents : list torrent_status) : string :=
  header_rest +:+ newline +:+ str_concat (map (fun t => statistics_row t +:+ newline) torrents).

Lemma statistics_text torrents :
  print_session_statistics torrents +:+ newline = newline +:+ HEADER +:+ table_body torrents.
Proof.
  unfold print_session_statistics, table_body.
  change (newline +:+ HEADER +:+ header_rest +:+ newline +:+ str_concat (map (fun t => statistics_row t +:+ newline) torrents))
    with (String NEWLINE statistics_header +:+ newline +:+ str_concat (map (fun t => statistics_row t +:+ newline) torrents)).
  generalize (String NEWLINE statistics_header). induction torrents as [|t torrents IH]; intros acc; [done|].
  cbn [foldl map str_concat]. rewrite IH. unfold newline at 1 3. rewrite !str_app_assoc. f_equal.
Qed.

Lemma closed_concat l : Forall closed l -> closed (str_concat l).
Proof. induction 1 as [|s l Hs Hl IH]; [by intros rest|]. by apply closed_app. Qed.

Lemma table_body_closed torrents : Forall reportable torrents -> closed (table_body torrents).
Proof.
  intros Ht. unfold table_body. rewrite <- str_app_assoc. apply closed_app.
  - intros rest. reflexivity.
  - apply closed_concat, Forall_fmap. eapply Forall_impl; [exact Ht|]. intros t. apply closed_row.
Qed.

Lemma table_body_adds torrents : Forall reportable torrents ->
  adds (table_body torrents) (sum_peers torrents, Z.of_nat (length torrents)).
Proof.
  intros Ht. unfold table_body. rewrite <- str_app_assoc.
  rewrite <- (add_0_l (sum_peers torrents, Z.of_nat (length torrents))). apply adds_app.
  - replace (0, 0) with (tally header_rest) by reflexivity. by apply adds_line.
  - induction Ht as [|t torrents Ht _ IH]; [apply adds_nil|]. cbn [map str_concat].
    replace (sum_peers (t :: torrents), Z.of_nat (length (t :: torrents)))
      with (add (num_peers t, 1) (sum_peers torrents, Z.of_nat (length torrents)))
      by (unfold add; cbn [fst snd length]; f_equal; lia).
    apply adds_app; [by apply adds_row|exact IH].
Qed.

(** What the blocks of a log add up to, when the one begun adds up to [c]. *)
Fixpoint blocks_add (c : Z * Z) (items : list logged) : list (Z * Z) :=
  match items with
  | [] => [c]
  | Other _ :: items' => blocks_add c items'
  | Statistics _ torrents :: items' => c :: blocks_add (sum_peers torrents, Z.of_nat (length torrents)) items'
  end.

Lemma add_0_r a : add a (0, 0) = a.
Proof. destruct a as [x y]. unfold add. cbn. f_equal; lia. Qed.

Lemma log_blocks items s c : Forall readable items -> closed s -> adds s c ->
  map block_counts (split_marker HEADER (s +:+ log_text items)) = blocks_add c items.
Proof.
  intros Hi. revert s c. induction Hi as [|i items Hr Hi IH]; intros s c Hs Hc.
  - change (log_text []) with "". rewrite str_app_nil_r, split_no_header by done. cbn [map blocks_add].
    f_equal. by apply adds_counts.
  - change (log_text (i :: items)) with (logged_text i +:+ log_text items). destruct i as [text|prefix torrents].
    + cbn [logged_text blocks_add]. rewrite <- str_app_assoc. apply IH.
      * apply closed_app; [done|]. by apply closed_line.
      * rewrite <- (add_0_r c). apply adds_app; [done|]. by apply adds_noise.
    + destruct Hr as [Hp Ht]. cbn [logged_text blocks_add]. rewrite !statistics_text.
      assert (s +:+ (prefix +:+ newline +:+ HEADER +:+ table_body torrents) +:+ log_text items =
        (s +:+ (prefix +:+ newline)) +:+ HEADER +:+ (table_body torrents +:+ log_text items)) as ->
        by (by rewrite !str_app_assoc).
      rewrite split_at_header by (apply closed_app; [done|by apply closed_line]).
      cbn [map]. f_equal.
      * apply adds_counts. rewrite <- (add_0_r c). apply adds_app; [done|]. by apply adds_noise.
      * apply IH; [by apply table_body_closed|by apply table_body_adds].
Qed.

Definition larger (a b : Z * Z) : Z * Z := (Z.max a.1 b.1, Z.max a.2 b.2).

Lemma peak_peers_fold text : peak_peers text = fold_left larger (map block_counts (split_marker HEADER text)) (0, 0).
Proof.
  unfold peak_peers. generalize (0, 0). induction (split_marker HEADER text) as [|b bs IH]; intros acc; [done|]. apply IH.
Qed.

Lemma larger_blocks items best c : 0 <= best.1 -> 0 <= best.2 ->
  fold_left larger (blocks_add c items) best =
  larger (larger best c) (largest (map sum_peers (tables items)),
    largest (map (fun t => Z.of_nat (length t)) (tables items))).
Proof.
  revert best c. induction items as [|[text|prefix torrents] items IH]; intros best c Hx Hy.
  - unfold larger. cbn. f_equal; lia.
  - by apply IH.
  - cbn [blocks_add fold_left]. change (tables (Statistics prefix torrents :: items)) with (torrents :: tables items).
    cbn [map largest foldr]. rewrite IH by (unfold larger; cbn [fst snd]; lia).
    unfold larger, largest. cbn [fst snd]. f_equal; lia.
Qed.

(** C14: the peaks measure_peak.py reads off a node's log are those of the tables the
    daemon logged: the largest number of connections, summed over the torrents of one
    table, and the largest number of torrents in one; whatever else was logged in between,
    as long as it holds no tab and no path holds a tab or a line break. *)
Theorem peaks_are_those_of_the_tables items :
  Forall readable items ->
  peak_peers (log_text items) =
  (largest (map sum_peers (tables items)), largest (map (fun torrents => Z.of_nat (length torrents)) (tables items))).
Proof.
  intros Hi. rewrite peak_peers_fold. change (log_text items) with ("" +:+ log_text items).
  rewrite (log_blocks items "" (0, 0)); [|done|by intros rest|apply adds_nil].
  rewrite larger_blocks by done.
  unfold larger. cbn [fst snd]. f_equal; rewrite Z.max_r; try done; cbn.
  all: match goal with |- _ <= largest ?l => generalize l end; intros l; unfold largest; induction l; simpl; lia.
Qed.
End log.

(** ** A log of two tables *)

Definition sim_status (name : string) (peers : Z) : @torrent_status ProtocolSim.sim_torrents :=
  TorrentStatus (H := ProtocolSim.sim_torrents) (Some (ProtocolSim.SimTorrent 1 name)) (dec 5 1) 2048 3 peers downloading.

Definition sim_log : list (@logged ProtocolSim.sim_torrents) :=
  [Other "[debug] woke"; Statistics "[debug] " [sim_status "a" 4; sim_status "dir/b c" 5];
   Other "[info] Name of nobody"; Statistics "[debug] " [sim_status "a" 7]].

Lemma peaks_are_those_of_the_tables_witness : peak_peers (log_text sim_log) = (9, 2).
Proof.
  refine (eq_trans (peaks_are_those_of_the_tables sim_log _) _); [|vm_compute; reflexivity].
  assert (forall name peers, 0 <= peers -> all_chars (fun c => negb (is_line_boundary c) && negb (bool_decide (c = TAB))) name = true ->
    reportable (sim_status name peers)) as Hr by (intros; by repeat split).
  repeat constructor; apply Hr; (lia || reflexivity).
Defined.
