(* ===== verification/Results.v ===== *)
(** * The results file between its writer and its readers

    run_matrix.py appends rows, summarise.py reads them back.  A row has the types the
    reader converts its fields to; every conversion of the reader succeeds on such a
    file, so the summary of whatever was measured is printed to the end. *)

From stdpp Require Import sets.
From S2P Require Import Prelude OrdMap PyFloatText PyHost PySim RunMatrix TexTables Measure.
Import TexTables Summarise.

(** ** Computations that cannot fail

    [gives m P]: [m] leaves the world as it is and gives a value with [P]. *)

Definition gives {W A} (m : io W A) (P : A -> Prop) : Prop := forall w, exists a, m w = (Ok a, w) /\ P a.

Section gives.
Context {W : Type}.

Lemma gives_ret {A} (a : A) (P : A -> Prop) : P a -> gives (W:=W) (ret a) P.
Proof. intros Ha w. by exists a. Qed.

Lemma gives_bind {A B} (m : io W A) (f : A -> io W B) P Q :
  gives m P -> (forall a, P a -> gives (f a) Q) -> gives (bind m f) Q.
Proof.
  intros Hm Hf w. destruct (Hm w) as (a & Ha & HP). destruct (Hf a HP w) as (b & Hb & HQ).
  exists b. unfold bind. by rewrite Ha.
Qed.

Lemma gives_mono {A} (m : io W A) (P Q : A -> Prop) : gives m P -> (forall a, P a -> Q a) -> gives m Q.
Proof. intros Hm HPQ w. destruct (Hm w) as (a & Ha & HP). exists a. auto. Qed.

Lemma gives_for_fold {A S} (I : S -> Prop) (body : A -> S -> io W S) l s :
  I s -> (forall a s, a ∈ l -> I s -> gives (body a s) I) -> gives (for_fold l s body) I.
Proof.
  revert s. induction l as [|a l IH]; intros s Hs Hb; [by apply gives_ret|]. cbn [for_fold].
  eapply gives_bind; [by apply Hb; [left|]|]. intros s' Hs'. apply IH; [done|]. intros x s'' Hx. apply Hb. by right.
Qed.

Lemma gives_map_io {A B} (f : A -> io W B) (P : B -> Prop) l :
  (forall a, a ∈ l -> gives (f a) P) -> gives (map_io f l) (Forall P).
Proof.
  induction l as [|a l IH]; intros Hf; [apply gives_ret; constructor|]. cbn [map_io].
  eapply gives_bind; [apply Hf; by left|]. intros b Hb.
  eapply gives_bind; [apply IH; intros x Hx; apply Hf; by right|]. intros bs Hbs. apply gives_ret. by constructor.
Qed.

Lemma gives_filter_io {A} (keep : A -> io W bool) (P : A -> Prop) l :
  (forall a, a ∈ l -> gives (keep a) (fun b => b = true -> P a)) -> gives (filter_io keep l) (Forall P).
Proof.
  intros Hk. unfold filter_io. apply gives_for_fold; [constructor|]. intros a acc Ha Hacc.
  eapply gives_bind; [by apply Hk|]. intros b Hb. apply gives_ret. destruct b; [|done].
  apply Forall_app. split; [done|]. constructor; [by apply Hb|constructor].
Qed.

Lemma gives_item {V} (d : list (string * V)) k v : Dict.get d k = Some v -> gives (W:=W) (item d k) (eq v).
Proof. intros Hg. unfold item. rewrite Hg. by apply gives_ret. Qed.
End gives.

(** ** A row, read back *)

Definition read_back (row : record) : csv_record :=
  fold_left (fun d kv => Dict.set d kv.1 kv.2) (zip_row FIELDS (map (fun k => csv_text (get_or_none row k)) FIELDS)) [].

Lemma reader_reads_back rows : dict_reader (results_text rows) = map read_back rows.
Proof. apply dict_reader_results. Qed.

Lemma field_of_texts (f : string -> string) k : k ∈ FIELDS ->
  Dict.get (fold_left (fun d kv => Dict.set d kv.1 kv.2) (zip_row FIELDS (map f FIELDS)) []) k = Some (Some (f k)).
Proof.
  intros Hk. unfold FIELDS in Hk at 1. repeat (apply elem_of_cons in Hk as [->|Hk]; [reflexivity|]).
  by apply elem_of_nil in Hk.
Qed.

Lemma get_read_back row k : k ∈ FIELDS -> Dict.get (read_back row) k = Some (Some (csv_text (get_or_none row k))).
Proof. apply (field_of_texts (fun k => csv_text (get_or_none row k))). Qed.

(** summarise.py's choices of a metric. *)
Definition METRICS : list string := ["ingest_s"; "propagation_s"; "fanout_s"].

(** The types a reader relies on. *)
Record typed (row : record) : Prop := {
  ty_system : exists s, Dict.get row "system" = Some (VStr s);
  ty_config : exists s, Dict.get row "config" = Some (VStr s);
  ty_nodes : exists n, Dict.get row "nodes" = Some (VInt n);
  ty_size : exists n, Dict.get row "size_bytes" = Some (VInt n);
  ty_metrics : forall k, k ∈ METRICS ->
    Dict.get row k = Some VNone \/ exists x, Dict.get row k = Some (VFloat x) /\ printable x = true;
}.

Lemma metrics_are_fields k : k ∈ METRICS -> k ∈ FIELDS.
Proof. unfold METRICS, FIELDS. set_solver. Qed.

Lemma int_of_printed z : int_of_string (Z_to_string z) = Some z.
Proof.
  assert (all_chars no_space (Z_to_string z) = true) as Hs by (apply number_chars; [done|]; apply digit_cases; reflexivity).
  unfold int_of_string. rewrite strip_id by done. destruct (Z.neg_nonneg_cases z) as [Hz|Hz].
  - destruct z as [|p|p]; try lia. change (Z_to_string (Zneg p)) with (String "-" (Z_to_string (Zpos p))).
    cbv iota. by rewrite parse_printed.
  - destruct (Z_to_string_digits z Hz) as [Hd Hne]. pose proof (parse_printed z Hz) as Hp.
    destruct (Z_to_string z) as [|c s]; [done|]. simpl in Hd. apply andb_true_iff in Hd as [Hc _].
    by destruct c as [[] [] [] [] [] [] [] []].
Qed.

Section reading.
Context {W : Type}.
Implicit Types (row : record) (group : list csv_record).

Lemma text_field_reads row k : k ∈ FIELDS -> gives (W:=W) (text_field (read_back row) k) (eq (csv_text (get_or_none row k))).
Proof.
  intros Hk. unfold text_field. eapply gives_bind; [by apply gives_item, get_read_back|]. intros v <-. by apply gives_ret.
Qed.

Lemma string_field_reads row k s : k ∈ FIELDS -> Dict.get row k = Some (VStr s) ->
  gives (W:=W) (text_field (read_back row) k) (eq s).
Proof. intros Hk Hs. pose proof (text_field_reads row k Hk) as Hr. unfold get_or_none in Hr. by rewrite Hs in Hr. Qed.

Lemma int_field_reads row k n : k ∈ FIELDS -> Dict.get row k = Some (VInt n) ->
  gives (W:=W) (int_field (read_back row) k) (eq n).
Proof.
  intros Hk Hn. unfold int_field. eapply gives_bind; [by apply text_field_reads|]. intros s <-.
  unfold get_or_none. rewrite Hn. cbn [csv_text str_of]. rewrite int_of_printed. by apply gives_ret.
Qed.

(** A metric is there, and is empty or a number. *)
Lemma metric_reads row k : typed row -> k ∈ METRICS ->
  gives (W:=W) (non_empty (read_back row) k) (fun b => b = true ->
    gives (W:=W) (let! s := text_field (read_back row) k in float_text s) (fun _ => True)).
Proof.
  intros Ht Hk. pose proof (metrics_are_fields k Hk) as Hf. unfold non_empty.
  eapply gives_bind; [by apply gives_item, get_read_back|]. intros v <-. apply gives_ret. intros Hne.
  eapply gives_bind; [by apply text_field_reads|]. intros s <-. unfold get_or_none in *.
  destruct (ty_metrics row Ht k Hk) as [Hv|(x & Hv & Hx)]; rewrite Hv in *; [done|].
  cbn [csv_text str_of] in *. destruct (float_repr_reads x Hx) as [[y Hy] _]. unfold float_text. rewrite Hy. by apply gives_ret.
Qed.

Definition group_ok group : Prop := Forall (fun r => exists row, typed row /\ r = read_back row) group.

Lemma cell_values_reads group k : group_ok group -> k ∈ METRICS ->
  gives (W:=W) (cell_values group k) (fun _ => True).
Proof.
  intros Hg Hk. unfold cell_values. eapply gives_bind.
  - apply (gives_filter_io _ (fun r => gives (W:=W) (let! s := text_field r k in float_text s) (fun _ => True))).
    intros r Hr. unfold group_ok in Hg. rewrite Forall_forall in Hg. destruct (Hg r Hr) as (row & Ht & ->). by apply metric_reads.
  - intros rows Hrows. rewrite Forall_forall in Hrows. eapply gives_mono; [apply (gives_map_io _ (fun _ => True))|done].
    intros r Hr. by apply Hrows.
Qed.

Lemma count_bad_reads group : group_ok group -> gives (W:=W) (count_bad group) (fun _ => True).
Proof.
  intros Hg. unfold count_bad. eapply gives_bind; [|intros; by apply gives_ret].
  apply (gives_filter_io _ (fun _ => True)). intros r Hr. unfold group_ok in Hg. rewrite Forall_forall in Hg.
  destruct (Hg r Hr) as (row & _ & ->). unfold not_converged.
  eapply gives_bind; [apply gives_item, get_read_back; unfold FIELDS; set_solver|]. intros v <-. by apply gives_ret.
Qed.

Lemma or_raise_gives {A} e (v : option A) : is_Some v -> gives (W:=W) (or_raise e v) (fun _ => True).
Proof. intros [a ->]. by apply gives_ret. Qed.

Lemma cell_line_reads k c group : group_ok group -> k ∈ METRICS -> gives (W:=W) (cell_line k c group) (fun _ => True).
Proof.
  intros Hg Hk. unfold cell_line. destruct c as [[[system config] nodes] size].
  eapply gives_bind; [by apply cell_values_reads|]. intros values _.
  eapply gives_bind; [by apply count_bad_reads|]. intros bad _. destruct values as [|x values]; [by apply gives_ret|].
  eapply gives_bind; [apply or_raise_gives; by apply median_Some|]. intros med _.
  eapply gives_bind; [apply or_raise_gives; by eexists|]. intros low _.
  eapply gives_bind; [apply or_raise_gives; by eexists|]. intros high _. by apply gives_ret.
Qed.
End reading.

Lemma forall_set {K V} `{EqDecision K} (P : V -> Prop) (d : list (K * V)) k v :
  Forall (fun e => P e.2) d -> P v -> Forall (fun e => P e.2) (Dict.set d k v).
Proof.
  intros Hd Hv. induction Hd as [|[k' v'] d Hk Hd IH]; cbn [Dict.set]; [by repeat constructor|].
  destruct (decide _); by constructor.
Qed.

Section summary.
Context {W : Type} `{Host W}.

(** The key summarise.py groups rows by. *)
Lemma key_reads row : typed row ->
  gives (W:=W) (let! system := text_field (read_back row) "system" in
    let! config := text_field (read_back row) "config" in
    let! nodes := int_field (read_back row) "nodes" in
    let! size := int_field (read_back row) "size_bytes" in
    ret (system, config, nodes, size)) (fun _ => True).
Proof.
  intros [[s Hs] [c Hc] [n Hn] [z Hz] _].
  eapply gives_bind; [apply (string_field_reads row "system" s); [unfold FIELDS; set_solver|done]|]. intros ? _.
  eapply gives_bind; [apply (string_field_reads row "config" c); [unfold FIELDS; set_solver|done]|]. intros ? _.
  eapply gives_bind; [apply (int_field_reads row "nodes" n); [unfold FIELDS; set_solver|done]|]. intros ? _.
  eapply gives_bind; [apply (int_field_reads row "size_bytes" z); [unfold FIELDS; set_solver|done]|]. intros ? _.
  by apply gives_ret.
Qed.

Lemma group_by_reads {K} `{EqDecision K} (key : csv_record -> io W K) rows :
  (forall r, r ∈ rows -> (exists row, typed row /\ r = read_back row) /\ gives (key r) (fun _ => True)) ->
  gives (group_by rows key) (Forall (fun e => group_ok e.2)).
Proof.
  intros Hr. unfold group_by. apply gives_for_fold; [constructor|]. intros r out Hin Hout.
  destruct (Hr r Hin) as [Hrow Hkey]. eapply gives_bind; [exact Hkey|]. intros k _. apply gives_ret.
  unfold Dict.setdefault_update. apply forall_set; [done|]. apply Forall_app. split; [|by constructor].
  destruct (Dict.get out k) as [g|] eqn:Eg; [|constructor]. apply Dict.get_Some in Eg.
  rewrite Forall_forall in Hout. by apply (Hout _ Eg).
Qed.

Lemma prints_on {A} (f : A -> io W string) (P : string -> Prop) l w :
  (forall s w, exists w', print s w = (Ok tt, w')) -> (forall a, a ∈ l -> gives (f a) P) ->
  exists w', for_each l (fun a => let! line := f a in print line) w = (Ok tt, w').
Proof.
  intros Hp. revert w. induction l as [|a l IH]; intros w Hf; [by exists w|]. cbn [for_each].
  destruct (Hf a ltac:(by left) w) as (line & Hl & _). destruct (Hp line w) as [w1 H1'].
  destruct (IH w1 ltac:(intros; apply Hf; by right)) as [w2 H2']. exists w2. unfold bind. by rewrite Hl, H1'.
Qed.

(** The rows experiments A and B append, and those of C. *)
Inductive recorded : record -> Prop :=
| recorded_cell arrivals hashes writer info load experiment system config nodes size count repeat t0 :
    recorded (update (measured info load (summary arrivals hashes writer))
      (cell_id experiment system config nodes size count repeat t0))
| recorded_plain size repeat t0 elapsed load :
    recorded (cell_id "C" "plainfile" "baseline" 0 size 1 repeat t0 ++
      [("ingest_s", VFloat (round_to 4 elapsed)); ("propagation_s", VFloat (round_to 4 elapsed));
       ("fanout_s", VFloat fzero); ("converged", VBool true); ("distinct_hashes", VInt 1);
       ("nofile", VNone); ("loadavg", VFloat (round_to 2 load)); ("arrivals", VStr "{}")]).

(** Its times are finite. *)
Definition finite_metrics (row : record) : Prop :=
  forall k x, k ∈ METRICS -> Dict.get row k = Some (VFloat x) -> printable x = true.

Lemma opt_float_cases v : opt_float v = VNone \/ exists x, opt_float v = VFloat x.
Proof. destruct v; [right; by eexists|by left]. Qed.

Lemma recorded_typed row : recorded row -> finite_metrics row -> typed row.
Proof.
  intros Hr Hf. destruct Hr as [arrivals hashes writer info load e s c n z k r t0|z r t0 elapsed load].
  - set (cell := cell_id e s c n z k r t0) in *. set (inner := measured info load (summary arrivals hashes writer)) in *.
    assert (Dict.wf cell) as Hw by (apply (bool_decide_unpack _); vm_compute; done).
    split; try (eexists; rewrite get_update by done; reflexivity).
    intros m Hm. assert (Dict.get (update inner cell) m = Dict.get (summary arrivals hashes writer) m) as Hg.
    { rewrite get_update by done. unfold inner, measured. rewrite get_update by (apply (bool_decide_unpack _); vm_compute; done).
      unfold METRICS in Hm. repeat (apply elem_of_cons in Hm as [->|Hm]; [reflexivity|]). by apply elem_of_nil in Hm. }
    rewrite Hg. assert (Dict.get (summary arrivals hashes writer) m = Some VNone \/
      exists x, Dict.get (summary arrivals hashes writer) m = Some (VFloat x)) as [Hn|[x Hx]].
    { unfold METRICS in Hm. apply elem_of_cons in Hm as [->|Hm]; [|apply elem_of_cons in Hm as [->|Hm]; [|apply list_elem_of_singleton in Hm as ->]].
      - cbn. destruct (opt_float_cases (option_map (round_to 4) match Dict.get arrivals writer with Some v => v | None => None end)) as [-> |[x ->]]; eauto.
      - cbn. destruct (opt_float_cases (option_map (round_to 4) (py_max flt (omap snd arrivals)))) as [-> |[x ->]]; eauto.
      - cbn. destruct (py_max _ _) as [l|]; [|by left]. destruct (Dict.get arrivals writer) as [[i|]|]; eauto. }
    + by left.
    + right. exists x. split; [done|]. apply (Hf m x Hm). by rewrite Hg.
  - split; try (eexists; reflexivity). intros m Hm. right.
    unfold METRICS in Hm. apply elem_of_cons in Hm as [->|Hm]; [|apply elem_of_cons in Hm as [->|Hm]; [|apply list_elem_of_singleton in Hm as ->]];
      (eexists; split; [reflexivity|]); try reflexivity; (apply (Hf "ingest_s"); [unfold METRICS; set_solver|reflexivity]).
Qed.
End summary.

Section property.
Context {W : Type} `{Host W}.

(** C30: whatever was measured, its summary is printed to the end.  On the file of any rows
    the experiments append, cells that never converged and names that need quoting
    included, no lookup and no conversion of summarise.py fails: every field it reads is
    there and has its type, every number run_matrix.py wrote is a text [float] or [int]
    takes, and it ends with success. *)
Theorem recorded_rows_are_summarised rows out metric w w1 :
  Forall (fun row => recorded row /\ finite_metrics row) rows -> metric ∈ METRICS ->
  read_text out w = (Ok (results_text rows), w1) ->
  (forall s w, exists w', print s w = (Ok tt, w')) ->
  exists w', Summarise.main [out] metric w = (Ok 0, w').
Proof.
  intros Hrows Hm Hread Hp.
  assert (forall r, r ∈ map read_back rows -> exists row, typed row /\ r = read_back row) as Hty.
  { intros r Hr. apply list_elem_of_fmap in Hr as (row & -> & Hin). rewrite Forall_forall in Hrows.
    destruct (Hrows row Hin) as [Hrec Hf]. exists row. split; [by apply recorded_typed|done]. }
  assert (load [out] w = (Ok (map read_back rows), w1)) as Hload.
  { unfold load, for_fold, bind. rewrite Hread. unfold ret. by rewrite reader_reads_back. }
  unfold Summarise.main. unfold bind at 1. rewrite Hload.
  match goal with |- exists w', bind (group_by ?rows ?key) ?k w1 = _ =>
    destruct (group_by_reads (W:=W) key rows) with w1 as (cells & Hg & Hok); [|unfold bind at 1; rewrite Hg; clear Hg] end.
  { intros r Hr. split; [by apply Hty|]. destruct (Hty r Hr) as (row & Ht & ->). by apply key_reads. }
  do 3 (match goal with |- exists w', bind (print ?s) ?k ?v = _ =>
    let x := fresh "v" in let e := fresh "Hv" in destruct (Hp s v) as [x e]; unfold bind at 1; rewrite e end).
  edestruct (prints_on (fun e => cell_line metric e.1 e.2) (fun _ => True)
    (sorted_by cell_compare (fun e => listing_order e.1) cells)) as [w' Hw']; [exact Hp| |].
  - intros e He. apply cell_line_reads; [|done]. rewrite Forall_forall in Hok. apply Hok.
    unfold sorted_by in He. by apply elem_of_py_sorted in He.
  - exists w'. unfold bind at 1. rewrite Hw'. done.
Qed.
End property.

(** A file of three rows: a cell that converged, one in which a node never held the file,
    and a plain write. *)
Definition some_rows : list record :=
  let row arrivals hashes r := update (measured [("nofile", VInt 4096)] (dec 15 2) (summary arrivals hashes "sfs1"))
    (cell_id "A" "syncfs" "default" 2 1024 1 r (dec 17 1)) in
  [row [("sfs1", Some (dec 1 1)); ("sfs2", Some (dec 25 2))] ["h"] 0;
   row [("sfs1", Some (dec 3 1)); ("sfs2", None)] ["h"] 1;
   cell_id "C" "plainfile" "baseline" 0 1024 1 0 (dec 17 1) ++
     [("ingest_s", VFloat (round_to 4 (dec 2 1))); ("propagation_s", VFloat (round_to 4 (dec 2 1)));
      ("fanout_s", VFloat fzero); ("converged", VBool true); ("distinct_hashes", VInt 1);
      ("nofile", VNone); ("loadavg", VFloat (round_to 2 (dec 1 1))); ("arrivals", VStr "{}")]].

Definition results_host : sim := snd (write_text "out.csv" (results_text some_rows) start).

Lemma finite_by_test row :
  forallb (fun k => match Dict.get row k with Some (VFloat x) => printable x | _ => true end) METRICS = true ->
  finite_metrics row.
Proof.
  intros Ht k x Hk Hg. rewrite forallb_forall in Ht. specialize (Ht k (proj1 (list_elem_of_In _ _) Hk)). by rewrite Hg in Ht.
Qed.

Lemma recorded_rows_are_summarised_witness :
  exists w', Summarise.main ["out.csv"] "fanout_s" results_host = (Ok 0, w').
Proof.
  apply (recorded_rows_are_summarised some_rows "out.csv" "fanout_s" results_host results_host).
  - repeat constructor; apply finite_by_test; vm_compute; reflexivity.
  - unfold METRICS. set_solver.
  - vm_compute. reflexivity.
  - intros s w. by eexists.
Defined.
